(* ===== verification/_CoqProject ===== *)
-Q . S2P
Prelude.v
Names.v
Crates.v
Types.v
Thresholds.v
PrefixMap.v
Cache.v
SectionPeers.v
SectionKeys.v
SectionState.v
Network.v
SplitBarrier.v
EndUsers.v
DkgFailure.v
DkgSession.v
DkgVoter.v
Messages.v
MessageFilter.v
Relocation.v
DeliveryGroup.v
CoreState.v
RoutingApi.v
Handling.v
NodeInvariant.v
Comm.v
Bootstrap.v
Dispatcher.v
NodeClaims.v
JoinProtocol.v
Startup.v
Float64.v
NetworkStats.v
Split.v
Pending.v
ChurnSchedule.v
ProbeTracker.v
StressTest.v
MinimalExample.v
