(* ===== verification/Prelude.v ===== *)
(** * Verification of sn_routing

    sn_routing is the routing layer of a peer-to-peer network.  Nodes have 256-bit names and
    form sections; a section owns the names that start with its prefix.  A few members, the
    elders, hold shares of a section key that is made by distributed key generation; sections
    sign with it, and the chain of the keys a section had proves its signatures to others.
    Members join, leave, are relocated, become elders; a section that has grown splits in two.
    This library models the node that does all this and proves what makes it correct.

    ** How the program is put together

    - A node's state is [Core] (src/routing/core/mod.rs).  Handlers change it and return
      commands; the dispatcher (src/routing/dispatcher.rs) handles every command in a task of
      its own, with further commands as a result.
    - The connection loop (src/routing/mod.rs) filters, checks and passes on what the transport
      (src/routing/comm.rs) delivers; the bootstrap tasks (src/routing/bootstrap) get a new or
      a relocated node into a section.
    - The state is made of the section (chain, authority, members: src/section), the knowledge
      of other sections (src/network), key shares (src/section/section_keys.rs), DKG sessions
      (src/dkg), the split barrier, the message filter, the end user registry and the state of
      a relocation.

    ** Files

    - [Prelude]: results, ordered maps as lists, sorting, shared lemmas and tactics.
    - [Names], [Crates]: the interfaces of xor_name, threshold_crypto, ed25519-dalek, bincode,
      secured_linked_list and sn_messaging, their documented behaviour, a concrete instance.
    - [Types]: peers, nodes, member states, authorities, signed values, errors (src/peer.rs,
      node.rs, error.rs, ed25519.rs, section/node_state.rs, section_authority_provider.rs,
      dkg/mod.rs, dkg/section_signed.rs).
    - [Thresholds]: src/lib.rs.  [PrefixMap]: src/network/prefix_map.rs.  [Cache]: src/cache.
    - [SectionPeers], [SectionKeys], [SectionState]: src/section.  [Network]: src/network/mod.rs.
    - [SplitBarrier], [EndUsers]: src/routing/split_barrier.rs, enduser_registry.rs.
    - [DkgFailure], [DkgSession], [DkgVoter]: src/dkg (dkg_msgs_utils.rs, session.rs, voter.rs).
    - [Messages]: src/messages and src/dkg/proposal.rs.  [MessageFilter]: src/message_filter.rs.
    - [Relocation]: src/relocation.rs.  [DeliveryGroup]: src/routing/core/delivery_group.rs.
    - [CoreState]: the state of a node, its commands and events, sending, anti-entropy
      (src/routing/core/mod.rs, api.rs, anti_entropy.rs, messaging/mod.rs, messaging/sending.rs,
      src/routing/command.rs, src/event.rs, src/dkg/commands.rs).
    - [RoutingApi]: the queries of the public interface (src/routing/mod.rs).
    - [Handling]: every message and agreement handler (src/routing/core/messaging/handling and
      src/routing/core/connectivity.rs).
    - [NodeInvariant]: a small program logic for the handlers; the invariant of a node.
    - [Comm]: src/routing/comm.rs.  [Bootstrap]: src/routing/bootstrap and the generation of key
      pairs in src/ed25519.rs.
    - [Dispatcher]: src/routing/dispatcher.rs, the connection loop of src/routing/mod.rs, and the
      node as a step relation.
    - [NodeClaims], [JoinProtocol]: theorems on the handlers, and on the two sides of joining.
    - [Startup]: [Routing::new] and dropping a [Routing] (src/routing/mod.rs), creating and closing
      the endpoint (src/routing/comm.rs), the event stream (src/routing/event_stream.rs).
    - [Float64], [NetworkStats]: binary64 arithmetic and when it is exact; the statistics of
      src/network/mod.rs and src/network/stats.rs.
    - [Split]: a section split from the agreements to the event, over the components it runs through.
    - [Pending]: what the handlers return, over all of them: agreements and relocations that wait.
    - [ChurnSchedule], [ProbeTracker], [StressTest]: the stress test (examples/stress.rs).
      [MinimalExample]: the example that runs nodes (examples/minimal.rs).

    Definitions keep the names of the source, with the component in front where Rust has it in
    the type ([pm_insert] is [PrefixMap::insert], [kp_finalise_dkg] is
    [SectionKeysProvider::finalise_dkg], [sap_...] is [SectionAuthorityProvider]).

    ** How code is modelled

    - [Result] is [result], [?] is [let?] or the bind of a monad.  Handlers that take
      [&mut self] are in the monad [M] of [CoreState], a state and error monad in which what
      was changed before an error stays changed; handlers that take [&self] are functions.
    - [BTreeMap] and [BTreeSet] are finite maps and sets; where the code iterates over them, it
      iterates over the entries sorted by key.  [HashMap] iteration is a parameter
      ([session_order]).  Machine integers that can overflow are integers with the bound
      written out ([supermajority_usize], [saturating_add_u8], the casts to [u8]).
    - Time and randomness are arguments: every reading of the clock, every key pair drawn while
      joining.  What a running node draws (the nonce of a challenge, the keys of a first section,
      the name that fills a destination: [random_nonce], [random_key_set], [random_name]) is one
      value each, of which nothing is assumed: a theorem on a handler holds for every value that
      may be drawn, but in a sequence of steps all draws are the same, so that nothing is said of
      their freshness, and no theorem needs two of them to be equal or to differ.
    - The caches lock once per phase of an operation; since every cache belongs to a state that is
      locked for a whole handler, [cache_set] is one step, with one clock reading per phase, also
      for the sort by age, for which the code reads the clock at every comparison.
    - Tasks are steps: [node_step] handles any one of the commands that were spawned, or an event
      of the transport, or a request of the user.  Locks are held for a whole handler, so a
      handler is one step.
    - While a node starts, the spawned tasks are interleaved with the messages it kept by an
      argument as well ([Surroundings]); nobody reads its events yet, so that an event that
      finds the channel full blocks the start.
    - The programs under examples hold nodes by handles: the states that the nodes are in when they
      are asked are arguments ([world], [ProbeCalls]).  The stress test as a whole is a step relation
      ([stress_step]) whose nodes send what a node of the library can send.
    - Floating-point numbers are those of the Standard Library's specification of binary64.
    - The result of each network operation is an argument ([Outcomes], [outcome] of [Comm]), and
      so is the order in which the sends in flight complete.
    - Code of other crates is a class of operations ([XorNames], [Crates], [MessagingOps],
      [KeyGenOps], [CoreEnv], [WireOps], [WireMsgOps], [BootstrapEnv], [TransportOps], [FloatEnv],
      [StressOps], [MinimalOps]);
      what is documented of it and relied upon is a class of laws ([XorLaws], [SignLaws],
      [BlsLaws], [ChainLaws], [ChainPositionLaws], [KeyGenProgress], [EventRxLaws], [FloatLaws], ...).  The [...Toy] and [...Witness] modules instantiate them.

    ** Fuel and termination

    - [DkgSession]: a session feeds the generator's answers back to it.  The recursion has fuel;
      with more fuel than [kg_measure], the number of answers the generator still has, it comes
      to an end ([dkg_session_outcome]), and more fuel changes nothing.
    - [Comm]: the send loop has fuel for one completion per recipient, which is always enough
      ([send_reaches_group]).
    - [PrefixMap]: the walks up from a prefix have fuel for its bits.
    - [Bootstrap]: the loops take one event per turn and are recursive in the events; that a run
      may wait for ever, as documented, is the outcome [Continue].

    ** What the theorems show

    - Data structures: the prefix map keeps the finest entries and its two lookups agree; the
      cache is bounded and forgets by age; the filter refines the history of what was seen.
    - Section: in every reachable state the authority names the last key as its signer and members
      are signed by the chain; the signature of the authority is valid unless the section was
      created with an invalid one that is still in place; members converge, up to the destination
      of competing relocations, whatever the order of updates; elders are the right ones, change
      safely and split correctly.
    - Quorums: the threshold does not overflow, quorums intersect in an honest member, failure
      agreement is the complement of success.
    - Key generation: sessions end, with at most one outcome; finished keys become usable.
    - Messages: what a node signs is accepted, accumulated shares are accepted exactly when they
      belong to the key, a delivery group reaches an honest elder and a send reaches its group.
    - Node: the invariant of the whole state holds in every reachable state, with the one way in
      which an authority can be in place that nobody checked; what was done stays done; only verified messages act; who is admitted; what is told to whom.
    - Split: whatever the order of the two agreements, the node ends in its half, knows the other
      one and reports it once ([split_completes]).
    - Pending work: every agreement that waits was aggregated from shares over its proposal; a
      relocation waits only while it is in progress, and its events alternate.
    - Joining: the tasks return only what was approved, the handshake goes through to the
      proposal of the node, and the agreement on it ends its join; the identity of a relocated
      node is admitted by its destination.
    - Starting: whatever [Routing::new] returns is a state of the step relation, so the invariant
      holds in it; the first node is the only elder of the one section.
    - Statistics: for disjoint prefixes that cover the name space the estimate is exact, by the
      Kraft equality and the exactness of sums of 53 bits.
    - Stress test: the figures that it reports add up in every run, by the alternation of the
      relocation events of a node; the schedule is carried out as documented; the weights for dropping
      nodes are exact.  Minimal example: contacts, ports and the genesis node of what is started.
    - Divergences: theorems that state what the code does where it is not what it means to do
      ([relocation_approval_lost], [current_key_blocks_relocation],
      [forged_message_shadows_genuine], [node_message_ends_loop], [section_source_key_unchecked],
      [failed_relocation_blocks], [bounced_share_refused], [mixed_failures_do_not_verify],
      [capacity_cache_evicts_smallest], [relocation_updates_do_not_commute],
      [end_user_name_stale_after_split], [crowded_backlog_blocks], [forged_backlog_aborts_start],
      [overlapping_sections_underestimate], [restart_never_required], [pruning_removes_nothing],
      [join_before_genesis], [demoted_by_split_stays_elder], [probe_errors], [bad_numbers_panic],
      [minimal_nodes_started], [forged_authority_admitted], [prefix_map_insert_spec]).

    ** Not modelled

    - The transport, the channels and the scheduler themselves (qp2p, tokio): parameters, or the
      choice of the next step.  The messages a relocating node passes to its bootstrap task are a
      list ([RsInProgress]); that the channel has one place, so that the handler waits while the
      task is busy, is not modelled.  The channel of events is, while a node starts.
    - [Debug] and [Display], logging, serde derivations, the parsing of command lines (structopt) and
      of decimal text to [f64], which is an argument.
    - Tests and test utilities: they check the library and are no part of it. *)

From stdpp Require Import base tactics list gmap sorting.
From Stdlib Require Import ZArith Lia.

(** ** Results: Rust's [Result<T, E>] *)

Inductive result (A E : Type) : Type :=
| Ok (a : A)
| Err (e : E).
Arguments Ok {A E} a.
Arguments Err {A E} e.

#[export] Instance result_eq_dec {A E : Type} `{EqDecision A, EqDecision E} :
  EqDecision (result A E).
Proof. solve_decision. Defined.

Definition is_ok {A E : Type} (r : result A E) : bool :=
  match r with Ok _ => true | Err _ => false end.

(** Rust's [?] operator with the error type unchanged. *)
Definition rbind {A B E : Type} (r : result A E) (k : A -> result B E) : result B E :=
  match r with Ok a => k a | Err e => Err e end.

(** [Result::ok]. *)
Definition ok {A E : Type} (r : result A E) : option A :=
  match r with Ok a => Some a | Err _ => None end.

(** Rust's [map_err] / [ok_or]. *)
Definition map_err {A E F : Type} (f : E -> F) (r : result A E) : result A F :=
  match r with Ok a => Ok a | Err e => Err (f e) end.
Definition ok_or {A E : Type} (o : option A) (e : E) : result A E :=
  match o with Some a => Ok a | None => Err e end.

Declare Scope rust_scope.
Delimit Scope rust_scope with rust.
Notation "'let?' x ':=' r 'in' k" := (rbind r (fun x => k))
  (at level 200, x name, r at level 100, k at level 200, right associativity) : rust_scope.
Notation "'let?' ' p ':=' r 'in' k" := (rbind r (fun p => k))
  (at level 200, p strict pattern, r at level 100, k at level 200, right associativity) : rust_scope.
#[global] Open Scope rust_scope.

(** [Iterator::collect::<Result<Vec<_>, _>>] over a mapped iterator: stops at the first error. *)
Fixpoint try_map {A B E : Type} (f : A -> result B E) (l : list A) : result (list B) E :=
  match l with
  | [] => Ok []
  | x :: l' => let? y := f x in let? ys := try_map f l' in Ok (y :: ys)
  end.

(** ** Orderings *)

(** [Ordering::then_with]. *)
Definition then_with (c : comparison) (d : comparison) : comparison :=
  match c with Eq => d | _ => c end.

(** Rust's [Ord] for a key type: a comparison function and its laws. *)
Class OrdKey (K : Type) := kcmp : K -> K -> comparison.

Class OrdKeyLaws (K : Type) `{!OrdKey K} : Prop := {
  kcmp_eq : forall x y : K, kcmp x y = Eq <-> x = y;
  kcmp_opp : forall x y : K, kcmp y x = CompOpp (kcmp x y);
  kcmp_trans : forall x y z : K, kcmp x y = Lt -> kcmp y z = Lt -> kcmp x z = Lt;
}.

#[export] Instance Z_OrdKey : OrdKey Z := Z.compare.
#[export] Instance Z_OrdKeyLaws : OrdKeyLaws Z.
Proof.
  split; unfold kcmp, Z_OrdKey.
  - apply Z.compare_eq_iff.
  - intros x y. apply Z.compare_antisym.
  - intros x y z. rewrite !Z.compare_lt_iff. lia.
Qed.

(** Pairs are ordered lexicographically. *)
#[export] Instance pair_ord {K L : Type} `{!OrdKey K, !OrdKey L} : OrdKey (K * L) :=
  fun x y => then_with (kcmp x.1 y.1) (kcmp x.2 y.2).

(** A comparison function that is a total preorder on the elements of a list. *)
Record cmp_preorder_on {A : Type} (P : A -> Prop) (cmp : A -> A -> comparison) : Prop := {
  cmp_total : forall x y, P x -> P y -> cmp x y = Gt -> cmp y x <> Gt;
  cmp_le_trans : forall x y z, P x -> P y -> P z ->
    cmp x y <> Gt -> cmp y z <> Gt -> cmp x z <> Gt;
}.
Arguments cmp_total {A P cmp} _ x y.
Arguments cmp_le_trans {A P cmp} _ x y z.

(** Lawful comparisons compose lexicographically. *)
Record cmp_lawful_on {A : Type} (P : A -> Prop) (cmp : A -> A -> comparison) : Prop := {
  cmp_opp : forall x y, P x -> P y -> cmp y x = CompOpp (cmp x y);
  cmp_trans : forall x y z, P x -> P y -> P z ->
    cmp x y <> Gt -> cmp y z <> Gt -> cmp x z <> Gt;
}.
Arguments cmp_opp {A P cmp} _ x y.
Arguments cmp_trans {A P cmp} _ x y z.

Lemma cmp_lawful_preorder {A : Type} (P : A -> Prop) (cmp : A -> A -> comparison) :
  cmp_lawful_on P cmp -> cmp_preorder_on P cmp.
Proof.
  intros [Ho Ht]. split; [|done]. intros x y Hx Hy E. by rewrite Ho, E.
Qed.

Lemma cmp_lawful_then {A : Type} (P : A -> Prop) (c d : A -> A -> comparison) :
  cmp_lawful_on P c -> cmp_lawful_on P d ->
  cmp_lawful_on P (fun x y => then_with (c x y) (d x y)).
Proof.
  intros [Oc Tc] [Od Td]. split.
  - intros x y Hx Hy. rewrite Oc, Od by done. by destruct (c x y).
  - intros x y z Hx Hy Hz.
    pose proof (Tc x y z Hx Hy Hz) as T1. pose proof (Td x y z Hx Hy Hz) as T2.
    pose proof (Tc z x y Hz Hx Hy) as T3. pose proof (Tc y z x Hy Hz Hx) as T4.
    rewrite (Oc x z) in * by done. rewrite (Oc y z) in * by done. rewrite (Oc x y) in * by done.
    destruct (c x y), (c y z), (c x z); simpl in *; try tauto; try congruence; intros; exfalso;
      first [by apply T1|by apply T3|by apply T4].
Qed.

Lemma cmp_lawful_key {A K : Type} `{!OrdKey K, !OrdKeyLaws K} (P : A -> Prop) (f : A -> K) :
  cmp_lawful_on P (fun x y => kcmp (f x) (f y)).
Proof.
  split; [intros; apply kcmp_opp|]. intros x y z _ _ _.
  destruct (kcmp (f x) (f y)) eqn:E1, (kcmp (f y) (f z)) eqn:E2; try done; intros _ _.
  - apply kcmp_eq in E1, E2. rewrite E1, E2. by rewrite (proj2 (kcmp_eq _ _) eq_refl).
  - apply kcmp_eq in E1. by rewrite E1, E2.
  - apply kcmp_eq in E2. by rewrite <- E2, E1.
  - by rewrite (kcmp_trans _ _ _ E1 E2).
Qed.

(** [rhs.cmp(lhs)]: a reversed comparison. *)
Lemma cmp_lawful_flip {A : Type} (P : A -> Prop) (c : A -> A -> comparison) :
  cmp_lawful_on P c -> cmp_lawful_on P (fun x y => c y x).
Proof. intros [Ho Ht]. split; [eauto|]. intros x y z Hx Hy Hz H1 H2. by eapply (Ht z y x). Qed.

#[export] Instance N_OrdKey : OrdKey N := N.compare.
#[export] Instance N_OrdKeyLaws : OrdKeyLaws N.
Proof.
  split; unfold kcmp, N_OrdKey.
  - apply N.compare_eq_iff.
  - intros x y. apply N.compare_antisym.
  - intros x y z. rewrite !N.compare_lt_iff. lia.
Qed.

#[export] Instance pair_OrdKeyLaws {K L : Type} `{!OrdKey K, !OrdKey L, !OrdKeyLaws K, !OrdKeyLaws L} :
  OrdKeyLaws (K * L).
Proof.
  split; unfold kcmp at 1, pair_ord.
  - intros [a b] [c d]; simpl. destruct (kcmp a c) eqn:E; simpl.
    + apply kcmp_eq in E as ->. rewrite kcmp_eq. split; congruence.
    + split; [done|]. intros [= -> ->]. by rewrite (proj2 (kcmp_eq _ _) eq_refl) in E.
    + split; [done|]. intros [= -> ->]. by rewrite (proj2 (kcmp_eq _ _) eq_refl) in E.
  - intros [a b] [c d]. unfold kcmp, pair_ord; simpl.
    fold (kcmp c a) (kcmp a c) (kcmp d b) (kcmp b d).
    rewrite (kcmp_opp a c), (kcmp_opp b d). by destruct (kcmp a c).
  - intros [a b] [c d] [e f]. unfold kcmp, pair_ord; simpl.
    fold (kcmp a c) (kcmp c e) (kcmp a e) (kcmp b d) (kcmp d f) (kcmp b f).
    destruct (kcmp a c) eqn:E1; try done; destruct (kcmp c e) eqn:E2; try done; simpl.
    + apply kcmp_eq in E1, E2. subst. rewrite (proj2 (kcmp_eq _ _) eq_refl). simpl. apply kcmp_trans.
    + apply kcmp_eq in E1. subst. by rewrite E2.
    + apply kcmp_eq in E2. subst. by rewrite E1.
    + by rewrite (kcmp_trans _ _ _ E1 E2).
Qed.

(** Byte strings, in lexicographic order. *)
Fixpoint list_cmp {K : Type} `{!OrdKey K} (l k : list K) : comparison :=
  match l, k with
  | [], [] => Eq
  | [], _ => Lt
  | _, [] => Gt
  | x :: l', y :: k' => then_with (kcmp x y) (list_cmp l' k')
  end.
#[export] Instance list_ord {K : Type} `{!OrdKey K} : OrdKey (list K) := list_cmp.
#[export] Instance list_OrdKeyLaws {K : Type} `{!OrdKey K, !OrdKeyLaws K} : OrdKeyLaws (list K).
Proof.
  split.
  - intros x; induction x as [|a x IH]; intros [|b y]; try done; unfold kcmp, list_ord; simpl.
    destruct (kcmp a b) eqn:E; simpl.
    + apply kcmp_eq in E as ->. specialize (IH y). unfold kcmp, list_ord in IH.
      rewrite IH. split; congruence.
    + split; [done|]. intros [= -> ->]. by rewrite (proj2 (kcmp_eq _ _) eq_refl) in E.
    + split; [done|]. intros [= -> ->]. by rewrite (proj2 (kcmp_eq _ _) eq_refl) in E.
  - intros x; induction x as [|a x IH]; intros [|b y]; try done; unfold kcmp, list_ord; simpl.
    rewrite (kcmp_opp a b). specialize (IH y). unfold kcmp, list_ord in IH. rewrite IH.
    by destruct (kcmp a b).
  - intros x; induction x as [|a x IH]; intros [|b y] [|c z]; try done; unfold kcmp, list_ord; simpl.
    specialize (IH y z). unfold kcmp, list_ord in IH.
    destruct (kcmp a b) eqn:E1; try done; destruct (kcmp b c) eqn:E2; try done; simpl.
    + apply kcmp_eq in E1, E2. subst. rewrite (proj2 (kcmp_eq _ _) eq_refl). simpl. apply IH.
    + apply kcmp_eq in E1. subst. by rewrite E2.
    + apply kcmp_eq in E2. subst. by rewrite E1.
    + by rewrite (kcmp_trans _ _ _ E1 E2).
Qed.

(** ** Sorting: [slice::sort_by] and [Itertools::sorted_by] are stable sorts *)

Section Sort.
Context {A : Type} (cmp : A -> A -> comparison).

Fixpoint insert_by (x : A) (l : list A) : list A :=
  match l with
  | [] => [x]
  | y :: l' => match cmp x y with Gt => y :: insert_by x l' | _ => x :: l end
  end.

Definition sort_by (l : list A) : list A := foldr insert_by [] l.

Lemma insert_by_perm x l : insert_by x l ≡ₚ x :: l.
Proof.
  induction l as [|y l IH]; simpl; [done|].
  destruct (cmp x y); try done. rewrite IH. constructor.
Qed.

Lemma sort_by_perm l : sort_by l ≡ₚ l.
Proof.
  induction l as [|x l IH]; simpl; [done|].
  by rewrite insert_by_perm, IH.
Qed.

Lemma elem_of_sort_by x l : x ∈ sort_by l <-> x ∈ l.
Proof. by rewrite sort_by_perm. Qed.

Lemma length_sort_by l : length (sort_by l) = length l.
Proof. by rewrite sort_by_perm. Qed.

Context (P : A -> Prop) (Hcmp : cmp_preorder_on P cmp).

Definition le_by (x y : A) : Prop := cmp x y <> Gt.

Lemma insert_by_sorted x l :
  P x -> Forall P l -> StronglySorted le_by l -> StronglySorted le_by (insert_by x l).
Proof.
  intros Hx. induction l as [|y l IH]; simpl; intros Hl Hs; [by repeat constructor|].
  inversion Hl as [|?? Hy Hl']; inversion Hs as [|?? Hs' Hfa]; simplify_eq.
  destruct (cmp x y) eqn:E.
  1,2: constructor; [done|]; constructor; [unfold le_by; congruence|];
    rewrite Forall_forall in Hfa |- *; intros z Hz;
    apply (cmp_le_trans Hcmp x y z); auto; [by eapply Forall_forall|congruence|by apply Hfa].
  constructor; [by apply IH|].
  apply Forall_forall; intros z Hz. rewrite insert_by_perm in Hz.
  apply elem_of_cons in Hz as [->|Hz].
  - by apply (cmp_total Hcmp).
  - by eapply (Forall_forall (le_by y) l).
Qed.

Lemma sort_by_sorted l : Forall P l -> StronglySorted le_by (sort_by l).
Proof.
  induction 1 as [|x l Hx Hl IH]; simpl; [constructor|].
  apply insert_by_sorted; auto.
  eapply Forall_impl; [|intros ? H; exact H].
  apply Forall_forall. intros y. rewrite elem_of_sort_by. by eapply Forall_forall.
Qed.
End Sort.

(** ** [Iterator::min_by] and [Iterator::max_by_key]

    [min_by] keeps the first of several minimal elements, [max_by_key] the last of several
    maximal ones. *)

Section Extrema.
Context {A : Type}.

Definition min_step (cmp : A -> A -> comparison) (a b : A) : A :=
  match cmp a b with Gt => b | _ => a end.
Definition min_by (cmp : A -> A -> comparison) (l : list A) : option A :=
  match l with [] => None | x :: l' => Some (foldl (min_step cmp) x l') end.

Definition max_step (key : A -> nat) (a b : A) : A :=
  if decide (key b < key a) then a else b.
Definition max_by_key (key : A -> nat) (l : list A) : option A :=
  match l with [] => None | x :: l' => Some (foldl (max_step key) x l') end.

Lemma foldl_choice_elem (f : A -> A -> A) (x : A) (l : list A) :
  (forall a b, f a b = a \/ f a b = b) -> foldl f x l ∈ x :: l.
Proof.
  intros Hf. revert x; induction l as [|y l IH]; intros x; simpl; [set_solver|].
  specialize (IH (f x y)). destruct (Hf x y) as [E|E]; rewrite E in *; set_solver.
Qed.

Lemma min_by_elem cmp l x : min_by cmp l = Some x -> x ∈ l.
Proof.
  destruct l as [|y l]; simpl; [done|]. intros [= <-].
  apply foldl_choice_elem. intros a b; unfold min_step; destruct (cmp a b); auto.
Qed.

Lemma min_by_None cmp l : min_by cmp l = None <-> l = [].
Proof. destruct l; simpl; split; congruence. Qed.

(** A property preserved by the choice between two elements as soon as one of them has it
    is a property of the minimum as soon as one element has it. *)
Lemma min_by_prefers (cmp : A -> A -> comparison) (Q : A -> Prop) l x :
  (forall a b, Q a -> ~ Q b -> cmp a b <> Gt) ->
  (forall a b, ~ Q a -> Q b -> cmp a b = Gt) ->
  (forall a, Decision (Q a)) ->
  (exists y, y ∈ l /\ Q y) -> min_by cmp l = Some x -> Q x.
Proof.
  intros Hab Hba Hdec. destruct l as [|y l]; simpl; [done|]. intros Hex [= <-].
  assert (Hgen : forall l z, Q z \/ (exists y, y ∈ l /\ Q y) -> Q (foldl (min_step cmp) z l)).
  { clear -Hab Hba Hdec. induction l as [|w l IH]; intros z Hz; simpl.
    - destruct Hz as [Hz|(? & Hin & _)]; [done|]. by apply not_elem_of_nil in Hin.
    - apply IH. unfold min_step.
      destruct (Hdec z) as [Qz|Qz], (Hdec w) as [Qw|Qw].
      + left. destruct (cmp z w); done.
      + left. specialize (Hab z w Qz Qw). destruct (cmp z w); done.
      + left. by rewrite (Hba z w Qz Qw).
      + destruct Hz as [Hz|(u & Hin & Qu)]; [done|]. right. exists u.
        apply elem_of_cons in Hin as [->|Hin]; done. }
  apply Hgen. destruct Hex as (u & Hin & Qu).
  apply elem_of_cons in Hin as [->|Hin]; eauto.
Qed.

Lemma max_by_key_elem key l x : max_by_key key l = Some x -> x ∈ l.
Proof.
  destruct l as [|y l]; simpl; [done|]. intros [= <-].
  apply foldl_choice_elem. intros a b; unfold max_step; case_decide; auto.
Qed.

Lemma max_by_key_max key l x y : max_by_key key l = Some x -> y ∈ l -> key y <= key x.
Proof.
  destruct l as [|z l]; simpl; [done|]. intros [= <-]. revert z y.
  assert (Hge : forall l z, key z <= key (foldl (max_step key) z l)).
  { clear. induction l as [|w l IH]; intros z; simpl; [done|].
    etrans; [|apply IH]. unfold max_step; case_decide; lia. }
  induction l as [|w l IH]; intros z y; simpl.
  - intros ->%list_elem_of_singleton. done.
  - intros [->|[->|Hin]%elem_of_cons]%elem_of_cons.
    + etrans; [|apply Hge]. unfold max_step; case_decide; lia.
    + etrans; [|apply Hge]. unfold max_step; case_decide; lia.
    + apply IH. set_solver.
Qed.

Lemma max_by_key_None key l : max_by_key key l = None <-> l = [].
Proof. destruct l; simpl; split; congruence. Qed.
End Extrema.

(** ** [BTreeMap]: a finite map iterated in key order *)

Section BTree.
Context {K : Type} `{Countable K, !OrdKey K} {V : Type}.

Definition entry_cmp (x y : K * V) : comparison := kcmp x.1 y.1.
Definition btree_entries (m : gmap K V) : list (K * V) := sort_by entry_cmp (map_to_list m).
Definition btree_keys (m : gmap K V) : list K := (btree_entries m).*1.
Definition btree_values (m : gmap K V) : list V := (btree_entries m).*2.

Lemma elem_of_btree_entries m k v : (k, v) ∈ btree_entries m <-> m !! k = Some v.
Proof. unfold btree_entries. by rewrite elem_of_sort_by, elem_of_map_to_list. Qed.

Lemma elem_of_btree_keys m k : k ∈ btree_keys m <-> is_Some (m !! k).
Proof.
  unfold btree_keys. rewrite list_elem_of_fmap. split.
  - intros ([k' v] & -> & Hin%elem_of_btree_entries). eauto.
  - intros [v Hv]. exists (k, v). by rewrite elem_of_btree_entries.
Qed.

Lemma elem_of_btree_values m v : v ∈ btree_values m <-> exists k, m !! k = Some v.
Proof.
  unfold btree_values. rewrite list_elem_of_fmap. split.
  - intros ([k v'] & -> & Hin%elem_of_btree_entries). eauto.
  - intros [k Hk]. exists (k, v). by rewrite elem_of_btree_entries.
Qed.

Lemma NoDup_btree_keys m : NoDup (btree_keys m).
Proof.
  unfold btree_keys, btree_entries. rewrite sort_by_perm. apply NoDup_fst_map_to_list.
Qed.

Lemma NoDup_btree_entries m : NoDup (btree_entries m).
Proof. unfold btree_entries. rewrite sort_by_perm. apply NoDup_map_to_list. Qed.

Lemma length_btree_entries m : length (btree_entries m) = size m.
Proof. unfold btree_entries. by rewrite sort_by_perm, length_map_to_list. Qed.

Lemma length_btree_keys m : length (btree_keys m) = size m.
Proof. unfold btree_keys. by rewrite length_fmap, length_btree_entries. Qed.

Lemma length_btree_values m : length (btree_values m) = size m.
Proof. unfold btree_values. by rewrite length_fmap, length_btree_entries. Qed.
End BTree.

Lemma entry_cmp_preorder {K V : Type} `{!OrdKey K, !OrdKeyLaws K} :
  cmp_preorder_on (fun _ => True) (entry_cmp (K:=K) (V:=V)).
Proof. apply cmp_lawful_preorder. apply (cmp_lawful_key _ fst). Qed.

(** ** Bounded machine integers *)

Definition U8_MAX : Z := 255.
Definition USIZE_MODULUS : Z := 2 ^ 64.
Definition usize_wrap (z : Z) : Z := z mod USIZE_MODULUS.

(** ** Tactics and hints of the library *)

Create HintDb routing.
#[export] Hint Resolve NoDup_btree_keys NoDup_btree_entries : routing.
#[export] Hint Rewrite @elem_of_btree_entries @elem_of_btree_keys @elem_of_btree_values
  @elem_of_sort_by @length_btree_keys @length_btree_entries @length_btree_values : routing.

(** Split every [match] and [if] of the goal or of a hypothesis, discarding the absurd cases. *)
Ltac split_cases :=
  repeat first
    [ case_decide | case_bool_decide | case_match ];
  simplify_eq/=.

Lemma NoDup_take {A : Type} (n : nat) (l : list A) : NoDup l -> NoDup (take n l).
Proof.
  rewrite <- (take_drop n l) at 1. by intros [? _]%NoDup_app.
Qed.
