(* ===== verification/Names.v ===== *)
(** * The name space: the interface of the [xor_name] crate

    [XorName] (a 256-bit name) and [Prefix] (a bit string selecting the names that start with
    it) come from the third-party crate [xor_name], so their operations are parameters of the
    development: the class [XorNames].  What the routing code relies on, the documented
    behaviour of these operations in terms of bit strings, is the class [XorLaws].  The module
    [BitNames] is a concrete instance of both, used to evaluate definitions. *)

From stdpp Require Import base tactics list gmap sorting.
From Stdlib Require Import ZArith Lia.
From S2P Require Import Prelude.

Definition XOR_NAME_LEN : nat := 32.
Definition NAME_BITS : nat := 256.

(** ** Operations *)

Class XorNames := {
  XorName : Type;
  Prefix : Type;
  XorName_eq_dec :: EqDecision XorName;
  XorName_countable :: Countable XorName;
  Prefix_eq_dec :: EqDecision Prefix;
  Prefix_countable :: Countable Prefix;
  (** [XorName.0], the big-endian bytes *)
  name_bytes : XorName -> list Z;
  (** the tuple constructor [XorName(bytes)] *)
  name_of_bytes : list Z -> XorName;
  (** [XorName::bit], counted from the most significant bit *)
  name_bit : XorName -> nat -> bool;
  (** derived [Ord] of [XorName] *)
  name_cmp : XorName -> XorName -> comparison;
  (** [target.cmp_distance(lhs, rhs)] on names *)
  name_cmp_distance : XorName -> XorName -> XorName -> comparison;
  (** [XorName::from_content] *)
  name_from_content : list (list Z) -> XorName;
  prefix_default : Prefix;
  (** [Prefix::new(bit_count, name)] *)
  prefix_new : nat -> XorName -> Prefix;
  prefix_name : Prefix -> XorName;
  bit_count : Prefix -> nat;
  prefix_is_empty : Prefix -> bool;
  (** [prefix.matches(name)] *)
  matches : Prefix -> XorName -> bool;
  (** [p.is_extension_of(q)] *)
  is_extension_of : Prefix -> Prefix -> bool;
  popped : Prefix -> Prefix;
  pushed : Prefix -> bool -> Prefix;
  sibling : Prefix -> Prefix;
  (** [p.is_covered_by(prefixes)] *)
  is_covered_by : Prefix -> list Prefix -> bool;
  (** [Ord] of [Prefix] *)
  prefix_cmp : Prefix -> Prefix -> comparison;
  (** [lhs.cmp_distance(rhs, target)] on prefixes *)
  prefix_cmp_distance : Prefix -> Prefix -> XorName -> comparison;
  (** [prefix.substituted_in(name)] *)
  substituted_in : Prefix -> XorName -> XorName;
}.

#[export] Instance name_ord `{XorNames} : OrdKey XorName := name_cmp.
#[export] Instance prefix_ord `{XorNames} : OrdKey Prefix := prefix_cmp.

(** The bit strings a name and a prefix stand for. *)
Definition nbits `{XorNames} (n : XorName) : list bool := name_bit n <$> seq 0 NAME_BITS.
Definition pbits `{XorNames} (p : Prefix) : list bool :=
  name_bit (prefix_name p) <$> seq 0 (bit_count p).

(** ** Documented behaviour *)

Class XorLaws `{XorNames} : Prop := {
  name_order :: OrdKeyLaws XorName;
  prefix_order :: OrdKeyLaws Prefix;
  name_bytes_length : forall n, length (name_bytes n) = XOR_NAME_LEN;
  name_bytes_range : forall n, Forall (fun b => 0 <= b <= U8_MAX)%Z (name_bytes n);
  name_of_bytes_bytes : forall n, name_of_bytes (name_bytes n) = n;
  pbits_inj : forall p q, pbits p = pbits q -> p = q;
  bit_count_le : forall p, bit_count p <= NAME_BITS;
  prefix_default_empty : bit_count prefix_default = 0;
  prefix_is_empty_spec : forall p, prefix_is_empty p = true <-> bit_count p = 0;
  prefix_new_bits : forall k n, pbits (prefix_new k n) = take (k `min` NAME_BITS) (nbits n);
  matches_spec : forall p n, matches p n = true <-> pbits p `prefix_of` nbits n;
  is_extension_of_spec : forall p q,
    is_extension_of p q = true <-> pbits q `prefix_of` pbits p /\ bit_count q < bit_count p;
  popped_bits : forall p, pbits (popped p) = take (bit_count p - 1) (pbits p);
  pushed_bits : forall p b, bit_count p < NAME_BITS -> pbits (pushed p b) = pbits p ++ [b];
  sibling_bits : forall p bs b, pbits p = bs ++ [b] -> pbits (sibling p) = bs ++ [negb b];
  is_covered_by_spec : forall p qs,
    is_covered_by p qs = true <->
    (forall n, matches p n = true -> exists q, q ∈ qs /\ matches q n = true);
  (** a prefix that matches the target is closer to it than one that does not *)
  cmp_distance_match_l : forall p q t,
    matches p t = true -> matches q t = false -> prefix_cmp_distance p q t <> Gt;
  cmp_distance_match_r : forall p q t,
    matches p t = false -> matches q t = true -> prefix_cmp_distance p q t = Gt;
  substituted_in_matches : forall p n, matches p (substituted_in p n) = true;
}.

(** ** Consequences used by the components *)

Section NameLemmas.
Context `{XN : XorNames, XL : !XorLaws}.
Implicit Types (p q : Prefix) (n : XorName).

Lemma length_nbits n : length (nbits n) = NAME_BITS.
Proof. unfold nbits. by rewrite length_fmap, length_seq. Qed.

Lemma length_pbits p : length (pbits p) = bit_count p.
Proof. unfold pbits. by rewrite length_fmap, length_seq. Qed.

Lemma pbits_name p : pbits p = take (bit_count p) (nbits (prefix_name p)).
Proof.
  pose proof (bit_count_le p). unfold pbits, nbits.
  rewrite <- fmap_take. f_equal. rewrite take_seq, Nat.min_l; [done|lia].
Qed.

Lemma matches_prefix_name p : matches p (prefix_name p) = true.
Proof.
  apply matches_spec. rewrite pbits_name. eexists. symmetry. apply take_drop.
Qed.

Lemma extension_irrefl p : is_extension_of p p = false.
Proof.
  apply not_true_is_false. intros [_ Hlt]%is_extension_of_spec. lia.
Qed.

Lemma extension_trans p q r :
  is_extension_of p q = true -> is_extension_of q r = true -> is_extension_of p r = true.
Proof.
  rewrite !is_extension_of_spec. intros [H1 L1] [H2 L2]. split; [by etrans|lia].
Qed.

Lemma extension_matches p q n :
  is_extension_of p q = true -> matches p n = true -> matches q n = true.
Proof. rewrite is_extension_of_spec, !matches_spec. intros [H1 _] H2. by etrans. Qed.

(** Two prefixes of one name are comparable. *)
Lemma matches_comparable p q n :
  matches p n = true -> matches q n = true ->
  p = q \/ is_extension_of p q = true \/ is_extension_of q p = true.
Proof.
  rewrite !matches_spec, !is_extension_of_spec. intros Hp Hq.
  destruct (prefix_weak_total _ _ _ Hp Hq) as [Hpq|Hpq].
  - pose proof (prefix_length _ _ Hpq) as Hle. rewrite !length_pbits in Hle.
    destruct (decide (bit_count p = bit_count q)) as [E|E].
    + left. apply pbits_inj. apply prefix_length_eq; [done|].
      by rewrite !length_pbits, E.
    + right; right. split; [done|lia].
  - pose proof (prefix_length _ _ Hpq) as Hle. rewrite !length_pbits in Hle.
    destruct (decide (bit_count p = bit_count q)) as [E|E].
    + left. symmetry. apply pbits_inj. apply prefix_length_eq; [done|].
      by rewrite !length_pbits, E.
    + right; left. split; [done|lia].
Qed.

Lemma bit_count_popped p : bit_count (popped p) = bit_count p - 1.
Proof.
  rewrite <- !length_pbits, popped_bits, length_take, length_pbits. lia.
Qed.

Lemma popped_extension p : bit_count p <> 0 -> is_extension_of p (popped p) = true.
Proof.
  intros Hne. apply is_extension_of_spec. rewrite bit_count_popped, popped_bits. split; [|lia].
  apply prefix_take.
Qed.

(** An ancestor of [p] is an ancestor of, or is, [popped p]. *)
Lemma extension_popped p q :
  is_extension_of p q = true -> q = popped p \/ is_extension_of (popped p) q = true.
Proof.
  rewrite !is_extension_of_spec, bit_count_popped. intros [Hpre Hlt].
  destruct (decide (bit_count q = bit_count p - 1)) as [E|E].
  - left. apply pbits_inj. rewrite popped_bits, <- E.
    destruct Hpre as [k ->]. by rewrite <- length_pbits, take_app_length.
  - right. split; [|lia]. rewrite popped_bits.
    destruct Hpre as [k Hk]. rewrite Hk. exists (take (bit_count p - 1 - bit_count q) k).
    rewrite take_app, length_pbits. f_equal. apply take_ge. rewrite length_pbits. lia.
Qed.

(** Induction along the ancestors of a prefix. *)
Lemma prefix_ind (P : Prefix -> Prop) :
  (forall p, (bit_count p <> 0 -> P (popped p)) -> P p) -> forall p, P p.
Proof.
  intros Hstep. assert (forall k p, bit_count p = k -> P p) as Hk; [|eauto].
  induction k as [|k IH]; intros p Hp; apply Hstep; intros Hne; [lia|].
  apply IH. rewrite bit_count_popped. lia.
Qed.

Lemma bit_count_pushed p b : bit_count p < NAME_BITS -> bit_count (pushed p b) = S (bit_count p).
Proof.
  intros Hlt. rewrite <- !length_pbits, pushed_bits, length_app, length_pbits; simpl; [lia|done].
Qed.

Lemma pushed_extension p b :
  bit_count p < NAME_BITS -> is_extension_of (pushed p b) p = true.
Proof.
  intros Hlt. apply is_extension_of_spec. rewrite bit_count_pushed by done. split; [|lia].
  rewrite pushed_bits by done. by eexists.
Qed.

Lemma sibling_pushed p b :
  bit_count p < NAME_BITS -> sibling (pushed p b) = pushed p (negb b).
Proof.
  intros Hlt. apply pbits_inj. rewrite (pushed_bits p (negb b)) by done.
  apply sibling_bits. by apply pushed_bits.
Qed.

Lemma nbits_lookup n i : i < NAME_BITS -> nbits n !! i = Some (name_bit n i).
Proof.
  intros Hi. unfold nbits. rewrite list_lookup_fmap, lookup_seq_lt by done. done.
Qed.

(** A name matches exactly the extension of a matching prefix chosen by its next bit. *)
Lemma matches_pushed p n b :
  bit_count p < NAME_BITS ->
  matches (pushed p b) n = true <-> matches p n = true /\ name_bit n (bit_count p) = b.
Proof.
  intros Hlt. rewrite !matches_spec, pushed_bits by done. split.
  - intros [k Hk]. split; [exists (b :: k); by rewrite Hk, <- app_assoc|].
    pose proof (nbits_lookup n (bit_count p) Hlt) as Hl.
    rewrite Hk, lookup_app_l in Hl by (rewrite length_app, length_pbits; simpl; lia).
    rewrite list_lookup_middle in Hl by (by rewrite length_pbits). congruence.
  - intros [[k Hk] Hb]. pose proof (nbits_lookup n (bit_count p) Hlt) as Hl.
    rewrite Hk, lookup_app_r, length_pbits, Nat.sub_diag in Hl by (rewrite length_pbits; lia).
    destruct k as [|b' k]; simpl in Hl; [done|]. exists k.
    rewrite Hk, <- app_assoc. simpl. congruence.
Qed.

Lemma matches_default n : matches prefix_default n = true.
Proof.
  apply matches_spec. assert (pbits prefix_default = []) as ->.
  { apply nil_length_inv. by rewrite length_pbits, prefix_default_empty. }
  apply prefix_nil.
Qed.
End NameLemmas.

(** ** A concrete name space: 256-bit numbers and bit strings *)

Module BitNames.

(** Big-endian value of a bit string. *)
Definition bits_val (l : list bool) : N :=
  foldl (fun acc (b : bool) => 2 * acc + (if b then 1 else 0))%N 0%N l.

Record xname := XName { xval : N; xval_lt : bool_decide (xval < 2 ^ 256)%N = true }.
Record xprefix := XPrefix { xbits : list bool; xbits_le : bool_decide (length xbits <= 256) = true }.

Lemma xname_eq (x y : xname) : xval x = xval y -> x = y.
Proof.
  destruct x as [x Hx], y as [y Hy]; simpl. intros ->. f_equal.
  apply (Eqdep_dec.UIP_dec Bool.bool_dec).
Qed.

Lemma xprefix_eq (p q : xprefix) : xbits p = xbits q -> p = q.
Proof.
  destruct p as [p Hp], q as [q Hq]; simpl. intros ->. f_equal.
  apply (Eqdep_dec.UIP_dec Bool.bool_dec).
Qed.

#[export] Instance xname_eq_dec : EqDecision xname.
Proof.
  intros x y. destruct (decide (xval x = xval y)) as [E|E].
  - left. by apply xname_eq.
  - right. congruence.
Defined.

#[export] Instance xprefix_eq_dec : EqDecision xprefix.
Proof.
  intros p q. destruct (decide (xbits p = xbits q)) as [E|E].
  - left. by apply xprefix_eq.
  - right. congruence.
Defined.

Definition mk_name (v : N) : option xname :=
  match bool_decide (v < 2 ^ 256)%N as b return (bool_decide (v < 2 ^ 256)%N = b -> option xname) with
  | true => fun H => Some (XName v H)
  | false => fun _ => None
  end eq_refl.

Definition mk_prefix (l : list bool) : option xprefix :=
  match bool_decide (length l <= 256) as b return (bool_decide (length l <= 256) = b -> option xprefix) with
  | true => fun H => Some (XPrefix l H)
  | false => fun _ => None
  end eq_refl.

Lemma mk_name_xval (x : xname) : mk_name (xval x) = Some x.
Proof.
  unfold mk_name. destruct x as [v Hv]; simpl.
  generalize (eq_refl (bool_decide (v < 2 ^ 256)%N)).
  assert (forall b (E : bool_decide (v < 2 ^ 256)%N = b), b = true ->
    (match b as b0 return (bool_decide (v < 2 ^ 256)%N = b0 -> option xname) with
     | true => fun H => Some (XName v H) | false => fun _ => None end E) = Some (XName v Hv)) as Hg.
  { intros [] E Hb; [|done]. f_equal. by apply xname_eq. }
  intros e. by apply Hg.
Qed.

Lemma mk_prefix_xbits (p : xprefix) : mk_prefix (xbits p) = Some p.
Proof.
  unfold mk_prefix. destruct p as [l Hl]; simpl.
  generalize (eq_refl (bool_decide (length l <= 256))).
  assert (forall b (E : bool_decide (length l <= 256) = b), b = true ->
    (match b as b0 return (bool_decide (length l <= 256) = b0 -> option xprefix) with
     | true => fun H => Some (XPrefix l H) | false => fun _ => None end E) = Some (XPrefix l Hl)) as Hg.
  { intros [] E Hb; [|done]. f_equal. by apply xprefix_eq. }
  intros e. by apply Hg.
Qed.

#[export] Instance xname_countable : Countable xname :=
  inj_countable xval mk_name mk_name_xval.
#[export] Instance xprefix_countable : Countable xprefix :=
  inj_countable xbits mk_prefix mk_prefix_xbits.

(** Total constructors. On closed terms they compute to a record with the proof [eq_refl]. *)
Definition zero_name : xname := XName 0%N eq_refl.
Definition root_prefix : xprefix := XPrefix [] eq_refl.
Definition to_name (v : N) : xname := default zero_name (mk_name (v mod 2 ^ 256)%N).
Definition to_prefix (l : list bool) : xprefix := default root_prefix (mk_prefix (take 256 l)).

Lemma mk_name_Some v : (v < 2 ^ 256)%N -> xval <$> mk_name v = Some v.
Proof.
  intros Hv. pose proof (bool_decide_eq_true_2 _ Hv) as E.
  pose proof (mk_name_xval (XName v E)) as H. simpl in H. by rewrite H.
Qed.

Lemma xval_to_name v : xval (to_name v) = (v mod 2 ^ 256)%N.
Proof.
  unfold to_name. pose proof (mk_name_Some (v mod 2 ^ 256)%N (N.mod_lt v (2 ^ 256) ltac:(done))) as H.
  destruct (mk_name _); cbn [fmap option_fmap option_map default] in *; [|done].
  injection H as <-. done.
Qed.

Lemma xbits_to_prefix l : xbits (to_prefix l) = take 256 l.
Proof.
  unfold to_prefix.
  assert (length (take 256 l) <= 256) as Hl by (rewrite length_take; lia).
  pose proof (bool_decide_eq_true_2 _ Hl) as E.
  pose proof (mk_prefix_xbits (XPrefix _ E)) as H. cbn [xbits] in H. by rewrite H.
Qed.

Definition bit_of (x : xname) (i : nat) : bool := N.testbit (xval x) (N.of_nat (255 - i)).
Definition bits_of (x : xname) : list bool := bit_of x <$> seq 0 256.
Definition pad (l : list bool) : list bool := take 256 (l ++ replicate 256 false).
Definition name_of_bits (l : list bool) : xname := to_name (bits_val (pad l)).

Lemma bits_val_snoc l b : bits_val (l ++ [b]) = (2 * bits_val l + (if b then 1 else 0))%N.
Proof. unfold bits_val. by rewrite foldl_app. Qed.

Lemma bits_val_lt l : (bits_val l < 2 ^ N.of_nat (length l))%N.
Proof.
  induction l as [|b l IH] using rev_ind; [done|].
  rewrite bits_val_snoc, length_app, Nat2N.inj_add, N.pow_add_r; simpl. destruct b; lia.
Qed.

Lemma bits_val_testbit l i b :
  l !! i = Some b -> N.testbit (bits_val l) (N.of_nat (length l - 1 - i)) = b.
Proof.
  revert i; induction l as [|c l IH] using rev_ind; intros i Hi; [done|].
  rewrite bits_val_snoc, length_app; simpl.
  apply lookup_app_Some in Hi as [Hi|[Hge Hi]].
  - pose proof (lookup_lt_Some _ _ _ Hi).
    replace (length l + 1 - 1 - i) with (S (length l - 1 - i)) by lia.
    rewrite Nat2N.inj_succ. specialize (IH _ Hi).
    destruct c; [by rewrite N.testbit_odd_succ by lia|].
    by rewrite N.add_0_r, N.testbit_even_succ by lia.
  - apply list_lookup_singleton_Some in Hi as [E ->].
    replace (length l + 1 - 1 - i) with 0 by lia.
    destruct b; [by rewrite N.testbit_odd_0|]. by rewrite N.add_0_r, N.testbit_even_0.
Qed.

Lemma length_pad l : length (pad l) = 256.
Proof. unfold pad. rewrite length_take, length_app, length_replicate. lia. Qed.

Lemma bits_of_name_of_bits l : bits_of (name_of_bits l) = pad l.
Proof.
  unfold bits_of. apply list_eq_same_length with 256; [by rewrite length_pad|by rewrite length_fmap, length_seq|].
  intros i x y Hi. rewrite list_lookup_fmap, lookup_seq_lt by done. simpl.
  intros [= <-] Hy. unfold bit_of, name_of_bits. rewrite xval_to_name, N.mod_small.
  - pose proof (bits_val_testbit _ _ _ Hy) as Ht. rewrite length_pad in Ht.
    by replace (255 - i) with (256 - 1 - i) by lia.
  - pose proof (bits_val_lt (pad l)) as Hlt. by rewrite length_pad in Hlt.
Qed.

Lemma take_pad l : length l <= 256 -> take (length l) (pad l) = l.
Proof.
  intros Hl. unfold pad. rewrite take_take, Nat.min_l by done. apply take_app_length.
Qed.

Definition byte_of (x : xname) (i : nat) : Z :=
  Z.of_N ((xval x / 2 ^ N.of_nat (8 * (31 - i))) mod 256).

Definition bytes_val (bs : list Z) : N := foldl (fun acc b => 256 * acc + Z.to_N b)%N 0%N bs.

Fixpoint common_prefix (l k : list bool) : nat :=
  match l, k with
  | x :: l', y :: k' => if eqb x y then S (common_prefix l' k') else 0
  | _, _ => 0
  end.

Fixpoint lex_cmp (l k : list bool) : comparison :=
  match l, k with
  | [], [] => Eq
  | [], _ => Lt
  | _, [] => Gt
  | x :: l', y :: k' =>
      match x, y with
      | false, true => Lt
      | true, false => Gt
      | _, _ => lex_cmp l' k'
      end
  end.

Definition prefix_ofb (l k : list bool) : bool := bool_decide (l `prefix_of` k).

Definition distance_cmp (p q : xprefix) (t : xname) : comparison :=
  if prefix_ofb (xbits p) (xbits q) || prefix_ofb (xbits q) (xbits p)
  then Nat.compare (length (xbits p)) (length (xbits q))
  else Nat.compare (common_prefix (pad (xbits q)) (bits_of t))
                   (common_prefix (pad (xbits p)) (bits_of t)).

(** Coverage by splitting, at most as deep as the longest covering prefix. *)
Fixpoint covered (fuel : nat) (l : list bool) (ls : list (list bool)) : bool :=
  existsb (fun k => prefix_ofb k l) ls ||
  match fuel with
  | 0 => false
  | S f => covered f (l ++ [false]) ls && covered f (l ++ [true]) ls
  end.

Definition max_len (ls : list (list bool)) : nat := foldr (fun l m => length l `max` m) 0 ls.

#[export] Instance names : XorNames := {|
  XorName := xname;
  Prefix := xprefix;
  name_bytes x := byte_of x <$> seq 0 32;
  name_of_bytes bs := to_name (bytes_val bs);
  name_bit := bit_of;
  name_cmp x y := N.compare (xval x) (xval y);
  name_cmp_distance t x y := N.compare (N.lxor (xval t) (xval x)) (N.lxor (xval t) (xval y));
  name_from_content ls := to_name (foldl (fun h b => h * 257 + Z.to_N b)%N 7%N (concat ls));
  prefix_default := root_prefix;
  prefix_new k n := to_prefix (take k (bits_of n));
  prefix_name p := name_of_bits (xbits p);
  bit_count p := length (xbits p);
  prefix_is_empty p := Nat.eqb (length (xbits p)) 0;
  matches p n := prefix_ofb (xbits p) (bits_of n);
  is_extension_of p q :=
    prefix_ofb (xbits q) (xbits p) && Nat.ltb (length (xbits q)) (length (xbits p));
  popped p := to_prefix (take (length (xbits p) - 1) (xbits p));
  pushed p b := to_prefix (xbits p ++ [b]);
  sibling p :=
    match last (xbits p) with
    | None => p
    | Some b => to_prefix (take (length (xbits p) - 1) (xbits p) ++ [negb b])
    end;
  is_covered_by p qs :=
    let ls := xbits <$> qs in covered (max_len ls - length (xbits p)) (xbits p) ls;
  prefix_cmp p q := lex_cmp (xbits p) (xbits q);
  prefix_cmp_distance := distance_cmp;
  substituted_in p n := name_of_bits (xbits p ++ drop (length (xbits p)) (bits_of n));
|}.

Lemma nbits_bits_of (n : xname) : nbits n = bits_of n.
Proof. reflexivity. Qed.

Lemma xbits_length (p : xprefix) : length (xbits p) <= 256.
Proof. exact (bool_decide_eq_true_1 _ (xbits_le p)). Qed.

Lemma pbits_xbits (p : xprefix) : pbits p = xbits p.
Proof.
  pose proof (xbits_length p) as Hle.
  transitivity (take (length (xbits p)) (bits_of (name_of_bits (xbits p)))).
  - unfold pbits, bits_of. rewrite <- fmap_take, take_seq, Nat.min_l by done. reflexivity.
  - by rewrite bits_of_name_of_bits, take_pad.
Qed.

Lemma prefix_ofb_spec l k : prefix_ofb l k = true <-> l `prefix_of` k.
Proof. apply bool_decide_eq_true. Qed.

Lemma lex_cmp_eq l k : lex_cmp l k = Eq <-> l = k.
Proof.
  revert k; induction l as [|[] l IH]; intros [|[] k]; simpl; try rewrite IH;
    split; congruence.
Qed.

Lemma lex_cmp_opp l k : lex_cmp k l = CompOpp (lex_cmp l k).
Proof. revert k; induction l as [|[] l IH]; intros [|[] k]; simpl; auto. Qed.

Lemma lex_cmp_trans l k m : lex_cmp l k = Lt -> lex_cmp k m = Lt -> lex_cmp l m = Lt.
Proof.
  revert k m; induction l as [|[] l IH]; intros [|[] k] [|[] m]; simpl; try done; apply IH.
Qed.

Lemma length_bits_of x : length (bits_of x) = 256.
Proof. unfold bits_of. by rewrite length_fmap, length_seq. Qed.

Lemma existsb_prefix ls l :
  existsb (fun k => prefix_ofb k l) ls = true <-> exists k, k ∈ ls /\ k `prefix_of` l.
Proof.
  rewrite existsb_exists. by setoid_rewrite prefix_ofb_spec; setoid_rewrite list_elem_of_In.
Qed.

Lemma covered_sound fuel l ls (x : xname) :
  covered fuel l ls = true -> fuel + length l <= 256 -> l `prefix_of` bits_of x ->
  exists k, k ∈ ls /\ k `prefix_of` bits_of x.
Proof.
  revert l; induction fuel as [|fuel IH]; intros l; simpl; rewrite orb_true_iff;
    intros [Hex|Hrec] Hlen Hpre.
  1,3: apply existsb_prefix in Hex as (k & Hin & Hk); exists k; split; [done|by etrans].
  - done.
  - apply andb_true_iff in Hrec as [H0 H1]. destruct Hpre as [[|b r] Hr].
    { pose proof (length_bits_of x) as HL. rewrite Hr, app_nil_r in HL. lia. }
    apply (IH (l ++ [b])); [by destruct b|rewrite length_app; simpl; lia|].
    exists r. by rewrite <- app_assoc.
Qed.

Lemma max_len_le ls k : k ∈ ls -> length k <= max_len ls.
Proof.
  induction ls as [|l ls IH]; simpl; [by intros ?%not_elem_of_nil|].
  intros [->|Hin]%elem_of_cons; [lia|]. specialize (IH Hin). lia.
Qed.

Lemma max_len_bound ls n : (forall k, k ∈ ls -> length k <= n) -> max_len ls <= n.
Proof.
  induction ls as [|l ls IH]; simpl; [lia|]. intros Hb.
  pose proof (Hb l ltac:(left)). pose proof (IH ltac:(intros; apply Hb; by right)). lia.
Qed.

Lemma prefix_of_shorter (k l z : list bool) :
  k `prefix_of` z -> l `prefix_of` z -> length k <= length l -> k `prefix_of` l.
Proof.
  intros Hk Hl Hle. destruct (prefix_weak_total _ _ _ Hk Hl) as [?|Hlk]; [done|].
  by rewrite (prefix_length_eq _ _ Hlk Hle).
Qed.

Lemma covered_complete fuel l ls :
  covered fuel l ls = false -> fuel + length l <= 256 -> max_len ls <= fuel + length l ->
  exists x : xname, l `prefix_of` bits_of x /\ forall k, k ∈ ls -> ~ k `prefix_of` bits_of x.
Proof.
  revert l; induction fuel as [|fuel IH]; intros l; simpl; rewrite orb_false_iff;
    intros [Hex Hrec] Hlen Hmax.
  - exists (name_of_bits l). rewrite bits_of_name_of_bits. unfold pad.
    assert (l `prefix_of` take 256 (l ++ replicate 256 false)) as Hl.
    { rewrite take_app. exists (take (256 - length l) (replicate 256 false)).
      by rewrite (take_ge l) by lia. }
    split; [done|]. intros k Hk Hpre.
    apply not_true_iff_false in Hex. apply Hex, existsb_prefix. exists k; split; [done|].
    eapply prefix_of_shorter; [done..|]. pose proof (max_len_le ls k Hk). simpl in *. lia.
  - apply andb_false_iff in Hrec as [Hr|Hr]; apply IH in Hr as (x & Hx & Hk);
      try (rewrite length_app; simpl; lia);
      exists x; split; auto; (etrans; [|exact Hx]); by eexists.
Qed.

Lemma common_prefix_spec l k m :
  m <= common_prefix l k <-> take m l = take m k /\ m <= length l /\ m <= length k.
Proof.
  revert k m; induction l as [|x l IH]; intros [|y k] m; simpl.
  1-3: split; [intros Hm; assert (m = 0) as -> by lia; simpl; auto with lia|lia].
  destruct (eqb_spec x y) as [->|Hne].
  - destruct m as [|m]; simpl; [split; auto with lia|].
    rewrite <- Nat.succ_le_mono, IH. split.
    + intros (-> & ? & ?). auto with lia.
    + intros ([= ->] & ? & ?). auto with lia.
  - destruct m as [|m]; simpl; split; try lia; auto with lia.
    intros ([= ? _] & _). congruence.
Qed.

Lemma distance_cmp_opp p q t : distance_cmp q p t = CompOpp (distance_cmp p q t).
Proof.
  unfold distance_cmp. rewrite orb_comm.
  destruct (prefix_ofb (xbits p) (xbits q) || prefix_ofb (xbits q) (xbits p));
    apply Nat.compare_antisym.
Qed.

Lemma distance_cmp_match p q t :
  xbits p `prefix_of` bits_of t -> ~ xbits q `prefix_of` bits_of t -> distance_cmp p q t = Lt.
Proof.
  intros Hp Hq. pose proof (xbits_length p) as Lp. pose proof (xbits_length q) as Lq.
  assert (~ xbits q `prefix_of` xbits p) as Hqp by (intros ?; apply Hq; by etrans).
  unfold distance_cmp. destruct (prefix_ofb (xbits p) (xbits q)) eqn:E1; simpl.
  - apply prefix_ofb_spec in E1. apply Nat.compare_lt_iff.
    pose proof (prefix_length _ _ E1).
    destruct (decide (length (xbits p) = length (xbits q))) as [E|]; [|lia].
    destruct Hqp. rewrite (prefix_length_eq _ _ E1) by lia. done.
  - destruct (prefix_ofb (xbits q) (xbits p)) eqn:E2; [by apply prefix_ofb_spec in E2|].
    apply Nat.compare_lt_iff.
    assert (length (xbits p) <= common_prefix (pad (xbits p)) (bits_of t)) as Hcp.
    { apply common_prefix_spec. rewrite take_pad, length_pad, length_bits_of by done.
      destruct Hp as [r ->]. by rewrite take_app_length. }
    enough (common_prefix (pad (xbits q)) (bits_of t) < length (xbits p)) by lia.
    apply Nat.nle_gt. intros (Ht & _ & _)%common_prefix_spec.
    destruct Hp as [r Hr]. rewrite Hr, take_app_length in Ht.
    destruct (decide (length (xbits p) <= length (xbits q))) as [Hle|Hgt].
    + apply not_true_iff_false in E1. apply E1, prefix_ofb_spec.
      rewrite <- Ht. unfold pad. rewrite take_take, take_app_le by lia. apply prefix_take.
    + apply Hqp. rewrite <- Ht. rewrite <- (take_pad (xbits q)) at 1 by done.
      exists (drop (length (xbits q)) (take (length (xbits p)) (pad (xbits q)))).
      rewrite <- (take_drop (length (xbits q)) (take (length (xbits p)) _)) at 1.
      by rewrite take_take, Nat.min_l by lia.
Qed.

Lemma byte_of_range x i : (0 <= byte_of x i <= U8_MAX)%Z.
Proof.
  unfold byte_of, U8_MAX. pose proof (N.mod_lt (xval x / 2 ^ N.of_nat (8 * (31 - i))) 256 ltac:(done)) as H.
  generalize dependent ((xval x / 2 ^ N.of_nat (8 * (31 - i))) mod 256)%N. intros v Hv. lia.
Qed.

Lemma bytes_val_first (x : xname) k :
  k <= 32 -> bytes_val (byte_of x <$> seq 0 k) = (xval x / 2 ^ N.of_nat (8 * (32 - k)))%N.
Proof.
  induction k as [|k IH]; intros Hk.
  - cbn [seq fmap list_fmap]. symmetry. apply N.div_small.
    exact (bool_decide_eq_true_1 _ (xval_lt x)).
  - rewrite seq_S, fmap_app. cbn [fmap list_fmap]. unfold bytes_val. rewrite foldl_app.
    fold (bytes_val (byte_of x <$> seq 0 k)). rewrite IH by lia. cbn [foldl].
    unfold byte_of. rewrite Nat.add_0_l, N2Z.id.
    replace (8 * (32 - k)) with (8 * (31 - k) + 8) by lia.
    replace (8 * (32 - S k)) with (8 * (31 - k)) by lia.
    rewrite Nat2N.inj_add, N.pow_add_r, <- N.Div0.div_div.
    change (2 ^ N.of_nat 8)%N with 256%N. symmetry. apply N.Div0.div_mod.
Qed.

Lemma to_name_bytes (x : xname) : to_name (bytes_val (byte_of x <$> seq 0 32)) = x.
Proof.
  apply xname_eq. rewrite xval_to_name, bytes_val_first by lia.
  rewrite Nat.sub_diag, Nat.mul_0_r. cbn [N.of_nat]. rewrite N.pow_0_r, N.div_1_r.
  apply N.mod_small. exact (bool_decide_eq_true_1 _ (xval_lt x)).
Qed.

Lemma to_prefix_small l : length l <= 256 -> xbits (to_prefix l) = l.
Proof. intros Hl. rewrite xbits_to_prefix. by apply take_ge. Qed.

#[export] Instance names_laws : XorLaws (H:=names).
Proof.
  split; repeat setoid_rewrite pbits_xbits; cbn -[take bits_of prefix_ofb seq fmap Nat.ltb Nat.eqb to_name byte_of bytes_val].
  - split; unfold kcmp, name_ord; cbn.
    + intros x y. rewrite N.compare_eq_iff. split; [apply xname_eq|by intros ->].
    + intros x y. apply N.compare_antisym.
    + intros x y z. rewrite !N.compare_lt_iff. lia.
  - split; unfold kcmp, prefix_ord; cbn.
    + intros x y. rewrite lex_cmp_eq. split; [apply xprefix_eq|by intros ->].
    + intros x y. apply lex_cmp_opp.
    + intros x y z. apply lex_cmp_trans.
  - intros n. by rewrite length_fmap, length_seq.
  - intros n. apply Forall_fmap, Forall_forall. intros i _.
    apply byte_of_range.
  - exact to_name_bytes.
  - apply xprefix_eq.
  - apply xbits_length.
  - done.
  - intros p. by rewrite Nat.eqb_eq.
  - intros k n. rewrite xbits_to_prefix, take_take. by rewrite Nat.min_comm.
  - intros p n. apply prefix_ofb_spec.
  - intros p q. by rewrite andb_true_iff, prefix_ofb_spec, Nat.ltb_lt.
  - intros p. apply to_prefix_small. rewrite length_take. pose proof (xbits_length p). lia.
  - intros p b Hlt. apply to_prefix_small. rewrite length_app; cbn. unfold NAME_BITS in Hlt. lia.
  - intros p bs b Hp. rewrite Hp, last_snoc. cbn -[take]. rewrite to_prefix_small.
    + rewrite length_app; cbn -[take]. f_equal.
      by rewrite Nat.add_sub, take_app_length.
    + pose proof (xbits_length p) as Hl. rewrite Hp in Hl.
      rewrite !length_app, length_take in *; cbn in *. rewrite length_app; cbn. lia.
  - intros p qs. setoid_rewrite prefix_ofb_spec. split.
    + intros Hc n Hn. destruct (covered_sound _ _ _ n Hc) as (k & Hk & Hpre); [|done|].
      * pose proof (xbits_length p). assert (max_len (xbits <$> qs) <= 256); [|lia].
        apply max_len_bound. intros k (q & -> & _)%list_elem_of_fmap. apply xbits_length.
      * apply list_elem_of_fmap in Hk as (q & -> & Hq). eauto.
    + intros Hall. apply not_false_iff_true. intros Hc.
      assert (max_len (xbits <$> qs) <= 256) as Hm.
      { apply max_len_bound. intros k (q & -> & _)%list_elem_of_fmap. apply xbits_length. }
      pose proof (xbits_length p).
      apply covered_complete in Hc as (x & Hx & Hk); [|lia..].
      destruct (Hall x Hx) as (q & Hq & Hpre). apply (Hk (xbits q)); [|done].
      apply list_elem_of_fmap. eauto.
  - intros p q t Hp Hq. rewrite (distance_cmp_match p q t); [done|by apply prefix_ofb_spec|].
    intros ?%prefix_ofb_spec. congruence.
  - intros p q t Hp Hq. rewrite distance_cmp_opp, (distance_cmp_match q p t); [done|by apply prefix_ofb_spec|].
    intros ?%prefix_ofb_spec. congruence.
  - intros p n. apply prefix_ofb_spec. rewrite bits_of_name_of_bits. unfold pad.
    pose proof (xbits_length p). rewrite <- app_assoc, take_app. eexists.
    rewrite (take_ge (xbits p)) by done. reflexivity.
Qed.

End BitNames.
