(* ===== verification/Crates.v ===== *)
(** * The third-party crates: interfaces, documented behaviour, a concrete instance

    [threshold_crypto] (BLS keys and signatures), [ed25519-dalek], [bincode], [tiny_keccak] and
    [secured_linked_list] are not part of the repository.  The class [Crates] lists the types
    and operations the routing code uses; [SignLaws] and [ChainLaws] state the documented
    behaviour that theorems rely on.  The module [ToyCrates] instantiates all of them, so that
    definitions evaluate and hypotheses are seen to be satisfiable. *)

From stdpp Require Import base tactics list gmap sorting.
From Stdlib Require Import ZArith Lia.
From S2P Require Import Prelude Names.

(** Byte strings: [Vec<u8>], [Bytes], [[u8; N]]. *)
Abbreviation Bytes := (list Z).

(** [std::net::SocketAddr]. *)
Inductive SocketAddr : Type :=
| SocketAddrV4 (ip port : N)
| SocketAddrV6 (ip port flowinfo scope_id : N).

#[export] Instance SocketAddr_eq_dec : EqDecision SocketAddr.
Proof. solve_decision. Defined.

Definition addr_code (a : SocketAddr) : N * N * option (N * N) :=
  match a with
  | SocketAddrV4 ip port => (ip, port, None)
  | SocketAddrV6 ip port flow scope => (ip, port, Some (flow, scope))
  end.
Definition addr_decode (c : N * N * option (N * N)) : SocketAddr :=
  match c with
  | (ip, port, None) => SocketAddrV4 ip port
  | (ip, port, Some (flow, scope)) => SocketAddrV6 ip port flow scope
  end.
#[export] Instance SocketAddr_countable : Countable SocketAddr.
Proof. apply (inj_countable' addr_code addr_decode). by intros []. Defined.

(** ** Operations of the crates *)

Class Crates `{XN : XorNames} := {
  (** threshold_crypto *)
  BlsPublicKey : Type;
  BlsPublicKey_eq_dec :: EqDecision BlsPublicKey;
  BlsPublicKey_countable :: Countable BlsPublicKey;
  BlsPublicKeySet : Type;
  BlsPublicKeySet_eq_dec :: EqDecision BlsPublicKeySet;
  BlsPublicKeyShare : Type;
  BlsPublicKeyShare_eq_dec :: EqDecision BlsPublicKeyShare;
  BlsSecretKeyShare : Type;
  BlsSignature : Type;
  BlsSignature_eq_dec :: EqDecision BlsSignature;
  BlsSignatureShare : Type;
  pks_public_key : BlsPublicKeySet -> BlsPublicKey;
  pks_public_key_share : BlsPublicKeySet -> nat -> BlsPublicKeyShare;
  sks_public_key_share : BlsSecretKeyShare -> BlsPublicKeyShare;
  sks_sign : BlsSecretKeyShare -> Bytes -> BlsSignatureShare;
  pks_combine_signatures : BlsPublicKeySet -> list (nat * BlsSignatureShare) -> option BlsSignature;
  bls_verify : BlsPublicKey -> BlsSignature -> Bytes -> bool;
  sig_cmp : BlsSignature -> BlsSignature -> comparison;
  sig_to_bytes : BlsSignature -> Bytes;
  (** ed25519-dalek *)
  Keypair : Type;
  EdPublicKey : Type;
  EdPublicKey_eq_dec :: EqDecision EdPublicKey;
  EdSignature : Type;
  EdSignature_eq_dec :: EqDecision EdSignature;
  keypair_public : Keypair -> EdPublicKey;
  (** [ExpandedSecretKey::from(&keypair.secret).sign(msg, &keypair.public)] *)
  ed_expanded_sign : Bytes -> Keypair -> EdSignature;
  ed_verify : EdPublicKey -> Bytes -> EdSignature -> bool;
  ed_to_bytes : EdPublicKey -> Bytes;
  ed_from_bytes : Bytes -> option EdPublicKey;
  (** sn_data_types: [XorName::from(PublicKey::from(key))] *)
  name_from_public_key : EdPublicKey -> XorName;
  (** tiny_keccak: the SHA3-256 digest of the updates in order *)
  sha3_256 : list Bytes -> Bytes;
  (** secured_linked_list *)
  SecuredLinkedList : Type;
  SllError : Type;
  SllError_eq_dec :: EqDecision SllError;
  sll_InvalidOperation : SllError;
  sll_new : BlsPublicKey -> SecuredLinkedList;
  sll_has_key : SecuredLinkedList -> BlsPublicKey -> bool;
  sll_keys : SecuredLinkedList -> list BlsPublicKey;
  sll_last_key : SecuredLinkedList -> BlsPublicKey;
  sll_root_key : SecuredLinkedList -> BlsPublicKey;
  sll_prev_key : SecuredLinkedList -> BlsPublicKey;
  sll_main_branch_len : SecuredLinkedList -> nat;
  sll_insert : SecuredLinkedList -> BlsPublicKey -> BlsPublicKey -> BlsSignature ->
    SecuredLinkedList * result unit SllError;
  sll_merge : SecuredLinkedList -> SecuredLinkedList -> SecuredLinkedList * result unit SllError;
  sll_extend : SecuredLinkedList -> BlsPublicKey -> SecuredLinkedList ->
    result SecuredLinkedList SllError;
  sll_check_trust : SecuredLinkedList -> list BlsPublicKey -> bool;
  sll_cmp_by_position : SecuredLinkedList -> BlsPublicKey -> BlsPublicKey -> comparison;
  sll_get_proof_chain_to_current : SecuredLinkedList -> BlsPublicKey ->
    result SecuredLinkedList SllError;
  sll_minimize : SecuredLinkedList -> list BlsPublicKey -> result SecuredLinkedList SllError;
  (** sn_messaging: [Signed::verify] and [SignedShare::verify] *)
  signed_verify_bytes : BlsPublicKey -> BlsSignature -> Bytes -> bool;
  signed_share_verify_bytes : BlsPublicKeySet -> nat -> BlsSignatureShare -> Bytes -> bool;
  (** sn_messaging: message identifiers *)
  MessageId : Type;
  MessageId_eq_dec :: EqDecision MessageId;
  MessageId_countable :: Countable MessageId;
  message_id_cmp : MessageId -> MessageId -> comparison;
  (** qp2p and sn_messaging error types *)
  Qp2pError : Type;
  qp2p_LocallyClosed : Qp2pError -> bool;
  MessagingError : Type;
  AggregatorError : Type;
  AggregatorError_eq_dec :: EqDecision AggregatorError;
  agg_NotEnoughShares : AggregatorError;
}.

#[export] Instance signature_ord `{CR : Crates} : OrdKey BlsSignature := sig_cmp.
#[export] Instance message_id_ord `{CR : Crates} : OrdKey MessageId := message_id_cmp.

(** [serde] + [bincode::serialize]: one instance per serialised type. *)
Class Serialize (T : Type) := serialize : T -> option Bytes.

(** ** Documented behaviour *)

(** Signing and verifying. *)
Class SignLaws `{CR : Crates} : Prop := {
  ed_sign_verify : forall kp msg,
    ed_verify (keypair_public kp) msg (ed_expanded_sign msg kp) = true;
  ed_bytes_roundtrip : forall pk, ed_from_bytes (ed_to_bytes pk) = Some pk;
  ed_name_agrees : forall pk, name_from_public_key pk = name_of_bytes (ed_to_bytes pk);
  ed_name_bytes : forall pk, name_bytes (name_of_bytes (ed_to_bytes pk)) = ed_to_bytes pk;
}.

(** Threshold signatures: a share made with the secret share of an index verifies at that index,
    and [Signed::verify] is [PublicKey::verify]. *)
Class BlsLaws `{CR : Crates} : Prop := {
  share_sign_verify : forall pks i sk msg,
    pks_public_key_share pks i = sks_public_key_share sk ->
    signed_share_verify_bytes pks i (sks_sign sk msg) msg = true;
  signed_verify_bls : forall k sig msg, signed_verify_bytes k sig msg = bls_verify k sig msg;
}.

(** Signatures are totally ordered. *)
Class SigOrder `{CR : Crates} : Prop := { sig_order :: OrdKeyLaws BlsSignature }.

(** Section chains: [insert] and [merge] either fail and leave the chain alone, or only add
    keys, and the tip is the old one or the tip that was added. *)
Class ChainLaws `{CR : Crates} : Prop := {
  sll_has_key_spec : forall c k, sll_has_key c k = true <-> k ∈ sll_keys c;
  sll_last_key_in : forall c, sll_last_key c ∈ sll_keys c;
  sll_root_key_in : forall c, sll_root_key c ∈ sll_keys c;
  sll_new_keys : forall k, sll_keys (sll_new k) = [k];
  sll_insert_err : forall c p k s c' e, sll_insert c p k s = (c', Err e) -> c' = c;
  sll_insert_keys : forall c p k s c',
    sll_insert c p k s = (c', Ok tt) -> forall x, x ∈ sll_keys c' <-> x ∈ sll_keys c \/ x = k;
  sll_insert_parent : forall c p k s c', sll_insert c p k s = (c', Ok tt) -> p ∈ sll_keys c;
  sll_insert_last : forall c p k s c',
    sll_insert c p k s = (c', Ok tt) -> sll_last_key c' = sll_last_key c \/ sll_last_key c' = k;
  sll_merge_err : forall c d c' e, sll_merge c d = (c', Err e) -> c' = c;
  sll_merge_keys : forall c d c', sll_merge c d = (c', Ok tt) ->
    forall x, x ∈ sll_keys c' <-> x ∈ sll_keys c \/ x ∈ sll_keys d;
  sll_merge_last : forall c d c', sll_merge c d = (c', Ok tt) ->
    sll_last_key c' = sll_last_key c \/ sll_last_key c' = sll_last_key d;
  sll_extend_last : forall c k full c',
    sll_extend c k full = Ok c' -> sll_last_key c' = sll_last_key c;
}.

(** Positions in a chain: keys compare by their position, with the last key of the chain above
    every other one, and a key that is not in the chain below one that is; the proof chain to
    the current key starts at the key it was asked for, which has to be in the chain, and ends at
    the last one. *)
Class ChainPositionLaws `{CR : Crates} : Prop := {
  cmp_by_position_refl : forall c k, sll_cmp_by_position c k k = Eq;
  cmp_by_position_last : forall c k,
    k ∈ sll_keys c -> k <> sll_last_key c -> sll_cmp_by_position c k (sll_last_key c) = Lt;
  cmp_by_position_unknown : forall c k k',
    k ∉ sll_keys c -> k' ∈ sll_keys c -> sll_cmp_by_position c k k' = Lt;
  proof_chain_ends : forall c k d, sll_get_proof_chain_to_current c k = Ok d ->
    k ∈ sll_keys c /\ sll_root_key d = k /\ sll_last_key d = sll_last_key c;
}.

(** So every key but the last one is below the last one. *)
Lemma cmp_by_position_outdated `{CR : Crates, CL : !ChainLaws, PL : !ChainPositionLaws} c k :
  sll_cmp_by_position c k (sll_last_key c) = Lt <-> k <> sll_last_key c.
Proof.
  split; [intros H ->; by rewrite cmp_by_position_refl in H|]. intros H.
  destruct (decide (k ∈ sll_keys c)); [by apply cmp_by_position_last|].
  apply cmp_by_position_unknown; [done|apply sll_last_key_in].
Qed.

Lemma sll_new_last `{CR : Crates, CL : !ChainLaws} k : sll_last_key (sll_new k) = k.
Proof.
  pose proof (sll_last_key_in (sll_new k)) as H. rewrite sll_new_keys in H.
  by apply list_elem_of_singleton in H.
Qed.

(** ** A concrete instance *)

Module ToyCrates.
Import BitNames.

(** A chain without forks: the root key and the later keys, oldest first. *)
Record chain := Chain { c_root : N; c_rest : list N }.
Definition c_keys (c : chain) : list N := c_root c :: c_rest c.
Definition c_last (c : chain) : N := List.last (c_rest c) (c_root c).

#[export] Instance chain_eq_dec : EqDecision chain.
Proof. solve_decision. Defined.

Definition c_insert (c : chain) (parent key : N) (s : N * Bytes) : chain * result unit bool :=
  if decide (parent ∈ c_keys c) then
    if decide (s = (parent, [Z.of_N key])) then
      if decide (key ∈ c_keys c) then (c, Ok tt)
      else if decide (parent = c_last c) then (Chain (c_root c) (c_rest c ++ [key]), Ok tt)
      else (c, Err true)
    else (c, Err false)
  else (c, Err true).

Definition c_merge (c d : chain) : chain * result unit bool :=
  if decide (c_keys c `prefix_of` c_keys d) then (d, Ok tt)
  else if decide (c_keys d `prefix_of` c_keys c) then (c, Ok tt)
  else (c, Err true).

Fixpoint index_of (k : N) (l : list N) : option nat :=
  match l with
  | [] => None
  | x :: l' => if decide (x = k) then Some 0 else S <$> index_of k l'
  end.

(** by the distance from the end *)
Definition c_cmp (c : chain) (k k' : N) : comparison :=
  match index_of k (rev (c_keys c)), index_of k' (rev (c_keys c)) with
  | Some i, Some j => Nat.compare j i
  | Some _, None => Gt
  | None, Some _ => Lt
  | None, None => Eq
  end.

Definition c_from (c : chain) (k : N) : result chain bool :=
  match index_of k (c_keys c) with
  | None => Err true
  | Some i => match drop i (c_keys c) with [] => Err true | r :: l => Ok (Chain r l) end
  end.

#[export] Instance crates : Crates (XN := names) := {|
  BlsPublicKey := N;
  BlsPublicKeySet := N;
  BlsPublicKeyShare := N * nat;
  BlsSecretKeyShare := N * nat;
  BlsSignature := N * Bytes;
  BlsSignatureShare := N * nat * Bytes;
  pks_public_key k := k;
  pks_public_key_share k i := (k, i);
  sks_public_key_share s := s;
  sks_sign s msg := (s, msg);
  pks_combine_signatures k shares :=
    match shares with
    | [] => None
    | (_, (_, msg)) :: _ =>
        if decide (Forall (fun '(i, s) => s = (k, i, msg)) shares) then Some (k, msg) else None
    end;
  bls_verify k s msg := bool_decide (s = (k, msg));
  sig_cmp s t := kcmp (K := N * Bytes) s t;
  sig_to_bytes s := s.2;
  Keypair := xname;
  EdPublicKey := xname;
  EdSignature := xname * Bytes;
  keypair_public k := k;
  ed_expanded_sign msg k := (k, msg);
  ed_verify k msg s := bool_decide (s = (k, msg));
  ed_to_bytes k := byte_of k <$> seq 0 32;
  ed_from_bytes bs := Some (to_name (bytes_val bs));
  name_from_public_key k := k;
  sha3_256 ls := concat ls;
  SecuredLinkedList := chain;
  SllError := bool;
  sll_InvalidOperation := true;
  sll_new k := Chain k [];
  sll_has_key c k := bool_decide (k ∈ c_keys c);
  sll_keys := c_keys;
  sll_last_key := c_last;
  sll_root_key := c_root;
  sll_prev_key c := List.last (c_root c :: removelast (c_rest c)) (c_root c);
  sll_main_branch_len c := length (c_keys c);
  sll_insert := c_insert;
  sll_merge := c_merge;
  sll_extend c k full := if decide (k ∈ c_keys c) then Ok c else Err true;
  sll_check_trust c ks := existsb (fun k => bool_decide (k ∈ ks)) (c_keys c);
  sll_cmp_by_position := c_cmp;
  sll_get_proof_chain_to_current := c_from;
  sll_minimize c ks :=
    if decide (Forall (fun k => k ∈ c_keys c) ks) then Ok c else Err true;
  signed_verify_bytes k s msg := bool_decide (s = (k, msg));
  signed_share_verify_bytes k i s msg := bool_decide (s = (k, i, msg));
  MessageId := N;
  message_id_cmp := N.compare;
  Qp2pError := bool;
  qp2p_LocallyClosed e := e;
  MessagingError := unit;
  AggregatorError := bool;
  agg_NotEnoughShares := true;
|}.

#[export] Instance sign_laws : SignLaws (CR := crates).
Proof.
  split; cbn -[to_name byte_of bytes_val seq fmap].
  - intros kp msg. by apply bool_decide_eq_true.
  - intros pk. by rewrite to_name_bytes.
  - intros pk. by rewrite to_name_bytes.
  - intros pk. by rewrite to_name_bytes.
Qed.

#[export] Instance bls_laws : BlsLaws (CR := crates).
Proof.
  split; cbn.
  - intros pks i [k j] msg [= <- <-]. by apply bool_decide_eq_true.
  - done.
Qed.

#[export] Instance sig_order_toy : SigOrder (CR := crates).
Proof. split. exact (pair_OrdKeyLaws (K := N) (L := Bytes)). Qed.

Lemma c_last_in c : c_last c ∈ c_keys c.
Proof.
  destruct c as [r l]. unfold c_last, c_keys; cbn [c_root c_rest].
  destruct l as [|k l _] using rev_ind; [left|].
  rewrite List.last_last. set_solver.
Qed.

#[export] Instance chain_laws : ChainLaws (CR := crates).
Proof.
  split; cbn.
  - intros c k. apply bool_decide_eq_true.
  - apply c_last_in.
  - intros c. left.
  - done.
  - unfold c_insert. intros. repeat case_decide; by simplify_eq.
  - unfold c_insert. intros c p k s c' Hi x. repeat case_decide; simplify_eq.
    + split; [tauto|]. by intros [?| ->].
    + unfold c_keys; simpl. rewrite app_comm_cons, elem_of_app, list_elem_of_singleton. done.
  - unfold c_insert. intros. repeat case_decide; by simplify_eq.
  - unfold c_insert. intros. repeat case_decide; simplify_eq; auto.
    right. unfold c_last; simpl. apply List.last_last.
  - unfold c_merge. intros. repeat case_decide; by simplify_eq.
  - unfold c_merge. intros c d c' Hm x. repeat case_decide; simplify_eq.
    + split; [tauto|]. intros [Hx|Hx]; [|done]. by eapply elem_of_prefix.
    + split; [tauto|]. intros [Hx|Hx]; [done|]. by eapply elem_of_prefix.
  - unfold c_merge. intros. repeat case_decide; simplify_eq; auto.
  - intros. case_decide; by simplify_eq.
Qed.

Lemma index_of_Some k l : k ∈ l -> exists i, index_of k l = Some i /\ l !! i = Some k.
Proof.
  induction l as [|x l IH]; [by intros ?%not_elem_of_nil|]. simpl. case_decide as E; [subst; by exists 0|].
  intros [->|H]%elem_of_cons; [done|]. destruct (IH H) as (i & -> & Hi). by exists (S i).
Qed.

Lemma index_of_None k l : k ∉ l -> index_of k l = None.
Proof.
  induction l as [|x l IH]; [done|]. simpl. rewrite not_elem_of_cons. intros [H1 H2].
  rewrite decide_False by done. by rewrite IH.
Qed.

Lemma rev_keys c : exists l, rev (c_keys c) = c_last c :: l.
Proof.
  destruct c as [r l]. unfold c_keys, c_last; cbn [c_root c_rest].
  destruct l as [|k l _] using rev_ind; [by exists []|]. rewrite List.last_last, app_comm_cons, rev_app_distr.
  by eexists.
Qed.

Lemma last_drop_keys (i : nat) (r : N) (l : list N) (r' : N) (l' : list N) :
  drop i (r :: l) = r' :: l' -> List.last l' r' = List.last l r.
Proof.
  revert r l; induction i as [|i IH]; intros r l; simpl; [by intros [= <- <-]|].
  destruct l as [|x l]; [by rewrite drop_nil|]. intros ->%IH.
  destruct l as [|y l _] using rev_ind; [done|]. by rewrite app_comm_cons, !List.last_last.
Qed.

#[export] Instance chain_position_laws : ChainPositionLaws (CR := crates).
Proof.
  split; cbn; unfold c_cmp.
  - intros c k. destruct (index_of k _); [apply Nat.compare_refl|done].
  - intros c k Hk Hne. destruct (rev_keys c) as [l El]. rewrite El. simpl. rewrite (decide_True (P := c_last c = c_last c)) by done.
    rewrite decide_False by done.
    assert (k ∈ l) as (i & -> & _)%index_of_Some; [|done].
    rewrite list_elem_of_In, in_rev, <- list_elem_of_In, El in Hk. by apply elem_of_cons in Hk as [->|?].
  - intros c k k' H H'. rewrite index_of_None; [|by rewrite list_elem_of_In, <- in_rev, <- list_elem_of_In].
    destruct (index_of_Some k' (rev (c_keys c))) as (i & -> & _); [|done].
    by rewrite list_elem_of_In, <- in_rev, <- list_elem_of_In.
  - intros [r l] k d. unfold c_from, c_keys; cbn [c_root c_rest].
    destruct (decide (k ∈ r :: l)) as [Hk|Hk]; [|by rewrite index_of_None].
    destruct (index_of_Some _ _ Hk) as (i & -> & Hi). destruct (drop i (r :: l)) as [|r' l'] eqn:Ed; [done|].
    intros [= <-]. split; [done|]. cbn. split.
    + pose proof (lookup_drop (r :: l) i 0) as H. rewrite Ed, Nat.add_0_r, Hi in H. by injection H.
    + unfold c_last; cbn. by eapply last_drop_keys.
Qed.

End ToyCrates.
