(* ===== verification/Types.v ===== *)
(** * Shared data: peers, nodes, membership, authorities, signed values, errors

    Models [src/peer.rs], [src/node.rs], [src/section/node_state.rs],
    [src/section/section_authority_provider.rs], [src/dkg/mod.rs],
    [src/dkg/section_signed.rs], [src/ed25519.rs] and [src/error.rs], together with the
    plain data of [sn_messaging] that these files build by struct literals. *)

From stdpp Require Import base tactics list gmap sorting.
From Stdlib Require Import ZArith Lia.
From S2P Require Import Prelude Names Crates.

(** ** Age constants (src/section/node_state.rs), bytes *)

Definition MIN_AGE : Z := 4.
Definition MIN_ADULT_AGE : Z := MIN_AGE + 1.
Definition FIRST_SECTION_MIN_AGE : Z := MIN_ADULT_AGE + 1.
Definition FIRST_SECTION_MAX_AGE : Z := 100.

Section Types.
Context `{CR : Crates}.

(** ** Peers (src/peer.rs) *)

Record Peer : Type := mkPeer {
  peer_name : XorName;
  peer_addr : SocketAddr;
  peer_reachable : bool;
}.

#[global] Instance Peer_eq_dec : EqDecision Peer.
Proof. solve_decision. Defined.

Definition peer_new (name : XorName) (addr : SocketAddr) : Peer :=
  mkPeer name addr false.
Definition peer_set_reachable (p : Peer) (reachable : bool) : Peer :=
  mkPeer (peer_name p) (peer_addr p) reachable.
(** the byte of the name at [XOR_NAME_LEN - 1] *)
Definition name_age (n : XorName) : Z := nth (XOR_NAME_LEN - 1) (name_bytes n) 0%Z.
Definition peer_age (p : Peer) : Z := name_age (peer_name p).
Definition peer_is_reachable (p : Peer) : bool := peer_reachable p.

(** ** Our node (src/node.rs, src/ed25519.rs) *)

Record Node : Type := mkNode { node_keypair : Keypair; node_addr : SocketAddr }.

Definition node_name (n : Node) : XorName := name_from_public_key (keypair_public (node_keypair n)).
Definition node_peer (n : Node) : Peer := peer_new (node_name n) (node_addr n).
Definition node_age (n : Node) : Z := name_age (node_name n).

Definition ed25519_sign (msg : Bytes) (keypair : Keypair) : EdSignature :=
  ed_expanded_sign msg keypair.
Definition ed25519_pub_key (name : XorName) : option EdPublicKey :=
  ed_from_bytes (name_bytes name).
Definition ed25519_name (public_key : EdPublicKey) : XorName :=
  name_of_bytes (ed_to_bytes public_key).

(** ** Membership (src/section/node_state.rs) *)

Inductive MembershipState : Type :=
| Joined
| Left
| Relocated (destination : XorName).

#[global] Instance MembershipState_eq_dec : EqDecision MembershipState.
Proof. solve_decision. Defined.

Record NodeState : Type := mkNodeState {
  ns_peer : Peer;
  ns_state : MembershipState;
}.

#[global] Instance NodeState_eq_dec : EqDecision NodeState.
Proof. solve_decision. Defined.

(** ** Errors (src/error.rs, src/messages/mod.rs, src/dkg/proposal.rs) *)

Inductive ProposalError : Type :=
| ProposalAggregation (e : AggregatorError)
| ProposalInvalid.

Inductive CreateError : Type :=
| CreateFailedSignature
| CreatePublicKeyMismatch.

Inductive ExtendSignedChainError : Type :=
| NoSignedChain
| Extend (e : SllError)
| Create (e : CreateError).

Inductive Error : Type :=
| FailedSignature
| CannotRoute
| EmptyRecipientList
| InvalidConfig (err : Qp2pError)
| CannotConnectEndpoint (err : Qp2pError)
| AddressNotReachable (err : Qp2pError)
| InvalidState
| InvalidSrcLocation
| InvalidDstLocation
| InvalidMessage
| InvalidSignatureShare
| MissingSecretKeyShare
| FailedSend (addr : SocketAddr) (name : XorName)
| ConnectionClosed
| InvalidSectionChain (e : SllError)
| Messaging (e : MessagingError)
| ErrProposal (e : ProposalError)
| ErrCreate (e : CreateError)
| ErrExtendSigned (e : ExtendSignedChainError)
| InvalidPayload
| TryJoinLater
| NoMatchingSection
| NoMatchingElder
| NodeNotReachable (addr : SocketAddr).

Definition node_state_joined (peer : Peer) : NodeState := mkNodeState peer Joined.
Definition node_state_is_mature (s : NodeState) : bool := (MIN_AGE <? peer_age (ns_peer s))%Z.
Definition node_state_leave (s : NodeState) : result NodeState Error :=
  match ns_state s with
  | Relocated _ => Err InvalidState
  | _ => Ok (mkNodeState (ns_peer s) Left)
  end.
Definition node_state_relocate (s : NodeState) (destination : XorName) : NodeState :=
  mkNodeState (ns_peer s) (Relocated destination).

(** ** Signatures over values (src/dkg/mod.rs, src/dkg/section_signed.rs) *)

Record Signed : Type := mkSigned {
  signed_public_key : BlsPublicKey;
  signed_signature : BlsSignature;
}.

#[global] Instance Signed_eq_dec : EqDecision Signed.
Proof. solve_decision. Defined.

Definition signed_verify (s : Signed) (payload : Bytes) : bool :=
  signed_verify_bytes (signed_public_key s) (signed_signature s) payload.

Record SignedShare : Type := mkSignedShare {
  share_public_key_set : BlsPublicKeySet;
  share_index : nat;
  share_signature_share : BlsSignatureShare;
}.

Definition signed_share_verify (s : SignedShare) (payload : Bytes) : bool :=
  signed_share_verify_bytes (share_public_key_set s) (share_index s)
    (share_signature_share s) payload.

Record SectionSigned (T : Type) : Type := mkSectionSigned {
  ss_value : T;
  ss_signed : Signed;
}.
#[global] Arguments mkSectionSigned {T} ss_value ss_signed.
#[global] Arguments ss_value {T} s.
#[global] Arguments ss_signed {T} s.

#[global] Instance SectionSigned_eq_dec {T : Type} `{EqDecision T} : EqDecision (SectionSigned T).
Proof. solve_decision. Defined.

Definition verify_signed {T : Type} `{!Serialize T} (signed : Signed) (message : T) : bool :=
  match serialize message with
  | Some bytes => signed_verify signed bytes
  | None => false
  end.

Definition self_verify {T : Type} `{!Serialize T} (s : SectionSigned T) : bool :=
  verify_signed (ss_signed s) (ss_value s).

Definition section_signed_verify {T : Type} `{!Serialize T}
    (s : SectionSigned T) (section_chain : SecuredLinkedList) : bool :=
  sll_has_key section_chain (signed_public_key (ss_signed s)) && self_verify s.
(** ** Elder candidates and section authorities
    (src/section/section_authority_provider.rs) *)

Record ElderCandidates : Type := mkElderCandidates {
  ec_elders : gmap XorName SocketAddr;
  ec_prefix : Prefix;
}.

#[global] Instance ElderCandidates_eq_dec : EqDecision ElderCandidates.
Proof. solve_decision. Defined.

(** [.map(|peer| (name, addr)).collect()] into a [BTreeMap]: a later peer wins. *)
Definition collect_elders (elders : list Peer) : gmap XorName SocketAddr :=
  foldl (fun m p => <[peer_name p := peer_addr p]> m) ∅ elders.

Definition elders_peers (m : gmap XorName SocketAddr) : list Peer :=
  (fun '(name, addr) => peer_set_reachable (peer_new name addr) true) <$> btree_entries m.

Definition elder_candidates_new (elders : list Peer) (prefix : Prefix) : ElderCandidates :=
  mkElderCandidates (collect_elders elders) prefix.
Definition elder_candidates_peers (ec : ElderCandidates) : list Peer :=
  elders_peers (ec_elders ec).
Definition elder_candidates_position (ec : ElderCandidates) (name : XorName) : option nat :=
  fst <$> list_find (fun other_name => other_name = name) (btree_keys (ec_elders ec)).

Record SectionAuthorityProvider : Type := mkSap {
  sap_prefix : Prefix;
  sap_public_key_set : BlsPublicKeySet;
  sap_elders : gmap XorName SocketAddr;
}.

#[global] Instance SectionAuthorityProvider_eq_dec : EqDecision SectionAuthorityProvider.
Proof. solve_decision. Defined.

Definition sap_new (elders : list Peer) (prefix : Prefix) (pk_set : BlsPublicKeySet) :
    SectionAuthorityProvider :=
  mkSap prefix pk_set (collect_elders elders).
Definition sap_from_elder_candidates (ec : ElderCandidates) (pk_set : BlsPublicKeySet) :
    SectionAuthorityProvider :=
  mkSap (ec_prefix ec) pk_set (ec_elders ec).
Definition sap_elder_candidates (sap : SectionAuthorityProvider) : ElderCandidates :=
  mkElderCandidates (sap_elders sap) (sap_prefix sap).
Definition sap_peers (sap : SectionAuthorityProvider) : list Peer := elders_peers (sap_elders sap).
Definition sap_elder_count (sap : SectionAuthorityProvider) : nat := size (sap_elders sap).
Definition sap_contains_elder (sap : SectionAuthorityProvider) (name : XorName) : bool :=
  bool_decide (is_Some (sap_elders sap !! name)).
Definition sap_get_addr (sap : SectionAuthorityProvider) (name : XorName) : option SocketAddr :=
  sap_elders sap !! name.
Definition sap_names (sap : SectionAuthorityProvider) : gset XorName := dom (sap_elders sap).
Definition sap_addresses (sap : SectionAuthorityProvider) : list SocketAddr :=
  btree_values (sap_elders sap).
Definition sap_section_key (sap : SectionAuthorityProvider) : BlsPublicKey :=
  pks_public_key (sap_public_key_set sap).

(** ** Lemmas *)

Lemma elem_of_elders_peers m p :
  p ∈ elders_peers m <->
  m !! peer_name p = Some (peer_addr p) /\ peer_reachable p = true.
Proof.
  unfold elders_peers. rewrite list_elem_of_fmap. split.
  - intros ([name addr] & -> & Hin%elem_of_btree_entries). done.
  - intros [Hl Hr]. exists (peer_name p, peer_addr p).
    rewrite elem_of_btree_entries. destruct p; simpl in *. by subst.
Qed.

Lemma elders_peers_names m : peer_name <$> elders_peers m = btree_keys m.
Proof.
  unfold elders_peers, btree_keys. rewrite <- list_fmap_compose.
  apply list_fmap_ext. by intros i [name addr] _.
Qed.

Lemma length_elders_peers m : length (elders_peers m) = size m.
Proof. unfold elders_peers. by rewrite length_fmap, length_btree_entries. Qed.

Lemma collect_elders_dom l (m0 : gmap XorName SocketAddr) x :
  x ∈ dom (foldl (fun m p => <[peer_name p := peer_addr p]> m) m0 l) <->
  x ∈ dom m0 \/ x ∈ peer_name <$> l.
Proof.
  revert m0; induction l as [|p l IH]; intros m0; simpl; [set_solver|].
  rewrite IH, dom_insert_L, elem_of_cons. set_solver.
Qed.

Lemma dom_collect_elders l x : x ∈ dom (collect_elders l) <-> x ∈ peer_name <$> l.
Proof. unfold collect_elders. rewrite collect_elders_dom. set_solver. Qed.

Lemma size_collect_elders l : size (collect_elders l) <= length l.
Proof.
  rewrite <- size_dom. transitivity (size (list_to_set (peer_name <$> l) : gset XorName)).
  - apply subseteq_size. intros x. rewrite dom_collect_elders. set_solver.
  - rewrite <- (length_fmap peer_name l). generalize (peer_name <$> l). clear l.
    induction l as [|x l IH]; simpl; [done|]. rewrite size_union_alt.
    pose proof (subseteq_size (list_to_set l ∖ {[x]} : gset XorName) (list_to_set l) ltac:(set_solver)).
    rewrite size_singleton. lia.
Qed.

Lemma size_collect_elders_NoDup l :
  NoDup (peer_name <$> l) -> size (collect_elders l) = length l.
Proof.
  intros Hnd. rewrite <- size_dom, <- (length_fmap peer_name l),
    <- (size_list_to_set (C := gset XorName)) by exact Hnd.
  apply set_size_proper. intros x. by rewrite dom_collect_elders, elem_of_list_to_set.
Qed.

(** The position is an index into the elders in name order, and it exists exactly for them. *)
Lemma position_Some ec name i :
  elder_candidates_position ec name = Some i -> btree_keys (ec_elders ec) !! i = Some name.
Proof.
  unfold elder_candidates_position. intros ([j x] & Hf & [= ->])%fmap_Some.
  apply list_find_Some in Hf as (Hl & -> & _). done.
Qed.

Lemma position_lt ec name i :
  elder_candidates_position ec name = Some i -> i < size (ec_elders ec).
Proof.
  intros H%position_Some. apply lookup_lt_Some in H. by rewrite length_btree_keys in H.
Qed.

Lemma position_is_Some ec name :
  is_Some (elder_candidates_position ec name) <-> is_Some (ec_elders ec !! name).
Proof.
  unfold elder_candidates_position. rewrite fmap_is_Some, <- elem_of_btree_keys. split.
  - intros [[j x] Hf]. apply list_find_Some in Hf as (Hl & -> & _).
    by eapply list_elem_of_lookup_2.
  - intros Hin. by eapply list_find_elem_of.
Qed.
End Types.

#[export] Hint Rewrite @elem_of_elders_peers @length_elders_peers @dom_collect_elders : routing.

(** The age byte is in the range of [u8]. *)
Lemma name_age_range `{CR : Crates, XL : !XorLaws} n : (0 <= name_age n <= U8_MAX)%Z.
Proof.
  unfold name_age. pose proof (name_bytes_length n) as Hl.
  pose proof (name_bytes_range n) as Hr. rewrite Forall_forall in Hr. apply Hr.
  apply list_elem_of_In, nth_In. rewrite Hl. unfold XOR_NAME_LEN. lia.
Qed.

(** The two ways the code names a node, [Node::name] and [ed25519::name], agree. *)
Lemma node_name_ed25519 `{CR : Crates, SL : !SignLaws} n :
  node_name n = ed25519_name (keypair_public (node_keypair n)).
Proof. apply ed_name_agrees. Qed.

(** A name determines the key it was made from. *)
Lemma pub_key_of_name `{CR : Crates, SL : !SignLaws} pk :
  ed25519_pub_key (ed25519_name pk) = Some pk.
Proof. unfold ed25519_pub_key, ed25519_name. by rewrite ed_name_bytes, ed_bytes_roundtrip. Qed.

(** ** Concrete serialisations, for evaluation *)

Module ToySerialize.
Import BitNames ToyCrates.

Definition name_code (n : XorName) : Z := Z.of_N (xval n).
Definition state_code (s : MembershipState) : Bytes :=
  match s with Joined => [0%Z] | Left => [1%Z] | Relocated d => [2%Z; name_code d] end.

#[export] Instance ser_node_state : Serialize NodeState :=
  fun s => Some (name_code (peer_name (ns_peer s)) :: state_code (ns_state s)).
#[export] Instance ser_sap : Serialize SectionAuthorityProvider :=
  fun s => Some (Z.of_N (sap_public_key_set s) :: (name_code <$> btree_keys (sap_elders s))).
End ToySerialize.
