(* ===== verification/Thresholds.v ===== *)
(** * Group sizes and quorums (src/lib.rs)

    [supermajority] decides every vote of the system: signature aggregation thresholds, DKG
    agreement and delivery group sizes.  It is modelled on [nat] (sizes of in-memory
    collections) and at the width of [usize], with the two shown to agree. *)

From stdpp Require Import base tactics list gmap sorting.
From Stdlib Require Import ZArith Lia.
From S2P Require Import Prelude.

Definition ELDER_SIZE : nat := 7.
Definition RECOMMENDED_SECTION_SIZE : nat := 2 * ELDER_SIZE.

Definition supermajority (group_size : nat) : nat := 1 + group_size * 2 / 3.

(** The same at the width of [usize], with wrap-around. *)
Definition supermajority_usize (group_size : Z) : Z :=
  usize_wrap (1 + usize_wrap (group_size * 2) / 3).

Lemma supermajority_pos n : 0 < supermajority n.
Proof. unfold supermajority. lia. Qed.

Lemma supermajority_two_thirds n : 2 * n < 3 * supermajority n.
Proof. unfold supermajority. pose proof (Nat.div_mod_eq (n * 2) 3). pose proof (Nat.mod_upper_bound (n * 2) 3). lia. Qed.

Lemma supermajority_least n k : 2 * n < 3 * k -> supermajority n <= k.
Proof. unfold supermajority. pose proof (Nat.div_mod_eq (n * 2) 3). lia. Qed.

Lemma supermajority_le n : 0 < n -> supermajority n <= n.
Proof. intros H. apply supermajority_least. lia. Qed.

Lemma supermajority_mono n m : n <= m -> supermajority n <= supermajority m.
Proof. intros H. apply supermajority_least. pose proof (supermajority_two_thirds m). lia. Qed.

Lemma supermajority_usize_spec (n : nat) :
  (Z.of_nat n < 2 ^ 63)%Z -> supermajority_usize (Z.of_nat n) = Z.of_nat (supermajority n).
Proof.
  intros Hn. unfold supermajority_usize, supermajority, usize_wrap, USIZE_MODULUS.
  rewrite (Z.mod_small (Z.of_nat n * 2)) by lia.
  rewrite Nat2Z.inj_add, Nat2Z.inj_div, Nat2Z.inj_mul. apply Z.mod_small.
  change (Z.of_nat 1) with 1%Z; change (Z.of_nat 2) with 2%Z; change (Z.of_nat 3) with 3%Z.
  pose proof (Z.div_mod (Z.of_nat n * 2) 3 ltac:(done)).
  pose proof (Z.mod_pos_bound (Z.of_nat n * 2) 3 ltac:(done)). lia.
Qed.

(** The arithmetic of [supermajority] never overflows for groups of fewer than 2^63
    members, and it is the least number that exceeds two thirds of the group. *)
Theorem supermajority_exact (n k : nat) :
  (Z.of_nat n < 2 ^ 63)%Z ->
  supermajority_usize (Z.of_nat n) = Z.of_nat (supermajority n) /\
  (supermajority n <= k <-> 2 * n < 3 * k).
Proof.
  intros Hn. split; [by apply supermajority_usize_spec|].
  split; [|apply supermajority_least]. pose proof (supermajority_two_thirds n). lia.
Qed.

Lemma supermajority_exact_witness :
  (Z.of_nat 7 < 2 ^ 63)%Z /\ (supermajority 7 <= 5 <-> 2 * 7 < 3 * 5).
Proof. split; [done|]. exact (proj2 (supermajority_exact 7 5 ltac:(done))). Defined.

Section Quorums.
Context {A : Type} `{Countable A}.
Implicit Types (U Q F : gset A).

Lemma size_intersection_ge U Q1 Q2 :
  Q1 ⊆ U -> Q2 ⊆ U -> size Q1 + size Q2 <= size U + size (Q1 ∩ Q2).
Proof.
  intros H1 H2. assert (Q1 ∪ Q2 ⊆ U) as Hu by set_solver.
  apply subseteq_size in Hu. rewrite size_union_alt in Hu.
  assert (size Q2 = size (Q2 ∖ Q1) + size (Q1 ∩ Q2)) as ->; [|lia].
  rewrite <- size_union by set_solver. apply set_size_proper.
  intros x. destruct (decide (x ∈ Q1)); set_solver.
Qed.

(** Two quorums share an honest member: among groups decided by [supermajority], if fewer
    than a third of the members are faulty, any two quorums have a member that is not. *)
Theorem quorum_intersection U Q1 Q2 F :
  Q1 ⊆ U -> Q2 ⊆ U -> F ⊆ U -> 3 * size F < size U ->
  supermajority (size U) <= size Q1 -> supermajority (size U) <= size Q2 ->
  exists x, x ∈ Q1 /\ x ∈ Q2 /\ x ∉ F.
Proof.
  intros H1 H2 HF Hlt S1 S2.
  pose proof (size_intersection_ge U Q1 Q2 H1 H2) as Hge.
  pose proof (supermajority_two_thirds (size U)) as Hs.
  assert (size F < size (Q1 ∩ Q2)) as Hsz by lia.
  destruct (set_choose_or_empty ((Q1 ∩ Q2) ∖ F)) as [[x Hx]|He]; [set_solver|].
  assert (Q1 ∩ Q2 ⊆ F) as Hsub by (intros x Hx; destruct (decide (x ∈ F)); set_solver).
  apply subseteq_size in Hsub. lia.
Qed.

(** A group larger than the number of members that may be faulty has an honest member. *)
Lemma honest_member U Q F :
  Q ⊆ U -> F ⊆ U -> size F < size Q -> exists x, x ∈ Q /\ x ∉ F.
Proof.
  intros HQ HF Hlt. destruct (set_choose_or_empty (Q ∖ F)) as [[x Hx]|He]; [set_solver|].
  assert (Q ⊆ F) as Hsub by (intros x Hx; destruct (decide (x ∈ F)); set_solver).
  apply subseteq_size in Hsub. lia.
Qed.
End Quorums.

Lemma quorum_intersection_witness :
  let U : gset nat := list_to_set (seq 0 4) in
  let Q : gset nat := list_to_set (seq 0 3) in
  let Q' : gset nat := list_to_set (seq 1 3) in
  exists x, x ∈ Q /\ x ∈ Q' /\ x ∉ ({[ 1 ]} : gset nat).
Proof.
  apply (quorum_intersection (list_to_set (seq 0 4)));
    first [set_solver|apply (bool_decide_unpack _); vm_compute; exact I].
Defined.
