(* ===== verification/PrefixMap.v ===== *)
(** * The prefix map (src/network/prefix_map.rs)

    A container of entries keyed by their prefix which drops an entry once longer prefixes
    cover it.  [BTreeSet<Entry<T>>] with entries compared by prefix is a finite map from
    prefixes; the loops over ancestors run at most once per bit of the prefix. *)

From stdpp Require Import base tactics list gmap sorting.
From Stdlib Require Import ZArith Lia.
From S2P Require Import Prelude Names Crates Types.

(** Rust's [T: Borrow<Prefix>]. *)
Class HasPrefix `{XN : XorNames} (T : Type) := entry_prefix : T -> Prefix.

Section PrefixMap.
Context `{CR : Crates} {T : Type} `{HP : !HasPrefix T}.
Implicit Types (m : gmap Prefix T) (p q : Prefix) (e : T) (n : XorName).

(** ** Operations *)

Definition pm_new : gmap Prefix T := ∅.

Definition pm_get m p : option T := m !! p.

Definition pm_iter m : list T := btree_values m.

Definition pm_descendants m p : list T :=
  List.filter (fun e => is_extension_of (entry_prefix e) p) (pm_iter m).

(** One iteration of the loop of [prune]. *)
Definition prune_step m p : gmap Prefix T :=
  if is_covered_by p (entry_prefix <$> pm_descendants m p) then delete p m else m.

Fixpoint prune_loop (fuel : nat) m p : gmap Prefix T :=
  let m' := prune_step m p in
  if prefix_is_empty p then m'
  else match fuel with 0 => m' | S f => prune_loop f m' (popped p) end.

Definition pm_prune m p : gmap Prefix T := prune_loop (bit_count p) m p.

Definition pm_insert m e : gmap Prefix T * option T :=
  match pm_descendants m (entry_prefix e) with
  | _ :: _ => (m, Some e)
  | [] =>
      let parent_prefix := popped (entry_prefix e) in
      let old := m !! entry_prefix e in
      (pm_prune (<[entry_prefix e := e]> m) parent_prefix, old)
  end.

Fixpoint ancestor_loop (fuel : nat) m p : option T :=
  match pm_get m p with
  | Some e => Some e
  | None =>
      if prefix_is_empty p then None
      else match fuel with 0 => None | S f => ancestor_loop f m (popped p) end
  end.

Definition pm_get_equal_or_ancestor m p : option T := ancestor_loop (bit_count p) m p.

Definition pm_get_matching m n : result T Error :=
  ok_or (max_by_key (fun e => bit_count (entry_prefix e))
           (List.filter (fun e => matches (entry_prefix e) n) (pm_iter m)))
        NoMatchingSection.

Definition pm_from_iter (l : list T) : gmap Prefix T :=
  foldl (fun m e => (pm_insert m e).1) pm_new l.

Definition pm_eq `{EqDecision T} m m' : bool :=
  Nat.eqb (size m) (size m') &&
  forallb (fun '(x, y) => bool_decide (x = y)) (combine (pm_iter m) (pm_iter m')).

(** [into_iter], the conversion into a set, and [hash] with the state of a hasher *)
Definition pm_into_iter m : list T := pm_iter m.
Definition pm_into_set `{Countable T} m : gset T := list_to_set (pm_into_iter m).
Definition pm_hash {H : Type} (hash : H -> T -> H) m (state : H) : H := foldl hash state (pm_iter m).

(** ** Invariants *)

(** Entries are stored under their own prefix. *)
Definition keyed m : Prop := forall p e, m !! p = Some e -> entry_prefix e = p.

(** The entries with a proper extension of [p] cover [p]. *)
Definition covered m p : bool := is_covered_by p (entry_prefix <$> pm_descendants m p).

(** No stored entry is redundant. *)
Definition pruned m : Prop := forall p e, m !! p = Some e -> covered m p = false.

Definition matched m n : Prop := exists p e, m !! p = Some e /\ matches p n = true.

Definition blocked m p : Prop :=
  exists q e, m !! q = Some e /\ is_extension_of q p = true.

(** ** The loops are the loops of the source *)

Context {XL : XorLaws}.

Lemma keyed_delete m p : keyed m -> keyed (delete p m).
Proof. intros Hk q e [_ Hq]%lookup_delete_Some. eauto. Qed.

Lemma keyed_insert m e : keyed m -> keyed (<[entry_prefix e := e]> m).
Proof. intros Hk q e' [[<- ->]|[_ Hq]]%lookup_insert_Some; eauto. Qed.

Lemma prune_unfold m p :
  pm_prune m p =
  if prefix_is_empty p then prune_step m p else pm_prune (prune_step m p) (popped p).
Proof.
  unfold pm_prune. rewrite bit_count_popped.
  pose proof (prefix_is_empty_spec p) as Hs.
  destruct (bit_count p) eqn:E; simpl.
  - by rewrite (proj2 Hs eq_refl).
  - destruct (prefix_is_empty p); [done|]. by rewrite Nat.sub_0_r.
Qed.

Lemma get_equal_or_ancestor_unfold m p :
  pm_get_equal_or_ancestor m p =
  match pm_get m p with
  | Some e => Some e
  | None => if prefix_is_empty p then None else pm_get_equal_or_ancestor m (popped p)
  end.
Proof.
  unfold pm_get_equal_or_ancestor. rewrite bit_count_popped.
  pose proof (prefix_is_empty_spec p) as Hs.
  destruct (bit_count p) eqn:E; simpl.
  - by rewrite (proj2 Hs eq_refl).
  - destruct (pm_get m p); [done|]. destruct (prefix_is_empty p); [done|].
    by rewrite Nat.sub_0_r.
Qed.
(** ** Coverage *)

Lemma elem_of_descendants m p e :
  keyed m -> e ∈ pm_descendants m p <->
  m !! entry_prefix e = Some e /\ is_extension_of (entry_prefix e) p = true.
Proof.
  intros Hk. unfold pm_descendants, pm_iter.
  rewrite list_elem_of_In, filter_In, <- list_elem_of_In, elem_of_btree_values. split.
  - intros [[q Hq] He]. pose proof (Hk _ _ Hq); by subst q.
  - intros [Hq He]. eauto.
Qed.

Lemma descendants_nil m p : keyed m -> pm_descendants m p = [] <-> ~ blocked m p.
Proof.
  intros Hk. split.
  - intros Hnil (q & e & Hq & Hext). apply (not_elem_of_nil e). rewrite <- Hnil.
    apply elem_of_descendants; [done|]. pose proof (Hk _ _ Hq); by subst q.
  - intros Hb. destruct (pm_descendants m p) as [|e l] eqn:E; [done|]. destruct Hb.
    assert (e ∈ pm_descendants m p) as He by (rewrite E; left).
    apply elem_of_descendants in He as [Hq Hext]; [|done]. by exists (entry_prefix e), e.
Qed.

Lemma covered_spec m p :
  keyed m -> covered m p = true <->
  forall n, matches p n = true ->
    exists q e, m !! q = Some e /\ is_extension_of q p = true /\ matches q n = true.
Proof.
  intros Hk. unfold covered. rewrite is_covered_by_spec. split; intros Hc n Hn.
  - destruct (Hc n Hn) as (q & (e & -> & He)%list_elem_of_fmap & Hq).
    apply elem_of_descendants in He as [He Hext]; eauto.
  - destruct (Hc n Hn) as (q & e & Hl & Hext & Hq). exists q. split; [|done].
    pose proof (Hk _ _ Hl) as Hp. apply list_elem_of_fmap. exists e. split; [done|].
    apply elem_of_descendants; [done|]. by rewrite Hp.
Qed.

Lemma bool_eq_iff (b c : bool) : (b = true <-> c = true) -> b = c.
Proof. destruct b, c; naive_solver. Qed.

(** Dropping a covered entry changes no other coverage. *)
Lemma covered_delete m p q :
  keyed m -> covered m p = true -> covered (delete p m) q = covered m q.
Proof.
  intros Hk Hp. apply bool_eq_iff.
  rewrite !covered_spec by auto using keyed_delete. split; intros Hc n Hn.
  - destruct (Hc n Hn) as (r & e & [_ Hl]%lookup_delete_Some & ?); eauto.
  - destruct (Hc n Hn) as (r & e & Hl & Hext & Hr).
    destruct (decide (r = p)) as [->|Hne]; [|exists r, e; by rewrite lookup_delete_ne].
    destruct (proj1 (covered_spec m p Hk) Hp n Hr) as (r' & e' & Hl' & Hext' & Hr').
    exists r', e'. rewrite lookup_delete_ne; [|intros ->; by rewrite extension_irrefl in Hext'].
    eauto using extension_trans.
Qed.

(** [p] or one of its ancestors: what the loop of [prune] visits. *)
Definition on_path q p : Prop := q = p \/ is_extension_of p q = true.

#[local] Instance on_path_dec q p : Decision (on_path q p).
Proof. unfold on_path. apply _. Defined.

Lemma on_path_popped q p :
  bit_count p <> 0 -> on_path q p <-> q = p \/ on_path q (popped p).
Proof.
  intros Hne. unfold on_path. split.
  - intros [->|Hext]; [by left|]. destruct (extension_popped p q Hext); auto.
  - intros [->|[->|Hext]]; [by left|right; by apply popped_extension|].
    right. eapply extension_trans; [by apply popped_extension|done].
Qed.

Lemma on_path_empty q p : bit_count p = 0 -> on_path q p <-> q = p.
Proof.
  intros Hz. unfold on_path. split; [|auto]. intros [->|[_ Hlt]%is_extension_of_spec]; [done|lia].
Qed.

Lemma prune_step_lookup m p q :
  prune_step m p !! q = if decide (q = p /\ covered m p = true) then None else m !! q.
Proof.
  unfold prune_step. fold (covered m p). destruct (covered m p) eqn:E.
  - destruct (decide (q = p)) as [->|Hne].
    + rewrite lookup_delete_eq. by rewrite decide_True.
    + rewrite lookup_delete_ne by done. rewrite decide_False; naive_solver.
  - rewrite decide_False; naive_solver.
Qed.

Lemma prune_step_keyed m p : keyed m -> keyed (prune_step m p).
Proof. intros Hk. unfold prune_step. case_match; auto using keyed_delete. Qed.

Lemma prune_step_covered m p q : keyed m -> covered (prune_step m p) q = covered m q.
Proof.
  intros Hk. unfold prune_step. fold (covered m p). destruct (covered m p) eqn:E; [|done].
  by apply covered_delete.
Qed.

(** What [prune] does to every prefix: exactly the covered ones on the path are removed. *)
Lemma prune_lookup m p q :
  keyed m ->
  pm_prune m p !! q = if decide (on_path q p /\ covered m q = true) then None else m !! q.
Proof.
  revert m. induction p as [p IH] using prefix_ind; intros m Hk. rewrite prune_unfold.
  destruct (prefix_is_empty p) eqn:E.
  - apply prefix_is_empty_spec in E. rewrite prune_step_lookup.
    pose proof (on_path_empty q p E) as Hop. repeat case_decide; naive_solver.
  - assert (bit_count p <> 0) as Hne.
    { intros Hz%prefix_is_empty_spec. congruence. }
    rewrite IH by auto using prune_step_keyed.
    rewrite prune_step_covered, prune_step_lookup by done.
    pose proof (on_path_popped q p Hne) as Hop.
    repeat case_decide; naive_solver.
Qed.

Lemma prune_keyed m p : keyed m -> keyed (pm_prune m p).
Proof.
  intros Hk q e. rewrite prune_lookup by done. case_decide; [done|]. apply Hk.
Qed.

Lemma prune_subseteq m p : keyed m -> pm_prune m p ⊆ m.
Proof.
  intros Hk. apply map_subseteq_spec. intros q e. rewrite prune_lookup by done. by case_decide.
Qed.

(** ** Lookup by name *)

Lemma get_matching_Ok m n e :
  keyed m -> pm_get_matching m n = Ok e ->
  m !! entry_prefix e = Some e /\ matches (entry_prefix e) n = true /\
  forall q f, m !! q = Some f -> matches q n = true -> bit_count q <= bit_count (entry_prefix e).
Proof.
  intros Hk. unfold pm_get_matching. set (key := fun e => bit_count (entry_prefix e)).
  destruct (max_by_key key _) as [e'|] eqn:Emax; simpl; intros [= ->].
  pose proof (max_by_key_elem _ _ _ Emax) as Hin. unfold pm_iter in Hin.
  rewrite list_elem_of_In, filter_In, <- list_elem_of_In, elem_of_btree_values in Hin.
  destruct Hin as [[q Hq] Hn]. pose proof (Hk _ _ Hq); subst q. split; [done|]. split; [done|].
  intros q f Hq' Hn'. pose proof (Hk _ _ Hq'); subst q.
  apply (max_by_key_max key _ _ _ Emax). unfold pm_iter.
  rewrite list_elem_of_In, filter_In, <- list_elem_of_In, elem_of_btree_values. eauto.
Qed.

Lemma get_matching_Err m n err :
  keyed m -> pm_get_matching m n = Err err -> err = NoMatchingSection /\ ~ matched m n.
Proof.
  intros Hk. unfold pm_get_matching.
  destruct (max_by_key _ _) as [e'|] eqn:Emax; simpl; [done|]. intros [= <-]. split; [done|].
  intros (q & e & Hq & Hn). apply max_by_key_None in Emax.
  apply (not_elem_of_nil e). rewrite <- Emax. unfold pm_iter.
  rewrite list_elem_of_In, filter_In, <- list_elem_of_In, elem_of_btree_values.
  pose proof (Hk _ _ Hq); subst q. eauto.
Qed.

(** Pruning loses no name: what matched a dropped entry still matches a longer one. *)
Lemma prune_matched m p n : keyed m -> matched (pm_prune m p) n <-> matched m n.
Proof.
  intros Hk. split.
  - intros (q & e & Hq & Hn). exists q, e. split; [|done].
    by eapply map_subseteq_spec; [apply prune_subseteq|].
  - intros Hm. destruct (pm_get_matching m n) as [e|err] eqn:Eg.
    + apply get_matching_Ok in Eg as (Hl & Hn & Hmax); [|done].
      exists (entry_prefix e), e. split; [|done].
      rewrite prune_lookup by done. rewrite decide_False; [done|]. intros [_ Hc].
      destruct (proj1 (covered_spec m _ Hk) Hc n Hn) as (r & f & Hr & Hext & Hrn).
      specialize (Hmax _ _ Hr Hrn). apply is_extension_of_spec in Hext as [_ Hlt]. lia.
    + by apply get_matching_Err in Eg as [_ Hno].
Qed.

(** ** Insertion *)

Lemma insert_blocked m e :
  keyed m -> blocked m (entry_prefix e) -> pm_insert m e = (m, Some e).
Proof.
  intros Hk Hb. unfold pm_insert.
  destruct (pm_descendants m (entry_prefix e)) eqn:E; [|done].
  by apply descendants_nil in E.
Qed.

Lemma insert_free m e :
  keyed m -> ~ blocked m (entry_prefix e) ->
  pm_insert m e = (pm_prune (<[entry_prefix e := e]> m) (popped (entry_prefix e)),
                   m !! entry_prefix e).
Proof.
  intros Hk Hb. unfold pm_insert. apply descendants_nil in Hb; [|done]. by rewrite Hb.
Qed.

Lemma blocked_dec m p : keyed m -> blocked m p \/ ~ blocked m p.
Proof.
  intros Hk. destruct (decide (pm_descendants m p = [])) as [E|E].
  - right. by apply descendants_nil.
  - left. destruct (pm_descendants m p) as [|e l] eqn:E'; [done|].
    assert (e ∈ pm_descendants m p) as He by (rewrite E'; left).
    apply elem_of_descendants in He as [Hq Hext]; [|done]. by exists (entry_prefix e), e.
Qed.

(** Inserting an entry without stored descendants makes no entry other than its ancestors
    covered. *)
Lemma covered_insert m e q :
  keyed m -> ~ is_extension_of (entry_prefix e) q = true ->
  covered (<[entry_prefix e := e]> m) q = covered m q.
Proof.
  intros Hk Hne. apply bool_eq_iff. rewrite !covered_spec by auto using keyed_insert.
  split; intros Hc n Hn; destruct (Hc n Hn) as (r & f & Hr & Hext & Hrn).
  - apply lookup_insert_Some in Hr as [[<- _]|[_ Hr]]; [done|]. eauto.
  - destruct (decide (r = entry_prefix e)) as [->|]; [done|].
    exists r, f. by rewrite lookup_insert_ne.
Qed.

Lemma not_covered_free m p : keyed m -> ~ blocked m p -> covered m p = false.
Proof.
  intros Hk Hb. apply not_true_is_false. intros Hc.
  destruct (proj1 (covered_spec m p Hk) Hc (prefix_name p) (matches_prefix_name p))
    as (q & e & Hq & Hext & _).
  apply Hb. by exists q, e.
Qed.

Lemma blocked_insert m e p :
  is_extension_of (entry_prefix e) p = false ->
  blocked (<[entry_prefix e := e]> m) p -> blocked m p.
Proof.
  intros Hne (q & f & Hq & Hext). apply lookup_insert_Some in Hq as [[<- _]|[_ Hq]]; [congruence|].
  by exists q, f.
Qed.

Lemma on_path_parent q p :
  on_path q (popped p) -> q <> p -> is_extension_of p q = true.
Proof.
  intros Hon Hne. destruct (decide (bit_count p = 0)) as [Hz|Hnz].
  - assert (popped p = p) as Hp.
    { apply pbits_inj. rewrite popped_bits, Hz. apply take_ge. rewrite length_pbits. lia. }
    rewrite Hp in Hon. by apply on_path_empty in Hon.
  - by destruct (proj2 (on_path_popped q p Hnz) (or_intror Hon)).
Qed.

Lemma insert_free_lookup m e q :
  keyed m -> ~ blocked m (entry_prefix e) ->
  (pm_insert m e).1 !! q =
  if decide (q = entry_prefix e) then Some e
  else if is_extension_of (entry_prefix e) q && covered (<[entry_prefix e := e]> m) q then None
  else m !! q.
Proof.
  intros Hk Hb. rewrite insert_free by done. simpl. set (p := entry_prefix e) in *.
  rewrite prune_lookup by by apply keyed_insert. case_decide as Hon; case_decide as Hq.
  - destruct Hon as [_ Hc]. subst q. rewrite not_covered_free in Hc; [done|by apply keyed_insert|].
    intros Hb'. apply Hb. eapply blocked_insert; [|exact Hb']. apply extension_irrefl.
  - destruct Hon as [Hon Hc]. rewrite (on_path_parent _ _ Hon Hq). fold p in Hc. by rewrite Hc.
  - subst q. by rewrite lookup_insert_eq.
  - rewrite lookup_insert_ne by done.
    destruct (is_extension_of p q) eqn:Hext; simpl; [|done].
    destruct (covered (<[p := e]> m) q) eqn:Hc; [|done]. destruct Hon. split; [|done].
    destruct (extension_popped _ _ Hext); [by left|by right].
Qed.

(** ** Properties of the map *)

Lemma keyed_new : keyed pm_new.
Proof. intros q e Hq. unfold pm_new in Hq. by rewrite lookup_empty in Hq. Qed.

Lemma pruned_new : pruned pm_new.
Proof. intros q e Hq. unfold pm_new in Hq. by rewrite lookup_empty in Hq. Qed.

Lemma insert_keyed m e : keyed m -> keyed (pm_insert m e).1.
Proof.
  intros Hk. destruct (blocked_dec m (entry_prefix e) Hk) as [Hb|Hb].
  - by rewrite insert_blocked.
  - rewrite insert_free by done. apply prune_keyed. by apply keyed_insert.
Qed.

(** Coverage is not affected by [insert]'s pruning. *)
Lemma covered_prune m p q : keyed m -> covered (pm_prune m p) q = covered m q.
Proof.
  revert m. induction p as [p IH] using prefix_ind; intros m Hk. rewrite prune_unfold.
  destruct (prefix_is_empty p) eqn:E; [by apply prune_step_covered|].
  rewrite IH; [by apply prune_step_covered| |by apply prune_step_keyed].
  intros Hz%prefix_is_empty_spec. congruence.
Qed.

Lemma insert_pruned m e : keyed m -> pruned m -> pruned (pm_insert m e).1.
Proof.
  intros Hk Hp. destruct (blocked_dec m (entry_prefix e) Hk) as [Hb|Hb].
  { by rewrite insert_blocked. }
  intros q f Hq. pose proof (insert_free_lookup m e q Hk Hb) as Hl. rewrite Hq in Hl.
  rewrite insert_free by done. simpl. rewrite covered_prune by by apply keyed_insert.
  case_decide as Hqe.
  - subst q. apply not_covered_free; [by apply keyed_insert|].
    intros Hb'. apply Hb. eapply blocked_insert; [|exact Hb']. apply extension_irrefl.
  - destruct (is_extension_of (entry_prefix e) q) eqn:Hext; simpl in Hl.
    + by destruct (covered (<[entry_prefix e := e]> m) q).
    + rewrite covered_insert; [|done|congruence]. by eapply Hp.
Qed.

(** Insertion keeps every matched name and adds exactly the names of the new entry. *)
Lemma insert_matched m e n :
  keyed m ->
  matched (pm_insert m e).1 n <->
  matched m n \/ (~ blocked m (entry_prefix e) /\ matches (entry_prefix e) n = true).
Proof.
  intros Hk. destruct (blocked_dec m (entry_prefix e) Hk) as [Hb|Hb].
  { rewrite insert_blocked by done. simpl. naive_solver. }
  rewrite insert_free by done. simpl. rewrite prune_matched by by apply keyed_insert.
  unfold matched. split.
  - intros (q & f & [[<- <-]|[_ Hq]]%lookup_insert_Some & Hn); eauto 6.
  - intros [(q & f & Hq & Hn)|[_ Hn]].
    + destruct (decide (q = entry_prefix e)) as [->|Hne].
      * exists (entry_prefix e), e. by rewrite lookup_insert_eq.
      * exists q, f. by rewrite lookup_insert_ne.
    + exists (entry_prefix e), e. by rewrite lookup_insert_eq.
Qed.

(** The ancestor walk returns the entry of the longest prefix on the path. *)
Lemma get_equal_or_ancestor_Some m p e :
  keyed m -> pm_get_equal_or_ancestor m p = Some e <->
  m !! entry_prefix e = Some e /\ on_path (entry_prefix e) p /\
  forall q f, m !! q = Some f -> on_path q p -> bit_count q <= bit_count (entry_prefix e).
Proof.
  intros Hk. induction p as [p IH] using prefix_ind. rewrite get_equal_or_ancestor_unfold.
  unfold pm_get. destruct (m !! p) as [f|] eqn:Ep.
  - pose proof (Hk _ _ Ep) as Hf. split.
    + intros [= <-]. rewrite Hf. split; [done|]. split; [by left|].
      intros q g _ [->|[_ Hlt]%is_extension_of_spec]; lia.
    + intros (He & Hon & Hmax). specialize (Hmax p f Ep (or_introl eq_refl)).
      destruct Hon as [Heq|[_ Hlt]%is_extension_of_spec]; [congruence|lia].
  - destruct (prefix_is_empty p) eqn:E.
    + split; [done|]. apply prefix_is_empty_spec in E.
      intros (He & Hon & _). apply on_path_empty in Hon; [|done]. congruence.
    + assert (bit_count p <> 0) as Hne by (intros Hz%prefix_is_empty_spec; congruence).
      rewrite IH by done. split; intros (He & Hon & Hmax); split_and!; try done.
      * apply on_path_popped; auto.
      * intros q f Hq [->|Hq']%(on_path_popped q p Hne); [congruence|eauto].
      * apply on_path_popped in Hon as [Heq|Hon]; [congruence|done..].
      * intros q f Hq Hq'. apply (Hmax q f Hq). apply on_path_popped; auto.
Qed.

Lemma on_path_full n q : on_path q (prefix_new NAME_BITS n) <-> matches q n = true.
Proof.
  rewrite matches_spec. unfold on_path. rewrite is_extension_of_spec.
  rewrite <- !length_pbits, prefix_new_bits, Nat.min_id, (take_ge (nbits n)) by by rewrite length_nbits.
  split.
  - intros [->|[? _]]; [|done]. by rewrite prefix_new_bits, Nat.min_id, take_ge by by rewrite length_nbits.
  - intros Hpre. destruct (decide (length (pbits q) = NAME_BITS)) as [E|E].
    + left. apply pbits_inj. rewrite prefix_new_bits, Nat.min_id, (take_ge (nbits n)) by by rewrite length_nbits.
      apply prefix_length_eq; [done|]. by rewrite length_nbits, E.
    + right. split; [done|]. pose proof (prefix_length _ _ Hpre) as Hle. rewrite length_nbits in *. lia.
Qed.

(** Looking a name up is walking up from its full-length prefix. *)
Lemma get_matching_is_ancestor_walk m n :
  keyed m ->
  pm_get_matching m n =
  ok_or (pm_get_equal_or_ancestor m (prefix_new NAME_BITS n)) NoMatchingSection.
Proof.
  intros Hk. destruct (pm_get_matching m n) as [e|err] eqn:Eg.
  - apply get_matching_Ok in Eg as (He & Hn & Hmax); [|done].
    rewrite (proj2 (get_equal_or_ancestor_Some m _ e Hk)); [done|]. split; [done|].
    split; [by apply on_path_full|]. intros q f Hq Hon%on_path_full. eauto.
  - apply get_matching_Err in Eg as [-> Hno]; [|done].
    destruct (pm_get_equal_or_ancestor m (prefix_new NAME_BITS n)) as [e|] eqn:Ea; [|done].
    apply get_equal_or_ancestor_Some in Ea as (He & Hon%on_path_full & _); [|done].
    destruct Hno. by exists (entry_prefix e), e.
Qed.

Lemma from_iter_wf l : keyed (pm_from_iter l) /\ pruned (pm_from_iter l).
Proof.
  unfold pm_from_iter. assert (forall m, keyed m -> pruned m ->
    keyed (foldl (fun m e => (pm_insert m e).1) m l) /\ pruned (foldl (fun m e => (pm_insert m e).1) m l)) as Hg.
  { induction l as [|e l IH]; intros m Hk Hp; simpl; [done|].
    apply IH; auto using insert_keyed, insert_pruned. }
  apply Hg; auto using keyed_new, pruned_new.
Qed.

(** *** Equality and hashing *)

Lemma pm_iter_inj m m' : keyed m -> keyed m' -> pm_iter m = pm_iter m' -> m = m'.
Proof.
  intros Hk Hk' E. apply map_eq. intros p. apply option_eq. intros e.
  assert (forall m m', keyed m -> keyed m' -> pm_iter m = pm_iter m' -> m !! p = Some e -> m' !! p = Some e) as H.
  { clear. intros m m' Hk Hk' E He. assert (e ∈ pm_iter m') as Hin.
    { rewrite <- E. apply elem_of_btree_values. eauto. }
    apply elem_of_btree_values in Hin as [q Hq]. rewrite <- (Hk _ _ He). by rewrite (Hk' _ _ Hq). }
  split; by apply H.
Qed.

Lemma combine_all_eq `{EqDecision T} (l k : list T) :
  length l = length k -> forallb (fun '(x, y) => bool_decide (x = y)) (combine l k) = true <-> l = k.
Proof.
  revert k; induction l as [|x l IH]; intros [|y k]; simpl; try done.
  intros [= Hl]. rewrite andb_true_iff, bool_decide_eq_true, IH by done. split; [intros [-> ->]|intros [= -> ->]]; done.
Qed.

(** The comparison of two maps, which pairs up their entries in order, is equality; equal maps
    are hashed alike. *)
Theorem prefix_map_eq_correct `{EqDecision T} m m' :
  keyed m -> keyed m' ->
  (pm_eq m m' = true <-> m = m') /\
  (pm_eq m m' = true -> forall (H : Type) (hash : H -> T -> H) state, pm_hash hash m state = pm_hash hash m' state).
Proof.
  intros Hk Hk'. assert (pm_eq m m' = true <-> m = m') as H; [|split; [done|by intros ->%H]].
  unfold pm_eq. rewrite andb_true_iff, Nat.eqb_eq. split; [|intros ->; split; [done|by apply combine_all_eq]].
  intros [Hs Hc]. apply pm_iter_inj; [done|done|]. apply combine_all_eq; [|done].
  unfold pm_iter. by rewrite !length_btree_values.
Qed.
End PrefixMap.

(** ** What the map promises its clients

    [Network] stores its sections in [sn_messaging]'s [PrefixMap], the type this file was moved
    to.  It is used through this interface; [prefix_map_ops] and [prefix_map_laws] show that the
    code of [src/network/prefix_map.rs] provides it. *)

Class PrefixMapOps `{XN : XorNames} (T : Type) `{HP : !HasPrefix T} := {
  PMap : Type;
  pmap_new : PMap;
  pmap_insert : PMap -> T -> PMap * option T;
  pmap_get : PMap -> Prefix -> option T;
  pmap_get_equal_or_ancestor : PMap -> Prefix -> option T;
  pmap_get_matching : PMap -> XorName -> option T;
  (** in order by prefixes; also the order of [IntoIterator] *)
  pmap_iter : PMap -> list T;
}.
Arguments PMap {XN} T {HP PrefixMapOps}.

Class PrefixMapLaws `{XN : XorNames} (T : Type) `{HP : !HasPrefix T, PM : !PrefixMapOps T} : Prop := {
  pmap_get_new : forall p, pmap_get pmap_new p = None;
  pmap_get_prefix : forall m p e, pmap_get m p = Some e -> entry_prefix e = p;
  pmap_iter_get : forall m e, e ∈ pmap_iter m <-> pmap_get m (entry_prefix e) = Some e;
  pmap_insert_blocked : forall m e,
    (exists q f, pmap_get m q = Some f /\ is_extension_of q (entry_prefix e) = true) ->
    (pmap_insert m e).2 = Some e /\ forall q, pmap_get (pmap_insert m e).1 q = pmap_get m q;
  pmap_insert_free : forall m e,
    ~ (exists q f, pmap_get m q = Some f /\ is_extension_of q (entry_prefix e) = true) ->
    (pmap_insert m e).2 = pmap_get m (entry_prefix e) /\
    pmap_get (pmap_insert m e).1 (entry_prefix e) = Some e /\
    forall q, q <> entry_prefix e ->
      pmap_get (pmap_insert m e).1 q = pmap_get m q \/
      (pmap_get (pmap_insert m e).1 q = None /\ is_extension_of (entry_prefix e) q = true);
  pmap_get_matching_Some : forall m n e, pmap_get_matching m n = Some e ->
    pmap_get m (entry_prefix e) = Some e /\ matches (entry_prefix e) n = true /\
    forall q f, pmap_get m q = Some f -> matches q n = true -> bit_count q <= bit_count (entry_prefix e);
  pmap_get_matching_None : forall m n p e,
    pmap_get_matching m n = None -> pmap_get m p = Some e -> matches p n = false;
  pmap_blocked_dec : forall m p,
    (exists q f, pmap_get m q = Some f /\ is_extension_of q p = true) \/
    ~ (exists q f, pmap_get m q = Some f /\ is_extension_of q p = true);
}.

Section Instance.
Context `{CR : Crates, XL : !XorLaws} {T : Type} `{HP : !HasPrefix T}.

#[export] Instance prefix_map_ops : PrefixMapOps T := {|
  PMap := { m : gmap Prefix T | keyed m };
  pmap_new := pm_new ↾ keyed_new;
  pmap_insert m e :=
    ((pm_insert (`m) e).1 ↾ insert_keyed (`m) e (proj2_sig m), (pm_insert (`m) e).2);
  pmap_get m p := pm_get (`m) p;
  pmap_get_equal_or_ancestor m p := pm_get_equal_or_ancestor (`m) p;
  pmap_get_matching m n := ok (pm_get_matching (`m) n);
  pmap_iter m := pm_iter (`m);
|}.

#[export] Instance prefix_map_laws : PrefixMapLaws T.
Proof.
  split; unfold pmap_get, pmap_insert, pmap_iter, pmap_new, pmap_get_matching; simpl; unfold pm_get.
  - intros p. apply lookup_empty.
  - intros [m Hk] p e; simpl. apply Hk.
  - intros [m Hk] e; simpl. unfold pm_iter. rewrite elem_of_btree_values. split; [|eauto].
    intros [p Hp]. pose proof (Hk _ _ Hp); by subst.
  - intros [m Hk] e; simpl. intros Hb. by rewrite insert_blocked.
  - intros [m Hk] e Hb; simpl in *. split; [by rewrite insert_free|].
    setoid_rewrite (insert_free_lookup m e _ Hk Hb).
    split; [by rewrite decide_True|]. intros q Hq. rewrite decide_False by done.
    destruct (is_extension_of (entry_prefix e) q), (covered (<[entry_prefix e := e]> m) q); auto.
  - intros [m Hk] n e; simpl. destruct (pm_get_matching m n) eqn:E; [|done]. intros [= <-].
    by apply get_matching_Ok.
  - intros [m Hk] n p e; simpl. destruct (pm_get_matching m n) eqn:E; [done|]. intros _ Hp.
    apply get_matching_Err in E as [_ Hno]; [|done]. apply not_true_is_false. intros Hn.
    apply Hno. by exists p, e.
  - intros [m Hk] p; simpl. by apply blocked_dec.
Qed.
End Instance.

(** ** Claims *)

Section Claims.
Context `{CR : Crates, XL : !XorLaws} {T : Type} `{HP : !HasPrefix T}.

(** C24: what [insert] does on every branch. If a proper extension of the entry's prefix is
    stored, nothing changes and the entry is handed back, although the documentation says that
    the previous entry of the same prefix is returned; otherwise the previous entry of that
    prefix is returned, the new one is stored, the ancestors that the descendants now
    cover are dropped, and every other prefix keeps its entry. *)
Theorem prefix_map_insert_spec (m : gmap Prefix T) (e : T) :
  keyed m ->
  (blocked m (entry_prefix e) -> pm_insert m e = (m, Some e)) /\
  (~ blocked m (entry_prefix e) ->
   (pm_insert m e).2 = m !! entry_prefix e /\
   forall q, (pm_insert m e).1 !! q =
     if decide (q = entry_prefix e) then Some e
     else if is_extension_of (entry_prefix e) q && covered (<[entry_prefix e := e]> m) q then None
     else m !! q).
Proof.
  intros Hk. split; [by apply insert_blocked|]. intros Hb.
  split; [by rewrite insert_free|]. intros q. by apply insert_free_lookup.
Qed.

(** C36: the map never holds a redundant entry: whatever is inserted, in whatever order, every
    entry is stored under its own prefix and is not covered by the stored extensions of it. *)
Theorem prefix_map_never_redundant (l : list T) (e : T) :
  keyed (pm_insert (pm_from_iter l) e).1 /\ pruned (pm_insert (pm_from_iter l) e).1.
Proof.
  destruct (from_iter_wf l). split; [by apply insert_keyed|by apply insert_pruned].
Qed.

(** Pruning never orphans a name: after an insertion the names that belong to some entry
    are those that did before and, when the entry was accepted, those of the new entry. *)
Theorem prefix_map_insert_covers (m : gmap Prefix T) (e : T) (n : XorName) :
  keyed m ->
  matched (pm_insert m e).1 n <->
  matched m n \/ (~ blocked m (entry_prefix e) /\ matches (entry_prefix e) n = true).
Proof. apply insert_matched. Qed.

(** C23: the linear scan of [get_matching] and the ancestor walk of [get_equal_or_ancestor]
    agree: looking a name up returns what walking up from its full-length prefix finds, the
    entry with the longest matching prefix. *)
Theorem prefix_map_lookups_agree (m : gmap Prefix T) (n : XorName) :
  keyed m ->
  pm_get_matching m n =
  ok_or (pm_get_equal_or_ancestor m (prefix_new NAME_BITS n)) NoMatchingSection.
Proof. apply get_matching_is_ancestor_walk. Qed.
End Claims.

Module PrefixMapWitness.
Import BitNames ToyCrates.

Definition entry : Type := xprefix * Z.
#[export] Instance entry_has_prefix : HasPrefix entry := fst.
Definition pfx (l : list bool) : xprefix := to_prefix l.
Definition two : gmap Prefix entry :=
  pm_from_iter [(pfx [false], 0%Z); (pfx [false; false], 1%Z)].

Lemma prefix_map_insert_spec_witness :
  keyed two /\ (pm_insert two (pfx [false; true], 2%Z)).1 !! pfx [false] = None.
Proof.
  split; [apply from_iter_wf|].
  destruct (prefix_map_insert_spec two (pfx [false; true], 2%Z) (proj1 (from_iter_wf _))) as [_ H].
  destruct H as [_ H].
  - apply descendants_nil; [apply from_iter_wf|]. vm_compute. reflexivity.
  - rewrite H. vm_compute. reflexivity.
Defined.

Lemma prefix_map_never_redundant_witness :
  pruned (pm_insert two (pfx [false; true], 2%Z)).1 /\
  entry_prefix <$> (map_to_list (pm_insert two (pfx [false; true], 2%Z)).1).*2 ≡ₚ
  [pfx [false; false]; pfx [false; true]].
Proof.
  split.
  - exact (proj2 (prefix_map_never_redundant [(pfx [false], 0%Z); (pfx [false; false], 1%Z)]
                    (pfx [false; true], 2%Z))).
  - apply (bool_decide_unpack _). vm_compute. reflexivity.
Defined.

Lemma prefix_map_insert_covers_witness :
  keyed two /\ matched (pm_insert two (pfx [true], 3%Z)).1 (to_name (2 ^ 255)).
Proof.
  split; [apply from_iter_wf|].
  apply prefix_map_insert_covers; [apply from_iter_wf|]. right. split.
  - apply descendants_nil; [apply from_iter_wf|]. vm_compute. reflexivity.
  - vm_compute. reflexivity.
Defined.

Lemma prefix_map_lookups_agree_witness :
  keyed two /\
  ok (ok_or (pm_get_equal_or_ancestor two (prefix_new NAME_BITS (to_name 5))) NoMatchingSection) =
  Some (pfx [false; false], 1%Z).
Proof.
  split; [apply from_iter_wf|].
  rewrite <- prefix_map_lookups_agree; [|apply from_iter_wf]. vm_compute. reflexivity.
Defined.

End PrefixMapWitness.
