(* ===== verification/Cache.v ===== *)
(** * The expiring cache (src/cache/mod.rs, src/cache/item.rs)

    A [BTreeMap] of items that may carry a start and an expiry instant.  Instants are integers
    (nanoseconds); every operation that calls [Instant::now()] takes the readings it makes as
    arguments, one per phase of the operation, so that time may pass between the phases.  The
    code takes the lock of the map once per phase, and reads the clock at every comparison of the
    sort by age; here the phases of an operation follow each other without another operation in
    between, as is the case for the caches of a node, which are only used under the lock of the
    node, and the sort has one reading. *)

From stdpp Require Import base tactics list gmap sorting.
From Stdlib Require Import ZArith Lia.
From S2P Require Import Prelude.

#[local] Open Scope Z_scope.

(** ** Items *)

Abbreviation Instant := Z (only parsing).
Abbreviation Duration := Z (only parsing).
Definition NANOS_PER_MILLI : Z := 1000000.
Definition NANOS_PER_SEC : Z := 1000000000.

Record ItemTime : Type := mkItemTime { it_start : Instant; it_expiry : Instant }.
Record Item (T : Type) : Type := mkItem { it_object : T; it_time : option ItemTime }.
Arguments mkItem {T} it_object it_time.
Arguments it_object {T} i.
Arguments it_time {T} i.

Definition item_new {T : Type} (now : Instant) (object : T) (item_duration : option Duration) :
    Item T :=
  mkItem object ((fun duration => mkItemTime now (now + duration)) <$> item_duration).

Definition item_expired {T : Type} (now : Instant) (i : Item T) : bool :=
  match it_time i with
  | Some time => it_expiry time <? now
  | None => false
  end.

(** in milliseconds *)
Definition item_elapsed {T : Type} (now : Instant) (i : Item T) : Z :=
  match it_time i with
  | Some time => (now - it_start time) / NANOS_PER_MILLI
  | None => 0
  end.

(** ** The cache *)

(** The clock readings of one [set]: the new item, the replaced item, the expiry sweep and the
    eviction. *)
Record readings : Type := mkReadings {
  r_item : Instant; r_replaced : Instant; r_sweep : Instant; r_evict : Instant;
}.
Definition ordered (r : readings) : Prop :=
  r_item r <= r_replaced r /\ r_replaced r <= r_sweep r /\ r_sweep r <= r_evict r.

Section Cache.
Context {K : Type} `{Countable K, !OrdKey K} {V : Type}.

Record Cache : Type := mkCache {
  c_items : gmap K (Item V);
  c_item_duration : option Duration;
  c_capacity : Z;
}.

Definition USIZE_MAX : Z := USIZE_MODULUS - 1.

Definition cache_with_capacity (capacity : Z) : Cache := mkCache ∅ None capacity.
Definition cache_with_expiry_duration (duration : Duration) : Cache :=
  mkCache ∅ (Some duration) USIZE_MAX.
Definition cache_with_expiry_duration_and_capacity (duration : Duration) (capacity : Z) : Cache :=
  mkCache ∅ (Some duration) capacity.

Definition with_items (c : Cache) (items : gmap K (Item V)) : Cache :=
  mkCache items (c_item_duration c) (c_capacity c).

Definition cache_len (c : Cache) : Z := Z.of_nat (size (c_items c)).
Definition cache_is_empty (c : Cache) : bool := cache_len c =? 0.
Definition cache_count (c : Cache) (predicate : K * Item V -> bool) : Z :=
  Z.of_nat (length (List.filter predicate (btree_entries (c_items c)))).

Definition cache_get (now : Instant) (c : Cache) (key : K) : option V :=
  match c_items c !! key with
  | Some item => if item_expired now item then None else Some (it_object item)
  | None => None
  end.

(** the loop [for key in keys { items.remove(&key) }] *)
Definition remove_keys (keys : list K) (items : gmap K (Item V)) : gmap K (Item V) :=
  foldl (fun m k => delete k m) items keys.

Definition cache_remove_expired (now : Instant) (c : Cache) : Cache :=
  let expired_keys :=
    (List.filter (fun e => item_expired now e.2) (btree_entries (c_items c))).*1 in
  with_items c (remove_keys expired_keys (c_items c)).

(** reversed sort: the larger elapsed time first *)
Definition older_first (now : Instant) (a b : K * Item V) : comparison :=
  Z.compare (item_elapsed now b.2) (item_elapsed now a.2).

Definition excess_keys (now : Instant) (c : Cache) : list K :=
  (take (Z.to_nat (cache_len c - c_capacity c))
    (sort_by (older_first now) (btree_entries (c_items c)))).*1.

Definition cache_drop_excess (now : Instant) (c : Cache) : Cache :=
  if c_capacity c <? cache_len c
  then with_items c (remove_keys (excess_keys now c) (c_items c))
  else c.

Definition cache_set (r : readings) (c : Cache) (key : K) (value : V)
    (custom_duration : option Duration) : Cache * option V :=
  let duration := match custom_duration with Some d => Some d | None => c_item_duration c end in
  let replaced :=
    match c_items c !! key with
    | Some item => if item_expired (r_replaced r) item then None else Some (it_object item)
    | None => None
    end in
  let c1 := with_items c (<[key := item_new (r_item r) value duration]> (c_items c)) in
  (cache_drop_excess (r_evict r) (cache_remove_expired (r_sweep r) c1), replaced).

Definition cache_remove (c : Cache) (key : K) : Cache * option V :=
  (with_items c (delete key (c_items c)), it_object <$> (c_items c !! key)).

Definition cache_clear (c : Cache) : Cache := with_items c ∅.

(** ** Lemmas *)

Lemma remove_keys_lookup keys (items : gmap K (Item V)) k :
  remove_keys keys items !! k = if decide (k ∈ keys) then None else items !! k.
Proof.
  unfold remove_keys. revert items; induction keys as [|x keys IH]; intros items; simpl.
  - done.
  - rewrite IH. destruct (decide (k = x)) as [->|Hne].
    + rewrite lookup_delete_eq. case_decide; case_decide; set_solver.
    + rewrite lookup_delete_ne by done.
      repeat case_decide; try done; set_solver.
Qed.

Lemma remove_keys_size keys (items : gmap K (Item V)) :
  NoDup keys -> (forall k, k ∈ keys -> is_Some (items !! k)) ->
  (size (remove_keys keys items) + length keys = size items)%nat.
Proof.
  unfold remove_keys. intros Hnd. revert items.
  induction Hnd as [|x keys Hx Hnd IH]; intros items Hin; simpl; [lia|].
  destruct (Hin x) as [i Hi]; [set_solver|].
  pose proof (map_size_delete_Some x items (mk_is_Some _ _ Hi)) as Hs.
  assert (size items <> 0%nat) by (intros E%map_size_empty_inv; subst; done).
  specialize (IH (delete x items)).
  rewrite <- Nat.add_1_r, Nat.add_assoc, IH.
  - lia.
  - intros k Hk. rewrite lookup_delete_ne; [apply Hin; set_solver|set_solver].
Qed.

Lemma remove_expired_lookup now c k :
  c_items (cache_remove_expired now c) !! k =
  match c_items c !! k with
  | Some item => if item_expired now item then None else Some item
  | None => None
  end.
Proof.
  unfold cache_remove_expired, with_items; simpl. rewrite remove_keys_lookup.
  case_decide as Hin.
  - apply list_elem_of_fmap in Hin as ([k' i] & -> & Hin).
    apply list_elem_of_In, filter_In in Hin as [Hin He]. simpl in *.
    apply list_elem_of_In, elem_of_btree_entries in Hin. by rewrite Hin, He.
  - destruct (c_items c !! k) as [i|] eqn:Hk; [|done].
    destruct (item_expired now i) eqn:He; [|done]. destruct Hin.
    apply list_elem_of_fmap. exists (k, i). split; [done|].
    apply list_elem_of_In, filter_In. split; [|done].
    by apply list_elem_of_In, elem_of_btree_entries.
Qed.

Lemma remove_expired_meta now c :
  c_capacity (cache_remove_expired now c) = c_capacity c /\
  c_item_duration (cache_remove_expired now c) = c_item_duration c.
Proof. done. Qed.

Lemma excess_keys_NoDup now c : NoDup (excess_keys now c).
Proof.
  unfold excess_keys. rewrite fmap_take. apply NoDup_take.
  rewrite sort_by_perm. apply NoDup_btree_keys.
Qed.

Lemma excess_keys_in now c k : k ∈ excess_keys now c -> is_Some (c_items c !! k).
Proof.
  unfold excess_keys. intros ([k' i] & -> & Hin)%list_elem_of_fmap.
  apply elem_of_take in Hin as (j & Hin%list_elem_of_lookup_2 & _).
  rewrite elem_of_sort_by, elem_of_btree_entries in Hin. eauto.
Qed.

Lemma length_excess_keys now c :
  length (excess_keys now c) = Nat.min (Z.to_nat (cache_len c - c_capacity c)) (size (c_items c)).
Proof.
  unfold excess_keys. by rewrite length_fmap, length_take, length_sort_by, length_btree_entries.
Qed.

Lemma drop_excess_lookup now c k :
  c_items (cache_drop_excess now c) !! k =
  if bool_decide (c_capacity c < cache_len c /\ k ∈ excess_keys now c) then None
  else c_items c !! k.
Proof.
  unfold cache_drop_excess. destruct (Z.ltb_spec (c_capacity c) (cache_len c)); simpl.
  - rewrite remove_keys_lookup. case_decide; case_bool_decide; tauto.
  - rewrite bool_decide_false; [done|lia].
Qed.

Lemma drop_excess_size now c :
  0 <= c_capacity c ->
  cache_len (cache_drop_excess now c) = Z.min (c_capacity c) (cache_len c).
Proof.
  intros Hc. unfold cache_drop_excess. destruct (Z.ltb_spec (c_capacity c) (cache_len c)); [|lia].
  pose proof (remove_keys_size (excess_keys now c) (c_items c) (excess_keys_NoDup now c)
    (excess_keys_in now c)) as Hs.
  rewrite length_excess_keys in Hs. unfold cache_len in *; simpl. lia.
Qed.

Lemma older_first_preorder now : cmp_preorder_on (fun _ => True) (older_first now).
Proof.
  split; unfold older_first; intros; rewrite ?Z.compare_gt_iff, ?Z.compare_ngt_iff in *; lia.
Qed.

(** The evicted items are at least as old as the kept ones. *)
Lemma drop_excess_oldest now c k i k' i' :
  c_items c !! k = Some i -> c_items (cache_drop_excess now c) !! k = None ->
  c_items (cache_drop_excess now c) !! k' = Some i' ->
  item_elapsed now i' <= item_elapsed now i.
Proof.
  intros Hk Hgone Hkept. rewrite drop_excess_lookup in Hgone, Hkept.
  destruct (bool_decide_reflect (c_capacity c < cache_len c /\ k ∈ excess_keys now c))
    as [[Hlt Hin]|?]; [|congruence].
  destruct (bool_decide_reflect (c_capacity c < cache_len c /\ k' ∈ excess_keys now c))
    as [?|B2]; [done|]. clear Hgone.
  assert (k' ∉ excess_keys now c) as Hnin by tauto. clear B2.
  unfold excess_keys in *.
  pose proof (sort_by_sorted (older_first now) _ (older_first_preorder now)
    (btree_entries (c_items c)) ltac:(by apply Forall_forall)) as Hs.
  set (l := sort_by (older_first now) (btree_entries (c_items c))) in *.
  set (n := Z.to_nat (cache_len c - c_capacity c)) in *.
  assert ((k, i) ∈ take n l) as H1.
  { apply list_elem_of_fmap in Hin as ([k0 i0] & -> & Hin). simpl in *.
    assert ((k0, i0) ∈ l) as Hl by (apply elem_of_take in Hin as (? & ?%list_elem_of_lookup_2 & _); done).
    apply elem_of_sort_by, elem_of_btree_entries in Hl. congruence. }
  assert ((k', i') ∈ drop n l) as H2.
  { assert ((k', i') ∈ l) as Hl by (by apply elem_of_sort_by, elem_of_btree_entries).
    rewrite <- (take_drop n l), elem_of_app in Hl. destruct Hl as [Hl|Hl]; [|done].
    destruct Hnin. apply list_elem_of_fmap. by exists (k', i'). }
  rewrite <- (take_drop n l) in Hs.
  pose proof (StronglySorted_app_1_elem_of _ _ _ _ _ Hs H1 H2) as Hle.
  unfold le_by, older_first in Hle. simpl in Hle.
  destruct (Z.compare_spec (item_elapsed now i') (item_elapsed now i)); lia || done.
Qed.

Lemma cache_set_meta r c k v d :
  c_capacity (cache_set r c k v d).1 = c_capacity c /\
  c_item_duration (cache_set r c k v d).1 = c_item_duration c.
Proof.
  unfold cache_set, cache_drop_excess; simpl. by destruct (_ <? _).
Qed.

(** As long as what is left after the sweep fits, nothing but expired items is dropped. *)
Lemma cache_set_fits r c k v d k'
    (item := item_new (r_item r) v (from_option Some (c_item_duration c) d)) :
  cache_len (cache_remove_expired (r_sweep r) (with_items c (<[k := item]> (c_items c)))) <= c_capacity c ->
  c_items (cache_set r c k v d).1 !! k' =
  match <[k := item]> (c_items c) !! k' with
  | Some item => if item_expired (r_sweep r) item then None else Some item
  | None => None
  end.
Proof.
  intros Hsz. unfold cache_set; simpl. rewrite drop_excess_lookup, bool_decide_false.
  - rewrite remove_expired_lookup; simpl. by destruct d.
  - intros [Hlt _]. subst item. destruct d; apply (Z.lt_irrefl (c_capacity c)), (Z.lt_le_trans _ _ _ Hlt Hsz).
Qed.

Lemma remove_expired_size now c : (size (c_items (cache_remove_expired now c)) <= size (c_items c))%nat.
Proof.
  rewrite <- !size_dom. apply subseteq_size. intros x. rewrite !elem_of_dom, remove_expired_lookup.
  intros [y Hy]. destruct (c_items c !! x); [eauto|done].
Qed.

(** So it is below capacity. *)
Lemma cache_set_lookup r c k v d k' :
  Z.of_nat (size (<[k := item_new (r_item r) v d]> (c_items c))) <= c_capacity c ->
  c_items (cache_set r c k v d).1 !! k' =
  match <[k := item_new (r_item r) v (from_option Some (c_item_duration c) d)]> (c_items c) !! k' with
  | Some item => if item_expired (r_sweep r) item then None else Some item
  | None => None
  end.
Proof.
  intros Hsz. apply cache_set_fits. unfold cache_len. etrans; [|exact Hsz]. apply inj_le.
  etrans; [apply remove_expired_size|]. simpl. by rewrite !map_size_insert.
Qed.
End Cache.

Arguments Cache K {_ _} V.

(** ** A cache with a default duration that never overflows remembers exactly the recent keys

    [last_set h k] is the instant at which the history [h] of [set] calls last stored [k], and
    [live h t] the keys that have not expired at [t].  The history [fits] when after none of its
    calls more keys are live than the cache holds; the length of the history does not matter. *)

Section History.
Context {K : Type} `{Countable K, !OrdKey K} (dur : Duration) (capacity : Z).

Definition history : Type := list (K * readings).
Definition last_set (h : history) (k : K) : option Instant :=
  foldl (fun acc e => if decide (e.1 = k) then Some (r_item e.2) else acc) None h.
Fixpoint chronological (t : Instant) (h : history) : Prop :=
  match h with
  | [] => True
  | (_, r) :: h' => t <= r_item r /\ ordered r /\ chronological (r_evict r) h'
  end.
Definition end_time (t : Instant) (h : history) : Instant :=
  foldl (fun _ e => r_evict e.2) t h.
Definition run_sets (c : Cache K unit) (h : history) : Cache K unit :=
  foldl (fun c e => (cache_set e.2 c e.1 tt None).1) c h.

Definition live (h : history) (t : Instant) : gset K :=
  filter (fun k => match last_set h k with Some s => t <=? s + dur | None => false end = true) (list_to_set h.*1).
Definition fits (h : history) : Prop :=
  forall h1 k r h2, h = h1 ++ (k, r) :: h2 ->
    Z.of_nat (size (live (h1 ++ [(k, r)]) (r_sweep r))) <= capacity.

Record tracks (h : history) (c : Cache K unit) (t : Instant) : Prop := {
  tr_item : forall k i, c_items c !! k = Some i ->
    exists s, last_set h k = Some s /\ it_time i = Some (mkItemTime s (s + dur));
  tr_live : forall k s, last_set h k = Some s -> t <= s + dur -> is_Some (c_items c !! k);
  tr_duration : c_item_duration c = Some dur;
  tr_capacity : c_capacity c = capacity;
}.

Lemma last_set_snoc h k r k' :
  last_set (h ++ [(k, r)]) k' = if decide (k = k') then Some (r_item r) else last_set h k'.
Proof. unfold last_set. by rewrite foldl_app. Qed.

Lemma last_set_in h k s : last_set h k = Some s -> k ∈ h.*1.
Proof.
  induction h as [|[k' r] h IH] using rev_ind; [done|]. rewrite last_set_snoc, fmap_app, elem_of_app.
  case_decide as E; [subst; right; by left|]. auto.
Qed.

Lemma tracks_new t : tracks [] (cache_with_expiry_duration_and_capacity dur capacity) t.
Proof.
  split; unfold cache_with_expiry_duration_and_capacity; simpl; done.
Qed.

(** The answer of [set]: the key was known and had not expired. *)
Lemma tracks_replaced h c t k r :
  tracks h c t -> t <= r_item r -> ordered r ->
  is_Some (cache_set r c k tt None).2 <->
  exists s, last_set h k = Some s /\ r_replaced r <= s + dur.
Proof.
  intros [Hi Hl Hd Hc] Ht (H1 & H2 & H3). unfold cache_set; simpl.
  destruct (c_items c !! k) as [i|] eqn:Hk.
  - destruct (Hi _ _ Hk) as (s & Hls & Hit). rewrite Hls.
    unfold item_expired. rewrite Hit; simpl.
    destruct (Z.ltb_spec (s + dur) (r_replaced r)); split.
    + by intros [? ?].
    + intros (s' & [= <-] & ?). lia.
    + eauto.
    + done.
  - split; [by intros [? ?]|]. intros (s & Hls & Hr).
    destruct (Hl _ _ Hls ltac:(lia)) as [i Hi']. congruence.
Qed.

(** what is left after the sweep of a [set] is live *)
Lemma tracks_fits h c t k r :
  tracks h c t -> Z.of_nat (size (live (h ++ [(k, r)]) (r_sweep r))) <= capacity ->
  cache_len (cache_remove_expired (r_sweep r)
    (with_items c (<[k := item_new (r_item r) tt (Some dur)]> (c_items c)))) <= capacity.
Proof.
  intros [Hi _ _ _] Hl. etrans; [|exact Hl]. unfold cache_len. apply inj_le.
  rewrite <- size_dom. apply subseteq_size. intros x. rewrite elem_of_dom, remove_expired_lookup. simpl.
  assert (forall s, last_set (h ++ [(k, r)]) x = Some s -> r_sweep r <= s + dur ->
    x ∈ live (h ++ [(k, r)]) (r_sweep r)) as Hin.
  { intros s Hs Hle. apply elem_of_filter. split; [rewrite Hs; by apply Z.leb_le|].
    apply elem_of_list_to_set. by eapply last_set_in. }
  rewrite last_set_snoc in Hin. intros [y Hy]. revert Hy. destruct (decide (k = x)) as [->|Hne].
  - rewrite lookup_insert_eq. unfold item_expired; simpl.
    destruct (Z.ltb_spec (r_item r + dur) (r_sweep r)); [done|]. intros _. by eapply Hin.
  - rewrite lookup_insert_ne by done. destruct (c_items c !! x) as [i|] eqn:Hk; [|done].
    destruct (Hi _ _ Hk) as (s & Hs & Hit). unfold item_expired. rewrite Hit; simpl.
    destruct (Z.ltb_spec (s + dur) (r_sweep r)); [done|]. intros _. by eapply Hin.
Qed.

Lemma tracks_set h c t k r :
  0 <= dur -> tracks h c t -> t <= r_item r -> ordered r ->
  Z.of_nat (size (live (h ++ [(k, r)]) (r_sweep r))) <= capacity ->
  tracks (h ++ [(k, r)]) (cache_set r c k tt None).1 (r_evict r).
Proof.
  intros Hdur Htr Ht (H1 & H2 & H3) Hcap. pose proof (tracks_fits h c t k r Htr Hcap) as Hf.
  destruct Htr as [Hi Hl Hd Hc]. pose proof (fun k' => cache_set_fits r c k tt None k') as Hlk. cbn [from_option] in Hlk.
  rewrite Hd, Hc in Hlk. specialize (fun k' => Hlk k' Hf).
  pose proof (cache_set_meta r c k tt None) as [Hm1 Hm2].
  split; [| |by rewrite Hm2|by rewrite Hm1].
  - intros k' i. rewrite Hlk, last_set_snoc. case_decide as E; [subst k'|].
    + rewrite lookup_insert_eq. case_match; [done|]. intros [= <-]. eauto.
    + rewrite lookup_insert_ne by done. destruct (c_items c !! k') as [i'|] eqn:Hk; [|done].
      case_match; [done|]. intros [= <-]. by apply Hi.
  - intros k' s. rewrite Hlk, last_set_snoc. case_decide as E; [subst k'|]; intros Hs' Hle.
    + simplify_eq. rewrite lookup_insert_eq. unfold item_expired; simpl.
      destruct (Z.ltb_spec (r_item r + dur) (r_sweep r)); [lia|]. done.
    + rewrite lookup_insert_ne by done.
      destruct (Hl _ _ Hs' ltac:(lia)) as [i Hk]. rewrite Hk.
      destruct (Hi _ _ Hk) as (s' & Hls & Hit). assert (s' = s) as -> by congruence.
      unfold item_expired. rewrite Hit; simpl.
      destruct (Z.ltb_spec (s + dur) (r_sweep r)); [lia|]. done.
Qed.

Lemma tracks_run h c t :
  0 <= dur -> tracks [] c t -> chronological t h -> fits h -> tracks h (run_sets c h) (end_time t h).
Proof.
  intros Hdur Htr. induction h as [|[k r] h IH] using rev_ind; intros Hch Hf; [done|].
  assert (chronological t h /\ end_time t h <= r_item r /\ ordered r) as (Hch' & Hle & Ho).
  { clear -Hch. revert t Hch; induction h as [|[k' r'] h IH]; simpl; intros t; [naive_solver|].
    intros (H1 & H2 & H3%IH). naive_solver. }
  unfold run_sets, end_time. rewrite !foldl_app. simpl.
  eapply tracks_set; [done|apply IH|done|done|]; [done| |].
  - intros h1 k' r' h2 ->. apply (Hf h1 k' r' (h2 ++ [(k, r)])). by rewrite <- app_assoc.
  - by apply (Hf h k r []).
Qed.

(** A history no longer than the capacity fits. *)
Lemma short_fits h : Z.of_nat (length h) <= capacity -> fits h.
Proof.
  intros Hl h1 k r h2 ->. etrans; [|exact Hl]. apply inj_le. unfold live.
  etrans; [apply subseteq_size; intros x Hx; by apply elem_of_filter in Hx as [_ Hx]|].
  transitivity (length (h1 ++ [(k, r)]).*1); [|rewrite length_fmap, !length_app; simpl; lia].
  generalize (h1 ++ [(k, r)]).*1 as l. intros l. induction l as [|x l IHl].
  - by rewrite (list_to_set_nil (C := gset K)), (size_empty (C := gset K)).
  - rewrite (list_to_set_cons (C := gset K)), size_union_alt, size_singleton. cbn [length]. apply le_n_S.
    etrans; [|exact IHl]. apply subseteq_size. set_solver.
Qed.

(** Refinement: the answer of [set] is the one of the abstract history. *)
Lemma set_refines_history h k r :
  0 <= dur -> chronological 0 h -> end_time 0 h <= r_item r -> ordered r -> fits h ->
  is_Some (cache_set r (run_sets (cache_with_expiry_duration_and_capacity dur capacity) h)
    k tt None).2 <->
  exists s, last_set h k = Some s /\ r_replaced r <= s + dur.
Proof.
  intros Hdur Hch Het Ho Hf. eapply tracks_replaced; [|done|done].
  apply tracks_run; [done|apply tracks_new|done|done].
Qed.
End History.

(** ** Claims *)

Section Claims.
Context {K : Type} `{Countable K, !OrdKey K} {V : Type}.

(** Capacity-based eviction: after [set] the cache holds at most [capacity] items, whatever
    it held before, and an item evicted by [drop_excess] has been there at least as long as
    every item that stays. *)
Theorem cache_set_bounded (r : readings) (c : Cache K V) (k : K) (v : V) (d : option Duration) :
  0 <= c_capacity c ->
  cache_len (cache_set r c k v d).1 <= c_capacity c /\
  forall now c' k1 i1 k2 i2,
    c_items c' !! k1 = Some i1 -> c_items (cache_drop_excess now c') !! k1 = None ->
    c_items (cache_drop_excess now c') !! k2 = Some i2 ->
    item_elapsed now (i2 : Item V) <= item_elapsed now i1.
Proof.
  intros Hc. split.
  - unfold cache_set; simpl. rewrite drop_excess_size; [|done]. simpl. lia.
  - intros now c' k1 i1 k2 i2. apply drop_excess_oldest.
Qed.

(** What [set] and [get] agree on while there is room: the value just set is returned by
    [get] until its duration has passed, every other key answers as before unless it expired,
    and [set] returns the value it replaced exactly when [get] would have returned it. *)
Theorem cache_get_after_set (r : readings) (c : Cache K V) (k : K) (v : V) (d : Duration)
    (now : Instant) (k' : K) :
  Z.of_nat (S (size (c_items c))) <= c_capacity c -> r_sweep r <= now ->
  cache_get now (cache_set r c k v (Some d)).1 k' =
    (if decide (k = k') then (if r_item r + d <? now then None else Some v)
     else cache_get now c k') /\
  (cache_set r c k v (Some d)).2 = cache_get (r_replaced r) c k.
Proof.
  intros Hc Hnow. split; [|done]. unfold cache_get.
  rewrite cache_set_lookup.
  - simpl. case_decide as E; [subst k'|].
    + rewrite lookup_insert_eq. unfold item_expired at 1; simpl.
      destruct (Z.ltb_spec (r_item r + d) (r_sweep r)).
      * destruct (Z.ltb_spec (r_item r + d) now); [done|lia].
      * unfold item_expired; simpl. done.
    + rewrite lookup_insert_ne by done. destruct (c_items c !! k') as [i|]; [|done].
      destruct (item_expired (r_sweep r) i) eqn:E1; [|done].
      unfold item_expired in *. destruct (it_time i) as [t|]; [|done].
      destruct (Z.ltb_spec (it_expiry t) now); [done|]. apply Z.ltb_lt in E1. lia.
  - pose proof (map_size_insert k (item_new (r_item r) v (Some d)) (c_items c)) as E. rewrite E.
    destruct (c_items c !! k); simpl in *; lia.
Qed.
End Claims.

(** A cache built by [with_capacity] keeps no times, so all items have the same age and
    the eviction takes the smallest keys, not the oldest entries the documentation of [set]
    promises: setting a key below all stored ones into a full cache evicts that very key. *)
Theorem capacity_cache_evicts_smallest :
  let r := mkReadings 0 0 0 0 in
  let full := (cache_set r (cache_set r (cache_with_capacity 2) 5 0%nat None).1 7 1%nat None).1 in
  let c := (cache_set r full 3 2%nat None).1 in
  cache_get 0 c 3 = None /\ cache_get 0 c 5 = Some 0%nat /\ cache_get 0 c 7 = Some 1%nat.
Proof. vm_compute. done. Qed.

Module CacheWitness.

Definition full : Cache Z nat :=
  (cache_set (mkReadings 0 0 0 0) (cache_with_expiry_duration_and_capacity 100 2) 5 0%nat None).1.

Lemma cache_set_bounded_witness :
  0 <= c_capacity full /\ cache_len (cache_set (mkReadings 1 1 1 1) full 7 1%nat None).1 <= 2.
Proof.
  split; [done|].
  exact (proj1 (cache_set_bounded (mkReadings 1 1 1 1) full 7 1%nat None ltac:(done))).
Defined.

Lemma cache_get_after_set_witness :
  Z.of_nat (S (size (c_items full))) <= c_capacity full /\
  cache_get 10 (cache_set (mkReadings 1 1 1 1) full 7 1%nat (Some 50)).1 5 = Some 0%nat.
Proof.
  split; [vm_compute; discriminate|].
  rewrite (proj1 (cache_get_after_set (mkReadings 1 1 1 1) full 7 1%nat 50 10 5
    ltac:(vm_compute; discriminate) ltac:(vm_compute; discriminate))).
  vm_compute. reflexivity.
Defined.

End CacheWitness.
