(* ===== verification/SectionPeers.v ===== *)
(** * The members of our section (src/section/section_peers.rs)

    [SectionPeers] maps names to signed node states.  [update] only lets a member move forward
    in the order Joined, Relocated, Left; the theorems show that this makes the outcome
    independent of the order in which the updates arrive, and that the elder candidates are
    the best of the active members. *)

From stdpp Require Import base tactics list gmap sorting.
From Stdlib Require Import ZArith Lia.
From S2P Require Import Prelude Names Crates Types.

Section SectionPeers.
Context `{CR : Crates}.

Abbreviation SignedNodeState := (SectionSigned NodeState).

Record SectionPeers : Type := mkSectionPeers { members : gmap XorName SignedNodeState }.

#[global] Instance SectionPeers_eq_dec : EqDecision SectionPeers.
Proof. solve_decision. Defined.

Definition peers_default : SectionPeers := mkSectionPeers ∅.

(** the name of a member *)
Definition info_name (info : SignedNodeState) : XorName := peer_name (ns_peer (ss_value info)).
Definition info_state (info : SignedNodeState) : MembershipState := ns_state (ss_value info).
Definition info_age (info : SignedNodeState) : Z := peer_age (ns_peer (ss_value info)).

(** ** Queries *)

(** the values in key order *)
Definition infos (sp : SectionPeers) : list SignedNodeState := btree_values (members sp).
Definition peers_all (sp : SectionPeers) : list NodeState := ss_value <$> infos sp.
Definition peers_joined (sp : SectionPeers) : list NodeState :=
  List.filter (fun member => bool_decide (ns_state member = Joined)) (peers_all sp).
Definition peers_mature (sp : SectionPeers) : list Peer :=
  ns_peer <$> List.filter node_state_is_mature (peers_joined sp).
Definition peers_get (sp : SectionPeers) (name : XorName) : option NodeState :=
  ss_value <$> members sp !! name.
Definition peers_get_section_signed (sp : SectionPeers) (name : XorName) : option SignedNodeState :=
  members sp !! name.
Definition peers_is_joined (sp : SectionPeers) (name : XorName) : bool :=
  match members sp !! name with
  | Some info => bool_decide (info_state info = Joined)
  | None => false
  end.

(** ** Elder candidates *)

Definition is_elder (info : NodeState) (current_elders : SectionAuthorityProvider) : bool :=
  sap_contains_elder current_elders (peer_name (ns_peer info)).

Definition is_active (info : NodeState) (current_elders : SectionAuthorityProvider) : bool :=
  match ns_state info with
  | Joined => true
  | Relocated _ => is_elder info current_elders
  | Left => false
  end.

Definition cmp_elder_candidates_by_membership_state (lhs rhs : MembershipState) : comparison :=
  match lhs, rhs with
  | Joined, Joined | Relocated _, Relocated _ => Eq
  | Joined, Relocated _ | _, Left => Lt
  | Relocated _, Joined | Left, _ => Gt
  end.

Definition cmp_elder_first (lhs rhs : SignedNodeState) (current_elders : SectionAuthorityProvider) :
    comparison :=
  match is_elder (ss_value lhs) current_elders, is_elder (ss_value rhs) current_elders with
  | true, false => Lt
  | false, true => Gt
  | _, _ => Eq
  end.

Definition cmp_elder_candidates (lhs rhs : SignedNodeState)
    (current_elders : SectionAuthorityProvider) : comparison :=
  then_with (cmp_elder_candidates_by_membership_state (info_state lhs) (info_state rhs))
    (then_with (Z.compare (info_age rhs) (info_age lhs))
      (then_with (cmp_elder_first lhs rhs current_elders)
        (sig_cmp (signed_signature (ss_signed lhs)) (signed_signature (ss_signed rhs))))).

Definition elder_candidates_of (elder_size : nat) (current_elders : SectionAuthorityProvider)
    (ms : list SignedNodeState) : list Peer :=
  take elder_size
    ((fun info => ns_peer (ss_value info)) <$>
      sort_by (fun lhs rhs => cmp_elder_candidates lhs rhs current_elders) ms).

Definition active_infos (sp : SectionPeers) (current_elders : SectionAuthorityProvider) :
    list SignedNodeState :=
  List.filter (fun info => peer_is_reachable (ns_peer (ss_value info)))
    (List.filter (fun info => is_active (ss_value info) current_elders) (infos sp)).

Definition peers_elder_candidates (sp : SectionPeers) (elder_size : nat)
    (current_elders : SectionAuthorityProvider) : list Peer :=
  elder_candidates_of elder_size current_elders (active_infos sp current_elders).

Definition prefix_infos (sp : SectionPeers) (prefix : Prefix) : list SignedNodeState :=
  List.filter (fun info =>
      bool_decide (info_state info = Joined) && matches prefix (info_name info) &&
      peer_is_reachable (ns_peer (ss_value info)))
    (infos sp).

Definition peers_elder_candidates_matching_prefix (sp : SectionPeers) (prefix : Prefix)
    (elder_size : nat) (current_elders : SectionAuthorityProvider) : list Peer :=
  elder_candidates_of elder_size current_elders (prefix_infos sp prefix).

(** ** Updates *)

(** the allowed transitions, with the ages of the old and the new record *)
Definition transition_allowed (old new : SignedNodeState) : bool :=
  match info_state old, info_state new with
  | Joined, Joined => (info_age old <? info_age new)%Z
  | Joined, Left | Joined, Relocated _ | Relocated _, Left => true
  | _, _ => false
  end.

Definition peers_update (sp : SectionPeers) (new_info : SignedNodeState) : SectionPeers * bool :=
  match members sp !! info_name new_info with
  | None => (mkSectionPeers (<[info_name new_info := new_info]> (members sp)), true)
  | Some old =>
      if transition_allowed old new_info
      then (mkSectionPeers (<[info_name new_info := new_info]> (members sp)), true)
      else (sp, false)
  end.

Definition peers_prune_not_matching (sp : SectionPeers) (prefix : Prefix) : SectionPeers :=
  mkSectionPeers (filter (fun e => matches prefix e.1 = true) (members sp)).

(** a sequence of updates *)
Definition peers_updates (sp : SectionPeers) (l : list SignedNodeState) : SectionPeers :=
  foldl (fun sp i => (peers_update sp i).1) sp l.

(** ** Well-formedness: every record is stored under its own name *)

Definition peers_wf (sp : SectionPeers) : Prop :=
  forall n info, members sp !! n = Some info -> info_name info = n.

Lemma peers_default_wf : peers_wf peers_default.
Proof. intros n i. unfold peers_default; simpl. by rewrite lookup_empty. Qed.

Lemma update_wf sp i : peers_wf sp -> peers_wf (peers_update sp i).1.
Proof.
  intros Hwf. unfold peers_update. repeat case_match; simpl; try done.
  all: intros n j; simpl; intros [[<- <-]|[? ?]]%lookup_insert_Some; auto.
Qed.

Lemma updates_wf sp l : peers_wf sp -> peers_wf (peers_updates sp l).
Proof.
  unfold peers_updates. revert sp; induction l as [|i l IH]; intros sp Hwf; simpl; [done|].
  by apply IH, update_wf.
Qed.

Lemma prune_wf sp p : peers_wf sp -> peers_wf (peers_prune_not_matching sp p).
Proof. intros Hwf n i [Hl _]%map_lookup_filter_Some. by apply Hwf. Qed.

Lemma peers_prune_lookup sp p n :
  members (peers_prune_not_matching sp p) !! n =
  if matches p n then members sp !! n else None.
Proof.
  unfold peers_prune_not_matching; simpl. rewrite map_lookup_filter.
  destruct (members sp !! n) as [i|]; simpl; destruct (matches p n) eqn:E; simpl; try done.
  all: case_guard; simpl; congruence.
Qed.

Lemma elem_of_infos sp i : peers_wf sp -> i ∈ infos sp <-> members sp !! info_name i = Some i.
Proof.
  intros Hwf. unfold infos. rewrite elem_of_btree_values. split; [|eauto].
  intros [n Hn]. pose proof (Hwf _ _ Hn). by subst.
Qed.

Lemma elem_of_infos_ex sp i : i ∈ infos sp <-> exists n, members sp !! n = Some i.
Proof. apply elem_of_btree_values. Qed.

Lemma infos_names sp : peers_wf sp -> info_name <$> infos sp = btree_keys (members sp).
Proof.
  intros Hwf. unfold infos, btree_values, btree_keys. rewrite <- list_fmap_compose.
  apply list_fmap_ext. intros k [n i] Hin%list_elem_of_lookup_2. simpl.
  apply elem_of_btree_entries in Hin. by apply Hwf.
Qed.

Lemma infos_NoDup sp : peers_wf sp -> NoDup (info_name <$> infos sp).
Proof. intros Hwf. rewrite infos_names by done. apply NoDup_btree_keys. Qed.

Lemma elem_of_joined sp s :
  s ∈ peers_joined sp <-> s ∈ peers_all sp /\ ns_state s = Joined.
Proof.
  unfold peers_joined. rewrite !list_elem_of_In, filter_In, bool_decide_eq_true. done.
Qed.

Lemma elem_of_all sp s : s ∈ peers_all sp <-> exists n i, members sp !! n = Some i /\ ss_value i = s.
Proof.
  unfold peers_all. rewrite list_elem_of_fmap. setoid_rewrite elem_of_infos_ex. naive_solver.
Qed.

Lemma elem_of_mature sp p :
  p ∈ peers_mature sp <->
  exists n i, members sp !! n = Some i /\ ns_peer (ss_value i) = p /\
    info_state i = Joined /\ (MIN_AGE < info_age i)%Z.
Proof.
  unfold peers_mature. rewrite list_elem_of_fmap. split.
  - intros (s & -> & Hin%list_elem_of_In). apply filter_In in Hin as [Hin Hm].
    apply list_elem_of_In, elem_of_joined in Hin as [Hin Hj].
    apply elem_of_all in Hin as (n & i & Hl & <-). exists n, i.
    unfold node_state_is_mature in Hm. apply Z.ltb_lt in Hm. done.
  - intros (n & i & Hl & <- & Hj & Hm). exists (ss_value i). split; [done|].
    apply list_elem_of_In, filter_In. split; [|by apply Z.ltb_lt].
    apply list_elem_of_In, elem_of_joined. split; [|done]. apply elem_of_all. eauto.
Qed.

(** ** The order of updates does not matter *)

Definition rank (s : MembershipState) : nat :=
  match s with Joined => 0 | Relocated _ => 1 | Left => 2 end.
Definition info_rank (i : SignedNodeState) : nat := rank (info_state i).

Lemma transition_rank old new :
  info_name old = info_name new ->
  transition_allowed old new = true <-> info_rank old < info_rank new.
Proof.
  intros Hn. unfold transition_allowed, info_rank, info_age, peer_age.
  unfold info_name in Hn. rewrite Hn, Z.ltb_irrefl.
  destruct (info_state old), (info_state new); simpl; split; (lia || done).
Qed.

(** The record kept for a name after an update. *)
Definition newer (old : option SignedNodeState) (new : SignedNodeState) : option SignedNodeState :=
  match old with
  | Some o => if decide (info_rank o < info_rank new) then Some new else Some o
  | None => Some new
  end.

Lemma update_lookup sp i n :
  peers_wf sp ->
  members (peers_update sp i).1 !! n =
  if decide (info_name i = n) then newer (members sp !! n) i else members sp !! n.
Proof.
  intros Hwf. unfold peers_update, newer.
  destruct (members sp !! info_name i) as [o|] eqn:Ho.
  - pose proof (transition_rank o i (Hwf _ _ Ho)) as Ht.
    destruct (transition_allowed o i) eqn:Ha; case_decide as E; simpl.
    + subst n. rewrite lookup_insert_eq, Ho, decide_True; [done|by apply Ht].
    + by rewrite lookup_insert_ne.
    + subst n. rewrite Ho, decide_False; [done|]. intros Hlt. apply Ht in Hlt. done.
    + done.
  - case_decide as E; simpl; [subst n; by rewrite lookup_insert_eq, Ho|by rewrite lookup_insert_ne].
Qed.

Lemma update_changed sp i :
  peers_wf sp ->
  (peers_update sp i).2 = true <-> members (peers_update sp i).1 !! info_name i <> members sp !! info_name i.
Proof.
  intros Hwf. rewrite update_lookup, decide_True by done. unfold peers_update, newer.
  destruct (members sp !! info_name i) as [o|] eqn:Ho; [|done].
  pose proof (transition_rank o i (Hwf _ _ Ho)) as Ht.
  destruct (transition_allowed o i) eqn:Ha; simpl.
  - rewrite decide_True by (by apply Ht). split; [|done]. intros _ [= ->].
    assert (info_rank o < info_rank o) by (by apply Ht). lia.
  - rewrite decide_False; [done|]. intros Hlt. apply Ht in Hlt. done.
Qed.

(** The record of a name after a sequence of updates is one of those offered for it, and none
    of them has a higher rank. *)
Lemma updates_lookup sp l n :
  peers_wf sp ->
  match members (peers_updates sp l) !! n with
  | Some i =>
      (members sp !! n = Some i \/ (i ∈ l /\ info_name i = n)) /\
      (forall j, members sp !! n = Some j -> info_rank j <= info_rank i) /\
      (forall j, j ∈ l -> info_name j = n -> info_rank j <= info_rank i)
  | None => members sp !! n = None /\ forall j, j ∈ l -> info_name j <> n
  end.
Proof.
  unfold peers_updates. revert sp; induction l as [|a l IH]; intros sp Hwf; simpl.
  - destruct (members sp !! n) as [i|] eqn:E.
    + split; [by left|]. split; [by intros j [= ->]|]. intros j Hj. by apply not_elem_of_nil in Hj.
    + split; [done|]. intros j Hj. by apply not_elem_of_nil in Hj.
  - specialize (IH (peers_update sp a).1 (update_wf sp a Hwf)).
    rewrite update_lookup in IH by done.
    destruct (members (foldl _ _ l) !! n) as [i|].
    + destruct IH as (H1 & H2 & H3). case_decide as E.
      * unfold newer in *. destruct (members sp !! n) as [o|] eqn:Eo.
        -- case_decide as Er.
           ++ specialize (H2 _ eq_refl). split; [|split].
              ** destruct H1 as [[= ->]|[? ?]]; [right|right]; [|set_solver]. split; [left|done].
              ** intros j [= <-]. lia.
              ** intros j [->|Hj]%elem_of_cons; auto.
           ++ specialize (H2 _ eq_refl). split; [|split].
              ** destruct H1 as [[= ->]|[? ?]]; [left; done|right; set_solver].
              ** intros j [= <-]. lia.
              ** intros j [->|Hj]%elem_of_cons Hn; [lia|auto].
        -- specialize (H2 _ eq_refl). split; [|split; [done|]].
           ++ destruct H1 as [[= ->]|[? ?]]; right; [|set_solver]. split; [left|done].
           ++ intros j [->|Hj]%elem_of_cons Hn; auto.
      * split; [|split]; [|done|].
        -- destruct H1 as [?|[? ?]]; [by left|right; set_solver].
        -- intros j [->|Hj]%elem_of_cons Hn; [done|auto].
    + destruct IH as [H1 H2]. case_decide as E.
      * unfold newer in H1. destruct (members sp !! n); [by case_decide|done].
      * split; [done|]. intros j [->|Hj]%elem_of_cons; auto.
Qed.

(** Ranks only depend on what was offered, not on the order. *)
Lemma updates_rank_perm sp l l' n :
  peers_wf sp -> l ≡ₚ l' ->
  info_rank <$> members (peers_updates sp l) !! n = info_rank <$> members (peers_updates sp l') !! n.
Proof.
  intros Hwf Hp.
  pose proof (updates_lookup sp l n Hwf) as H1. pose proof (updates_lookup sp l' n Hwf) as H2.
  destruct (members (peers_updates sp l) !! n) as [i|], (members (peers_updates sp l') !! n) as [j|];
    simpl; try done.
  - f_equal. destruct H1 as (S1 & A1 & B1), H2 as (S2 & A2 & B2). apply Nat.le_antisymm.
    + destruct S1 as [S1|[S1 S1']]; [by apply A2|]. apply B2; [by rewrite <- Hp|done].
    + destruct S2 as [S2|[S2 S2']]; [by apply A1|]. apply B1; [by rewrite Hp|done].
  - destruct H1 as ([S1|[S1 S1']] & _ & _), H2 as [H2 H3]; [congruence|].
    rewrite Hp in S1. by apply H3 in S1.
  - destruct H2 as ([S1|[S1 S1']] & _ & _), H1 as [H2 H3]; [congruence|].
    rewrite <- Hp in S1. by apply H3 in S1.
Qed.

(** the records of a name: the one stored and those that arrive *)
Definition offered (sp : SectionPeers) (l : list SignedNodeState) (n : XorName) (i : SignedNodeState) : Prop :=
  members sp !! n = Some i \/ (i ∈ l /\ info_name i = n).

(** no two of them relocate the member to different destinations *)
Definition one_destination (sp : SectionPeers) (l : list SignedNodeState) (n : XorName) : Prop :=
  forall i j d d', offered sp l n i -> offered sp l n j ->
    info_state i = Relocated d -> info_state j = Relocated d' -> d = d'.

Lemma offered_perm sp l l' n i : l ≡ₚ l' -> offered sp l n i <-> offered sp l' n i.
Proof. intros Hp. unfold offered. by rewrite Hp. Qed.

Lemma updates_offered sp l n :
  peers_wf sp ->
  match members (peers_updates sp l) !! n with
  | Some i => offered sp l n i /\ forall j, offered sp l n j -> info_rank j <= info_rank i
  | None => forall j, ~ offered sp l n j
  end.
Proof.
  intros Hwf. pose proof (updates_lookup sp l n Hwf) as H. unfold offered.
  destruct (members (peers_updates sp l) !! n) as [i|]; naive_solver.
Qed.

Lemma updates_state_perm sp l l' n :
  peers_wf sp -> l ≡ₚ l' -> one_destination sp l n ->
  info_state <$> members (peers_updates sp l) !! n = info_state <$> members (peers_updates sp l') !! n.
Proof.
  intros Hwf Hp Hd. pose proof (updates_rank_perm sp l l' n Hwf Hp) as Hr.
  pose proof (updates_offered sp l n Hwf) as H1. pose proof (updates_offered sp l' n Hwf) as H2.
  destruct (members (peers_updates sp l) !! n) as [i|], (members (peers_updates sp l') !! n) as [j|]; try done.
  simpl in *. f_equal. injection Hr as Hr. destruct H1 as [H1 _], H2 as [H2%(offered_perm sp l l') _]; [|done].
  unfold info_rank in Hr. destruct (info_state i) eqn:Ei, (info_state j) eqn:Ej; simpl in Hr; try done.
  f_equal. by apply (Hd i j).
Qed.

(** No two different records share a name and a rank. *)
Definition unambiguous (sp : SectionPeers) (l : list SignedNodeState) : Prop :=
  forall i j, (i ∈ l \/ i ∈ infos sp) -> (j ∈ l \/ j ∈ infos sp) ->
    info_name i = info_name j -> info_rank i = info_rank j -> i = j.

Lemma updates_perm sp l l' :
  peers_wf sp -> unambiguous sp l -> l ≡ₚ l' -> peers_updates sp l = peers_updates sp l'.
Proof.
  intros Hwf Hu Hp.
  cut (members (peers_updates sp l) = members (peers_updates sp l')).
  { destruct (peers_updates sp l), (peers_updates sp l'); simpl; by intros ->. }
  apply map_eq. intros n.
  pose proof (updates_rank_perm sp l l' n Hwf Hp) as Hr.
  pose proof (updates_lookup sp l n Hwf) as H1. pose proof (updates_lookup sp l' n Hwf) as H2.
  destruct (members (peers_updates sp l) !! n) as [i|], (members (peers_updates sp l') !! n) as [j|];
    simpl in *; try done. f_equal.
  destruct H1 as (S1 & _), H2 as (S2 & _). injection Hr as Hr.
  assert ((i ∈ l \/ i ∈ infos sp) /\ info_name i = n) as [I1 I2].
  { destruct S1 as [S1|[S1 S1']]; [|auto]. pose proof (Hwf _ _ S1). split; [|done].
    right. apply elem_of_infos_ex. eauto. }
  assert ((j ∈ l \/ j ∈ infos sp) /\ info_name j = n) as [J1 J2].
  { destruct S2 as [S2|[S2 S2']]; [|split; [left; by rewrite Hp|done]].
    pose proof (Hwf _ _ S2). split; [|done]. right. apply elem_of_infos_ex. eauto. }
  apply Hu; auto. congruence.
Qed.

(** ** Candidates *)

Lemma elem_of_active_infos sp e i :
  i ∈ active_infos sp e <->
  i ∈ infos sp /\ is_active (ss_value i) e = true /\ peer_reachable (ns_peer (ss_value i)) = true.
Proof.
  unfold active_infos, peer_is_reachable. rewrite !list_elem_of_In, !filter_In. tauto.
Qed.

Lemma elem_of_prefix_infos sp p i :
  i ∈ prefix_infos sp p <->
  i ∈ infos sp /\ info_state i = Joined /\ matches p (info_name i) = true /\
  peer_reachable (ns_peer (ss_value i)) = true.
Proof.
  unfold prefix_infos, peer_is_reachable. rewrite !list_elem_of_In, filter_In.
  rewrite !andb_true_iff, bool_decide_eq_true. tauto.
Qed.

Lemma length_elder_candidates_of k e ms :
  length (elder_candidates_of k e ms) = k `min` length ms.
Proof. unfold elder_candidates_of. by rewrite length_take, length_fmap, length_sort_by. Qed.

Lemma elem_of_elder_candidates_of k e ms p :
  p ∈ elder_candidates_of k e ms -> exists i, i ∈ ms /\ ns_peer (ss_value i) = p.
Proof.
  unfold elder_candidates_of. rewrite <- fmap_take.
  intros (i & -> & Hin)%list_elem_of_fmap. exists i. split; [|done].
  apply elem_of_take in Hin as (? & Hin%list_elem_of_lookup_2 & _).
  by apply elem_of_sort_by in Hin.
Qed.

Lemma NoDup_filter_names (f : SignedNodeState -> bool) l :
  NoDup (info_name <$> l) -> NoDup (info_name <$> List.filter f l).
Proof.
  induction l as [|i l IH]; simpl; [done|]. intros [Hi Hnd]%NoDup_cons.
  destruct (f i); simpl; [|auto]. apply NoDup_cons. split; [|auto].
  intros (j & E & Hj%list_elem_of_In)%list_elem_of_fmap. apply filter_In in Hj as [Hj _].
  apply Hi, list_elem_of_fmap. exists j. split; [done|by apply list_elem_of_In].
Qed.

Lemma NoDup_elder_candidates_of k e ms :
  NoDup (info_name <$> ms) -> NoDup (peer_name <$> elder_candidates_of k e ms).
Proof.
  intros Hnd. unfold elder_candidates_of. rewrite fmap_take. apply NoDup_take.
  rewrite <- list_fmap_compose.
  change (compose peer_name _) with info_name.
  rewrite sort_by_perm. done.
Qed.

Lemma active_infos_NoDup sp e : peers_wf sp -> NoDup (info_name <$> active_infos sp e).
Proof. intros Hwf. by apply NoDup_filter_names, NoDup_filter_names, infos_NoDup. Qed.

Lemma prefix_infos_NoDup sp p : peers_wf sp -> NoDup (info_name <$> prefix_infos sp p).
Proof. intros Hwf. by apply NoDup_filter_names, infos_NoDup. Qed.

Lemma cmp_elder_candidates_lawful `{!SigOrder} e :
  cmp_lawful_on (fun i => info_state i <> Left) (fun i j => cmp_elder_candidates i j e).
Proof.
  unfold cmp_elder_candidates. apply cmp_lawful_then; [|apply cmp_lawful_then; [|apply cmp_lawful_then]].
  - split; intros i j; [|intros k]; intros;
      destruct (info_state i), (info_state j); try destruct (info_state k); simpl in *; congruence.
  - apply (cmp_lawful_flip _ (fun x y => Z.compare (info_age x) (info_age y))).
    apply (cmp_lawful_key (K := Z) _ info_age).
  - unfold cmp_elder_first. split; intros i j; [|intros k]; intros;
      destruct (is_elder (ss_value i) e), (is_elder (ss_value j) e); try done;
      destruct (is_elder (ss_value k) e); done.
  - apply (cmp_lawful_key (K := BlsSignature) _ (fun i => signed_signature (ss_signed i))).
Qed.

(** No member that is left out compares better than one that is chosen. *)
Lemma elder_candidates_of_best `{!SigOrder} k e ms i j :
  NoDup (info_name <$> ms) -> (forall x, x ∈ ms -> info_state x <> Left) ->
  i ∈ ms -> ns_peer (ss_value i) ∈ elder_candidates_of k e ms ->
  j ∈ ms -> ns_peer (ss_value j) ∉ elder_candidates_of k e ms ->
  cmp_elder_candidates i j e <> Gt.
Proof.
  intros Hnd Hact Hi Hin Hj Hout. unfold elder_candidates_of in *. rewrite <- fmap_take in Hin, Hout.
  set (cmp := fun lhs rhs => cmp_elder_candidates lhs rhs e) in *.
  assert (StronglySorted (le_by cmp) (sort_by cmp ms)) as Hs.
  { apply (sort_by_sorted cmp (fun i => info_state i <> Left)).
    - apply cmp_lawful_preorder, cmp_elder_candidates_lawful.
    - apply Forall_forall. exact Hact. }
  rewrite <- (take_drop k (sort_by cmp ms)) in Hs.
  apply (StronglySorted_app_1_elem_of _ _ _ i j Hs).
  - apply list_elem_of_fmap in Hin as (i' & E & Hin).
    assert (i' ∈ ms) as Hi'.
    { apply elem_of_take in Hin as (? & Hin%list_elem_of_lookup_2 & _). by apply elem_of_sort_by in Hin. }
    assert (i = i') as ->; [|done].
    apply list_elem_of_lookup in Hi as [x Hx], Hi' as [y Hy].
    assert (x = y) as ->; [|congruence].
    eapply (NoDup_lookup _ x y (info_name i) Hnd); rewrite list_lookup_fmap.
    + by rewrite Hx.
    + rewrite Hy; simpl. unfold info_name. by rewrite E.
  - assert (j ∈ sort_by cmp ms) as Hj' by (by apply elem_of_sort_by).
    rewrite <- (take_drop k (sort_by cmp ms)), elem_of_app in Hj'.
    destruct Hj' as [Hj'|Hj']; [|done]. destruct Hout. apply list_elem_of_fmap. eauto.
Qed.

(** What comparing no worse means. *)
Lemma cmp_elder_candidates_meaning i j e :
  cmp_elder_candidates i j e <> Gt -> info_state i <> Left -> info_state j <> Left ->
  (info_state i = Joined \/ info_state j <> Joined) /\
  (rank (info_state i) = rank (info_state j) ->
   (info_age j <= info_age i)%Z /\
   (info_age j = info_age i -> is_elder (ss_value j) e = true -> is_elder (ss_value i) e = true)).
Proof.
  unfold cmp_elder_candidates, cmp_elder_first. intros Hc Hi Hj.
  destruct (info_state i) eqn:Ei, (info_state j) eqn:Ej; simpl in *; try done;
    (split; [first [by left|by right]|]); try done.
  all: intros _; destruct (Z.compare_spec (info_age j) (info_age i)) as [E|E|E]; simpl in Hc;
    [|split; [lia|lia]|done]; split; [lia|]; intros _;
    destruct (is_elder (ss_value i) e), (is_elder (ss_value j) e); done.
Qed.
End SectionPeers.

#[global] Arguments peers_prune_not_matching : simpl never.
#[global] Arguments peers_update : simpl never.

(** ** Claims *)

Section Claims.
Context `{CR : Crates, SO : !SigOrder}.

(** C7: membership converges.  The record kept for a name is one of those that were stored or
    that arrived for it, and one furthest on the way from joined over relocated to left; two
    nodes that receive the same updates in different orders end up with the same names, each
    joined, relocated or left on both; a name ends up in the very same state on both unless
    records relocate it to different destinations; and if no two of all the records differ while
    sharing name and kind of state, the members are the very same. *)
Theorem membership_updates_converge (sp : SectionPeers) (l l' : list (SectionSigned NodeState)) :
  peers_wf sp -> l ≡ₚ l' ->
  (forall n, match members (peers_updates sp l) !! n with
     | Some i => offered sp l n i /\ forall j, offered sp l n j -> info_rank j <= info_rank i
     | None => forall j, ~ offered sp l n j
     end) /\
  (forall n, info_rank <$> members (peers_updates sp l) !! n =
             info_rank <$> members (peers_updates sp l') !! n) /\
  (forall n, one_destination sp l n ->
     info_state <$> members (peers_updates sp l) !! n = info_state <$> members (peers_updates sp l') !! n) /\
  (unambiguous sp l -> peers_updates sp l = peers_updates sp l').
Proof.
  intros Hwf Hp. split; [by intros n; apply updates_offered|].
  split; [by intros n; apply updates_rank_perm|]. split; [by intros n; apply updates_state_perm|].
  intros Hu. by apply updates_perm.
Qed.

(** [update] moves a member strictly forward (Joined, Relocated, Left) or leaves the
    section alone, reports a change exactly when it made one, and never touches another
    member. *)
Theorem member_update_monotone (sp : SectionPeers) (i : SectionSigned NodeState) :
  peers_wf sp ->
  peers_wf (peers_update sp i).1 /\
  (forall n, n <> info_name i -> members (peers_update sp i).1 !! n = members sp !! n) /\
  ((peers_update sp i).2 = false -> (peers_update sp i).1 = sp) /\
  ((peers_update sp i).2 = true <->
   forall o, members sp !! info_name i = Some o -> info_rank o < info_rank i) /\
  ((peers_update sp i).2 = true -> members (peers_update sp i).1 !! info_name i = Some i).
Proof.
  intros Hwf. split; [by apply update_wf|]. split; [|split; [|split]].
  - intros n Hn. by rewrite update_lookup, decide_False.
  - unfold peers_update. by repeat case_match.
  - unfold peers_update. destruct (members sp !! info_name i) as [o|] eqn:Ho; [|by split].
    pose proof (transition_rank o i (Hwf _ _ Ho)) as Ht.
    destruct (transition_allowed o i); simpl; split; try done.
    + intros _ o' [= <-]. by apply Ht.
    + intros H. by apply Ht, H.
  - unfold peers_update. repeat case_match; simpl; try done; intros _; by rewrite lookup_insert_eq.
Qed.

(** C19: the elder candidates are the right ones: as many as asked for if there are enough
    active reachable members, all of them such members, no name twice; and no member left
    out is better than a chosen one: a relocating elder is only chosen when no joined member
    is left, among equals in state the older wins, and among equals in age a current elder
    wins. *)
Theorem elder_candidates_optimal (sp : SectionPeers) (k : nat) (e : SectionAuthorityProvider) :
  peers_wf sp ->
  let chosen := peers_elder_candidates sp k e in
  length chosen = k `min` length (active_infos sp e) /\
  NoDup (peer_name <$> chosen) /\
  (forall p, p ∈ chosen -> exists i, members sp !! peer_name p = Some i /\ ns_peer (ss_value i) = p /\
     is_active (ss_value i) e = true /\ peer_reachable p = true) /\
  (forall i j, i ∈ active_infos sp e -> ns_peer (ss_value i) ∈ chosen ->
     j ∈ active_infos sp e -> ns_peer (ss_value j) ∉ chosen ->
     (info_state i = Joined \/ info_state j <> Joined) /\
     (rank (info_state i) = rank (info_state j) ->
      (info_age j <= info_age i)%Z /\
      (info_age j = info_age i ->
       is_elder (ss_value j) e = true -> is_elder (ss_value i) e = true))).
Proof.
  intros Hwf chosen. unfold chosen, peers_elder_candidates.
  assert (forall x, x ∈ active_infos sp e -> info_state x <> Left) as Hact.
  { intros x (_ & Ha & _)%elem_of_active_infos Hl. unfold is_active in Ha.
    unfold info_state in Hl. by rewrite Hl in Ha. }
  pose proof (active_infos_NoDup sp e Hwf) as Hnd.
  split; [apply length_elder_candidates_of|]. split; [by apply NoDup_elder_candidates_of|].
  split.
  - intros p (i & Hin & <-)%elem_of_elder_candidates_of.
    apply elem_of_active_infos in Hin as (Hin & Ha & Hr). apply elem_of_infos in Hin; [|done].
    by exists i.
  - intros i j Hi Hci Hj Hcj. apply cmp_elder_candidates_meaning; [|by apply Hact|by apply Hact].
    by eapply elder_candidates_of_best.
Qed.
End Claims.

Module SectionPeersWitness.
Import BitNames ToyCrates.

Definition addr (i : N) : SocketAddr := SocketAddrV4 i 1.
Definition peer (age id : N) : Peer :=
  peer_set_reachable (peer_new (to_name (age + 256 * id)) (addr id)) true.
Definition info (age id : N) (s : MembershipState) : SectionSigned NodeState :=
  mkSectionSigned (mkNodeState (peer age id) s) (mkSigned 1%N (1%N, [Z.of_N id])).
Definition dst (d : N) : MembershipState := Relocated (to_name d).

(** The three records of one member and two of another. *)
Definition events : list (SectionSigned NodeState) :=
  [info 5 1 Joined; info 5 1 Left; info 5 1 (dst 7); info 6 2 (dst 7); info 6 2 Joined].

Lemma membership_updates_converge_witness :
  peers_wf peers_default /\ events ≡ₚ rev events /\
  one_destination peers_default events (to_name (5 + 256)) /\
  info_state <$> members (peers_updates peers_default events) !! to_name (5 + 256) =
  info_state <$> members (peers_updates peers_default (rev events)) !! to_name (5 + 256).
Proof.
  split; [apply peers_default_wf|]. split; [apply Permutation_rev|].
  assert (one_destination peers_default events (to_name (5 + 256))) as Hd.
  { intros i j d d' [Hi|[Hi _]] [Hj|[Hj _]]; try done.
    unfold events, info, dst in Hi, Hj. rewrite !elem_of_cons, elem_of_nil in Hi, Hj.
    intros Ei Ej. destruct_or! Hi; destruct_or! Hj; subst; unfold info_state in *; simpl in *; congruence. }
  split; [exact Hd|].
  apply (proj1 (proj2 (proj2 (membership_updates_converge peers_default events (rev events) peers_default_wf
    (Permutation_rev events))))). exact Hd.
Defined.

Lemma member_update_monotone_witness :
  peers_wf peers_default /\ peers_wf (peers_update peers_default (info 5 1 Joined)).1.
Proof.
  split; [apply peers_default_wf|].
  exact (proj1 (member_update_monotone peers_default (info 5 1 Joined) peers_default_wf)).
Defined.

(** Updates do not commute entirely, although the transitions are chosen to maintain
    commutativity: of two relocations of one member to different destinations the first to
    arrive stays, so the destination depends on the order. *)
Theorem relocation_updates_do_not_commute :
  let r1 := info 5 1 (dst 7) in
  let r2 := info 5 1 (dst 8) in
  info_name r1 = info_name r2 /\
  members (peers_updates peers_default [r1; r2]) !! info_name r1 = Some r1 /\
  members (peers_updates peers_default [r2; r1]) !! info_name r1 = Some r2 /\
  r1 <> r2.
Proof.
  split; [done|]. split; [reflexivity|]. split; [reflexivity|].
  discriminate.
Qed.

Definition members2 : SectionPeers := peers_updates peers_default [info 5 1 Joined; info 9 2 Joined].
Definition elders0 : SectionAuthorityProvider := sap_new [] prefix_default 1%N.

Lemma elder_candidates_optimal_witness :
  peers_wf members2 /\ length (peers_elder_candidates members2 1 elders0) = 1 /\
  peer_name <$> peers_elder_candidates members2 1 elders0 = [to_name (9 + 256 * 2)].
Proof.
  assert (peers_wf members2) as Hwf by apply updates_wf, peers_default_wf.
  split; [done|]. split.
  - rewrite (proj1 (elder_candidates_optimal members2 1 elders0 Hwf)). vm_compute. reflexivity.
  - vm_compute. reflexivity.
Defined.

End SectionPeersWitness.
