(* ===== verification/SectionKeys.v ===== *)
(** * Our section key shares (src/section/section_keys.rs)

    A small first-in first-out cache of current and previous key shares, and the shares of key
    generations that have not been finalised.  The cache is a [VecDeque] that evicts when its
    length reaches the capacity the standard library allocated for it, which is documented only
    as at least the one asked for: the allocation sizes are parameters. *)

From stdpp Require Import base tactics list gmap sorting.
From Stdlib Require Import ZArith Lia.
From S2P Require Import Prelude Names Crates Types.

(** [VecDeque::with_capacity] and the growth of a full [VecDeque] by [push_back]. *)
Class VecDequeAlloc := {
  vd_with_capacity : nat -> nat;
  vd_grow : nat -> nat;
}.
Class VecDequeAllocLaws `{VecDequeAlloc} : Prop := {
  vd_with_capacity_ge : forall n, n <= vd_with_capacity n;
  vd_grow_gt : forall n, n < vd_grow n;
}.

Section SectionKeys.
Context `{CR : Crates, VA : VecDequeAlloc}.

Record SectionKeyShare : Type := mkSectionKeyShare {
  ks_public_key_set : BlsPublicKeySet;
  ks_index : nat;
  ks_secret_key_share : BlsSecretKeyShare;
}.

Record MiniKeyCache : Type := mkMiniKeyCache {
  kc_list : list (BlsPublicKey * SectionKeyShare);
  kc_capacity : nat;
}.

Definition kc_with_capacity (capacity : nat) : MiniKeyCache :=
  mkMiniKeyCache [] (vd_with_capacity capacity).
Definition kc_has_key_share (c : MiniKeyCache) : bool :=
  negb (bool_decide (kc_list c = [])) .
Definition kc_get_most_recent (c : MiniKeyCache) : result SectionKeyShare Error :=
  match last (kc_list c) with
  | Some (_, share) => Ok share
  | None => Err MissingSecretKeyShare
  end.

Fixpoint kc_sign_loop (l : list (BlsPublicKey * SectionKeyShare)) (data : Bytes)
    (public_key : BlsPublicKey) : result BlsSignatureShare Error :=
  match l with
  | [] => Err MissingSecretKeyShare
  | (cached_public, share) :: l' =>
      if decide (public_key = cached_public) then Ok (sks_sign (ks_secret_key_share share) data)
      else kc_sign_loop l' data public_key
  end.
Definition kc_sign_with (c : MiniKeyCache) (data : Bytes) (public_key : BlsPublicKey) :
    result BlsSignatureShare Error :=
  kc_sign_loop (kc_list c) data public_key.

(** [VecDeque::push_back] *)
Definition kc_push_back (c : MiniKeyCache) (x : BlsPublicKey * SectionKeyShare) : MiniKeyCache :=
  mkMiniKeyCache (kc_list c ++ [x])
    (if decide (length (kc_list c) = kc_capacity c) then vd_grow (kc_capacity c) else kc_capacity c).

Definition kc_add (c : MiniKeyCache) (public_key : BlsPublicKey) (share : SectionKeyShare) :
    MiniKeyCache * option BlsPublicKey :=
  if decide (public_key ∈ (kc_list c).*1) then (c, None)
  else
    let '(c', evicted) :=
      if decide (kc_capacity c = length (kc_list c)) then
        match kc_list c with
        | (cached_public, _) :: l' => (mkMiniKeyCache l' (kc_capacity c), Some cached_public)
        | [] => (c, None)
        end
      else (c, None) in
    (kc_push_back c' (public_key, share), evicted).

Record SectionKeysProvider : Type := mkSectionKeysProvider {
  kp_cache : MiniKeyCache;
  kp_pending : gmap BlsPublicKey SectionKeyShare;
}.

Definition kp_key_share (p : SectionKeysProvider) : result SectionKeyShare Error :=
  kc_get_most_recent (kp_cache p).
Definition kp_sign_with (p : SectionKeysProvider) (data : Bytes) (public_key : BlsPublicKey) :
    result BlsSignatureShare Error :=
  kc_sign_with (kp_cache p) data public_key.
Definition kp_has_key_share (p : SectionKeysProvider) : bool := kc_has_key_share (kp_cache p).

Definition kp_insert_dkg_outcome (p : SectionKeysProvider) (share : SectionKeyShare) :
    SectionKeysProvider :=
  mkSectionKeysProvider (kp_cache p)
    (<[pks_public_key (ks_public_key_set share) := share]> (kp_pending p)).

Definition kp_finalise_dkg (p : SectionKeysProvider) (public_key : BlsPublicKey) :
    SectionKeysProvider :=
  match kp_pending p !! public_key with
  | Some share =>
      mkSectionKeysProvider (kc_add (kp_cache p) public_key share).1
        (delete public_key (kp_pending p))
  | None => p
  end.

Definition kp_new (cache_size : nat) (current : option SectionKeyShare) : SectionKeysProvider :=
  let provider := mkSectionKeysProvider (kc_with_capacity cache_size) ∅ in
  match current with
  | Some share =>
      kp_finalise_dkg (kp_insert_dkg_outcome provider share)
        (pks_public_key (ks_public_key_set share))
  | None => provider
  end.

(** ** Invariant: a bounded list of distinct keys, each share stored under its own key *)

Record kc_wf (c : MiniKeyCache) : Prop := {
  kc_nodup : NoDup (kc_list c).*1;
  kc_bounded : length (kc_list c) <= kc_capacity c;
  kc_own_key : forall k s, (k, s) ∈ kc_list c -> pks_public_key (ks_public_key_set s) = k;
}.

Definition kp_wf (p : SectionKeysProvider) : Prop :=
  kc_wf (kp_cache p) /\
  forall k s, kp_pending p !! k = Some s -> pks_public_key (ks_public_key_set s) = k.

(** The list after an addition. *)
Lemma kc_add_list c k s :
  kc_list (kc_add c k s).1 =
  if decide (k ∈ (kc_list c).*1) then kc_list c
  else (if decide (kc_capacity c = length (kc_list c)) then tail (kc_list c) else kc_list c) ++ [(k, s)].
Proof.
  unfold kc_add. case_decide; [done|]. case_decide; [|done].
  destruct (kc_list c) as [|[? ?] ?] eqn:E; simpl; rewrite ?E; done.
Qed.

Lemma kc_add_evicted c k s :
  (kc_add c k s).2 =
  if decide (k ∈ (kc_list c).*1) then None
  else if decide (kc_capacity c = length (kc_list c)) then fst <$> head (kc_list c) else None.
Proof.
  unfold kc_add. case_decide; [done|]. case_decide; [|done].
  destruct (kc_list c) as [|[? ?] ?] eqn:E; simpl; rewrite ?E; done.
Qed.

Lemma kc_add_capacity c k s :
  0 < kc_capacity c -> length (kc_list c) <= kc_capacity c -> kc_capacity (kc_add c k s).1 = kc_capacity c.
Proof.
  intros Hpos Hle. unfold kc_add. case_decide; [done|].
  case_decide as E.
  - destruct (kc_list c) as [|[k0 s0] l] eqn:El; simpl in *; [lia|].
    unfold kc_push_back; simpl. rewrite decide_False; [done|lia].
  - unfold kc_push_back; simpl. by rewrite decide_False.
Qed.

Lemma kc_add_wf `{!VecDequeAllocLaws} c k s :
  kc_wf c -> pks_public_key (ks_public_key_set s) = k -> kc_wf (kc_add c k s).1.
Proof.
  intros [Hnd Hle Hok] Hs. split.
  - rewrite kc_add_list. case_decide as Hin; [done|].
    assert (NoDup (tail (kc_list c)).*1 /\ k ∉ (tail (kc_list c)).*1) as [Hnd' Hin'].
    { destruct (kc_list c) as [|x l]; simpl in *; [done|].
      apply NoDup_cons in Hnd as [_ ?]. split; [done|set_solver]. }
    case_decide; rewrite fmap_app; apply NoDup_app; (split; [done|]); (split; [|apply NoDup_singleton]);
      intros x Hx ->%list_elem_of_singleton; done.
  - unfold kc_add. case_decide; [done|]. case_decide as E.
    + destruct (kc_list c) as [|[k0 s0] l] eqn:El; simpl in *.
      * unfold kc_push_back; simpl. rewrite El; simpl. rewrite decide_True by done.
        pose proof (vd_grow_gt (kc_capacity c)). lia.
      * unfold kc_push_back; simpl. rewrite length_app; simpl. rewrite decide_False; lia.
    + unfold kc_push_back; simpl. rewrite length_app, decide_False by done. simpl. lia.
  - intros k' s'. rewrite kc_add_list. case_decide; [apply Hok|].
    rewrite elem_of_app, list_elem_of_singleton. intros [Hin|[= -> ->]]; [|done].
    apply Hok. case_decide; [|done]. destruct (kc_list c); simpl in *; set_solver.
Qed.

Lemma insert_dkg_outcome_wf p s : kp_wf p -> kp_wf (kp_insert_dkg_outcome p s).
Proof.
  intros [Hc Hp]. split; [done|]. simpl. intros k s' [[<- <-]|[_ ?]]%lookup_insert_Some; auto.
Qed.

Lemma finalise_dkg_wf `{!VecDequeAllocLaws} p k : kp_wf p -> kp_wf (kp_finalise_dkg p k).
Proof.
  intros [Hc Hp]. unfold kp_finalise_dkg. destruct (kp_pending p !! k) as [s|] eqn:E; [|done].
  split; simpl; [by apply kc_add_wf; [|apply Hp]|].
  intros k' s' [_ ?]%lookup_delete_Some. auto.
Qed.

Lemma kp_new_wf `{!VecDequeAllocLaws} n current : kp_wf (kp_new n current).
Proof.
  assert (kp_wf (mkSectionKeysProvider (kc_with_capacity n) ∅)) as H0.
  { split; [|simpl; intros k s; by rewrite lookup_empty].
    split; simpl; [constructor|lia|]. intros k s Hin. by apply not_elem_of_nil in Hin. }
  unfold kp_new. destruct current as [s|]; [|done]. by apply finalise_dkg_wf, insert_dkg_outcome_wf.
Qed.

Lemma kc_sign_loop_spec l data k s :
  NoDup l.*1 -> (k, s) ∈ l -> kc_sign_loop l data k = Ok (sks_sign (ks_secret_key_share s) data).
Proof.
  induction l as [|[k' s'] l IH]; simpl; intros Hnd Hin; [by apply not_elem_of_nil in Hin|].
  apply NoDup_cons in Hnd as [Hn Hnd]. apply elem_of_cons in Hin as [[= <- <-]|Hin].
  - by rewrite decide_True.
  - rewrite decide_False; [auto|]. intros ->. apply Hn, list_elem_of_fmap. by exists (k', s).
Qed.

Lemma kc_sign_loop_missing l data k :
  k ∉ l.*1 -> kc_sign_loop l data k = Err MissingSecretKeyShare.
Proof.
  induction l as [|[k' s'] l IH]; simpl; intros Hn; [done|].
  apply not_elem_of_cons in Hn as [Hne Hn]. rewrite decide_False by done. auto.
Qed.

(** ** A run of additions keeps the most recent keys, oldest evicted first *)

Definition kc_adds (c : MiniKeyCache) (l : list (BlsPublicKey * SectionKeyShare)) : MiniKeyCache :=
  foldl (fun c x => (kc_add c x.1 x.2).1) c l.

Definition most_recent {A : Type} (n : nat) (l : list A) : list A := drop (length l - n) l.

Lemma most_recent_snoc {A : Type} n (l : list A) x :
  0 < n ->
  most_recent n (l ++ [x]) =
  (if decide (n = length (most_recent n l)) then tail (most_recent n l) else most_recent n l) ++ [x].
Proof.
  intros Hn. unfold most_recent. rewrite length_app, length_drop; simpl.
  destruct (decide (n <= length l)) as [Hle|Hgt].
  - rewrite decide_True by lia. rewrite drop_app_le by lia. f_equal.
    replace (length l + 1 - n) with (S (length l - n)) by lia.
    clear Hle. generalize (length l - n). clear. induction l as [|y l IH]; intros [|m]; simpl; done.
  - rewrite decide_False by lia. replace (length l + 1 - n) with 0 by lia.
    replace (length l - n) with 0 by lia. done.
Qed.

Lemma kc_adds_list n l0 l :
  0 < n -> NoDup (l0 ++ l).*1 ->
  kc_adds (mkMiniKeyCache (most_recent n l0) n) l = mkMiniKeyCache (most_recent n (l0 ++ l)) n.
Proof.
  intros Hn. unfold kc_adds. revert l0; induction l as [|[k s] l IH]; intros l0 Hnd; simpl.
  - by rewrite app_nil_r.
  - assert (NoDup ((l0 ++ [(k, s)]) ++ l).*1) as Hnd' by (by rewrite <- app_assoc).
    replace (l0 ++ (k, s) :: l) with ((l0 ++ [(k, s)]) ++ l) by (by rewrite <- app_assoc).
    rewrite <- IH by done. f_equal.
    set (c := mkMiniKeyCache (most_recent n l0) n).
    assert (k ∉ (most_recent n l0).*1) as Hk.
    { rewrite !fmap_app in Hnd'. apply NoDup_app in Hnd' as (Hnd' & _ & _).
      apply NoDup_app in Hnd' as (_ & Hd & _). intros Hin. apply (Hd k); [|set_solver].
      unfold most_recent in Hin. rewrite fmap_drop in Hin.
      rewrite <- (take_drop (length l0 - n) l0.*1). set_solver. }
    assert (length (most_recent n l0) <= n) as Hlen by (unfold most_recent; rewrite length_drop; lia).
    pose proof (kc_add_list c k s) as E1. pose proof (kc_add_capacity c k s Hn Hlen) as E2.
    destruct (kc_add c k s).1 as [l1 cap]. simpl in E1, E2. subst cap.
    rewrite decide_False in E1 by done. rewrite <- most_recent_snoc in E1 by done. by subst l1.
Qed.
End SectionKeys.

(** ** Claims *)

Section Claims.
Context `{CR : Crates, VA : VecDequeAlloc, VL : !VecDequeAllocLaws}.

(** The key cache is a bounded first-in first-out buffer: adding distinct keys to a new
    cache keeps exactly the most recent ones, as many as the buffer holds, of which there are
    at least as many as asked for; signing works exactly with those keys and uses the share
    stored for the key; the current share is the last one added. *)
Theorem key_cache_keeps_recent (n : nat) (l : list (BlsPublicKey * SectionKeyShare)) :
  0 < n -> NoDup l.*1 ->
  let c := kc_adds (kc_with_capacity n) l in
  kc_list c = most_recent (vd_with_capacity n) l /\
  n <= vd_with_capacity n /\
  (forall k s data, (k, s) ∈ most_recent (vd_with_capacity n) l ->
     kc_sign_with c data k = Ok (sks_sign (ks_secret_key_share s) data)) /\
  (forall k data, k ∉ (most_recent (vd_with_capacity n) l).*1 ->
     kc_sign_with c data k = Err MissingSecretKeyShare) /\
  (forall k s l', l = l' ++ [(k, s)] -> kc_get_most_recent c = Ok s).
Proof.
  intros Hn Hnd c. pose proof (vd_with_capacity_ge n) as Hc.
  assert (c = mkMiniKeyCache (most_recent (vd_with_capacity n) l) (vd_with_capacity n)) as Ec.
  { apply (kc_adds_list (vd_with_capacity n) [] l); [lia|done]. }
  rewrite Ec. split; [done|]. split; [done|]. split; [|split].
  - intros k s data Hin. apply kc_sign_loop_spec; [|done]. simpl.
    unfold most_recent. rewrite fmap_drop. rewrite <- (take_drop (length l - vd_with_capacity n) l.*1) in Hnd.
    by apply NoDup_app in Hnd as (_ & _ & ?).
  - intros k data Hk. by apply kc_sign_loop_missing.
  - intros k s l' ->. unfold kc_get_most_recent; simpl.
    rewrite most_recent_snoc by lia. by rewrite last_snoc.
Qed.

(** Finalising a key generation: whatever sequence of outcomes and finalisations the
    provider saw, finalising a pending key makes it usable at once if it was not cached yet,
    removes it from the pending ones, and keeps the cache within its bound with each share
    under its own key; finalising an unknown key changes nothing. *)
Theorem finalise_dkg_correct (p : SectionKeysProvider) (k : BlsPublicKey) :
  kp_wf p ->
  kp_wf (kp_finalise_dkg p k) /\
  (kp_pending p !! k = None -> kp_finalise_dkg p k = p) /\
  (forall s, kp_pending p !! k = Some s -> k ∉ (kc_list (kp_cache p)).*1 ->
    kp_key_share (kp_finalise_dkg p k) = Ok s /\
    (forall data, kp_sign_with (kp_finalise_dkg p k) data k = Ok (sks_sign (ks_secret_key_share s) data)) /\
    kp_pending (kp_finalise_dkg p k) !! k = None).
Proof.
  intros Hwf. pose proof (finalise_dkg_wf p k Hwf) as Hwf'. split; [done|].
  unfold kp_finalise_dkg in *. split; [by intros ->|]. intros s Hs Hk. rewrite Hs in *.
  destruct Hwf' as [[Hnd _ _] _]. simpl in Hnd.
  assert (kc_list (kc_add (kp_cache p) k s).1 =
    (if decide (kc_capacity (kp_cache p) = length (kc_list (kp_cache p)))
     then tail (kc_list (kp_cache p)) else kc_list (kp_cache p)) ++ [(k, s)]) as El
    by (by rewrite kc_add_list, decide_False).
  split; [|split].
  - unfold kp_key_share, kc_get_most_recent; simpl. by rewrite El, last_snoc.
  - intros data. unfold kp_sign_with, kc_sign_with; simpl. apply kc_sign_loop_spec; [done|].
    rewrite El. set_solver.
  - simpl. apply lookup_delete_eq.
Qed.
End Claims.

Module SectionKeysWitness.
Import BitNames ToyCrates.

#[export] Instance exact_alloc : VecDequeAlloc := {|
  vd_with_capacity n := n; vd_grow n := S (2 * n);
|}.
#[export] Instance exact_alloc_laws : VecDequeAllocLaws.
Proof. split; cbn; lia. Qed.

Definition share (k : N) : BlsPublicKey * SectionKeyShare :=
  (k, mkSectionKeyShare (k : BlsPublicKeySet) 0 ((k, 0) : BlsSecretKeyShare)).

Lemma key_cache_keeps_recent_witness :
  0 < 2 /\ (kc_list (kc_adds (kc_with_capacity 2) [share 1; share 2; share 3])).*1 = [2%N; 3%N].
Proof.
  split; [lia|].
  rewrite (proj1 (key_cache_keeps_recent 2 [share 1; share 2; share 3] ltac:(lia)
    ltac:(apply (bool_decide_unpack (NoDup ([1; 2; 3]%N))); vm_compute; exact I))).
  reflexivity.
Defined.

Definition provider : SectionKeysProvider := kp_insert_dkg_outcome (kp_new 5 None) (share 4).2.

Lemma finalise_dkg_correct_witness :
  kp_wf provider /\ kp_key_share (kp_finalise_dkg provider 4%N) = Ok (share 4).2.
Proof.
  assert (kp_wf provider) as Hwf by (apply insert_dkg_outcome_wf, kp_new_wf).
  split; [done|].
  refine (proj1 (proj2 (proj2 (finalise_dkg_correct provider 4%N Hwf)) (share 4).2 _ _)).
  - reflexivity.
  - apply not_elem_of_nil.
Defined.

End SectionKeysWitness.
