(* ===== verification/SectionState.v ===== *)
(** * Our section (src/section/mod.rs)

    The state every node keeps of its own section: the genesis key, the chain of section keys,
    the signed authority provider (the current elders) and the members.  Theorems: the
    invariant that ties the authority to the tip of the chain and the members to the chain, by
    induction over the operations; what a split produces; which elder changes are proposed. *)

From stdpp Require Import base tactics list gmap sorting.
From Stdlib Require Import ZArith Lia.
From S2P Require Import Prelude Names Crates Types Thresholds SectionPeers SectionKeys.

Section SectionState.
Context `{CR : Crates}.
Context `{SerNodeState : !Serialize NodeState, SerSap : !Serialize SectionAuthorityProvider}.

Record Section_ : Type := mkSection {
  sec_genesis_key : BlsPublicKey;
  sec_chain : SecuredLinkedList;
  sec_section_auth : SectionSigned SectionAuthorityProvider;
  sec_members : SectionPeers;
}.

Definition section_new (genesis_key : BlsPublicKey) (chain : SecuredLinkedList)
    (section_auth : SectionSigned SectionAuthorityProvider) : result Section_ Error :=
  if decide (signed_public_key (ss_signed section_auth) <> sll_last_key chain) then Err InvalidMessage
  else Ok (mkSection genesis_key chain section_auth peers_default).

(** ** Accessors *)

Definition genesis_key (s : Section_) : BlsPublicKey := sec_genesis_key s.
Definition chain (s : Section_) : SecuredLinkedList := sec_chain s.
Definition authority_provider (s : Section_) : SectionAuthorityProvider :=
  ss_value (sec_section_auth s).
Definition section_signed_authority_provider (s : Section_) :
    SectionSigned SectionAuthorityProvider := sec_section_auth s.
Definition section_is_elder (s : Section_) (name : XorName) : bool :=
  sap_contains_elder (authority_provider s) name.
Definition section_prefix (s : Section_) : Prefix := sap_prefix (authority_provider s).
Definition section_members (s : Section_) : SectionPeers := sec_members s.

(** ** State changes *)

Definition update_member (s : Section_) (node_state : SectionSigned NodeState) : Section_ * bool :=
  if negb (section_signed_verify node_state (sec_chain s)) then (s, false)
  else
    let '(ms, changed) := peers_update (sec_members s) node_state in
    (mkSection (sec_genesis_key s) (sec_chain s) (sec_section_auth s) ms, changed).

Definition prune_members (s : Section_) : Section_ :=
  mkSection (sec_genesis_key s) (sec_chain s) (sec_section_auth s)
    (peers_prune_not_matching (sec_members s) (section_prefix s)).

(** [if &auth.signed.public_key == self.chain.last_key() { self.section_auth = auth }] *)
Definition adopt_auth (s : Section_) (auth : SectionSigned SectionAuthorityProvider) : Section_ :=
  if decide (signed_public_key (ss_signed auth) = sll_last_key (sec_chain s))
  then mkSection (sec_genesis_key s) (sec_chain s) auth (sec_members s)
  else s.

Definition with_chain (s : Section_) (c : SecuredLinkedList) : Section_ :=
  mkSection (sec_genesis_key s) c (sec_section_auth s) (sec_members s).

Definition section_merge (s : Section_) (other : Section_) : Section_ * result unit Error :=
  if negb (self_verify (sec_section_auth other)) then (s, Err InvalidMessage)
  else if decide (signed_public_key (ss_signed (sec_section_auth other)) <> sll_last_key (sec_chain other))
  then (s, Err InvalidMessage)
  else
    match sll_merge (sec_chain s) (sec_chain other) with
    | (c, Err e) => (with_chain s c, Err (InvalidSectionChain e))
    | (c, Ok _) =>
        let s1 := adopt_auth (with_chain s c) (sec_section_auth other) in
        let s2 := foldl (fun s info => (update_member s info).1) s1 (infos (sec_members other)) in
        (prune_members s2, Ok tt)
    end.

Definition update_elders (s : Section_) (new_section_auth : SectionSigned SectionAuthorityProvider)
    (new_key_signed : Signed) : Section_ * bool :=
  if bool_decide (sap_prefix (ss_value new_section_auth) <> section_prefix s) &&
     negb (is_extension_of (sap_prefix (ss_value new_section_auth)) (section_prefix s))
  then (s, false)
  else if negb (self_verify new_section_auth) then (s, false)
  else
    match sll_insert (sec_chain s) (signed_public_key new_key_signed)
            (signed_public_key (ss_signed new_section_auth)) (signed_signature new_key_signed) with
    | (c, Err _) => (with_chain s c, false)
    | (c, Ok _) => (prune_members (adopt_auth (with_chain s c) new_section_auth), true)
    end.

Definition extend_chain (s : Section_) (trusted_key : BlsPublicKey) (full_chain : SecuredLinkedList) :
    result Section_ SllError :=
  let? c :=
    match sll_extend (sec_chain s) trusted_key full_chain with
    | Ok c => Ok c
    | Err e => if decide (e = sll_InvalidOperation) then Ok (sec_chain s) else Err e
    end in
  Ok (mkSection (sec_genesis_key s) c (sec_section_auth s) (sec_members s)).

(** ** The first section *)

Definition create_first_signed {T : Type} `{!Serialize T} (pk_set : BlsPublicKeySet)
    (sk_share : BlsSecretKeyShare) (payload : T) : result Signed Error :=
  let? bytes := ok_or (serialize payload) InvalidPayload in
  let signature_share := sks_sign sk_share bytes in
  let? signature :=
    ok_or (pks_combine_signatures pk_set [(0, signature_share)]) InvalidSignatureShare in
  Ok (mkSigned (pks_public_key pk_set) signature).

Definition create_first_section_authority_provider (pk_set : BlsPublicKeySet)
    (sk_share : BlsSecretKeyShare) (peer : Peer) :
    result (SectionSigned SectionAuthorityProvider) Error :=
  let section_auth := sap_new [peer_set_reachable peer true] prefix_default pk_set in
  let? signed := create_first_signed pk_set sk_share section_auth in
  Ok (mkSectionSigned section_auth signed).

(** the loop over the peers of the authority *)
Fixpoint first_members (pk_set : BlsPublicKeySet) (sk_share : BlsSecretKeyShare) (ps : list Peer)
    (ms : SectionPeers) : result SectionPeers Error :=
  match ps with
  | [] => Ok ms
  | p :: ps' =>
      let node_state := node_state_joined p in
      let? signed := create_first_signed pk_set sk_share node_state in
      first_members pk_set sk_share ps' (peers_update ms (mkSectionSigned node_state signed)).1
  end.

(** [public_key_set] and [secret_key_share] are those of the random threshold-0 key set. *)
Definition first_node (public_key_set : BlsPublicKeySet) (secret_key_share : BlsSecretKeyShare)
    (peer : Peer) : result (Section_ * SectionKeyShare) Error :=
  let? section_auth := create_first_section_authority_provider public_key_set secret_key_share peer in
  let? s := section_new (signed_public_key (ss_signed section_auth))
              (sll_new (signed_public_key (ss_signed section_auth))) section_auth in
  let? ms := first_members public_key_set secret_key_share
               (sap_peers (ss_value (sec_section_auth s))) (sec_members s) in
  Ok (mkSection (sec_genesis_key s) (sec_chain s) (sec_section_auth s) ms,
      mkSectionKeyShare public_key_set 0 secret_key_share).

(** ** Queries on the members *)

Definition active_members (s : Section_) : list Peer :=
  ns_peer <$> List.filter (fun info =>
      peers_is_joined (sec_members s) (peer_name (ns_peer info)) ||
      section_is_elder s (peer_name (ns_peer info))) (peers_all (sec_members s)).
Definition adults (s : Section_) : list Peer :=
  List.filter (fun p => negb (section_is_elder s (peer_name p))) (peers_mature (sec_members s)).
Definition live_adults (s : Section_) : list Peer :=
  ns_peer <$> List.filter (fun info => negb (section_is_elder s (peer_name (ns_peer info))))
    (peers_joined (sec_members s)).
Definition find_joined_member_by_addr (s : Section_) (addr : SocketAddr) : option Peer :=
  (fun r => ns_peer r.2) <$> list_find (fun info => peer_addr (ns_peer info) = addr) (peers_joined (sec_members s)).
Definition section_elder_candidates (s : Section_) (elder_size : nat) : list Peer :=
  peers_elder_candidates (sec_members s) elder_size (authority_provider s).

(** ** Splitting and elder changes *)

(** the [fold] over the mature members: (ours, siblings) *)
Definition split_counts (i : nat) (next_bit : bool) (ps : list Peer) : nat * nat :=
  foldl (fun '(ours, siblings) p =>
      if Bool.eqb (name_bit (peer_name p) i) next_bit then (S ours, siblings) else (ours, S siblings))
    (0, 0) ps.

Definition try_split (s : Section_) (our_name : XorName) : option (ElderCandidates * ElderCandidates) :=
  let next_bit_index := bit_count (section_prefix s) in
  (* [bit_count().try_into()] to [u8] *)
  if (U8_MAX <? Z.of_nat next_bit_index)%Z then None
  else
    let next_bit := name_bit our_name next_bit_index in
    let '(our_new_size, sibling_new_size) :=
      split_counts next_bit_index next_bit (peers_mature (sec_members s)) in
    if (our_new_size <? RECOMMENDED_SECTION_SIZE) || (sibling_new_size <? RECOMMENDED_SECTION_SIZE)
    then None
    else
      let our_prefix := pushed (section_prefix s) next_bit in
      let other_prefix := pushed (section_prefix s) (negb next_bit) in
      let our_elders := peers_elder_candidates_matching_prefix (sec_members s) our_prefix ELDER_SIZE
                          (authority_provider s) in
      let other_elders := peers_elder_candidates_matching_prefix (sec_members s) other_prefix ELDER_SIZE
                            (authority_provider s) in
      Some (elder_candidates_new our_elders our_prefix, elder_candidates_new other_elders other_prefix).

Definition promote_and_demote_elders (s : Section_) (our_name : XorName) : list ElderCandidates :=
  match try_split s our_name with
  | Some (our_elder_candidates, other_elder_candidates) =>
      [our_elder_candidates; other_elder_candidates]
  | None =>
      let expected_peers := section_elder_candidates s ELDER_SIZE in
      let expected_names : gset XorName := list_to_set (peer_name <$> expected_peers) in
      let current_names := sap_names (authority_provider s) in
      if decide (expected_names = current_names) then []
      else if size expected_names <? supermajority (size current_names) then []
      else [elder_candidates_new expected_peers (sap_prefix (authority_provider s))]
  end.

(** ** The invariant *)

(** The authority provider names the tip of the chain as its signer, which is what [section_new]
    compares; whether that signature is valid is [auth_verified]. *)
Record section_wf (s : Section_) : Prop := {
  wf_auth : signed_public_key (ss_signed (sec_section_auth s)) = sll_last_key (sec_chain s);
  wf_members : peers_wf (sec_members s);
  wf_verified : forall n i, members (sec_members s) !! n = Some i ->
    section_signed_verify i (sec_chain s) = true;
}.

(** the signature of the authority provider is one of the key it names *)
Definition auth_verified (s : Section_) : Prop := self_verify (sec_section_auth s) = true.

(** the authority provider stays what it was, or its signature was checked *)
Definition auth_kept (s s' : Section_) : Prop :=
  sec_section_auth s' = sec_section_auth s \/ auth_verified s'.

(** every member is named inside our prefix *)
Definition members_match (s : Section_) : Prop :=
  forall n i, members (sec_members s) !! n = Some i -> matches (section_prefix s) n = true.

End SectionState.

Section Invariant.
Context `{CR : Crates, CL : !ChainLaws}.
Context `{SerNodeState : !Serialize NodeState, SerSap : !Serialize SectionAuthorityProvider}.

Lemma verify_mono (i : SectionSigned NodeState) c c' :
  (forall x, x ∈ sll_keys c -> x ∈ sll_keys c') ->
  section_signed_verify i c = true -> section_signed_verify i c' = true.
Proof.
  unfold section_signed_verify. intros Hsub. rewrite !andb_true_iff, !sll_has_key_spec.
  intros [? ?]; auto.
Qed.

Lemma section_new_wf g c a s : section_new g c a = Ok s -> section_wf s.
Proof.
  unfold section_new. case_decide as E; [done|]. intros [= <-].
  split; simpl; [by destruct (decide (signed_public_key (ss_signed a) = sll_last_key c))
                |apply peers_default_wf|intros n i; by rewrite lookup_empty].
Qed.

Lemma update_member_wf s i : section_wf s -> section_wf (update_member s i).1.
Proof.
  intros [Ha Hm Hv]. unfold update_member.
  destruct (section_signed_verify i (sec_chain s)) eqn:Ev; simpl; [|done].
  destruct (peers_update (sec_members s) i) as [ms b] eqn:Eu; simpl.
  assert (ms = (peers_update (sec_members s) i).1) as -> by (by rewrite Eu). split; simpl.
  - done.
  - by apply update_wf.
  - intros n j. rewrite update_lookup by done. case_decide as E; [|by apply Hv].
    unfold newer. destruct (members (sec_members s) !! n) as [o|] eqn:Eo; [case_decide|];
      intros [= <-]; eauto.
Qed.

Lemma update_member_chain s i :
  sec_chain (update_member s i).1 = sec_chain s /\
  sec_section_auth (update_member s i).1 = sec_section_auth s /\
  sec_genesis_key (update_member s i).1 = sec_genesis_key s.
Proof.
  unfold update_member. case_match; simpl; [done|]. by destruct (peers_update _ _).
Qed.

Lemma update_members_wf s l :
  section_wf s -> section_wf (foldl (fun s info => (update_member s info).1) s l).
Proof.
  revert s; induction l as [|i l IH]; intros s Hs; simpl; [done|]. by apply IH, update_member_wf.
Qed.

Lemma update_members_auth s l :
  sec_section_auth (foldl (fun s info => (update_member s info).1) s l) = sec_section_auth s /\
  sec_chain (foldl (fun s info => (update_member s info).1) s l) = sec_chain s.
Proof.
  revert s; induction l as [|i l IH]; intros s; simpl; [done|].
  destruct (IH (update_member s i).1) as [-> ->], (update_member_chain s i) as (-> & -> & _). done.
Qed.

Lemma prune_members_lookup s n :
  members (sec_members (prune_members s)) !! n =
  if matches (section_prefix s) n then members (sec_members s) !! n else None.
Proof. apply peers_prune_lookup. Qed.

Lemma prune_members_wf s : section_wf s -> section_wf (prune_members s).
Proof.
  intros [Ha Hm Hv]. split; [done|by apply prune_wf|].
  intros n i. rewrite prune_members_lookup. destruct (matches _ _); [apply Hv|done].
Qed.

Lemma prune_members_match s : members_match (prune_members s).
Proof.
  intros n i. rewrite prune_members_lookup.
  change (section_prefix (prune_members s)) with (section_prefix s).
  by destruct (matches (section_prefix s) n).
Qed.

(** Replacing the chain by one that grew, and adopting an authority that names its tip as signer. *)
Lemma adopt_auth_wf s c a :
  section_wf s -> (forall x, x ∈ sll_keys (sec_chain s) -> x ∈ sll_keys c) ->
  sll_last_key c = sll_last_key (sec_chain s) \/ sll_last_key c = signed_public_key (ss_signed a) ->
  section_wf (adopt_auth (with_chain s c) a).
Proof.
  intros [Ha Hm Hv] Hsub Hlast. unfold adopt_auth; simpl. case_decide as E; split; simpl; try done.
  - intros n i Hi. by eapply verify_mono, Hv.
  - destruct Hlast; congruence.
  - intros n i Hi. by eapply verify_mono, Hv.
Qed.

Lemma merge_wf s other : section_wf s -> section_wf (section_merge s other).1.
Proof.
  intros Hs. unfold section_merge. case_match; [done|]. case_decide as Ek; [done|].
  destruct (sll_merge (sec_chain s) (sec_chain other)) as [c [[]|e]] eqn:Em; simpl.
  - apply prune_members_wf, update_members_wf, adopt_auth_wf; [done| |].
    + intros x Hx. apply (sll_merge_keys _ _ _ Em). auto.
    + apply sll_merge_last in Em as [->| ->]; [by left|right].
      by destruct (decide (signed_public_key (ss_signed (sec_section_auth other)) =
        sll_last_key (sec_chain other))).
  - apply sll_merge_err in Em as ->. by destruct s.
Qed.

Lemma update_elders_wf s a k : section_wf s -> section_wf (update_elders s a k).1.
Proof.
  intros Hs. unfold update_elders. case_match; [done|]. case_match; [done|].
  destruct (sll_insert _ _ _ _) as [c [[]|e]] eqn:Ei; simpl.
  - apply prune_members_wf, adopt_auth_wf; [done| |by eapply sll_insert_last].
    intros x Hx. apply (sll_insert_keys _ _ _ _ _ Ei). auto.
  - apply sll_insert_err in Ei as ->. by destruct s.
Qed.

(** No operation takes over an authority provider whose signature it did not check. *)
#[global] Instance auth_kept_preorder : PreOrder auth_kept.
Proof.
  split; [by left|]. unfold auth_kept, auth_verified. intros s t u [E1|H1] [E2|H2]; auto.
  - left. congruence.
  - right. by rewrite E2.
Qed.

Lemma auth_kept_verified s s' : auth_kept s s' -> auth_verified s -> auth_verified s'.
Proof. unfold auth_kept, auth_verified. intros [E|H]; [by rewrite E|done]. Qed.

Lemma update_member_auth s i : auth_kept s (update_member s i).1.
Proof. left. apply update_member_chain. Qed.

Lemma adopt_auth_kept s c a : self_verify a = true -> auth_kept s (adopt_auth (with_chain s c) a).
Proof. intros Ha. unfold adopt_auth; simpl. case_decide; [by right|by left]. Qed.

Lemma merge_auth s other : auth_kept s (section_merge s other).1.
Proof.
  unfold section_merge. destruct (self_verify (sec_section_auth other)) eqn:Ev; simpl; [|by left].
  case_decide; [by left|]. destruct (sll_merge _ _) as [c [[]|e]]; simpl; [|by left].
  etransitivity; [by apply adopt_auth_kept|]. left.
  change (sec_section_auth (prune_members ?x)) with (sec_section_auth x). apply update_members_auth.
Qed.

Lemma update_elders_auth s a k : auth_kept s (update_elders s a k).1.
Proof.
  unfold update_elders. case_match; [by left|]. destruct (self_verify a) eqn:Ev; simpl; [|by left].
  destruct (sll_insert _ _ _ _) as [c [[]|e]]; simpl; [|by left].
  change (auth_kept s (prune_members ?x)) with (auth_kept s x). by apply adopt_auth_kept.
Qed.

(** The chain only grows and the genesis key stays. *)
Definition section_extends (s s' : Section_) : Prop :=
  sec_genesis_key s' = sec_genesis_key s /\
  forall x, x ∈ sll_keys (sec_chain s) -> x ∈ sll_keys (sec_chain s').

#[global] Instance section_extends_preorder : PreOrder section_extends.
Proof. split; [by split|]. intros s t u [E1 H1] [E2 H2]. split; [congruence|auto]. Qed.

Lemma update_member_extends s i : section_extends s (update_member s i).1.
Proof. destruct (update_member_chain s i) as (Hc & _ & Hg). split; [done|]. by rewrite Hc. Qed.

Lemma update_members_extends s l :
  section_extends s (foldl (fun s info => (update_member s info).1) s l).
Proof.
  revert s; induction l as [|i l IH]; intros s; simpl; [reflexivity|].
  etransitivity; [apply update_member_extends|apply IH].
Qed.

Lemma adopt_auth_extends s c a :
  (forall x, x ∈ sll_keys (sec_chain s) -> x ∈ sll_keys c) ->
  section_extends s (adopt_auth (with_chain s c) a).
Proof. intros Hc. unfold adopt_auth. case_decide; by split. Qed.

Lemma merge_extends s other : section_extends s (section_merge s other).1.
Proof.
  unfold section_merge. case_match; [reflexivity|]. case_decide; [reflexivity|].
  destruct (sll_merge (sec_chain s) (sec_chain other)) as [c [[]|e]] eqn:Em; simpl.
  - etransitivity; [apply (adopt_auth_extends s c (sec_section_auth other))|].
    + intros x Hx. apply (sll_merge_keys _ _ _ Em). auto.
    + etransitivity; [apply update_members_extends|by split].
  - apply sll_merge_err in Em as ->. by split.
Qed.

Lemma update_elders_extends s a k : section_extends s (update_elders s a k).1.
Proof.
  unfold update_elders. case_match; [reflexivity|]. case_match; [reflexivity|].
  destruct (sll_insert _ _ _ _) as [c [[]|e]] eqn:Ei; simpl.
  - etransitivity; [apply (adopt_auth_extends s c a)|by split].
    intros x Hx. apply (sll_insert_keys _ _ _ _ _ Ei). auto.
  - apply sll_insert_err in Ei as ->. by split.
Qed.

Lemma extend_chain_auth s k full s' :
  section_wf s -> extend_chain s k full = Ok s' ->
  signed_public_key (ss_signed (sec_section_auth s')) = sll_last_key (sec_chain s') /\
  sec_section_auth s' = sec_section_auth s /\ sec_members s' = sec_members s.
Proof.
  intros [Ha _ _]. unfold extend_chain.
  destruct (sll_extend _ _ _) as [c|e] eqn:Ee; simpl.
  - intros [= <-]; simpl. apply sll_extend_last in Ee. by rewrite Ee.
  - case_decide; simpl; [|done]. by intros [= <-].
Qed.

End Invariant.

(** ** Counting for the split *)

Section Counting.
Context `{CR : Crates, XL : !XorLaws}.
Context `{SerNodeState : !Serialize NodeState, SerSap : !Serialize SectionAuthorityProvider}.

Lemma split_counts_spec i b ps :
  split_counts i b ps =
  (length (List.filter (fun p => Bool.eqb (name_bit (peer_name p) i) b) ps),
   length (List.filter (fun p => Bool.eqb (name_bit (peer_name p) i) (negb b)) ps)).
Proof.
  unfold split_counts.
  assert (forall m n, foldl (fun '(ours, siblings) p =>
      if Bool.eqb (name_bit (peer_name p) i) b then (S ours, siblings) else (ours, S siblings))
      (m, n) ps =
    (m + length (List.filter (fun p => Bool.eqb (name_bit (peer_name p) i) b) ps),
     n + length (List.filter (fun p => Bool.eqb (name_bit (peer_name p) i) (negb b)) ps))) as ->; [|done].
  induction ps as [|p ps IH]; intros m n; simpl; [f_equal; lia|].
  destruct (name_bit (peer_name p) i), b; simpl; rewrite IH; simpl; f_equal; lia.
Qed.

Lemma length_filter_fmap {A B : Type} (g : A -> B) (f : B -> bool) l :
  length (List.filter f (g <$> l)) = length (List.filter (fun x => f (g x)) l).
Proof.
  induction l as [|x l IH]; [done|]. rewrite fmap_cons. cbn [List.filter].
  destruct (f (g x)); cbn [length]; by rewrite IH.
Qed.

Lemma filter_filter_andb {A : Type} (f g : A -> bool) l :
  List.filter f (List.filter g l) = List.filter (fun x => g x && f x) l.
Proof.
  induction l as [|x l IH]; simpl; [done|]. destruct (g x); simpl; [|done].
  destruct (f x); by rewrite IH.
Qed.

Lemma length_filter_le {A : Type} (f g : A -> bool) l :
  (forall x, x ∈ l -> f x = true -> g x = true) ->
  length (List.filter f l) <= length (List.filter g l).
Proof.
  induction l as [|x l IH]; simpl; intros Hfg; [done|].
  assert (length (List.filter f l) <= length (List.filter g l)) by (apply IH; set_solver).
  specialize (Hfg x). destruct (f x), (g x); simpl; try lia.
  discriminate Hfg; [left|done].
Qed.

(** The mature members on one side of the split. *)
Definition mature_side (s : Section_) (b : bool) : nat :=
  length (List.filter (fun p => Bool.eqb (name_bit (peer_name p) (bit_count (section_prefix s))) b)
    (peers_mature (sec_members s))).

Lemma mature_side_candidates s b :
  section_wf s -> members_match s -> bit_count (section_prefix s) < NAME_BITS ->
  (forall n i, members (sec_members s) !! n = Some i -> info_state i = Joined ->
     peer_reachable (ns_peer (ss_value i)) = true) ->
  mature_side s b <= length (prefix_infos (sec_members s) (pushed (section_prefix s) b)).
Proof.
  intros [_ Hwf _] Hmm Hlt Hr. unfold mature_side, peers_mature, peers_joined, peers_all.
  rewrite length_filter_fmap, !filter_filter_andb, length_filter_fmap.
  unfold prefix_infos. apply length_filter_le. intros i Hin.
  apply elem_of_infos in Hin; [|done].
  rewrite !andb_true_iff, bool_decide_eq_true. intros [Hj [_ Hb]].
  split; [split|].
  - by apply bool_decide_eq_true.
  - apply matches_pushed; [done|]. split; [by eapply Hmm|]. by apply eqb_prop in Hb.
  - by eapply Hr.
Qed.

End Counting.

(** ** Reachable sections *)

Section Reach.
Context `{CR : Crates, CL : !ChainLaws}.
Context `{SerNodeState : !Serialize NodeState, SerSap : !Serialize SectionAuthorityProvider}.

(** The generated keys of the first node: combining its single share gives a signature of the
    section key (the threshold is 0). *)
Definition first_keys (pk_set : BlsPublicKeySet) (sk : BlsSecretKeyShare) : Prop :=
  forall msg sig, pks_combine_signatures pk_set [(0, sks_sign sk msg)] = Some sig ->
    signed_verify_bytes (pks_public_key pk_set) sig msg = true.

(** a section as a node starts with it: from an approval, or as the first node of the network *)
Inductive section_started : Section_ -> Prop :=
| start_new g c a s : section_new g c a = Ok s -> section_started s
| start_first pk sk p s ks :
    first_keys pk sk -> first_node pk sk p = Ok (s, ks) -> section_started s.

(** and what is done to it, whether it succeeds or not *)
Inductive section_step : Section_ -> Section_ -> Prop :=
| step_merge s other : section_step s (section_merge s other).1
| step_update_elders s a k : section_step s (update_elders s a k).1
| step_update_member s i : section_step s (update_member s i).1.

Lemma create_first_signed_ok {T : Type} `{!Serialize T} pk sk (v : T) sg :
  first_keys pk sk -> create_first_signed pk sk v = Ok sg ->
  signed_public_key sg = pks_public_key pk /\ self_verify (mkSectionSigned v sg) = true.
Proof.
  intros Hk. unfold create_first_signed, self_verify, verify_signed; simpl.
  destruct (serialize v) as [bytes|]; simpl; [|done].
  destruct (pks_combine_signatures pk [(0, sks_sign sk bytes)]) as [sig|] eqn:E; simpl; [|done].
  intros [= <-]. split; [done|]. by apply Hk.
Qed.

Lemma first_members_wf pk sk ps ms ms' c :
  first_keys pk sk -> first_members pk sk ps ms = Ok ms' ->
  sll_has_key c (pks_public_key pk) = true ->
  peers_wf ms -> (forall n i, members ms !! n = Some i -> section_signed_verify i c = true) ->
  peers_wf ms' /\ (forall n i, members ms' !! n = Some i -> section_signed_verify i c = true).
Proof.
  intros Hk Hf Hc. revert ms Hf; induction ps as [|p ps IH]; intros ms; simpl; [by intros [= <-]|].
  destruct (create_first_signed pk sk (node_state_joined p)) as [sg|] eqn:E; simpl; [|done].
  apply create_first_signed_ok in E as [E1 E2]; [|done].
  intros Hf Hwf Hv. apply (IH _ Hf); [by apply update_wf|]. intros n i. rewrite update_lookup by done.
  case_decide; [|apply Hv]. unfold newer.
  assert (section_signed_verify (mkSectionSigned (node_state_joined p) sg) c = true).
  { unfold section_signed_verify; simpl. by rewrite E1, Hc, E2. }
  destruct (members ms !! n) as [o|] eqn:Eo; [case_decide|]; intros [= <-]; eauto.
Qed.

Lemma first_node_wf pk sk p s ks :
  first_keys pk sk -> first_node pk sk p = Ok (s, ks) -> section_wf s.
Proof.
  intros Hk. unfold first_node, create_first_section_authority_provider.
  destruct (create_first_signed pk sk _) as [sg|] eqn:E; simpl; [|done].
  apply create_first_signed_ok in E as [E1 E2]; [|done].
  unfold section_new at 1; simpl. rewrite sll_new_last, decide_False by tauto. simpl.
  destruct (first_members _ _ _ _) as [ms|] eqn:Em; simpl; [|done]. intros [= <- <-].
  destruct (first_members_wf _ _ _ _ _ (sll_new (signed_public_key sg)) Hk Em) as [H1 H2].
  - rewrite E1. apply sll_has_key_spec. rewrite sll_new_keys. left.
  - apply peers_default_wf.
  - intros n i. unfold peers_default; simpl. by rewrite lookup_empty.
  - split; simpl; [by rewrite sll_new_last|done|done].
Qed.

Lemma first_node_verified pk sk p s ks :
  first_keys pk sk -> first_node pk sk p = Ok (s, ks) -> auth_verified s.
Proof.
  intros Hk. unfold first_node, create_first_section_authority_provider.
  destruct (create_first_signed pk sk _) as [sg|] eqn:E; simpl; [|done].
  apply create_first_signed_ok in E as [E1 E2]; [|done].
  unfold section_new; simpl. case_decide; simpl; [done|].
  destruct (first_members _ _ _ _) as [ms|]; simpl; [|done]. by intros [= <- <-].
Qed.

Lemma section_step_wf s s' : section_step s s' -> section_wf s -> section_wf s'.
Proof. destruct 1; [apply merge_wf|apply update_elders_wf|apply update_member_wf]. Qed.

Lemma section_step_auth s s' : section_step s s' -> auth_kept s s'.
Proof. destruct 1; [apply merge_auth|apply update_elders_auth|apply update_member_auth]. Qed.

Lemma section_started_auth s :
  section_started s -> auth_verified s \/ exists g c a, section_new g c a = Ok s /\ self_verify a = false.
Proof.
  destruct 1 as [g c a s H|? ? ? ? ? Hk H]; [|left; by eapply first_node_verified].
  destruct (self_verify a) eqn:E; [left|right; by exists g, c, a].
  revert H. unfold section_new. case_decide; [done|]. by intros [= <-].
Qed.

Lemma section_started_wf s : section_started s -> section_wf s.
Proof. destruct 1; [by eapply section_new_wf|by eapply first_node_wf]. Qed.

(** C6: the section invariant holds in every state the operations can reach: the key that the
    authority provider names as its signer is the tip of the section chain, every member is
    stored under its own name with a valid signature of a key of the chain, and the signature of
    the authority provider itself is valid, unless the section was created with one whose
    signature is not ([Section::new] does not check it) and that very one is still in place: no
    operation takes over an authority provider with an invalid signature. *)
Theorem section_invariant (s0 s : Section_) :
  section_started s0 -> rtc section_step s0 s ->
  section_wf s /\
  (auth_verified s \/
   sec_section_auth s = sec_section_auth s0 /\
   exists g c a, section_new g c a = Ok s0 /\ self_verify a = false).
Proof.
  intros H0 Hs. split.
  - apply section_started_wf in H0. induction Hs; eauto using section_step_wf.
  - assert (auth_kept s0 s) as [E|H]; [|by destruct (section_started_auth _ H0) as [H|H];
      [left; unfold auth_verified; rewrite E|right]|by left].
    clear H0. induction Hs as [|s0 s1 s2 H1 _ IH]; [reflexivity|].
    etransitivity; [by apply section_step_auth|exact IH].
Qed.

(** Taking over new elders or another view of the section keeps exactly the members named
    inside the section's prefix; new elders are only accepted for the same prefix or a longer
    one, with a valid signature and a key whose parent is in the chain; a rejected update or a
    failed merge leaves the section as it was. *)
Theorem section_update_confines (s : Section_) (a : SectionSigned SectionAuthorityProvider)
    (k : Signed) (other : Section_) :
  (let s' := (update_elders s a k).1 in
   if (update_elders s a k).2 then
     members_match s' /\ self_verify a = true /\ signed_public_key k ∈ sll_keys (sec_chain s) /\
     (sec_section_auth s' = sec_section_auth s \/ sec_section_auth s' = a) /\
     (section_prefix s' = section_prefix s \/
      is_extension_of (section_prefix s') (section_prefix s) = true)
   else s' = s) /\
  (let s' := (section_merge s other).1 in
   match (section_merge s other).2 with
   | Ok _ => members_match s' /\ self_verify (sec_section_auth other) = true
   | Err _ => s' = s
   end).
Proof.
  split; cbv zeta.
  - unfold update_elders.
    destruct (bool_decide (sap_prefix (ss_value a) <> section_prefix s) &&
      negb (is_extension_of (sap_prefix (ss_value a)) (section_prefix s))) eqn:Ep; [done|].
    assert (sap_prefix (ss_value a) = section_prefix s \/
      is_extension_of (sap_prefix (ss_value a)) (section_prefix s) = true) as Hpre.
    { apply andb_false_iff in Ep as [Ep|Ep]; [left|right; by apply negb_false_iff].
      apply bool_decide_eq_false in Ep. by apply dec_stable. }
    clear Ep.
    destruct (self_verify a) eqn:Ev; simpl; [|done].
    destruct (sll_insert _ _ _ _) as [c [[]|e]] eqn:Ei; simpl.
    + split; [apply prune_members_match|]. split; [done|].
      split; [by eapply sll_insert_parent|].
      unfold adopt_auth; simpl. split; [case_decide; simpl; auto|].
      case_decide; [exact Hpre|by left].
    + apply sll_insert_err in Ei as ->. by destruct s.
  - unfold section_merge. destruct (self_verify (sec_section_auth other)) eqn:Ev; simpl; [|done].
    case_decide; [done|]. destruct (sll_merge _ _) as [c [[]|e]] eqn:Em; cbn -[prune_members].
    + split; [apply prune_members_match|done].
    + apply sll_merge_err in Em as ->. by destruct s.
Qed.
End Reach.

Section SplitClaims.
Context `{CR : Crates, XL : !XorLaws}.
Context `{SerNodeState : !Serialize NodeState, SerSap : !Serialize SectionAuthorityProvider}.

(** C9: a split is proposed exactly when the prefix can grow and both halves have the
    recommended number of mature members; the proposal is a pair of sibling prefixes, ours the
    one our name matches, each with elders of its own half.  With all members inside the
    prefix and all joined members reachable both halves get a full set of elders. *)
Theorem split_correct (s : Section_) (our_name : XorName) :
  section_wf s -> matches (section_prefix s) our_name = true ->
  let b := name_bit our_name (bit_count (section_prefix s)) in
  match try_split s our_name with
  | None =>
      bit_count (section_prefix s) = NAME_BITS \/
      mature_side s b < RECOMMENDED_SECTION_SIZE \/ mature_side s (negb b) < RECOMMENDED_SECTION_SIZE
  | Some (ours, theirs) =>
      ec_prefix ours = pushed (section_prefix s) b /\
      ec_prefix theirs = sibling (ec_prefix ours) /\
      matches (ec_prefix ours) our_name = true /\
      RECOMMENDED_SECTION_SIZE <= mature_side s b /\
      RECOMMENDED_SECTION_SIZE <= mature_side s (negb b) /\
      (forall ec n, ec = ours \/ ec = theirs -> is_Some (ec_elders ec !! n) ->
         matches (ec_prefix ec) n = true /\ peers_is_joined (sec_members s) n = true) /\
      (members_match s ->
       (forall n i, members (sec_members s) !! n = Some i -> info_state i = Joined ->
          peer_reachable (ns_peer (ss_value i)) = true) ->
       size (ec_elders ours) = ELDER_SIZE /\ size (ec_elders theirs) = ELDER_SIZE)
  end.
Proof.
  intros Hwf Hm b. unfold try_split. fold b.
  pose proof (bit_count_le (section_prefix s)) as Hle.
  destruct (Z.ltb_spec U8_MAX (Z.of_nat (bit_count (section_prefix s)))) as [Hz|Hz];
    unfold U8_MAX, NAME_BITS in *; [left; lia|].
  rewrite split_counts_spec. fold (mature_side s b) (mature_side s (negb b)).
  destruct (Nat.ltb_spec (mature_side s b) RECOMMENDED_SECTION_SIZE); simpl; [auto|].
  destruct (Nat.ltb_spec (mature_side s (negb b)) RECOMMENDED_SECTION_SIZE); [auto|].
  assert (bit_count (section_prefix s) < NAME_BITS) as Hlt by (unfold NAME_BITS; lia).
  split; [done|]. split; [simpl; by rewrite sibling_pushed|].
  split; [apply matches_pushed; [done|by split]|]. split; [done|]. split; [done|].
  assert (forall b' n,
    is_Some (collect_elders (peers_elder_candidates_matching_prefix (sec_members s)
      (pushed (section_prefix s) b') ELDER_SIZE (authority_provider s)) !! n) ->
    matches (pushed (section_prefix s) b') n = true /\ peers_is_joined (sec_members s) n = true) as He.
  { intros b' n Hn%elem_of_dom. apply dom_collect_elders in Hn.
    apply list_elem_of_fmap in Hn as (p & -> & (i & Hi & <-)%elem_of_elder_candidates_of).
    apply elem_of_prefix_infos in Hi as (Hi & Hj & Hmt & _). split; [done|].
    apply elem_of_infos in Hi; [|apply Hwf]. unfold peers_is_joined. unfold info_name in Hi.
    rewrite Hi. by apply bool_decide_eq_true. }
  split.
  - intros ec n [->| ->]; apply He.
  - intros Hmm Hr.
    assert (forall b', RECOMMENDED_SECTION_SIZE <= mature_side s b' ->
      size (collect_elders (peers_elder_candidates_matching_prefix (sec_members s)
        (pushed (section_prefix s) b') ELDER_SIZE (authority_provider s))) = ELDER_SIZE) as Hs.
    { intros b' Hb. rewrite size_collect_elders_NoDup
        by (apply NoDup_elder_candidates_of, prefix_infos_NoDup, Hwf).
      unfold peers_elder_candidates_matching_prefix. rewrite length_elder_candidates_of.
      pose proof (mature_side_candidates s b' Hwf Hmm Hlt Hr).
      unfold RECOMMENDED_SECTION_SIZE, ELDER_SIZE in *. lia. }
    split; by apply Hs.
Qed.

(** C8: elder changes are safe: every proposed elder set has at most [ELDER_SIZE] members, all
    of them members of the section; without a split there is at most one proposal, it keeps
    the prefix, it differs from the current elders and it still has the supermajority of the
    current elders' number. *)
Theorem elder_changes_safe (s : Section_) (our_name : XorName) :
  section_wf s ->
  (forall ec, ec ∈ promote_and_demote_elders s our_name ->
     size (ec_elders ec) <= ELDER_SIZE /\
     forall n, is_Some (ec_elders ec !! n) -> is_Some (members (sec_members s) !! n)) /\
  (try_split s our_name = None ->
   length (promote_and_demote_elders s our_name) <= 1 /\
   forall ec, ec ∈ promote_and_demote_elders s our_name ->
     ec_prefix ec = section_prefix s /\
     dom (ec_elders ec) <> sap_names (authority_provider s) /\
     supermajority (size (sap_names (authority_provider s))) <= size (ec_elders ec)).
Proof.
  intros Hwf.
  assert (forall k e ms p, (forall i, i ∈ ms -> i ∈ infos (sec_members s)) ->
    size (ec_elders (elder_candidates_new (elder_candidates_of k e ms) p)) <= k /\
    forall n, is_Some (ec_elders (elder_candidates_new (elder_candidates_of k e ms) p) !! n) ->
      is_Some (members (sec_members s) !! n)) as Hgen.
  { intros k e ms p Hms. split.
    - etrans; [apply size_collect_elders|]. rewrite length_elder_candidates_of. lia.
    - intros n Hn%elem_of_dom. apply dom_collect_elders in Hn.
      apply list_elem_of_fmap in Hn as (q & -> & (i & Hi & <-)%elem_of_elder_candidates_of).
      apply Hms, elem_of_infos in Hi; [|apply Hwf]. eauto. }
  assert (forall p i, i ∈ prefix_infos (sec_members s) p -> i ∈ infos (sec_members s)) as Hpi
    by (by intros p i [? _]%elem_of_prefix_infos).
  assert (forall e i, i ∈ active_infos (sec_members s) e -> i ∈ infos (sec_members s)) as Hai
    by (by intros e i [? _]%elem_of_active_infos).
  unfold promote_and_demote_elders. split.
  - intros ec. unfold try_split. destruct (_ <? _)%Z; [|destruct (split_counts _ _ _) as [m n]; destruct (_ || _)];
      [do 2 (try case_decide; try case_match)..|].
    all: rewrite ?elem_of_cons, ?list_elem_of_singleton; intros Hin;
      repeat destruct Hin as [->|Hin]; try (by apply not_elem_of_nil in Hin);
      subst; first [apply Hgen; apply Hai|apply Hgen; apply Hpi].
  - intros ->. case_decide as E; [|destruct (Nat.ltb_spec (size (list_to_set
      (peer_name <$> section_elder_candidates s ELDER_SIZE) : gset XorName))
      (supermajority (size (sap_names (authority_provider s)))))].
    1,2: split; [simpl; lia|]; intros ec Hin; by apply not_elem_of_nil in Hin.
    split; [simpl; lia|]. intros ec ->%list_elem_of_singleton. split; [done|].
    assert (dom (collect_elders (section_elder_candidates s ELDER_SIZE)) =
      list_to_set (peer_name <$> section_elder_candidates s ELDER_SIZE)) as Hd
      by (apply set_eq; intros x; rewrite dom_collect_elders; set_solver).
    simpl. rewrite <- size_dom, Hd. done.
Qed.
End SplitClaims.

Module SectionWitness.
Import BitNames ToyCrates ToySerialize.

Definition peer (age id : N) : Peer :=
  peer_set_reachable (peer_new (to_name (age + 256 * id)) (SocketAddrV4 id 1)) true.

Definition pk0 : BlsPublicKeySet := 1%N.
Definition sk0 : BlsSecretKeyShare := (1%N, 0).

Lemma first_keys0 : first_keys pk0 sk0.
Proof.
  intros msg sig. unfold pk0, sk0; simpl. case_decide as E; [|done]. intros [= <-].
  by apply bool_decide_eq_true.
Qed.

(** A section of its genesis member, as [first_node] builds it. *)
Definition auth (prefix : Prefix) (ps : list Peer) : SectionSigned SectionAuthorityProvider :=
  let sap := sap_new ps prefix pk0 in
  mkSectionSigned sap (mkSigned 1%N (1%N, default [] (serialize sap))).
Definition member (p : Peer) : SectionSigned NodeState :=
  let st := node_state_joined p in mkSectionSigned st (mkSigned 1%N (1%N, default [] (serialize st))).
Definition section0 : Section_ :=
  mkSection (1%N : BlsPublicKey) (sll_new (1%N : BlsPublicKey)) (auth prefix_default [peer 5 1]) peers_default.

Lemma section0_new :
  section_new (1%N : BlsPublicKey) (sll_new (1%N : BlsPublicKey)) (auth prefix_default [peer 5 1]) = Ok section0.
Proof. reflexivity. Qed.

(** fourteen mature members on each side of the first bit *)
Definition half (b : N) : list Peer := (fun i => peer 6 (N.of_nat i + b * 2 ^ 247)) <$> seq 1 14.
Definition section28 : Section_ :=
  foldl (fun s info => (update_member s info).1) section0 (member <$> (half 0 ++ half 1)).

Lemma section0_started : section_started section0.
Proof. eapply start_new, section0_new. Qed.

Lemma section28_reachable : rtc section_step section0 section28.
Proof.
  unfold section28. generalize (member <$> (half 0 ++ half 1)). generalize section0. intros s l. revert s.
  induction l as [|p l IH]; intros s; simpl; [reflexivity|].
  eapply rtc_l; [apply step_update_member|apply IH].
Qed.

Lemma section28_wf : section_wf section28.
Proof. eapply update_members_wf, section_new_wf, section0_new. Qed.

Lemma section_invariant_witness :
  section_started section0 /\ rtc section_step section0 section28 /\ section_wf section28 /\ auth_verified section28.
Proof.
  split; [apply section0_started|]. split; [apply section28_reachable|].
  destruct (section_invariant section0 section28 section0_started section28_reachable)
    as [H1 [H2|(_ & g & c & a & H2 & H3)]]; [by split|].
  exfalso. revert H2. unfold section_new. case_decide; [done|]. intros E.
  assert (self_verify (sec_section_auth section0) = true) as H4 by (vm_compute; reflexivity).
  assert (a = sec_section_auth section0) as Ha
    by exact (f_equal (fun r => match r with Ok x => sec_section_auth x | Err _ => a end) E).
  rewrite Ha in H3. congruence.
Defined.

Lemma section_update_confines_witness :
  (update_elders section28 (auth prefix_default (half 0)) (mkSigned 2%N (2%N, []))).2 = false /\
  (update_elders section28 (auth prefix_default (half 0)) (mkSigned 2%N (2%N, []))).1 = section28.
Proof.
  assert ((update_elders section28 (auth prefix_default (half 0)) (mkSigned 2%N (2%N, []))).2 = false)
    as E by (vm_compute; reflexivity).
  split; [exact E|].
  pose proof (proj1 (section_update_confines section28 (auth prefix_default (half 0))
    (mkSigned 2%N (2%N, [])) section0)) as H.
  cbv zeta in H. rewrite E in H. exact H.
Defined.

Lemma split_correct_witness :
  section_wf section28 /\ matches (section_prefix section28) (to_name 0) = true /\
  exists ours theirs, try_split section28 (to_name 0) = Some (ours, theirs) /\
    ec_prefix theirs = sibling (ec_prefix ours).
Proof.
  split; [apply section28_wf|].
  assert (matches (section_prefix section28) (to_name 0) = true) as Hm by (vm_compute; reflexivity).
  split; [exact Hm|].
  pose proof (split_correct section28 (to_name 0) section28_wf Hm) as H. cbv zeta in H.
  assert (bool_decide (is_Some (try_split section28 (to_name 0))) = true) as Hs
    by (vm_compute; reflexivity).
  apply bool_decide_eq_true in Hs.
  destruct (try_split section28 (to_name 0)) as [[ours theirs]|].
  - exists ours, theirs. split; [reflexivity|]. exact (proj1 (proj2 H)).
  - exfalso. by destruct Hs.
Defined.

(** the section of the genesis member and one older adult: one change of elders is due *)
Definition section2 : Section_ :=
  foldl (fun s info => (update_member s info).1) section0 (member <$> [peer 5 1; peer 9 2]).

Lemma section2_wf : section_wf section2.
Proof. eapply update_members_wf, section_new_wf, section0_new. Qed.

Lemma elder_changes_safe_witness :
  section_wf section2 /\
  (fun ec => size (ec_elders ec)) <$> promote_and_demote_elders section2 (to_name 0) = [2] /\
  length (promote_and_demote_elders section2 (to_name 0)) <= 1.
Proof.
  split; [apply section2_wf|]. split; [vm_compute; reflexivity|].
  assert (bool_decide (is_Some (try_split section2 (to_name 0))) = false) as Hs
    by (vm_compute; reflexivity).
  apply bool_decide_eq_false in Hs.
  apply (proj2 (elder_changes_safe section2 (to_name 0) section2_wf)).
  destruct (try_split section2 (to_name 0)); [|reflexivity]. exfalso. apply Hs. eauto.
Defined.

End SectionWitness.
