(* ===== verification/Network.v ===== *)
(** * The rest of the network (src/network/mod.rs)

    The other sections a node knows, keyed by prefix.  The map is used through the interface
    [PrefixMapOps] with its laws [PrefixMapLaws], so the theorems hold for every implementation
    of that contract, the one of src/network/prefix_map.rs among them.  The statistics are in
    [NetworkStats]. *)

From stdpp Require Import base tactics list gmap sorting.
From Stdlib Require Import ZArith Lia.
From S2P Require Import Prelude Names Crates Types PrefixMap.

Section Network.
Context `{CR : Crates}.
Context `{SerKey : !Serialize BlsPublicKey, SerSap : !Serialize SectionAuthorityProvider}.

Record OtherSection : Type := mkOtherSection {
  os_section_auth : SectionSigned SectionAuthorityProvider;
  os_key_signed : option Signed;
}.

#[global] Instance other_section_prefix : HasPrefix OtherSection :=
  fun info => sap_prefix (ss_value (os_section_auth info)).

Definition other_section_verify (o : OtherSection) (section_chain : SecuredLinkedList) : bool :=
  match os_key_signed o with
  | Some key_signed =>
      sll_has_key section_chain (signed_public_key key_signed) &&
      verify_signed key_signed (signed_public_key (ss_signed (os_section_auth o))) &&
      self_verify (os_section_auth o)
  | None => section_signed_verify (os_section_auth o) section_chain
  end.

Context `{PMO : !PrefixMapOps OtherSection}.

Record Network : Type := mkNetwork { sections : PMap OtherSection }.

Definition network_new : Network := mkNetwork pmap_new.

Definition os_value (o : OtherSection) : SectionAuthorityProvider := ss_value (os_section_auth o).

Definition network_all (n : Network) : list SectionAuthorityProvider :=
  os_value <$> pmap_iter (sections n).
Definition network_closest (n : Network) (name : XorName) : option SectionAuthorityProvider :=
  min_by (fun lhs rhs => prefix_cmp_distance (sap_prefix lhs) (sap_prefix rhs) name) (network_all n).
Definition network_get (n : Network) (prefix : Prefix) : option SectionAuthorityProvider :=
  os_value <$> pmap_get (sections n) prefix.
Definition network_elders (n : Network) : list Peer := network_all n ≫= sap_peers.
Definition network_get_elder (n : Network) (name : XorName) : option Peer :=
  o ← pmap_get_matching (sections n) name;
  addr ← sap_get_addr (os_value o) name;
  Some (peer_set_reachable (peer_new name addr) true).

Definition network_merge (n other : Network) (section_chain : SecuredLinkedList) : Network :=
  foldl (fun n entry =>
      if other_section_verify entry section_chain
      then mkNetwork (pmap_insert (sections n) entry).1 else n)
    n (pmap_iter (sections other)).

Definition network_update_section (n : Network) (section_auth : SectionSigned SectionAuthorityProvider)
    (key_signed : option Signed) (section_chain : SecuredLinkedList) : Network * bool :=
  let info := mkOtherSection section_auth key_signed in
  if negb (other_section_verify info section_chain) then (n, false)
  else
    let '(m, replaced) := pmap_insert (sections n) info in
    match replaced with
    | Some old =>
        if decide (os_section_auth old = section_auth) then (mkNetwork m, false) else (mkNetwork m, true)
    | None => (mkNetwork m, true)
    end.

Definition network_keys (n : Network) : list (Prefix * BlsPublicKey) :=
  (fun entry => (sap_prefix (os_value entry), sap_section_key (os_value entry))) <$> pmap_iter (sections n).
Definition network_key_by_name (n : Network) (name : XorName) : result BlsPublicKey Error :=
  let? entry := ok_or (pmap_get_matching (sections n) name) NoMatchingSection in
  Ok (sap_section_key (os_value entry)).
Definition network_key_by_prefix (n : Network) (prefix : Prefix) : option BlsPublicKey :=
  (fun entry => sap_section_key (os_value entry)) <$> pmap_get_equal_or_ancestor (sections n) prefix.
Definition network_section_by_name (n : Network) (name : XorName) :
    result SectionAuthorityProvider Error :=
  let? entry := ok_or (pmap_get_matching (sections n) name) NoMatchingSection in
  Ok (os_value entry).

(** ** Invariant: everything stored was verified *)

Definition network_verified (chain : SecuredLinkedList) (n : Network) : Prop :=
  forall p o, pmap_get (sections n) p = Some o -> other_section_verify o chain = true.

(** a stored proper extension of the prefix *)
Definition known_longer (n : Network) (p : Prefix) : Prop :=
  exists q o, pmap_get (sections n) q = Some o /\ is_extension_of q p = true.

Context `{PML : !PrefixMapLaws OtherSection}.

Lemma elem_of_network_all n s :
  s ∈ network_all n <-> exists o, pmap_get (sections n) (sap_prefix s) = Some o /\ os_value o = s.
Proof.
  unfold network_all. rewrite list_elem_of_fmap. split.
  - intros (o & -> & Ho%pmap_iter_get). eauto.
  - intros (o & Ho & <-). exists o. split; [done|]. by apply pmap_iter_get.
Qed.

Lemma insert_verified chain (m : PMap OtherSection) o :
  other_section_verify o chain = true ->
  network_verified chain (mkNetwork m) -> network_verified chain (mkNetwork (pmap_insert m o).1).
Proof.
  intros Ho Hm q e. simpl. destruct (pmap_blocked_dec m (entry_prefix o)) as [Hb|Hb].
  - destruct (pmap_insert_blocked m o Hb) as [_ ->]. apply Hm.
  - destruct (pmap_insert_free m o Hb) as (_ & Hnew & Hold).
    destruct (decide (q = entry_prefix o)) as [->|Hne].
    + rewrite Hnew. by intros [= <-].
    + destruct (Hold q Hne) as [->|[-> _]]; [apply Hm|done].
Qed.

Lemma merge_verified chain n other :
  network_verified chain n -> network_verified chain (network_merge n other chain).
Proof.
  unfold network_merge. revert n. induction (pmap_iter (sections other)) as [|o l IH]; intros n Hn; simpl; [done|].
  apply IH. destruct (other_section_verify o chain) eqn:E; [|done].
  destruct n as [m]. by apply insert_verified.
Qed.

Lemma update_section_verified chain n a k :
  network_verified chain n -> network_verified chain (network_update_section n a k chain).1.
Proof.
  intros Hn. unfold network_update_section.
  destruct (other_section_verify (mkOtherSection a k) chain) eqn:E; simpl; [|done].
  destruct n as [m]. pose proof (insert_verified chain m _ E Hn) as H. simpl.
  destruct (pmap_insert m (mkOtherSection a k)) as [m' r]. repeat case_match; done.
Qed.

(** ** Everything stored is signed by the key it claims, whatever chain vouched for that key *)

Definition network_signed (n : Network) : Prop :=
  forall p o, pmap_get (sections n) p = Some o -> self_verify (os_section_auth o) = true.

Lemma other_section_verify_self o c :
  other_section_verify o c = true -> self_verify (os_section_auth o) = true.
Proof.
  unfold other_section_verify, section_signed_verify.
  destruct (os_key_signed o); rewrite !andb_true_iff; tauto.
Qed.

Lemma insert_signed (m : PMap OtherSection) o :
  self_verify (os_section_auth o) = true ->
  network_signed (mkNetwork m) -> network_signed (mkNetwork (pmap_insert m o).1).
Proof.
  intros Ho Hm q e. simpl. destruct (pmap_blocked_dec m (entry_prefix o)) as [Hb|Hb].
  - destruct (pmap_insert_blocked m o Hb) as [_ ->]. apply Hm.
  - destruct (pmap_insert_free m o Hb) as (_ & Hnew & Hold).
    destruct (decide (q = entry_prefix o)) as [->|Hne].
    + rewrite Hnew. by intros [= <-].
    + destruct (Hold q Hne) as [->|[-> _]]; [apply Hm|done].
Qed.

Lemma network_new_signed : network_signed network_new.
Proof. intros p o. simpl. by rewrite pmap_get_new. Qed.

Lemma merge_signed c n other : network_signed n -> network_signed (network_merge n other c).
Proof.
  unfold network_merge. revert n. induction (pmap_iter (sections other)) as [|o l IH]; intros n Hn; simpl; [done|].
  apply IH. destruct (other_section_verify o c) eqn:E; [|done].
  destruct n as [m]. apply insert_signed; [by eapply other_section_verify_self|done].
Qed.

Lemma update_section_signed c n a k :
  network_signed n -> network_signed (network_update_section n a k c).1.
Proof.
  intros Hn. unfold network_update_section.
  destruct (other_section_verify (mkOtherSection a k) c) eqn:E; simpl; [|done].
  destruct n as [m]. pose proof (insert_signed m _ (other_section_verify_self _ _ E) Hn) as H. simpl.
  destruct (pmap_insert m (mkOtherSection a k)) as [m' r]. repeat case_match; done.
Qed.

Lemma verified_mono `{CL : !ChainLaws} c c' n :
  (forall x, x ∈ sll_keys c -> x ∈ sll_keys c') -> network_verified c n -> network_verified c' n.
Proof.
  intros Hsub Hn p o Ho. specialize (Hn p o Ho). unfold other_section_verify in *.
  destruct (os_key_signed o); unfold section_signed_verify in *;
    rewrite ?andb_true_iff, ?sll_has_key_spec in *; naive_solver.
Qed.

Lemma update_section_spec n a k chain :
  let info := mkOtherSection a k in
  let r := network_update_section n a k chain in
  (r.2 = true <->
    other_section_verify info chain = true /\ ~ known_longer n (entry_prefix info) /\
    (os_section_auth <$> pmap_get (sections n) (entry_prefix info)) <> Some a) /\
  (r.2 = true -> pmap_get (sections r.1) (entry_prefix info) = Some info) /\
  (other_section_verify info chain = false -> r.1 = n).
Proof.
  intros info r. unfold r, network_update_section. fold info.
  destruct (other_section_verify info chain) eqn:Ev; simpl.
  2: { split; [naive_solver|]. split; [done|done]. }
  destruct (pmap_insert (sections n) info) as [m rep] eqn:Ei.
  assert (m = (pmap_insert (sections n) info).1) as Em by (by rewrite Ei).
  assert (rep = (pmap_insert (sections n) info).2) as Er by (by rewrite Ei). clear Ei.
  destruct (pmap_blocked_dec (sections n) (entry_prefix info)) as [Hb|Hb].
  - destruct (pmap_insert_blocked _ _ Hb) as [H1 H2]. rewrite H1 in Er. subst rep.
    rewrite decide_True by done. simpl. split; [|done]. split; [done|]. intros (_ & Hnb & _). by destruct Hnb.
  - destruct (pmap_insert_free _ _ Hb) as (H1 & H2 & _). rewrite H1 in Er. subst m.
    destruct rep as [old|]; rewrite <- Er; [case_decide as Eo|]; simpl.
    + split; [|done]. split; [done|]. intros (_ & _ & Hd). destruct Hd. by rewrite Eo.
    + split; [|done]. split; [|done]. intros _. split; [done|]. split; [done|]. by intros [= ?].
    + split; [|done]. split; [|done]. by intros _.
Qed.
End Network.

(** ** Claims *)

Section Claims.
Context `{CR : Crates, XL : !XorLaws, CL : !ChainLaws}.
Context `{SerKey : !Serialize BlsPublicKey, SerSap : !Serialize SectionAuthorityProvider}.
Context `{PMO : !PrefixMapOps OtherSection, PML : !PrefixMapLaws OtherSection}.

(** C27: only verified sections are ever stored: starting from an empty network, any sequence
    of merges and updates against a growing chain keeps every stored section verified against
    the last chain. *)
Theorem network_only_verified
    (steps : list (SecuredLinkedList * (Network + SectionSigned SectionAuthorityProvider * option Signed)))
    (last_chain : SecuredLinkedList) :
  (forall c x, c ∈ steps.*1 -> x ∈ sll_keys c -> x ∈ sll_keys last_chain) ->
  network_verified last_chain
    (foldl (fun n '(c, step) =>
       match step with
       | inl other => network_merge n other c
       | inr (a, k) => (network_update_section n a k c).1
       end) network_new steps).
Proof.
  intros Hc.
  cut (forall n l, (forall c x, c ∈ l.*1 -> x ∈ sll_keys c -> x ∈ sll_keys last_chain) ->
    network_verified last_chain n ->
    network_verified last_chain (foldl (fun n '(c, step) =>
       match step with
       | inl other => network_merge n other c
       | inr (a, k) => (network_update_section n a k c).1
       end) n l)).
  { intros H. apply H; [done|]. intros p o. simpl. by rewrite pmap_get_new. }
  assert (forall c o, (forall x, x ∈ sll_keys c -> x ∈ sll_keys last_chain) ->
    other_section_verify o c = true -> other_section_verify o last_chain = true) as Hmono.
  { intros c o Hsub. unfold other_section_verify, section_signed_verify.
    destruct (os_key_signed o); rewrite ?andb_true_iff, ?sll_has_key_spec; naive_solver. }
  intros n l. revert n. induction l as [|[c [other|[a k]]] l IH]; intros n Hl Hn; simpl; [done| |];
    (apply IH; [set_solver|]); assert (forall x, x ∈ sll_keys c -> x ∈ sll_keys last_chain) as Hsub
      by (intros x; apply Hl; simpl; left).
  - unfold network_merge. revert n Hn. generalize (pmap_iter (sections other)).
    intros es; induction es as [|o es IHes]; intros n Hn; simpl; [done|]. apply IHes.
    destruct (other_section_verify o c) eqn:E; [|done]. destruct n as [m].
    apply insert_verified; [by eapply Hmono|done].
  - unfold network_update_section.
    destruct (other_section_verify (mkOtherSection a k) c) eqn:E; simpl; [|done].
    destruct n as [m]. pose proof (insert_verified last_chain m _ (Hmono _ _ Hsub E) Hn) as H. simpl.
    destruct (pmap_insert m (mkOtherSection a k)) as [m' r]. repeat case_match; done.
Qed.

(** [closest] finds the right section: it answers whenever any section is known, the
    answer is a known section, and if some known section is responsible for the name then so
    is the answer; the lookups by name agree with it on whether the name is covered. *)
Theorem closest_covers (n : Network) (name : XorName) :
  (network_closest n name = None <-> network_all n = []) /\
  (forall s, network_closest n name = Some s -> s ∈ network_all n /\
     ((exists s', s' ∈ network_all n /\ matches (sap_prefix s') name = true) ->
      matches (sap_prefix s) name = true)) /\
  (is_ok (network_section_by_name n name) = true <->
   exists s', s' ∈ network_all n /\ matches (sap_prefix s') name = true) /\
  (forall s, network_section_by_name n name = Ok s ->
     matches (sap_prefix s) name = true /\ network_key_by_name n name = Ok (sap_section_key s)).
Proof.
  split; [apply min_by_None|]. split; [|split].
  - intros s Hs. split; [by eapply min_by_elem|]. intros Hex.
    apply (min_by_prefers _ (fun s => matches (sap_prefix s) name = true) _ _) in Hs; [done|..].
    + intros a b Ha Hb. apply not_true_is_false in Hb. by apply cmp_distance_match_l.
    + intros a b Ha Hb. apply not_true_is_false in Ha. by apply cmp_distance_match_r.
    + apply _.
    + done.
  - unfold network_section_by_name.
    destruct (pmap_get_matching (sections n) name) as [o|] eqn:E; simpl; (split; [|try done]).
    + intros _. apply pmap_get_matching_Some in E as (Hg & Hm & _).
      exists (os_value o). split; [|done]. apply elem_of_network_all. eauto.
    + done.
    + intros (s & Hs & Hm). apply elem_of_network_all in Hs as (o & Ho & <-).
      by rewrite (pmap_get_matching_None _ _ _ _ E Ho) in Hm.
  - intros s. unfold network_section_by_name, network_key_by_name.
    destruct (pmap_get_matching (sections n) name) as [o|] eqn:E; simpl; [|done]. intros [= <-].
    apply pmap_get_matching_Some in E as (_ & Hm & _). done.
Qed.

(** [update_section] reports a change exactly when the section is verified, no section
    with a longer prefix is known and the stored authority differs; the new authority is then
    the one stored for its prefix, and an unverified one changes nothing. *)
Theorem update_section_reports_change (n : Network) (a : SectionSigned SectionAuthorityProvider)
    (k : option Signed) (chain : SecuredLinkedList) :
  let info := mkOtherSection a k in
  let r := network_update_section n a k chain in
  (r.2 = true <->
    other_section_verify info chain = true /\ ~ known_longer n (sap_prefix (ss_value a)) /\
    (os_section_auth <$> pmap_get (sections n) (sap_prefix (ss_value a))) <> Some a) /\
  (r.2 = true -> network_get r.1 (sap_prefix (ss_value a)) = Some (ss_value a)) /\
  (other_section_verify info chain = false -> r.1 = n).
Proof.
  intros info r. pose proof (update_section_spec n a k chain) as (H1 & H2 & H3).
  split; [exact H1|]. split; [|exact H3]. intros Hr. exact (f_equal (fmap os_value) (H2 Hr)).
Qed.
End Claims.

Module NetworkWitness.
Import BitNames ToyCrates ToySerialize.

#[export] Instance ser_key : Serialize BlsPublicKey := fun k => Some [Z.of_N k].

(** the prefix map of src/network/prefix_map.rs as the map of the network *)
#[export] Instance network_map : PrefixMapOps OtherSection := prefix_map_ops.
#[export] Instance network_map_laws : PrefixMapLaws OtherSection := prefix_map_laws.

Definition sap (bits : list bool) (k : N) : SectionAuthorityProvider :=
  sap_new [peer_new (to_name (5 + k)) (SocketAddrV4 1 1)] (to_prefix bits) k.
Definition signed_sap (bits : list bool) (k by_key : N) : SectionSigned SectionAuthorityProvider :=
  mkSectionSigned (sap bits k) (mkSigned by_key (by_key, default [] (serialize (sap bits k)))).
Definition chain1 : SecuredLinkedList := sll_new (1%N : BlsPublicKey).
Definition step (bits : list bool) (k : N) :
    SecuredLinkedList * (Network + SectionSigned SectionAuthorityProvider * option Signed) :=
  (chain1, inr (signed_sap bits k 1, None)).
Definition net : Network := (network_update_section network_new (signed_sap [true] 2 1) None chain1).1.

Lemma network_only_verified_witness :
  (forall c x, c ∈ [step [true] 2; step [false] 3].*1 -> x ∈ sll_keys c -> x ∈ sll_keys chain1) /\
  network_verified chain1
    (foldl (fun n '(c, step) =>
       match step with
       | inl other => network_merge n other c
       | inr (a, k) => (network_update_section n a k c).1
       end) network_new [step [true] 2; step [false] 3]).
Proof.
  assert (forall c x, c ∈ [step [true] 2; step [false] 3].*1 -> x ∈ sll_keys c -> x ∈ sll_keys chain1) as H.
  { intros c x Hc. cbn in Hc. rewrite !elem_of_cons in Hc.
    destruct Hc as [->|[->|Hc]]; [done|done|by apply not_elem_of_nil in Hc]. }
  split; [exact H|]. apply network_only_verified. exact H.
Defined.

Lemma closest_covers_witness :
  xbits <$> (sap_prefix <$> network_closest net (to_name 1)) = Some [true] /\
  (network_closest net (to_name 1) = None <-> network_all net = []).
Proof.
  split; [vm_compute; reflexivity|]. exact (proj1 (closest_covers net (to_name 1))).
Defined.

Lemma update_section_reports_change_witness :
  (network_update_section net (signed_sap [false] 3 1) None chain1).2 = true /\
  network_get (network_update_section net (signed_sap [false] 3 1) None chain1).1
    (sap_prefix (sap [false] 3)) = Some (sap [false] 3).
Proof.
  assert ((network_update_section net (signed_sap [false] 3 1) None chain1).2 = true) as H
    by (vm_compute; reflexivity).
  split; [exact H|].
  exact (proj1 (proj2 (update_section_reports_change net (signed_sap [false] 3 1) None chain1)) H).
Defined.

End NetworkWitness.
