(* ===== verification/SplitBarrier.v ===== *)
(** * The split barrier (src/routing/split_barrier.rs)

    Agreements on the elders of the two halves of a splitting section are held back until both
    have been seen.  The theorems: nothing is lost or duplicated, the cache never holds two
    siblings, and what is released is one half together with everything agreed for the other. *)

From stdpp Require Import base tactics list gmap sorting.
From Stdlib Require Import ZArith Lia.
From S2P Require Import Prelude Names Crates Types.

Section SplitBarrier.
Context `{CR : Crates}.

Abbreviation Entry := (SectionSigned SectionAuthorityProvider * Signed)%type.

Record SplitBarrier : Type := mkSplitBarrier { cached : list Entry }.

Definition split_barrier_new : SplitBarrier := mkSplitBarrier [].

Definition entry_auth_prefix (e : Entry) : Prefix := sap_prefix (ss_value e.1).

Definition is_sibling_of (section_auth : SectionSigned SectionAuthorityProvider) (e : Entry) : bool :=
  bool_decide (entry_auth_prefix e = sibling (sap_prefix (ss_value section_auth))).

Definition split_barrier_process (b : SplitBarrier) (our_prefix : Prefix)
    (section_auth : SectionSigned SectionAuthorityProvider) (key_signed : Signed) :
    SplitBarrier * list Entry :=
  if negb (is_extension_of (sap_prefix (ss_value section_auth)) our_prefix)
  then (b, [(section_auth, key_signed)])
  else
    let '(give, keep) := List.partition (is_sibling_of section_auth) (cached b) in
    match give with
    | [] => (mkSplitBarrier (keep ++ [(section_auth, key_signed)]), [])
    | _ => (mkSplitBarrier keep, give ++ [(section_auth, key_signed)])
    end.

(** a stream of agreements, with our prefix at the time *)
Definition barrier_step (st : SplitBarrier * list (list Entry)) (x : Prefix * Entry) :
    SplitBarrier * list (list Entry) :=
  let '(b', give) := split_barrier_process st.1 x.1 x.2.1 x.2.2 in (b', st.2 ++ [give]).
Definition barrier_run (b : SplitBarrier) (l : list (Prefix * Entry)) : SplitBarrier * list (list Entry) :=
  foldl barrier_step (b, []) l.

(** ** Invariant: split prefixes only, and no two of them siblings *)

Record barrier_wf (b : SplitBarrier) : Prop := {
  bw_split : forall e, e ∈ cached b -> bit_count (entry_auth_prefix e) <> 0;
  bw_apart : forall e e', e ∈ cached b -> e' ∈ cached b ->
    entry_auth_prefix e <> sibling (entry_auth_prefix e');
}.

Lemma partition_filter {A : Type} (f : A -> bool) l :
  List.partition f l = (List.filter f l, List.filter (fun x => negb (f x)) l).
Proof.
  induction l as [|x l IH]; simpl; [done|]. rewrite IH. by destruct (f x).
Qed.

Lemma filter_negb_perm {A : Type} (f : A -> bool) l :
  List.filter f l ++ List.filter (fun x => negb (f x)) l ≡ₚ l.
Proof.
  induction l as [|x l IH]; simpl; [done|]. destruct (f x); simpl; [by rewrite IH|].
  by rewrite <- Permutation_middle, IH.
Qed.

Lemma process_conserves b p a k :
  cached (split_barrier_process b p a k).1 ++ (split_barrier_process b p a k).2 ≡ₚ
  cached b ++ [(a, k)].
Proof.
  unfold split_barrier_process. destruct (is_extension_of _ _); simpl; [|done].
  rewrite partition_filter.
  pose proof (filter_negb_perm (is_sibling_of a) (cached b)) as Hp.
  destruct (List.filter (is_sibling_of a) (cached b)) as [|x l]; simpl in *.
  - by rewrite app_nil_r, Hp.
  - transitivity ((x :: l ++ List.filter (fun e => negb (is_sibling_of a e)) (cached b)) ++ [(a, k)]);
      [|by apply Permutation_app_tail].
    rewrite !app_comm_cons, app_assoc. apply Permutation_app_tail, Permutation_app_comm.
Qed.

Context `{XL : !XorLaws}.

Lemma pbits_snoc p : bit_count p <> 0 -> exists bs b, pbits p = bs ++ [b].
Proof.
  rewrite <- length_pbits. intros H. destruct (pbits p) as [|b bs _] using rev_ind; [done|]. eauto.
Qed.

Lemma sibling_involutive p : bit_count p <> 0 -> sibling (sibling p) = p.
Proof.
  intros (bs & b & E)%pbits_snoc. apply pbits_inj.
  pose proof (sibling_bits _ _ _ E) as E1. pose proof (sibling_bits _ _ _ E1) as E2.
  by rewrite E2, negb_involutive.
Qed.

Lemma sibling_neq p : bit_count p <> 0 -> p <> sibling p.
Proof.
  intros (bs & b & E)%pbits_snoc Hp. pose proof (sibling_bits _ _ _ E) as E1.
  rewrite <- Hp, E in E1. apply app_inj_tail in E1 as [_ E1]. by destruct b.
Qed.

Lemma bit_count_sibling p : bit_count p <> 0 -> bit_count (sibling p) = bit_count p.
Proof.
  intros (bs & b & E)%pbits_snoc. pose proof (sibling_bits _ _ _ E) as E1.
  by rewrite <- !length_pbits, E, E1, !length_app.
Qed.

Lemma process_wf b p a k : barrier_wf b -> barrier_wf (split_barrier_process b p a k).1.
Proof.
  intros [Hs Ha]. unfold split_barrier_process.
  destruct (is_extension_of (sap_prefix (ss_value a)) p) eqn:E; simpl; [|done].
  assert (bit_count (sap_prefix (ss_value a)) <> 0) as Hne
    by (apply is_extension_of_spec in E as [_ ?]; lia).
  rewrite partition_filter.
  assert (forall e, e ∈ List.filter (fun x => negb (is_sibling_of a x)) (cached b) ->
    e ∈ cached b /\ entry_auth_prefix e <> sibling (sap_prefix (ss_value a))) as Hkeep.
  { intros e He%list_elem_of_In. apply filter_In in He as [He Hn%negb_true_iff].
    split; [by apply list_elem_of_In|]. by apply bool_decide_eq_false in Hn. }
  destruct (List.filter (is_sibling_of a) (cached b)) as [|x l] eqn:Eg; simpl.
  - split; simpl.
    + intros e. rewrite elem_of_app, list_elem_of_singleton. intros [He| ->]; [|done].
      by apply Hs, Hkeep.
    + intros e e'. rewrite !elem_of_app, !list_elem_of_singleton.
      intros [He| ->] [He'| ->].
      * apply Ha; by apply Hkeep.
      * by apply Hkeep.
      * intros Heq. apply Hkeep in He' as [Hin Hn]. apply Hn.
        unfold entry_auth_prefix at 1 in Heq; simpl in Heq. rewrite Heq.
        rewrite sibling_involutive; [done|by apply Hs].
      * by apply sibling_neq.
  - split; simpl.
    + intros e He. by apply Hs, Hkeep.
    + intros e e' He He'. apply Ha; by apply Hkeep.
Qed.

Lemma barrier_run_wf b l : barrier_wf b -> barrier_wf (barrier_run b l).1.
Proof.
  unfold barrier_run. cut (forall st, barrier_wf st.1 -> barrier_wf (foldl barrier_step st l).1); [by eauto|].
  induction l as [|[p e] l IH]; intros st Hb; simpl; [done|]. apply IH.
  pose proof (process_wf st.1 p e.1 e.2 Hb) as Hb'. unfold barrier_step; simpl.
  by destruct (split_barrier_process st.1 p e.1 e.2) as [b' give].
Qed.

Lemma barrier_run_conserves b l :
  cached (barrier_run b l).1 ++ concat (barrier_run b l).2 ≡ₚ cached b ++ l.*2.
Proof.
  unfold barrier_run.
  cut (forall st, cached (foldl barrier_step st l).1 ++ concat (foldl barrier_step st l).2
    ≡ₚ (cached st.1 ++ concat st.2) ++ l.*2).
  { intros H. rewrite H. simpl. by rewrite app_nil_r. }
  induction l as [|[p e] l IH]; intros st; simpl; [by rewrite app_nil_r|].
  rewrite IH. pose proof (process_conserves st.1 p e.1 e.2) as Hc. unfold barrier_step; simpl.
  destruct (split_barrier_process st.1 p e.1 e.2) as [b' give]. simpl in *.
  rewrite concat_app; simpl. rewrite app_nil_r. rewrite <- surjective_pairing in Hc.
  rewrite (Permutation_app_comm (concat st.2) give), app_assoc, Hc.
  rewrite <- !app_assoc. apply Permutation_app_head. simpl. apply Permutation_middle.
Qed.
End SplitBarrier.

(** ** Claims *)

Section Claims.
Context `{CR : Crates, XL : !XorLaws}.

(** C28: the barrier neither loses, invents nor duplicates an agreement: at any time the
    agreements passed in are those released so far and those held back, and no two of the
    latter are for sibling prefixes, so no split that could proceed is stuck. *)
Theorem barrier_conserves (l : list (Prefix * (SectionSigned SectionAuthorityProvider * Signed))) :
  let '(b, released) := barrier_run split_barrier_new l in
  cached b ++ concat released ≡ₚ l.*2 /\ barrier_wf b.
Proof.
  pose proof (barrier_run_conserves split_barrier_new l) as H1.
  pose proof (barrier_run_wf split_barrier_new l) as H2.
  destruct (barrier_run split_barrier_new l) as [b released]. simpl in *. split; [done|].
  apply H2. split; simpl; intros e; [|intros e']; intros H; by apply not_elem_of_nil in H.
Qed.

(** The barrier's answer on every branch: without a split the agreement passes unchanged;
    the first half of a split is held back; the other half releases all agreements held back
    for its sibling, and itself as the last one. *)
Theorem barrier_releases_both_halves (b : SplitBarrier) (p : Prefix)
    (a : SectionSigned SectionAuthorityProvider) (k : Signed) :
  let '(b', released) := split_barrier_process b p a k in
  let siblings := List.filter (is_sibling_of a) (cached b) in
  if is_extension_of (sap_prefix (ss_value a)) p then
    (siblings = [] -> released = [] /\ cached b' = cached b ++ [(a, k)]) /\
    (siblings <> [] -> released = siblings ++ [(a, k)] /\
      (forall e, e ∈ cached b' <-> e ∈ cached b /\ entry_auth_prefix e <> sibling (sap_prefix (ss_value a))) /\
      (bit_count (sap_prefix (ss_value a)) <> 0 ->
       forall e, e ∈ siblings -> sibling (entry_auth_prefix e) = sap_prefix (ss_value a)))
  else b' = b /\ released = [(a, k)].
Proof.
  unfold split_barrier_process. destruct (is_extension_of (sap_prefix (ss_value a)) p) eqn:E; simpl; [|done].
  rewrite partition_filter.
  destruct (List.filter (is_sibling_of a) (cached b)) as [|x l] eqn:Eg; simpl.
  - split; [|done]. intros _. split; [done|]. f_equal.
    apply forallb_filter_id. apply forallb_forall. intros e He.
    apply negb_true_iff, not_true_is_false. intros Hs.
    assert (In e (List.filter (is_sibling_of a) (cached b))) as Hin by (by apply filter_In).
    by rewrite Eg in Hin.
  - split; [done|]. intros _. split; [done|]. split.
    + intros e. rewrite !list_elem_of_In, filter_In, negb_true_iff. unfold is_sibling_of.
      by rewrite bool_decide_eq_false.
    + intros Hne e. rewrite <- Eg, list_elem_of_In, filter_In. unfold is_sibling_of.
      rewrite bool_decide_eq_true. intros [_ ->]. by apply sibling_involutive.
Qed.
End Claims.

Module SplitBarrierWitness.
Import BitNames ToyCrates.

Definition agreement (bits : list bool) (k : N) : SectionSigned SectionAuthorityProvider * Signed :=
  (mkSectionSigned (sap_new [] (to_prefix bits) k) (mkSigned k (k, [])), mkSigned 1%N (1%N, [Z.of_N k])).
Definition root : Prefix := prefix_default.

Lemma barrier_conserves_witness :
  (length <$> (barrier_run split_barrier_new
    [(root, agreement [true] 2); (root, agreement [] 3); (root, agreement [false] 4)]).2) = [0; 1; 2] /\
  barrier_wf (barrier_run split_barrier_new
    [(root, agreement [true] 2); (root, agreement [] 3); (root, agreement [false] 4)]).1.
Proof.
  split; [vm_compute; reflexivity|].
  pose proof (barrier_conserves
    [(root, agreement [true] 2); (root, agreement [] 3); (root, agreement [false] 4)]) as H.
  destruct (barrier_run _ _) as [b r]. exact (proj2 H).
Defined.

Lemma barrier_releases_both_halves_witness :
  is_extension_of (sap_prefix (ss_value (agreement [true] 2).1)) root = true /\
  cached (split_barrier_process split_barrier_new root (agreement [true] 2).1 (agreement [true] 2).2).1 =
    [agreement [true] 2].
Proof.
  assert (is_extension_of (sap_prefix (ss_value (agreement [true] 2).1)) root = true) as E
    by (vm_compute; reflexivity).
  split; [exact E|].
  pose proof (barrier_releases_both_halves split_barrier_new root
    (agreement [true] 2).1 (agreement [true] 2).2) as H.
  destruct (split_barrier_process _ _ _ _) as [b' r]. cbv zeta in H. rewrite E in H.
  exact (proj2 (proj1 H eq_refl)).
Defined.

End SplitBarrierWitness.
