(* ===== verification/EndUsers.v ===== *)
(** * The end user registry (src/routing/enduser_registry.rs)

    Clients are known by their socket address and given a name inside our prefix; answers are
    routed back by socket id.  The theorems: the two maps stay inverse to each other, a
    registered client is found by both, and what happens when the prefix changes. *)

From stdpp Require Import base tactics list gmap sorting.
From Stdlib Require Import ZArith Lia.
From S2P Require Import Prelude Names Crates Types.

Section EndUsers.
Context `{CR : Crates, SerAddr : !Serialize SocketAddr}.

Record EndUser : Type := mkEndUser { eu_xorname : XorName; eu_socket_id : XorName }.

Record EndUserRegistry : Type := mkEndUserRegistry {
  eu_clients : gmap SocketAddr EndUser;
  eu_socket_id_mapping : gmap XorName SocketAddr;
}.

Definition end_users_new : EndUserRegistry := mkEndUserRegistry ∅ ∅.
Definition get_enduser_by_addr (r : EndUserRegistry) (socketaddr : SocketAddr) : option EndUser :=
  eu_clients r !! socketaddr.
Definition get_socket_addr (r : EndUserRegistry) (socket_id : XorName) : option SocketAddr :=
  eu_socket_id_mapping r !! socket_id.

Definition end_users_try_add (r : EndUserRegistry) (sender : SocketAddr) (section_prefix : Prefix) :
    EndUserRegistry * result EndUser Error :=
  match serialize sender with
  | None => (r, Err FailedSignature)
  | Some bytes =>
      let socket_id := name_from_content [bytes] in
      let user_xorname := substituted_in section_prefix socket_id in
      let end_user := mkEndUser user_xorname socket_id in
      match eu_socket_id_mapping r !! socket_id with
      | None =>
          (mkEndUserRegistry (<[sender := end_user]> (eu_clients r))
             (<[socket_id := sender]> (eu_socket_id_mapping r)), Ok end_user)
      | Some _ => (r, Ok end_user)
      end
  end.

(** The id a client gets. *)
Definition socket_id_of (a : SocketAddr) : option XorName :=
  (fun bytes => name_from_content [bytes]) <$> serialize a.

Record registry_wf (r : EndUserRegistry) : Prop := {
  rw_client : forall a eu, eu_clients r !! a = Some eu ->
    eu_socket_id_mapping r !! eu_socket_id eu = Some a;
  rw_mapping : forall i a, eu_socket_id_mapping r !! i = Some a ->
    exists eu, eu_clients r !! a = Some eu /\ eu_socket_id eu = i;
  rw_id : forall a eu, eu_clients r !! a = Some eu -> socket_id_of a = Some (eu_socket_id eu);
}.

Lemma end_users_new_wf : registry_wf end_users_new.
Proof. split; unfold end_users_new; simpl; intros ? ?; by rewrite lookup_empty. Qed.

Lemma try_add_wf r a p : registry_wf r -> registry_wf (end_users_try_add r a p).1.
Proof.
  intros [Hc Hm Hi]. unfold end_users_try_add. destruct (serialize a) as [bytes|] eqn:Es; [|done].
  destruct (eu_socket_id_mapping r !! name_from_content [bytes]) as [a'|] eqn:El; [done|]. simpl.
  assert (forall eu, eu_clients r !! a = Some eu -> False) as Hnew.
  { intros eu Heu. pose proof (Hi _ _ Heu) as Hid. unfold socket_id_of in Hid. rewrite Es in Hid.
    simpl in Hid. injection Hid as Hid. apply Hc in Heu. congruence. }
  split; simpl.
  - intros b eu [[<- <-]|[Hne Hb]]%lookup_insert_Some; [by rewrite lookup_insert_eq|].
    pose proof (Hc _ _ Hb) as Hb'. rewrite lookup_insert_ne; [done|]. congruence.
  - intros i b [[<- <-]|[Hne Hb]]%lookup_insert_Some.
    + eexists. by rewrite lookup_insert_eq.
    + destruct (Hm _ _ Hb) as (eu & Heu & <-). exists eu. split; [|done].
      rewrite lookup_insert_ne; [done|]. intros <-. by eapply Hnew.
  - intros b eu [[<- <-]|[Hne Hb]]%lookup_insert_Some; [|by eapply Hi].
    unfold socket_id_of. by rewrite Es.
Qed.

(** a sequence of registrations *)
Definition registry_run (r : EndUserRegistry) (l : list (SocketAddr * Prefix)) : EndUserRegistry :=
  foldl (fun r x => (end_users_try_add r x.1 x.2).1) r l.

Lemma registry_run_wf r l : registry_wf r -> registry_wf (registry_run r l).
Proof.
  unfold registry_run. revert r; induction l as [|x l IH]; intros r Hr; simpl; [done|].
  by apply IH, try_add_wf.
Qed.

Lemma registry_run_clients r l b e :
  eu_clients (registry_run r l) !! b = Some e -> is_Some (eu_clients r !! b) \/ b ∈ l.*1.
Proof.
  unfold registry_run. revert r; induction l as [|[a p] l IH]; intros r; simpl; [eauto|].
  intros [Hr|Hl]%IH; [|right; by right]. revert Hr. unfold end_users_try_add.
  repeat case_match; simpl; [auto| |auto].
  destruct (decide (a = b)) as [->|Hne]; [right; left|]. rewrite lookup_insert_ne by done. auto.
Qed.
End EndUsers.

Section Claims.
Context `{CR : Crates, XL : !XorLaws, SerAddr : !Serialize SocketAddr}.

(** End users are routed back to where they came from: whatever clients were registered
    before, under whatever prefixes, a client that registers gets a name inside the current
    prefix, and looking up its socket id gives its address as soon as no other registered
    client has the same id; every registered client stays found by its address and its id. *)
Theorem end_user_routed_back (clients : list (SocketAddr * Prefix)) (a : SocketAddr) (p : Prefix)
    (eu : EndUser) :
  let r := registry_run end_users_new clients in
  let '(r', res) := end_users_try_add r a p in
  registry_wf r' /\
  (res = Ok eu ->
    matches p (eu_xorname eu) = true /\ socket_id_of a = Some (eu_socket_id eu) /\
    ((forall b, b ∈ clients.*1 -> socket_id_of b = Some (eu_socket_id eu) -> b = a) ->
     get_socket_addr r' (eu_socket_id eu) = Some a /\
     eu_socket_id <$> get_enduser_by_addr r' a = Some (eu_socket_id eu))) /\
  (forall b eub, get_enduser_by_addr r b = Some eub ->
    get_enduser_by_addr r' b = Some eub /\ get_socket_addr r' (eu_socket_id eub) = Some b) /\
  (res = Err FailedSignature <-> serialize a = None).
Proof.
  intros r. assert (registry_wf r) as Hr by apply registry_run_wf, end_users_new_wf.
  assert (forall b e, eu_clients r !! b = Some e -> b ∈ clients.*1) as Hdom.
  { intros b e [[? Hb]|Hb]%registry_run_clients; [|done]. unfold end_users_new in Hb; simpl in Hb.
    by rewrite lookup_empty in Hb. }
  clearbody r. pose proof (try_add_wf r a p Hr) as Hr'.
  destruct (end_users_try_add r a p) as [r' res] eqn:E. simpl in Hr'.
  split; [done|]. unfold end_users_try_add in E.
  destruct (serialize a) as [bytes|] eqn:Es.
  2: { injection E as <- <-. split; [done|]. split; [|done]. intros b eub Hb. split; [done|]. by apply (rw_client r). }
  destruct (eu_socket_id_mapping r !! name_from_content [bytes]) as [a'|] eqn:El; injection E as <- <-; split.
  - intros [= <-]. simpl. split; [apply substituted_in_matches|].
    split; [unfold socket_id_of; by rewrite Es|]. intros Huniq.
    destruct (rw_mapping r Hr _ _ El) as (eu' & Heu' & Hid).
    assert (a' = a) as ->.
    { apply Huniq; [by eapply Hdom|]. rewrite (rw_id r Hr _ _ Heu'). congruence. }
    unfold get_socket_addr, get_enduser_by_addr. rewrite Heu'. simpl. by rewrite Hid.
  - split; [|done]. intros b eub Hb. split; [done|]. by apply (rw_client r).
  - intros [= <-]. simpl. split; [apply substituted_in_matches|].
    split; [unfold socket_id_of; by rewrite Es|]. intros _.
    unfold get_socket_addr, get_enduser_by_addr; simpl. by rewrite !lookup_insert_eq.
  - split; [|done]. intros b eub Hb.
    assert (b <> a) as Hne.
    { intros ->. pose proof (rw_id r Hr _ _ Hb) as Hid. unfold socket_id_of in Hid. rewrite Es in Hid.
      injection Hid as Hid. apply (rw_client r Hr) in Hb. congruence. }
    assert (eu_clients r !! b = Some eub) as Hb0 by done.
    pose proof (rw_client _ Hr' b eub) as Hcl. simpl in Hcl. rewrite lookup_insert_ne in Hcl by done.
    split; [|by apply Hcl]. unfold get_enduser_by_addr; simpl. by rewrite lookup_insert_ne.
Qed.
End Claims.

Module EndUsersWitness.
Import BitNames ToyCrates.

#[export] Instance ser_addr : Serialize SocketAddr :=
  fun a => match a with
           | SocketAddrV4 ip port => Some [Z.of_N ip; Z.of_N port]
           | SocketAddrV6 ip port _ _ => Some [Z.of_N ip; Z.of_N port; 6%Z]
           end.

Definition client (i : N) : SocketAddr := SocketAddrV4 i 7.

Lemma end_user_routed_back_witness :
  get_socket_addr
    (registry_run end_users_new [(client 1, to_prefix [true]); (client 2, to_prefix [true])])
    (name_from_content [[2; 7]%Z]) = Some (client 2) /\
  registry_wf (end_users_try_add (registry_run end_users_new [(client 1, to_prefix [true])])
    (client 2) (to_prefix [true])).1.
Proof.
  split; [vm_compute; reflexivity|].
  pose proof (end_user_routed_back [(client 1, to_prefix [true])] (client 2) (to_prefix [true])
    (mkEndUser (to_name 0) (to_name 0))) as H. cbv zeta in H.
  destruct (end_users_try_add _ _ _) as [r' res]. exact (proj1 H).
Defined.

(** A client that registered before a split keeps its old name: it is still found by its
    address, but the stored name, which the messages to it are addressed to, lies outside the
    section's new prefix when the client fell into the other half. *)
Theorem end_user_name_stale_after_split :
  let r := registry_run end_users_new [(client 1, to_prefix []); (client 1, to_prefix [true])] in
  (xval <$> (eu_xorname <$> get_enduser_by_addr r (client 1))) =
    Some (xval (name_from_content [[1; 7]%Z])) /\
  (matches (to_prefix [true]) <$> (eu_xorname <$> get_enduser_by_addr r (client 1))) = Some false.
Proof. vm_compute. split; reflexivity. Qed.

End EndUsersWitness.
