(* ===== verification/DkgFailure.v ===== *)
(** * Signed DKG failures (src/dkg/dkg_msgs_utils.rs)

    Participants of a distributed key generation sign what they observed to have failed; enough
    such signatures abort the session.  The theorems: the number required is the least that
    rules out a successful outcome, a set of signatures over one observation verifies exactly
    when it has agreement, and one collected from differing observations may not. *)

From Stdlib Require Import Ascii String ZArith Lia.
From stdpp Require Import base tactics list gmap sorting.
From S2P Require Import Prelude Names Crates Types Thresholds.

(** [to_le_bytes] of a 64-bit integer *)
Fixpoint le_bytes (n : nat) (z : Z) : list Z :=
  match n with O => [] | S n' => (z mod 256)%Z :: le_bytes n' (z / 256)%Z end.

(** a byte string literal *)
Definition byte_string (s : string) : list Z :=
  (fun c => Z.of_nat (nat_of_ascii c)) <$> list_ascii_of_string s.

Definition has_failure_agreement (num_participants num_votes : Z) : bool :=
  (usize_wrap (num_participants - supermajority_usize num_participants) <? num_votes)%Z.

Section DkgFailure.
Context `{CR : Crates}.

Record DkgKey : Type := mkDkgKey { dk_hash : Bytes; dk_generation : Z }.

#[global] Instance DkgKey_eq_dec : EqDecision DkgKey.
Proof. solve_decision. Defined.
#[global] Instance DkgKey_countable : Countable DkgKey.
Proof.
  apply (inj_countable' (fun k => (dk_hash k, dk_generation k)) (fun x => mkDkgKey x.1 x.2)).
  by intros [].
Defined.

Definition dkg_key_new (elder_candidates : ElderCandidates) (generation : Z) : DkgKey :=
  mkDkgKey
    (sha3_256 (((fun peer => name_bytes (peer_name peer)) <$> elder_candidates_peers elder_candidates) ++
       [name_bytes (prefix_name (ec_prefix elder_candidates));
        le_bytes 8 (Z.of_nat (bit_count (ec_prefix elder_candidates)))]))
    generation.

(** the names in order *)
Definition name_list (s : gset XorName) : list XorName := sort_by name_cmp (elements s).

Definition failure_signed_hash (dkg_key : DkgKey) (non_participants : gset XorName) : Bytes :=
  sha3_256 ([dk_hash dkg_key; le_bytes 8 (dk_generation dkg_key)] ++
    (name_bytes <$> name_list non_participants) ++ [byte_string "failure"]).

Record DkgFailureSigned : Type := mkDkgFailureSigned {
  fs_public_key : EdPublicKey;
  fs_signature : EdSignature;
}.

#[global] Instance DkgFailureSigned_eq_dec : EqDecision DkgFailureSigned.
Proof. solve_decision. Defined.

Definition failure_signed_new (keypair : Keypair) (non_participants : gset XorName) (dkg_key : DkgKey) :
    DkgFailureSigned :=
  mkDkgFailureSigned (keypair_public keypair)
    (ed25519_sign (failure_signed_hash dkg_key non_participants) keypair).

Definition failure_signed_verify (f : DkgFailureSigned) (dkg_key : DkgKey)
    (non_participants : gset XorName) : bool :=
  ed_verify (fs_public_key f) (failure_signed_hash dkg_key non_participants) (fs_signature f).

Record DkgFailureSignedSet : Type := mkDkgFailureSignedSet {
  fss_signeds : list DkgFailureSigned;
  fss_non_participants : gset XorName;
}.

Definition failure_set_default : DkgFailureSignedSet := mkDkgFailureSignedSet [] ∅.

Definition failure_set_insert (s : DkgFailureSignedSet) (signed : DkgFailureSigned)
    (non_participants : gset XorName) : DkgFailureSignedSet * bool :=
  let np := if decide (fss_non_participants s = ∅) then non_participants
            else fss_non_participants s in
  if forallb (fun existing => bool_decide (fs_public_key existing <> fs_public_key signed)) (fss_signeds s)
  then (mkDkgFailureSignedSet (fss_signeds s ++ [signed]) np, true)
  else (mkDkgFailureSignedSet (fss_signeds s) np, false).

Definition failure_set_has_agreement (s : DkgFailureSignedSet) (elder_candidates : ElderCandidates) : bool :=
  has_failure_agreement (Z.of_nat (size (ec_elders elder_candidates))) (Z.of_nat (length (fss_signeds s))).

Definition failure_vote_ok (elder_candidates : ElderCandidates) (hash : Bytes) (signed : DkgFailureSigned) :
    bool :=
  bool_decide (is_Some (ec_elders elder_candidates !! ed25519_name (fs_public_key signed))) &&
  ed_verify (fs_public_key signed) hash (fs_signature signed).

Definition failure_set_verify (s : DkgFailureSignedSet) (elder_candidates : ElderCandidates)
    (generation : Z) : bool :=
  let hash := failure_signed_hash (dkg_key_new elder_candidates generation) (fss_non_participants s) in
  let votes := length (List.filter (failure_vote_ok elder_candidates hash) (fss_signeds s)) in
  has_failure_agreement (Z.of_nat (size (ec_elders elder_candidates))) (Z.of_nat votes).

(** ** Lemmas *)

(** One signature per key. *)
Definition distinct_signers (s : DkgFailureSignedSet) : Prop := NoDup (fs_public_key <$> fss_signeds s).

Lemma failure_set_insert_true s f np :
  (failure_set_insert s f np).2 = true <-> fs_public_key f ∉ fs_public_key <$> fss_signeds s.
Proof.
  unfold failure_set_insert. destruct (forallb _ _) eqn:E; simpl; split; try done.
  - intros _ (g & Hg & Hin)%list_elem_of_fmap. rewrite forallb_forall in E.
    apply list_elem_of_In in Hin. specialize (E g Hin). apply bool_decide_eq_true in E. congruence.
  - intros Hn. apply not_true_iff_false in E. destruct E. apply forallb_forall. intros g Hg.
    apply bool_decide_eq_true. intros Heq. apply Hn, list_elem_of_fmap. exists g.
    split; [done|by apply list_elem_of_In].
Qed.

Lemma failure_set_insert_signeds s f np :
  fss_signeds (failure_set_insert s f np).1 =
  if (failure_set_insert s f np).2 then fss_signeds s ++ [f] else fss_signeds s.
Proof. unfold failure_set_insert. by destruct (forallb _ _). Qed.

Lemma failure_set_insert_distinct s f np :
  distinct_signers s -> distinct_signers (failure_set_insert s f np).1.
Proof.
  intros Hd. unfold distinct_signers. rewrite failure_set_insert_signeds.
  destruct (failure_set_insert s f np).2 eqn:E; [|done].
  apply failure_set_insert_true in E. rewrite fmap_app. apply NoDup_app.
  split; [done|]. split; [|apply NoDup_singleton].
  intros x Hx ->%list_elem_of_singleton. done.
Qed.

Lemma failure_signed_roundtrip `{!SignLaws} kp np k :
  failure_signed_verify (failure_signed_new kp np k) k np = true.
Proof. apply ed_sign_verify. Qed.
End DkgFailure.

(** The threshold, for group sizes in the range of [usize]. *)
Lemma has_failure_agreement_spec (n v : nat) :
  0 < n -> (Z.of_nat n < 2 ^ 63)%Z ->
  has_failure_agreement (Z.of_nat n) (Z.of_nat v) = true <-> n < v + supermajority n.
Proof.
  intros Hn Hb. unfold has_failure_agreement.
  assert (supermajority_usize (Z.of_nat n) = Z.of_nat (supermajority n)) as ->
    by (by apply supermajority_usize_spec).
  pose proof (supermajority_le n Hn). unfold usize_wrap, USIZE_MODULUS.
  rewrite Z.mod_small by lia. rewrite Z.ltb_lt. lia.
Qed.

(** ** Claims *)

(** Failure agreement is the exact complement of a successful outcome: for a group of [n]
    participants, [v] failure votes are enough precisely when the participants that did not
    vote for failure can no longer form a supermajority; a single participant's vote decides
    a group of at most three; and the subtraction never underflows for a non-empty group. *)
Theorem failure_agreement_excludes_success (n v : nat) :
  0 < n -> (Z.of_nat n < 2 ^ 63)%Z -> v <= n ->
  (has_failure_agreement (Z.of_nat n) (Z.of_nat v) = true <-> n - v < supermajority n) /\
  (has_failure_agreement (Z.of_nat n) 1 = true <-> n <= 3) /\
  (0 <= Z.of_nat n - supermajority_usize (Z.of_nat n))%Z.
Proof.
  intros Hn Hb Hv. pose proof (supermajority_two_thirds n) as Hs. pose proof (supermajority_le n Hn).
  split; [rewrite has_failure_agreement_spec by done; lia|]. split.
  - change 1%Z with (Z.of_nat 1). rewrite has_failure_agreement_spec by done.
    split; [|pose proof (supermajority_least n n); lia].
    pose proof (supermajority_least n (n - 1)). lia.
  - rewrite supermajority_usize_spec by done. lia.
Qed.

Lemma failure_agreement_excludes_success_witness :
  has_failure_agreement 7 3 = true /\ 7 - 3 < supermajority 7.
Proof.
  assert (has_failure_agreement 7 3 = true) as H by reflexivity. split; [exact H|].
  exact (proj1 (proj1 (failure_agreement_excludes_success 7 3 ltac:(lia) ltac:(done) ltac:(lia))) H).
Defined.

Section Claims.
Context `{CR : Crates, SL : !SignLaws}.

(** Failures signed by distinct participants over one observation convince everybody: the
    set collected from them has one signature per participant, and it verifies against the
    candidates exactly when it has agreement. *)
Theorem failure_set_verifies (ec : ElderCandidates) (generation : Z) (np : gset XorName)
    (signers : list Keypair) :
  NoDup (keypair_public <$> signers) ->
  (forall kp, kp ∈ signers -> is_Some (ec_elders ec !! ed25519_name (keypair_public kp))) ->
  let k := dkg_key_new ec generation in
  let s := foldl (fun s kp => (failure_set_insert s (failure_signed_new kp np k) np).1)
             failure_set_default signers in
  length (fss_signeds s) = length signers /\
  failure_set_verify s ec generation = failure_set_has_agreement s ec.
Proof.
  intros Hnd Hin k s.
  assert (fss_signeds s = (fun kp => failure_signed_new kp np k) <$> signers /\
    (signers <> [] -> fss_non_participants s = np)) as [Hs Hnp].
  { unfold s. revert Hnd Hin. clear s. induction signers as [|kp l IH] using rev_ind; [done|].
    rewrite fmap_app, foldl_app. intros (Hnd & Hd & _)%NoDup_app Hin.
    destruct IH as [IH1 IH2]; [done|intros; apply Hin; set_solver|]. simpl.
    set (s0 := foldl _ _ l) in *.
    assert ((failure_set_insert s0 (failure_signed_new kp np k) np).2 = true) as Ht.
    { apply failure_set_insert_true. rewrite IH1, <- list_fmap_compose. intros Hk.
      apply (Hd (keypair_public kp)); [done|set_solver]. }
    rewrite failure_set_insert_signeds, Ht, IH1, fmap_app. split; [done|]. intros _.
    unfold failure_set_insert. case_match; simpl; (case_decide as E; [done|]);
      (apply IH2; intros ->; done). }
  split; [by rewrite Hs, length_fmap|].
  unfold failure_set_verify, failure_set_has_agreement. f_equal. f_equal. f_equal.
  apply forallb_filter_id, forallb_forall. intros f Hf. rewrite Hs in Hf.
  apply list_elem_of_In, list_elem_of_fmap in Hf as (kp & -> & Hkp).
  assert (signers <> []) as Hne by (intros ->; by apply not_elem_of_nil in Hkp).
  unfold failure_vote_ok; simpl. rewrite bool_decide_true by (by apply Hin). simpl.
  rewrite Hnp by done. apply ed_sign_verify.
Qed.
End Claims.

Module DkgFailureWitness.
Import BitNames ToyCrates.

Definition kp (i : N) : Keypair := to_name i.
Definition candidates4 : ElderCandidates :=
  elder_candidates_new ((fun i => peer_new (to_name i) (SocketAddrV4 i 1)) <$> [1; 2; 3; 4]%N) prefix_default.

Lemma failure_set_verifies_witness :
  failure_set_verify
    (foldl (fun s kp => (failure_set_insert s
        (failure_signed_new kp ∅ (dkg_key_new candidates4 0)) ∅).1) failure_set_default [kp 1; kp 2])
    candidates4 0 = true.
Proof.
  rewrite (proj2 (failure_set_verifies candidates4 0 ∅ [kp 1; kp 2]
    ltac:(apply (bool_decide_unpack _); vm_compute; exact I)
    ltac:(intros x; rewrite !elem_of_cons; intros [->|[->|Hx]];
      [eexists; vm_compute; reflexivity|eexists; vm_compute; reflexivity|by apply not_elem_of_nil in Hx]))).
  vm_compute. reflexivity.
Defined.

(** Agreement on a failure may be reached by signatures over differing observations, and
    then no recipient accepts it: of four participants one reports a failure with no
    non-participants and one with a non-participant; two signatures are agreement, but the set
    keeps only the second observation, so that the first signature does not verify. *)
Theorem mixed_failures_do_not_verify :
  let k := dkg_key_new candidates4 0 in
  let np : gset XorName := {[ to_name 4 ]} in
  let s1 := (failure_set_insert failure_set_default (failure_signed_new (kp 1) ∅ k) ∅).1 in
  let s := (failure_set_insert s1 (failure_signed_new (kp 2) np k) np).1 in
  failure_signed_verify (failure_signed_new (kp 1) ∅ k) k ∅ = true /\
  failure_signed_verify (failure_signed_new (kp 2) np k) k np = true /\
  failure_set_has_agreement s candidates4 = true /\
  failure_set_verify s candidates4 0 = false.
Proof. vm_compute. repeat split; reflexivity. Qed.

End DkgFailureWitness.
