(* ===== verification/DkgSession.v ===== *)
(** * A session of distributed key generation (src/dkg/session.rs)

    The generator itself is the third-party crate [bls_dkg]; it is a parameter ([KeyGenOps]),
    whose state includes the random source it draws from.  [process_message] and [broadcast]
    call each other as long as the generator responds to its own messages: they are modelled
    with fuel, and shown to terminate when the generator can only respond finitely often.  The
    global timer token counter is threaded through the operations. *)

From stdpp Require Import base tactics list gmap sorting.
From Stdlib Require Import ZArith Lia.
From S2P Require Import Prelude Names Crates Types Thresholds SectionKeys DkgFailure.

Class KeyGenOps `{CR : Crates} := {
  KeyGen : Type;
  DkgMessage : Type;
  (** [KeyGen::initialize(name, threshold, participants)] *)
  kg_initialize : XorName -> nat -> gset XorName -> option (KeyGen * DkgMessage);
  (** [handle_message]; [None] is an error *)
  kg_handle_message : KeyGen -> DkgMessage -> KeyGen * option (list DkgMessage);
  kg_timed_phase_transition : KeyGen -> KeyGen * option (list DkgMessage);
  kg_is_finalized : KeyGen -> bool;
  (** the participants and the key material of [generate_keys] *)
  kg_generate_keys : KeyGen -> option (gset XorName * (BlsPublicKeySet * BlsSecretKeyShare));
}.

(** The generator goes through finitely many phases: it can respond only finitely often. *)
Class KeyGenProgress `{KG : KeyGenOps} := {
  kg_measure : KeyGen -> nat;
  kg_measure_le : forall g m, kg_measure (kg_handle_message g m).1 <= kg_measure g;
  kg_measure_timed : forall g, kg_measure (kg_timed_phase_transition g).1 <= kg_measure g;
  kg_measure_lt : forall g m r rs,
    (kg_handle_message g m).2 = Some (r :: rs) -> kg_measure (kg_handle_message g m).1 < kg_measure g;
}.

Definition DKG_PROGRESS_INTERVAL : Z := 30 * 1000000000.
Definition BACKLOG_CAPACITY : nat := 100.
Definition U64_MODULUS : Z := 2 ^ 64.

Section DkgSession.
Context `{CR : Crates, KG : !KeyGenOps, VA : VecDequeAlloc}.

(** ** Commands (src/dkg/commands.rs) *)

Inductive DkgCommand : Type :=
| DkgSendMessage (recipients : list (XorName * SocketAddr)) (dkg_key : DkgKey) (message : DkgMessage)
| DkgScheduleTimeout (duration : Z) (token : Z)
| DkgHandleOutcome (section_auth : SectionAuthorityProvider) (outcome : SectionKeyShare)
| DkgSendFailureObservation (recipients : list (XorName * SocketAddr)) (dkg_key : DkgKey)
    (signed : DkgFailureSigned) (non_participants : gset XorName)
| DkgHandleFailureAgreement (failures : DkgFailureSignedSet).

Record Session : Type := mkSession {
  s_elder_candidates : ElderCandidates;
  s_participant_index : nat;
  s_key_gen : KeyGen;
  s_timer_token : Z;
  s_failures : DkgFailureSignedSet;
  s_complete : bool;
}.

(** a session and the global token counter *)
Definition St : Type := Session * Z.

Definition set_key_gen (s : Session) (g : KeyGen) : Session :=
  mkSession (s_elder_candidates s) (s_participant_index s) g (s_timer_token s) (s_failures s) (s_complete s).
Definition set_failures (s : Session) (f : DkgFailureSignedSet) : Session :=
  mkSession (s_elder_candidates s) (s_participant_index s) (s_key_gen s) (s_timer_token s) f (s_complete s).
Definition set_complete (s : Session) : Session :=
  mkSession (s_elder_candidates s) (s_participant_index s) (s_key_gen s) (s_timer_token s) (s_failures s) true.

Definition session_recipients (s : Session) : list (XorName * SocketAddr) :=
  (fun x => x.2) <$> List.filter (fun x => negb (Nat.eqb x.1 (s_participant_index s)))
    (imap pair (btree_entries (ec_elders (s_elder_candidates s)))).

(** [next_timer_token] and [reset_timer] *)
Definition next_timer_token (tokens : Z) : Z * Z := ((tokens + 1) mod U64_MODULUS, tokens)%Z.
Definition reset_timer (st : St) : St * DkgCommand :=
  let '(s, tokens) := st in
  let '(tokens', token) := next_timer_token tokens in
  ((mkSession (s_elder_candidates s) (s_participant_index s) (s_key_gen s) token (s_failures s) (s_complete s),
    tokens'),
   DkgScheduleTimeout DKG_PROGRESS_INTERVAL token).

Definition check_failure_agreement (s : Session) : Session * option DkgCommand :=
  if failure_set_has_agreement (s_failures s) (s_elder_candidates s)
  then (set_failures (set_complete s) failure_set_default, Some (DkgHandleFailureAgreement (s_failures s)))
  else (s, None).

Definition report_failure (s : Session) (dkg_key : DkgKey) (non_participants : gset XorName)
    (keypair : Keypair) : Session * list DkgCommand :=
  let signed := failure_signed_new keypair non_participants dkg_key in
  let '(failures, inserted) := failure_set_insert (s_failures s) signed non_participants in
  let s1 := set_failures s failures in
  if negb inserted then (s1, [])
  else
    let '(s2, agreement) := check_failure_agreement s1 in
    (s2, option_list agreement ++
         [DkgSendFailureObservation (session_recipients s2) dkg_key signed non_participants]).

Definition session_process_failure (s : Session) (dkg_key : DkgKey) (non_participants : gset XorName)
    (signed : DkgFailureSigned) : Session * option DkgCommand :=
  if negb (bool_decide (is_Some (ec_elders (s_elder_candidates s) !! ed25519_name (fs_public_key signed))))
  then (s, None)
  else if negb (failure_signed_verify signed dkg_key non_participants) then (s, None)
  else
    let '(failures, inserted) := failure_set_insert (s_failures s) signed non_participants in
    let s1 := set_failures s failures in
    if negb inserted then (s1, None) else check_failure_agreement s1.

(** Whether the key generator is finalised and what comes out of it. *)
Definition session_check (s : Session) (dkg_key : DkgKey) (keypair : Keypair) : Session * list DkgCommand :=
  if s_complete s then (s, [])
  else if negb (kg_is_finalized (s_key_gen s)) then (s, [])
  else
    match kg_generate_keys (s_key_gen s) with
    | None => (s, [])
    | Some (participants, (pk_set, sk_share)) =>
        let elders := ec_elders (s_elder_candidates s) in
        if negb (bool_decide (participants = dom elders)) then
          report_failure s dkg_key (dom elders ∖ participants) keypair
        else if negb (bool_decide (pks_public_key_share pk_set (s_participant_index s) =
                                   sks_public_key_share sk_share)) then
          report_failure s dkg_key ∅ keypair
        else
          (set_complete s,
           [DkgHandleOutcome (sap_from_elder_candidates (s_elder_candidates s) pk_set)
              (mkSectionKeyShare pk_set (s_participant_index s) sk_share)])
    end.

(** [flat_map] of a fallible stateful step over a list *)
Fixpoint flat_run {A : Type} (f : St -> A -> option (St * list DkgCommand)) (st : St) (l : list A) :
    option (St * list DkgCommand) :=
  match l with
  | [] => Some (st, [])
  | x :: l' =>
      '(st1, cs1) ← f st x;
      '(st2, cs2) ← flat_run f st1 l';
      Some (st2, cs1 ++ cs2)
  end.

(** [broadcast], given the recursive call to [process_message] *)
Definition broadcast_with (process : St -> DkgMessage -> option (St * list DkgCommand))
    (dkg_key : DkgKey) (st : St) (message : DkgMessage) : option (St * list DkgCommand) :=
  let recipients := session_recipients st.1 in
  let commands := match recipients with [] => [] | _ => [DkgSendMessage recipients dkg_key message] end in
  '(st', cs) ← process st message;
  Some (st', commands ++ cs).

(** only a message that results in some responses resets the timer *)
Definition reset_on (responses : list DkgMessage) (st : St) : St * list DkgCommand :=
  match responses with
  | [] => (st, [])
  | _ => let '(st', c) := reset_timer st in (st', [c])
  end.

(** the body of [process_message], given the recursive call *)
Definition process_with (process : St -> DkgMessage -> option (St * list DkgCommand))
    (dkg_key : DkgKey) (keypair : Keypair) (st : St) (message : DkgMessage) :
    option (St * list DkgCommand) :=
  let '(g, res) := kg_handle_message (s_key_gen st.1) message in
  let responses := default [] res in
  let '(st2, reset) := reset_on responses (set_key_gen st.1 g, st.2) in
  '(st3, cs) ← flat_run (broadcast_with process dkg_key) st2 responses;
  let '(s4, checked) := session_check st3.1 dkg_key keypair in
  Some ((s4, st3.2), (cs ++ reset) ++ checked).

(** [None]: the recursion is deeper than the fuel *)
Fixpoint session_process_message (fuel : nat) (dkg_key : DkgKey) (keypair : Keypair) (st : St)
    (message : DkgMessage) : option (St * list DkgCommand) :=
  match fuel with
  | O => None
  | S fuel' => process_with (session_process_message fuel' dkg_key keypair) dkg_key keypair st message
  end.

Definition session_broadcast (fuel : nat) (dkg_key : DkgKey) (keypair : Keypair) (st : St)
    (message : DkgMessage) : option (St * list DkgCommand) :=
  broadcast_with (session_process_message fuel dkg_key keypair) dkg_key st message.

Definition session_handle_timeout (fuel : nat) (dkg_key : DkgKey) (keypair : Keypair) (st : St) :
    option (St * list DkgCommand) :=
  if s_complete st.1 then Some (st, [])
  else
    let '(g, res) := kg_timed_phase_transition (s_key_gen st.1) in
    let s1 := set_key_gen st.1 g in
    match res with
    | Some messages =>
        '(st2, cs) ← flat_run (session_broadcast fuel dkg_key keypair) (s1, st.2) messages;
        let '(st3, reset) := reset_timer st2 in
        let '(s4, checked) := session_check st3.1 dkg_key keypair in
        Some ((s4, st3.2), cs ++ [reset] ++ checked)
    | None =>
        let '(s2, cs) := report_failure s1 dkg_key ∅ keypair in
        Some ((s2, st.2), cs)
    end.

(** ** The backlog *)

Record Backlog : Type := mkBacklog { bl_list : list (DkgKey * DkgMessage); bl_capacity : nat }.

Definition backlog_new : Backlog := mkBacklog [] (vd_with_capacity BACKLOG_CAPACITY).

Definition backlog_push (b : Backlog) (dkg_key : DkgKey) (message : DkgMessage) : Backlog :=
  let l := if Nat.eqb (length (bl_list b)) (bl_capacity b) then tail (bl_list b) else bl_list b in
  mkBacklog (l ++ [(dkg_key, message)])
    (if Nat.eqb (length l) (bl_capacity b) then vd_grow (bl_capacity b) else bl_capacity b).

(** the rotation: [max] times pop the front and either keep or collect it *)
Fixpoint take_loop (max : nat) (dkg_key : DkgKey) (l : list (DkgKey * DkgMessage))
    (output : list DkgMessage) : list (DkgKey * DkgMessage) * list DkgMessage :=
  match max with
  | O => (l, output)
  | S max' =>
      match l with
      | [] => take_loop max' dkg_key [] output
      | (k, m) :: l' =>
          if decide (k = dkg_key) then take_loop max' dkg_key l' (output ++ [m])
          else take_loop max' dkg_key (l' ++ [(k, m)]) output
      end
  end.
Definition backlog_take (b : Backlog) (dkg_key : DkgKey) : Backlog * list DkgMessage :=
  let '(l, output) := take_loop (length (bl_list b)) dkg_key (bl_list b) [] in
  (mkBacklog l (bl_capacity b), output).

Definition backlog_prune (b : Backlog) (dkg_key : DkgKey) : Backlog :=
  mkBacklog (List.filter (fun x => dk_generation dkg_key <=? dk_generation x.1)%Z (bl_list b))
    (bl_capacity b).

#[global] Arguments reset_timer : simpl never.
#[global] Arguments session_check : simpl never.

(** what a session is told *)
Inductive session_event : Type :=
| EvMessage (message : DkgMessage)
| EvFailure (non_participants : gset XorName) (signed : DkgFailureSigned)
| EvTimeout.

Definition session_handle (fuel : nat) (dkg_key : DkgKey) (keypair : Keypair) (st : St)
    (e : session_event) : option (St * list DkgCommand) :=
  match e with
  | EvMessage m => session_process_message fuel dkg_key keypair st m
  | EvFailure np f =>
      let '(s, c) := session_process_failure st.1 dkg_key np f in Some ((s, st.2), option_list c)
  | EvTimeout => session_handle_timeout fuel dkg_key keypair st
  end.
Definition session_run (fuel : nat) (dkg_key : DkgKey) (keypair : Keypair) (st : St)
    (es : list session_event) : option (St * list DkgCommand) :=
  flat_run (session_handle fuel dkg_key keypair) st es.

(** ** What a step of a session may do *)

Definition is_outcome (c : DkgCommand) : bool :=
  match c with DkgHandleOutcome _ _ => true | _ => false end.
Definition outcomes (cs : list DkgCommand) : list DkgCommand := List.filter is_outcome cs.

(** An outcome is for the session's candidates, and its secret share belongs to its public key
    set at our index. *)
Definition outcome_sound (s : Session) (c : DkgCommand) : Prop :=
  match c with
  | DkgHandleOutcome sap o =>
      sap = sap_from_elder_candidates (s_elder_candidates s) (ks_public_key_set o) /\
      ks_index o = s_participant_index s /\
      pks_public_key_share (ks_public_key_set o) (s_participant_index s) =
        sks_public_key_share (ks_secret_key_share o)
  | _ => True
  end.

Record session_step (s s' : Session) (cs : list DkgCommand) : Prop := {
  ss_candidates : s_elder_candidates s' = s_elder_candidates s;
  ss_index : s_participant_index s' = s_participant_index s;
  ss_complete : s_complete s = true -> s_complete s' = true;
  ss_quiet : s_complete s = true -> outcomes cs = [];
  ss_one : outcomes cs <> [] -> length (outcomes cs) = 1 /\ s_complete s' = true;
  ss_sound : forall c, c ∈ cs -> outcome_sound s c;
  ss_distinct : distinct_signers (s_failures s) -> distinct_signers (s_failures s');
}.

Lemma outcomes_app cs cs' : outcomes (cs ++ cs') = outcomes cs ++ outcomes cs'.
Proof. apply List.filter_app. Qed.

Lemma session_step_refl s : session_step s s [].
Proof. split; try done. intros c Hc. by apply not_elem_of_nil in Hc. Qed.

Lemma session_step_app s1 s2 s3 cs1 cs2 :
  session_step s1 s2 cs1 -> session_step s2 s3 cs2 -> session_step s1 s3 (cs1 ++ cs2).
Proof.
  intros [E1 I1 C1 Q1 O1 S1 D1] [E2 I2 C2 Q2 O2 S2 D2]. split; try congruence; auto.
  - intros Hc. by rewrite outcomes_app, Q1, Q2 by auto.
  - rewrite outcomes_app, length_app. destruct (outcomes cs1) as [|c l] eqn:Eo; simpl.
    + intros H. by destruct (O2 H).
    + intros _. destruct O1 as [Hl Hc]; [done|]. rewrite Q2 by done. simpl in *.
      split; [lia|by apply C2].
  - intros c. rewrite elem_of_app. intros [Hc|Hc]; [by apply S1|]. specialize (S2 c Hc).
    destruct c; simpl in *; try done. by rewrite E1, I1 in S2.
Qed.

(** Steps without outcome. *)
Lemma session_step_plain s s' cs :
  s_elder_candidates s' = s_elder_candidates s -> s_participant_index s' = s_participant_index s ->
  (s_complete s = true -> s_complete s' = true) ->
  (distinct_signers (s_failures s) -> distinct_signers (s_failures s')) ->
  outcomes cs = [] -> session_step s s' cs.
Proof.
  intros He Hi Hc Hd Ho. split; try done.
  intros c Hin. destruct c; try done. exfalso.
  assert (In (DkgHandleOutcome section_auth outcome) (outcomes cs)) as H.
  { apply filter_In. split; [by apply list_elem_of_In|done]. }
  by rewrite Ho in H.
Qed.

Lemma reset_timer_step st : session_step st.1 (reset_timer st).1.1 [(reset_timer st).2].
Proof. destruct st as [s t]. by apply session_step_plain. Qed.

Lemma check_failure_agreement_step s :
  session_step s (check_failure_agreement s).1 (option_list (check_failure_agreement s).2).
Proof.
  unfold check_failure_agreement. case_match; [|by apply session_step_plain].
  apply session_step_plain; simpl; try done. intros _. constructor.
Qed.

Lemma report_failure_step s k np kp :
  session_step s (report_failure s k np kp).1 (report_failure s k np kp).2.
Proof.
  unfold report_failure.
  pose proof (failure_set_insert_distinct (s_failures s) (failure_signed_new kp np k) np) as Hd.
  destruct (failure_set_insert _ _ _) as [f b]. simpl in Hd.
  assert (session_step s (set_failures s f) []) as H1 by (by apply session_step_plain).
  destruct b; simpl; [|done].
  pose proof (check_failure_agreement_step (set_failures s f)) as H2.
  destruct (check_failure_agreement (set_failures s f)) as [s2 a]. simpl in *.
  apply (session_step_app _ _ _ [] _ H1). eapply session_step_app; [apply H2|].
  by apply session_step_plain.
Qed.

Lemma session_check_step s k kp :
  session_step s (session_check s k kp).1 (session_check s k kp).2.
Proof.
  unfold session_check. destruct (s_complete s) eqn:Ec; [by apply session_step_refl|].
  destruct (kg_is_finalized (s_key_gen s)); simpl; [|apply session_step_refl].
  destruct (kg_generate_keys (s_key_gen s)) as [[ps [pk sk]]|]; [|apply session_step_refl].
  case_bool_decide; simpl; [|apply report_failure_step].
  case_bool_decide as Es; simpl; [|apply report_failure_step].
  split; simpl; try done; [congruence|].
  intros c ->%list_elem_of_singleton. done.
Qed.

Lemma session_process_failure_step s k np f :
  session_step s (session_process_failure s k np f).1 (option_list (session_process_failure s k np f).2).
Proof.
  unfold session_process_failure. case_match; [apply session_step_refl|].
  case_match; [apply session_step_refl|].
  pose proof (failure_set_insert_distinct (s_failures s) f np) as Hd.
  destruct (failure_set_insert _ _ _) as [fs b]. simpl in Hd.
  assert (session_step s (set_failures s fs) []) as H1 by (by apply session_step_plain).
  destruct b; simpl; [|done].
  apply (session_step_app _ _ _ [] _ H1). apply check_failure_agreement_step.
Qed.

Definition steps_ok {A : Type} (f : St -> A -> option (St * list DkgCommand)) : Prop :=
  forall st x st' cs, f st x = Some (st', cs) -> session_step st.1 st'.1 cs.

Lemma flat_run_step {A : Type} (f : St -> A -> option (St * list DkgCommand)) l st st' cs :
  steps_ok f -> flat_run f st l = Some (st', cs) -> session_step st.1 st'.1 cs.
Proof.
  intros Hf. revert st st' cs; induction l as [|x l IH]; intros st st' cs; simpl.
  - intros [= <- <-]. apply session_step_refl.
  - destruct (f st x) as [[st1 cs1]|] eqn:E1; simpl; [|done].
    destruct (flat_run f st1 l) as [[st2 cs2]|] eqn:E2; simpl; [|done]. intros [= <- <-].
    eapply session_step_app; [by eapply Hf|by eapply IH].
Qed.

Lemma broadcast_with_step p k : steps_ok p -> steps_ok (broadcast_with p k).
Proof.
  intros Hp st m st' cs. unfold broadcast_with.
  destruct (p st m) as [[st1 cs1]|] eqn:E; simpl; [|done]. intros [= <- <-].
  eapply session_step_app; [|by eapply Hp]. apply session_step_plain; try done.
  by destruct (session_recipients st.1).
Qed.

Lemma reset_on_step rs st st' cs :
  reset_on rs st = (st', cs) -> session_step st.1 st'.1 [] /\ outcomes cs = [] /\ s_key_gen st'.1 = s_key_gen st.1.
Proof.
  destruct st as [s t]. unfold reset_on, reset_timer.
  destruct rs; intros [= <- <-]; (split; [|done]); [apply session_step_refl|by apply session_step_plain].
Qed.

Lemma process_with_step p k kp : steps_ok p -> steps_ok (process_with p k kp).
Proof.
  intros Hp st m st' cs. unfold process_with.
  destruct (kg_handle_message (s_key_gen st.1) m) as [g res].
  destruct (reset_on _ _) as [st2 reset] eqn:Er. apply reset_on_step in Er as (H2 & Ho & _).
  destruct (flat_run _ st2 _) as [[st3 cs3]|] eqn:Ef; simpl; [|done].
  apply flat_run_step in Ef; [|by apply broadcast_with_step].
  pose proof (session_check_step st3.1 k kp) as Hc.
  destruct (session_check st3.1 k kp) as [s4 ck]. intros [= <- <-]. simpl in *.
  apply (session_step_app _ (set_key_gen st.1 g) _ []); [by apply session_step_plain|].
  eapply session_step_app; [|exact Hc].
  eapply (session_step_app _ _ _ [] _ H2), session_step_app; [exact Ef|].
  by apply session_step_plain.
Qed.

Lemma process_message_step fuel k kp : steps_ok (session_process_message fuel k kp).
Proof.
  induction fuel as [|fuel IH]; [by intros st m st' cs|]. by apply process_with_step.
Qed.

Lemma handle_timeout_step fuel k kp st st' cs :
  session_handle_timeout fuel k kp st = Some (st', cs) -> session_step st.1 st'.1 cs.
Proof.
  unfold session_handle_timeout. destruct (s_complete st.1); [intros [= <- <-]; apply session_step_refl|].
  destruct (kg_timed_phase_transition (s_key_gen st.1)) as [g [ms|]].
  - destruct (flat_run _ _ ms) as [[st2 cs2]|] eqn:Ef; simpl; [|done].
    apply flat_run_step in Ef; [|apply broadcast_with_step, process_message_step].
    pose proof (reset_timer_step st2) as Hr. destruct (reset_timer st2) as [st3 c].
    pose proof (session_check_step st3.1 k kp) as Hc. destruct (session_check st3.1 k kp) as [s4 ck].
    intros [= <- <-]. simpl in *.
    apply (session_step_app _ (set_key_gen st.1 g) _ []); [by apply session_step_plain|].
    eapply session_step_app; [exact Ef|]. eapply (session_step_app _ _ _ [c]); [exact Hr|exact Hc].
  - pose proof (report_failure_step (set_key_gen st.1 g) k ∅ kp) as Hf.
    destruct (report_failure _ _ _ _) as [s2 cs2]. intros [= <- <-]. simpl in *.
    apply (session_step_app _ (set_key_gen st.1 g) _ []); [by apply session_step_plain|done].
Qed.

Lemma session_handle_step fuel k kp : steps_ok (session_handle fuel k kp).
Proof.
  intros st [m|np f|] st' cs; simpl.
  - apply process_message_step.
  - pose proof (session_process_failure_step st.1 k np f) as H.
    destruct (session_process_failure st.1 k np f) as [s c]. by intros [= <- <-].
  - apply handle_timeout_step.
Qed.

(** ** Termination *)

Lemma flat_run_mono {A : Type} (f g : St -> A -> option (St * list DkgCommand)) l st r :
  (forall st x r, f st x = Some r -> g st x = Some r) ->
  flat_run f st l = Some r -> flat_run g st l = Some r.
Proof.
  intros Hfg. revert st r; induction l as [|x l IH]; intros st r; simpl; [done|].
  destruct (f st x) as [[st1 cs1]|] eqn:E1; simpl; [|done]. rewrite (Hfg _ _ _ E1); simpl.
  destruct (flat_run f st1 l) as [[st2 cs2]|] eqn:E2; simpl; [|done]. by rewrite (IH _ _ E2).
Qed.

(** More fuel does not change a result. *)
Lemma process_message_mono fuel fuel' k kp st m r :
  fuel <= fuel' -> session_process_message fuel k kp st m = Some r ->
  session_process_message fuel' k kp st m = Some r.
Proof.
  revert fuel' st m r; induction fuel as [|fuel IH]; intros [|fuel'] st m r Hle; simpl; try done; [lia|].
  unfold process_with. destruct (kg_handle_message (s_key_gen st.1) m) as [g res].
  destruct (reset_on _ _) as [st2 reset].
  destruct (flat_run _ st2 (default [] res)) as [[st3 cs]|] eqn:Ef; simpl; [|done].
  eapply flat_run_mono in Ef as ->; [done|].
  intros st0 x [st0' cs0]. unfold broadcast_with.
  destruct (session_process_message fuel k kp st0 x) as [r0|] eqn:E; simpl; [|done].
  rewrite (IH fuel' _ _ _ ltac:(lia) E). done.
Qed.
End DkgSession.

Section Termination.
Context `{CR : Crates, KG : !KeyGenOps, KP : !KeyGenProgress, VA : VecDequeAlloc}.

Definition st_measure (st : St) : nat := kg_measure (s_key_gen st.1).

Lemma session_check_key_gen s k kp : s_key_gen (session_check s k kp).1 = s_key_gen s.
Proof.
  unfold session_check, report_failure, check_failure_agreement.
  repeat (case_match; simplify_eq/=; try done).
Qed.

(** Steps that never fail below a bound on the measure never fail in sequence. *)
Lemma flat_run_total {A : Type} (mu : St -> nat) (b : nat)
    (f : St -> A -> option (St * list DkgCommand)) l st :
  mu st <= b ->
  (forall st x, mu st <= b -> exists st' cs, f st x = Some (st', cs) /\ mu st' <= mu st) ->
  exists st' cs, flat_run f st l = Some (st', cs) /\ mu st' <= mu st.
Proof.
  intros Hst Hf. revert st Hst; induction l as [|x l IH]; intros st Hst; simpl; [by eexists _, _|].
  destruct (Hf st x Hst) as (st1 & cs1 & -> & H1). simpl.
  destruct (IH st1 ltac:(lia)) as (st2 & cs2 & -> & H2). simpl. eexists _, _. split; [done|lia].
Qed.

Lemma broadcast_with_total (mu : St -> nat) p k st m :
  (exists st' cs, p st m = Some (st', cs) /\ mu st' <= mu st) ->
  exists st' cs, broadcast_with p k st m = Some (st', cs) /\ mu st' <= mu st.
Proof. unfold broadcast_with. intros (st' & cs & -> & H). simpl. eauto. Qed.

(** Enough fuel: one more than the number of times the generator can still respond. *)
Lemma process_message_total fuel k kp st m :
  st_measure st < fuel ->
  exists st' cs, session_process_message fuel k kp st m = Some (st', cs) /\ st_measure st' <= st_measure st.
Proof.
  revert st m; induction fuel as [|fuel IH]; intros st m Hlt; [lia|].
  cbn [session_process_message]. unfold process_with.
  pose proof (kg_measure_le (s_key_gen st.1) m) as Hle.
  pose proof (kg_measure_lt (s_key_gen st.1) m) as Hlt'.
  destruct (kg_handle_message (s_key_gen st.1) m) as [g res]. simpl in *.
  destruct (reset_on _ _) as [st2 reset] eqn:Er. apply reset_on_step in Er as (_ & _ & Hg). simpl in Hg.
  assert (default [] res <> [] -> kg_measure g < fuel) as Hresp.
  { destruct res as [[|r rs]|]; simpl; try done. intros _. specialize (Hlt' r rs eq_refl).
    unfold st_measure in Hlt. lia. }
  assert (exists (st3 : St) (cs : list DkgCommand),
    flat_run (broadcast_with (session_process_message fuel k kp) k) st2 (default [] res) =
    Some (st3, cs) /\ st_measure st3 <= kg_measure g) as (st3 & cs & -> & H3).
  { assert (st_measure st2 <= kg_measure g) as H2 by (unfold st_measure; by rewrite Hg).
    destruct (default [] res) as [|r rs] eqn:Ed; [by eexists _, _|].
    destruct (flat_run_total st_measure (kg_measure g)
      (broadcast_with (session_process_message fuel k kp) k) (r :: rs) st2 H2) as (st3 & cs & E & H3).
    { intros st0 x H0. apply broadcast_with_total. apply IH. specialize (Hresp ltac:(done)). lia. }
    exists st3, cs. split; [done|lia]. }
  simpl. pose proof (session_check_key_gen st3.1 k kp) as Hk.
  destruct (session_check st3.1 k kp) as [s4 ck]. simpl in *.
  eexists _, _. split; [done|]. unfold st_measure in *; simpl. rewrite Hk. lia.
Qed.

Lemma report_failure_key_gen s k np kp : s_key_gen (report_failure s k np kp).1 = s_key_gen s.
Proof.
  unfold report_failure, check_failure_agreement. repeat (case_match; simplify_eq/=; try done).
Qed.

Lemma session_handle_total fuel k kp st e :
  st_measure st < fuel ->
  exists st' cs, session_handle fuel k kp st e = Some (st', cs) /\ st_measure st' <= st_measure st.
Proof.
  intros Hlt. destruct e as [m|np f|]; simpl.
  - by apply process_message_total.
  - assert (s_key_gen (session_process_failure st.1 k np f).1 = s_key_gen st.1) as Hk.
    { unfold session_process_failure, check_failure_agreement.
      repeat (case_match; simplify_eq/=; try done). }
    destruct (session_process_failure st.1 k np f) as [s c]. eexists _, _. split; [done|].
    unfold st_measure; simpl in *. by rewrite Hk.
  - unfold session_handle_timeout. destruct (s_complete st.1); [by eexists _, _|].
    pose proof (kg_measure_timed (s_key_gen st.1)) as Hle.
    destruct (kg_timed_phase_transition (s_key_gen st.1)) as [g [ms|]]; simpl in Hle.
    + destruct (flat_run_total st_measure (kg_measure g) (session_broadcast fuel k kp) ms
        (set_key_gen st.1 g, st.2)) as (st2 & cs & -> & H2).
      * done.
      * intros st0 x H0. apply broadcast_with_total, process_message_total.
        unfold st_measure in *. lia.
      * simpl. assert (s_key_gen (reset_timer st2).1.1 = s_key_gen st2.1) as Hr by (by destruct st2).
        destruct (reset_timer st2) as [st3 c]. pose proof (session_check_key_gen st3.1 k kp) as Hk.
        destruct (session_check st3.1 k kp) as [s4 ck]. simpl in *. eexists _, _. split; [done|].
        unfold st_measure in *; simpl in *. rewrite Hk, Hr. lia.
    + pose proof (report_failure_key_gen (set_key_gen st.1 g) k ∅ kp) as Hk.
      destruct (report_failure _ _ _ _) as [s2 cs]. eexists _, _. split; [done|].
      unfold st_measure; simpl in *. by rewrite Hk.
Qed.
End Termination.

(** ** The backlog is a queue per key *)

Section BacklogLemmas.
Context `{CR : Crates, KG : !KeyGenOps, VA : VecDequeAlloc}.

Definition for_key (k : DkgKey) (x : DkgKey * DkgMessage) : bool := bool_decide (x.1 = k).

Lemma take_loop_spec k front back out :
  take_loop (length front) k (front ++ back) out =
  (back ++ List.filter (fun x => negb (for_key k x)) front,
   out ++ (List.filter (for_key k) front).*2).
Proof.
  revert back out; induction front as [|[k' m] front IH]; intros back out; simpl.
  - by rewrite !app_nil_r.
  - assert (for_key k (k', m) = bool_decide (k' = k)) as -> by done. case_decide as E.
    + rewrite bool_decide_true by done. simpl. rewrite IH. by rewrite <- app_assoc.
    + rewrite bool_decide_false by done. simpl. rewrite <- app_assoc, IH. by rewrite <- app_assoc.
Qed.

Lemma backlog_take_spec b k :
  backlog_take b k =
  (mkBacklog (List.filter (fun x => negb (for_key k x)) (bl_list b)) (bl_capacity b),
   (List.filter (for_key k) (bl_list b)).*2).
Proof.
  unfold backlog_take. rewrite <- (app_nil_r (bl_list b)) at 2. by rewrite take_loop_spec.
Qed.
End BacklogLemmas.
