(* ===== verification/DkgVoter.v ===== *)
(** * Taking part in key generation (src/dkg/voter.rs)

    A node keeps one session per key generation it takes part in, and a backlog of messages
    that arrived before their session.  The hash map of sessions is searched in an order that
    the standard library leaves open: it is a parameter. *)

From stdpp Require Import base tactics list gmap sorting.
From Stdlib Require Import ZArith Lia.
From S2P Require Import Prelude Names Crates Types Thresholds SectionKeys DkgFailure DkgSession.

Section DkgVoter.
Context `{CR : Crates, KG : !KeyGenOps, VA : VecDequeAlloc}.
(** the iteration order of the hash map *)
Context (session_order : gmap DkgKey Session -> list (DkgKey * Session)).

Record DkgVoter : Type := mkDkgVoter {
  dv_sessions : gmap DkgKey Session;
  dv_backlog : Backlog;
}.

Definition voter_default : DkgVoter := mkDkgVoter ∅ backlog_new.

(** the voter and the global token counter *)
Definition VSt : Type := DkgVoter * Z.

(** [random]: the public key set and the share of the random threshold-0 key set *)
Definition voter_start (fuel : nat) (random : BlsPublicKeySet * BlsSecretKeyShare) (keypair : Keypair)
    (dkg_key : DkgKey) (elder_candidates : ElderCandidates) (vst : VSt) :
    option (VSt * list DkgCommand) :=
  let '(v, tokens) := vst in
  match dv_sessions v !! dkg_key with
  | Some _ => Some (vst, [])
  | None =>
      let name := ed25519_name (keypair_public keypair) in
      match elder_candidates_position elder_candidates name with
      | None => Some (vst, [])
      | Some participant_index =>
          if Nat.eqb (size (ec_elders elder_candidates)) 1 then
            Some (vst,
              [DkgHandleOutcome (sap_from_elder_candidates elder_candidates random.1)
                 (mkSectionKeyShare random.1 participant_index random.2)])
          else
            let threshold := supermajority (size (ec_elders elder_candidates)) - 1 in
            let participants := dom (ec_elders elder_candidates) in
            match kg_initialize name threshold participants with
            | Some (key_gen, message) =>
                let session :=
                  mkSession elder_candidates participant_index key_gen 0 failure_set_default false in
                '(st1, cs1) ← session_broadcast fuel dkg_key keypair (session, tokens) message;
                let '(backlog, replay) := backlog_take (dv_backlog v) dkg_key in
                '(st2, cs2) ← flat_run (session_process_message fuel dkg_key keypair) st1 replay;
                let sessions := <[dkg_key := st2.1]> (dv_sessions v) in
                let sessions :=
                  filter (fun e => (dk_generation dkg_key <= dk_generation e.1)%Z) sessions in
                Some ((mkDkgVoter sessions (backlog_prune backlog dkg_key), st2.2), cs1 ++ cs2)
            | None => Some (vst, [])
            end
      end
  end.

Definition voter_handle_timeout (fuel : nat) (keypair : Keypair) (timer_token : Z) (vst : VSt) :
    option (VSt * list DkgCommand) :=
  let '(v, tokens) := vst in
  match list_find (fun e => s_timer_token e.2 = timer_token) (session_order (dv_sessions v)) with
  | Some (_, (dkg_key, session)) =>
      '(st, cs) ← session_handle_timeout fuel dkg_key keypair (session, tokens);
      Some ((mkDkgVoter (<[dkg_key := st.1]> (dv_sessions v)) (dv_backlog v), st.2), cs)
  | None => Some (vst, [])
  end.

Definition voter_process_message (fuel : nat) (keypair : Keypair) (dkg_key : DkgKey)
    (message : DkgMessage) (vst : VSt) : option (VSt * list DkgCommand) :=
  let '(v, tokens) := vst in
  match dv_sessions v !! dkg_key with
  | Some session =>
      '(st, cs) ← session_process_message fuel dkg_key keypair (session, tokens) message;
      Some ((mkDkgVoter (<[dkg_key := st.1]> (dv_sessions v)) (dv_backlog v), st.2), cs)
  | None => Some ((mkDkgVoter (dv_sessions v) (backlog_push (dv_backlog v) dkg_key message), tokens), [])
  end.

Definition voter_process_failure (dkg_key : DkgKey) (non_participants : gset XorName)
    (signed : DkgFailureSigned) (v : DkgVoter) : DkgVoter * option DkgCommand :=
  match dv_sessions v !! dkg_key with
  | Some session =>
      let '(s, c) := session_process_failure session dkg_key non_participants signed in
      (mkDkgVoter (<[dkg_key := s]> (dv_sessions v)) (dv_backlog v), c)
  | None => (v, None)
  end.

(** ** Invariant: every session is one we take part in, with at least two participants *)

Definition voter_wf (keypair : Keypair) (v : DkgVoter) : Prop :=
  forall k s, dv_sessions v !! k = Some s ->
    elder_candidates_position (s_elder_candidates s) (ed25519_name (keypair_public keypair)) =
      Some (s_participant_index s) /\
    size (ec_elders (s_elder_candidates s)) <> 1 /\ distinct_signers (s_failures s).

Lemma voter_wf_insert keypair v k s s' cs b :
  voter_wf keypair v -> dv_sessions v !! k = Some s -> session_step s s' cs ->
  voter_wf keypair (mkDkgVoter (<[k := s']> (dv_sessions v)) b).
Proof.
  intros Hv Hs Hst k' t. simpl. intros [[<- <-]|[_ Ht]]%lookup_insert_Some; [|by eapply Hv].
  destruct Hst as [E I _ _ _ _ D]. destruct (Hv _ _ Hs) as (H1 & H2 & H3). rewrite E, I. auto.
Qed.

Lemma voter_start_wf fuel random kp k ec vst vst' cs :
  voter_wf kp vst.1 -> voter_start fuel random kp k ec vst = Some (vst', cs) -> voter_wf kp vst'.1.
Proof.
  destruct vst as [v t]. intros Hv. unfold voter_start.
  destruct (dv_sessions v !! k) eqn:Es; [by intros [= <- <-]|].
  destruct (elder_candidates_position ec _) as [i|] eqn:Ep; [|by intros [= <- <-]].
  destruct (Nat.eqb_spec (size (ec_elders ec)) 1) as [Hsz|Hsz]; [by intros [= <- <-]|].
  destruct (kg_initialize _ _ _) as [[g m]|]; [|by intros [= <- <-]].
  destruct (session_broadcast _ _ _ _ _) as [[st1 cs1]|] eqn:E1; simpl; [|done].
  destruct (backlog_take (dv_backlog v) k) as [b rs].
  destruct (flat_run _ st1 rs) as [[st2 cs2]|] eqn:E2; simpl; [|done]. intros [= <- <-].
  apply (broadcast_with_step _ _ (process_message_step fuel k kp)) in E1.
  apply flat_run_step in E2; [|apply process_message_step].
  destruct (session_step_app _ _ _ _ _ E1 E2) as [E I _ _ _ _ D]. simpl in *.
  intros k' s [Hs _]%map_lookup_filter_Some. apply lookup_insert_Some in Hs as [[<- <-]|[_ Hs]];
    [|by eapply Hv]. rewrite E, I. split; [done|]. split; [done|]. apply D. constructor.
Qed.
End DkgVoter.

(** ** With the fuel that is enough

    The operations as the rest of the node uses them: the fuel is one more than the number of
    times the generator can still respond, and the case of running out of it is unreachable. *)

Section Total.
Context `{CR : Crates, KG : !KeyGenOps, KP : !KeyGenProgress, VA : VecDequeAlloc}.
Context (session_order : gmap DkgKey Session -> list (DkgKey * Session)).

Definition start_fuel (keypair : Keypair) (elder_candidates : ElderCandidates) : nat :=
  match kg_initialize (ed25519_name (keypair_public keypair))
          (supermajority (size (ec_elders elder_candidates)) - 1) (dom (ec_elders elder_candidates)) with
  | Some (g, _) => S (kg_measure g)
  | None => 1
  end.
Definition dkg_start (random : BlsPublicKeySet * BlsSecretKeyShare) (keypair : Keypair)
    (dkg_key : DkgKey) (elder_candidates : ElderCandidates) (vst : VSt) : VSt * list DkgCommand :=
  default (vst, [])
    (voter_start (start_fuel keypair elder_candidates) random keypair dkg_key elder_candidates vst).

(** one more than the measure of every session *)
Definition voter_fuel (v : DkgVoter) : nat :=
  S (foldr (fun e n => Nat.max (kg_measure (s_key_gen e.2)) n) 0 (map_to_list (dv_sessions v))).
Definition dkg_handle_timeout (keypair : Keypair) (timer_token : Z) (vst : VSt) :
    VSt * list DkgCommand :=
  default (vst, []) (voter_handle_timeout session_order (voter_fuel vst.1) keypair timer_token vst).
Definition dkg_process_message (keypair : Keypair) (dkg_key : DkgKey) (message : DkgMessage)
    (vst : VSt) : VSt * list DkgCommand :=
  default (vst, []) (voter_process_message (voter_fuel vst.1) keypair dkg_key message vst).

Lemma voter_fuel_enough v k s :
  dv_sessions v !! k = Some s -> kg_measure (s_key_gen s) < voter_fuel v.
Proof.
  intros Hs%elem_of_map_to_list. unfold voter_fuel.
  induction (map_to_list (dv_sessions v)) as [|e l IH]; [by apply not_elem_of_nil in Hs|].
  simpl. apply elem_of_cons in Hs as [<-|Hs]; simpl; [lia|]. specialize (IH Hs). lia.
Qed.

Lemma dkg_start_returns random kp k ec vst :
  voter_start (start_fuel kp ec) random kp k ec vst = Some (dkg_start random kp k ec vst).
Proof.
  unfold dkg_start.
  cut (is_Some (voter_start (start_fuel kp ec) random kp k ec vst)); [by intros [r ->]|].
  destruct vst as [v t]. unfold voter_start, start_fuel.
  destruct (dv_sessions v !! k); [eauto|]. destruct (elder_candidates_position _ _) as [i|]; [|eauto].
  destruct (size (ec_elders ec) =? 1); [eauto|].
  destruct (kg_initialize _ _ _) as [[g m]|]; [|eauto].
  set (st0 := (mkSession ec i g 0 failure_set_default false, t)).
  assert (kg_measure g < S (kg_measure g)) as Hf by lia. revert Hf. generalize (S (kg_measure g)).
  intros f Hf.
  destruct (broadcast_with_total st_measure (session_process_message f k kp) k st0 m)
    as (st1 & cs1 & E1 & H1).
  { apply process_message_total. unfold st_measure, st0; simpl. lia. }
  unfold session_broadcast. rewrite E1. simpl. rewrite backlog_take_spec.
  destruct (flat_run_total st_measure (kg_measure g) (session_process_message f k kp)
    (List.filter (for_key k) (bl_list (dv_backlog v))).*2 st1) as (st2 & cs2 & E2 & H2); [done| |].
  { intros st x Hx. apply process_message_total. unfold st_measure in *. lia. }
  rewrite E2. simpl. eauto.
Qed.

Lemma dkg_process_message_returns kp k m vst :
  voter_process_message (voter_fuel vst.1) kp k m vst = Some (dkg_process_message kp k m vst).
Proof.
  unfold dkg_process_message.
  cut (is_Some (voter_process_message (voter_fuel vst.1) kp k m vst)); [by intros [r ->]|].
  destruct vst as [v t]. unfold voter_process_message. cbn [fst].
  destruct (dv_sessions v !! k) as [s|] eqn:E; [|eauto].
  destruct (process_message_total (voter_fuel v) k kp (s, t) m) as (st & cs & -> & _); simpl; [|eauto].
  by eapply voter_fuel_enough.
Qed.

Lemma dkg_handle_timeout_returns kp token vst :
  (forall m, session_order m ≡ₚ map_to_list m) ->
  voter_handle_timeout session_order (voter_fuel vst.1) kp token vst =
  Some (dkg_handle_timeout kp token vst).
Proof.
  intros Ho. unfold dkg_handle_timeout.
  cut (is_Some (voter_handle_timeout session_order (voter_fuel vst.1) kp token vst)); [by intros [r ->]|].
  destruct vst as [v t]. unfold voter_handle_timeout. cbn [fst].
  destruct (list_find _ _) as [[i [k s]]|] eqn:E; [|eauto].
  apply list_find_Some in E as (Hl & _ & _). apply list_elem_of_lookup_2 in Hl.
  rewrite Ho, elem_of_map_to_list in Hl.
  destruct (session_handle_total (voter_fuel v) k kp (s, t) EvTimeout) as (st & cs & E & _).
  { by eapply voter_fuel_enough. }
  cbn [session_handle] in E. rewrite E. simpl. eauto.
Qed.

(** ** The invariant for the total operations *)

Lemma dkg_start_wf random kp k ec vst : voter_wf kp vst.1 -> voter_wf kp (dkg_start random kp k ec vst).1.1.
Proof.
  intros Hv. pose proof (dkg_start_returns random kp k ec vst) as E.
  destruct (dkg_start random kp k ec vst) as [vst' cs]. by eapply voter_start_wf.
Qed.

Lemma dkg_process_message_wf kp k m vst :
  voter_wf kp vst.1 -> voter_wf kp (dkg_process_message kp k m vst).1.1.
Proof.
  intros Hv. pose proof (dkg_process_message_returns kp k m vst) as E.
  destruct (dkg_process_message kp k m vst) as [vst' cs]. destruct vst as [v t]. simpl in Hv. revert E.
  unfold voter_process_message. destruct (dv_sessions v !! k) as [s|] eqn:Es; [|by intros [= <- <-]].
  destruct (session_process_message _ k kp (s, t) m) as [[st cs']|] eqn:Ep; simpl; [|done].
  intros [= <- <-]. eapply voter_wf_insert; [done|done|]. by eapply process_message_step in Ep.
Qed.

Lemma dkg_handle_timeout_wf kp token vst :
  (forall m, session_order m ≡ₚ map_to_list m) ->
  voter_wf kp vst.1 -> voter_wf kp (dkg_handle_timeout kp token vst).1.1.
Proof.
  intros Ho Hv. pose proof (dkg_handle_timeout_returns kp token vst Ho) as E.
  destruct (dkg_handle_timeout kp token vst) as [vst' cs]. destruct vst as [v t]. simpl in Hv. revert E.
  unfold voter_handle_timeout. destruct (list_find _ _) as [[i [k s]]|] eqn:Ef; [|by intros [= <- <-]].
  apply list_find_Some in Ef as (Hl & _ & _). apply list_elem_of_lookup_2 in Hl.
  rewrite Ho, elem_of_map_to_list in Hl.
  destruct (session_handle_timeout _ k kp (s, t)) as [[st cs']|] eqn:Eh; simpl; [|done].
  intros [= <- <-]. eapply voter_wf_insert; [done|done|]. by eapply handle_timeout_step in Eh.
Qed.

Lemma voter_process_failure_wf kp k np f v :
  voter_wf kp v -> voter_wf kp (voter_process_failure k np f v).1.
Proof.
  intros Hv. unfold voter_process_failure. destruct (dv_sessions v !! k) as [s|] eqn:Es; [|done].
  pose proof (session_process_failure_step s k np f) as H.
  destruct (session_process_failure s k np f) as [s' c]. by eapply voter_wf_insert.
Qed.
End Total.

(** ** Claims *)

Section Claims.
Context `{CR : Crates, KG : !KeyGenOps, KP : !KeyGenProgress, VA : VecDequeAlloc, VL : !VecDequeAllocLaws}.

(** C20: a key generation session always gets to the end of what it is told: with one unit of
    fuel more than the number of times the generator can still respond, any sequence of
    messages, failures and timeouts is processed, and more fuel gives the same result for a
    message.  Over the whole sequence at most one outcome is reported, none by a session that
    was already complete, and the outcome is for the session's candidates with a secret share
    that matches the public key set at our index. *)
Theorem dkg_session_outcome (fuel : nat) (k : DkgKey) (kp : Keypair) (st : St)
    (es : list session_event) :
  kg_measure (s_key_gen st.1) < fuel ->
  exists st' cs, session_run fuel k kp st es = Some (st', cs) /\
    length (outcomes cs) <= 1 /\
    (s_complete st.1 = true -> outcomes cs = []) /\
    (outcomes cs <> [] -> s_complete st'.1 = true) /\
    (forall c, c ∈ cs -> outcome_sound st.1 c) /\
    (forall fuel' m, fuel <= fuel' ->
       session_process_message fuel' k kp st m = session_process_message fuel k kp st m).
Proof.
  intros Hlt.
  destruct (flat_run_total st_measure (kg_measure (s_key_gen st.1)) (session_handle fuel k kp) es st)
    as (st' & cs & E & _); [done| |].
  { intros st0 e H0. apply session_handle_total. unfold st_measure in *. lia. }
  exists st', cs. split; [done|].
  apply flat_run_step in E as [_ _ _ Q O S _]; [|apply session_handle_step].
  split; [|split; [done|split; [|split; [done|]]]].
  - assert (outcomes cs = [] \/ outcomes cs <> []) as [->|Hne] by (destruct (outcomes cs); auto);
      simpl; [lia|]. by destruct (O Hne) as [-> _].
  - intros Ho. by destruct (O Ho).
  - intros fuel' m Hle. destruct (process_message_total fuel k kp st m Hlt) as (st1 & cs1 & E1 & _).
    rewrite E1. by eapply process_message_mono.
Qed.

(** No early message is lost: messages that arrive before their session are replayed in
    the order they came in, as long as they fit into the backlog, those of other sessions stay
    in order, and taking them twice gives nothing.  The backlog never exceeds its capacity. *)
Theorem backlog_replays_in_order (l : list (DkgKey * DkgMessage)) (k : DkgKey) :
  let b := foldl (fun b x => backlog_push b x.1 x.2) backlog_new l in
  length (bl_list b) <= bl_capacity b /\
  (length l <= BACKLOG_CAPACITY ->
    let '(b', taken) := backlog_take b k in
    taken = (List.filter (for_key k) l).*2 /\
    bl_list b' = List.filter (fun x => negb (for_key k x)) l /\
    (backlog_take b' k).2 = []).
Proof.
  intros b. pose proof (vd_with_capacity_ge BACKLOG_CAPACITY) as Hc.
  assert (forall l b0, length (bl_list b0) <= bl_capacity b0 -> 0 < bl_capacity b0 ->
    length (bl_list (foldl (fun b x => backlog_push b x.1 x.2) b0 l)) <=
    bl_capacity (foldl (fun b x => backlog_push b x.1 x.2) b0 l)) as Hbound.
  { clear -VL. induction l as [|x l IH]; intros b0 Hle Hpos; simpl; [done|]. apply IH; unfold backlog_push; simpl.
    - rewrite length_app; simpl. destruct (Nat.eqb_spec (length (bl_list b0)) (bl_capacity b0)).
      + destruct (bl_list b0) as [|y l']; simpl in *; [lia|].
        destruct (Nat.eqb_spec (length l') (bl_capacity b0)); lia.
      + destruct (Nat.eqb_spec (length (bl_list b0)) (bl_capacity b0)); lia.
    - case_match; [|done]. pose proof (vd_grow_gt (bl_capacity b0)). lia. }
  split; [apply Hbound; simpl; [lia|unfold BACKLOG_CAPACITY in *; lia]|].
  intros Hl.
  assert (bl_list b = l) as Eb.
  { unfold b. cut (forall l0, length l0 + length l <= bl_capacity backlog_new ->
      foldl (fun b x => backlog_push b x.1 x.2) (mkBacklog l0 (bl_capacity backlog_new)) l =
      mkBacklog (l0 ++ l) (bl_capacity backlog_new)).
    { intros H. specialize (H []). simpl in H. change (mkBacklog [] _) with backlog_new in H.
      rewrite H; [done|]. lia. }
    clear Hl b Hbound. induction l as [|x l IH]; intros l0 Hl0; simpl in *; [by rewrite app_nil_r|].
    unfold backlog_push at 2; simpl.
    destruct (Nat.eqb_spec (length l0) (vd_with_capacity BACKLOG_CAPACITY)); [lia|].
    destruct (Nat.eqb_spec (length l0) (vd_with_capacity BACKLOG_CAPACITY)); [lia|].
    destruct x as [kx mx]. simpl. rewrite IH by (rewrite length_app; simpl; lia).
    by rewrite <- app_assoc. }
  rewrite backlog_take_spec, Eb. split; [done|]. split; [done|].
  rewrite backlog_take_spec. simpl.
  assert (List.filter (for_key k) (List.filter (fun x => negb (for_key k x)) l) = []) as ->; [|done].
  clear. induction l as [|x l IH]; simpl; [done|]. destruct (for_key k x) eqn:E; simpl; [done|].
  by rewrite E.
Qed.

(** the branch on which a session is started: it is run with the messages that came in early *)
Lemma voter_start_session fuel random kp k ec v tokens i g m :
  let name := ed25519_name (keypair_public kp) in
  dv_sessions v !! k = None -> elder_candidates_position ec name = Some i -> size (ec_elders ec) <> 1 ->
  kg_initialize name (supermajority (size (ec_elders ec)) - 1) (dom (ec_elders ec)) = Some (g, m) ->
  kg_measure g < fuel ->
  exists v' tokens' cs, voter_start fuel random kp k ec (v, tokens) = Some ((v', tokens'), cs) /\
    (exists s, dv_sessions v' !! k = Some s /\ s_elder_candidates s = ec) /\
    (forall k', is_Some (dv_sessions v' !! k') -> (dk_generation k <= dk_generation k')%Z) /\
    (forall x, x ∈ bl_list (dv_backlog v') -> x.1 <> k /\ (dk_generation k <= dk_generation x.1)%Z).
Proof.
  intros name Es Ep Hsz Eg Hg. unfold voter_start. rewrite Es. fold name. rewrite Ep.
  rewrite (proj2 (Nat.eqb_neq _ _)) by done. rewrite Eg.
  set (st0 := (mkSession ec i g 0 failure_set_default false, tokens)).
  destruct (broadcast_with_total st_measure (session_process_message fuel k kp) k st0 m)
    as (st1 & cs1 & E1 & H1).
  { by apply process_message_total. }
  unfold session_broadcast. rewrite E1. simpl. rewrite backlog_take_spec.
  destruct (flat_run_total st_measure (kg_measure g) (session_process_message fuel k kp)
    (List.filter (for_key k) (bl_list (dv_backlog v))).*2 st1) as (st2 & cs2 & E2 & H2); [done| |].
  { intros st x Hx. apply process_message_total. unfold st_measure in *. lia. }
  rewrite E2. simpl. eexists _, _, _. split; [done|].
  apply (broadcast_with_step _ _ (process_message_step fuel k kp)) in E1 as [Ec1 _ _ _ _ _ _].
  apply flat_run_step in E2 as [Ec2 _ _ _ _ _ _]; [|apply process_message_step]. simpl in *.
  split; [|split].
  - exists st2.1. split; [|congruence]. apply map_lookup_filter_Some.
    split; [apply lookup_insert_eq|]. simpl. lia.
  - intros k' [s [_ Hs]%map_lookup_filter_Some]. done.
  - intros x Hx%list_elem_of_In. apply filter_In in Hx as [Hx Hge%Z.leb_le].
    apply filter_In in Hx as [_ Hk%negb_true_iff]. apply bool_decide_eq_false in Hk. done.
Qed.

(** Starting a session, on every branch: a session in progress is not restarted and a
    node that is no candidate stays out; a single candidate generates its key at once; else,
    when the generator initialises, there is a session in which we have our position among
    the candidates, no session or message of an older generation is left, and no message of
    the session stays in the backlog.  Every session a voter has started is one it takes part
    in. *)
Theorem voter_start_correct (fuel : nat) (random : BlsPublicKeySet * BlsSecretKeyShare) (kp : Keypair)
    (k : DkgKey) (ec : ElderCandidates) (v : DkgVoter) (tokens : Z) :
  voter_wf kp v ->
  (forall n t ps g m, kg_initialize n t ps = Some (g, m) -> kg_measure g < fuel) ->
  let name := ed25519_name (keypair_public kp) in
  exists v' tokens' cs, voter_start fuel random kp k ec (v, tokens) = Some ((v', tokens'), cs) /\
    voter_wf kp v' /\
    (is_Some (dv_sessions v !! k) \/ ec_elders ec !! name = None -> v' = v /\ cs = []) /\
    (dv_sessions v !! k = None -> is_Some (ec_elders ec !! name) -> size (ec_elders ec) = 1 ->
      v' = v /\
      cs = [DkgHandleOutcome (sap_from_elder_candidates ec random.1) (mkSectionKeyShare random.1 0 random.2)]) /\
    (dv_sessions v !! k = None -> is_Some (ec_elders ec !! name) -> size (ec_elders ec) <> 1 ->
     forall g m, kg_initialize name (supermajority (size (ec_elders ec)) - 1) (dom (ec_elders ec)) = Some (g, m) ->
      (exists s, dv_sessions v' !! k = Some s /\ s_elder_candidates s = ec) /\
      (forall k', is_Some (dv_sessions v' !! k') -> (dk_generation k <= dk_generation k')%Z) /\
      (forall x, x ∈ bl_list (dv_backlog v') -> x.1 <> k /\ (dk_generation k <= dk_generation x.1)%Z)).
Proof.
  intros Hv Hfuel name.
  assert (forall st cs, voter_start fuel random kp k ec (v, tokens) = Some (st, cs) -> voter_wf kp st.1) as Hwf
    by (intros st cs; apply (voter_start_wf fuel random kp k ec (v, tokens)); done).
  destruct (dv_sessions v !! k) as [s|] eqn:Es.
  { exists v, tokens, []. split; [unfold voter_start; by rewrite Es|done]. }
  pose proof (position_is_Some ec name) as Hp.
  destruct (elder_candidates_position ec name) as [i|] eqn:Ep.
  2: { assert (ec_elders ec !! name = None) as Hn.
       { destruct (ec_elders ec !! name); [|done]. by destruct (proj2 Hp) as [? ?]. }
       exists v, tokens, []. rewrite Hn. split; [unfold voter_start; fold name; by rewrite Es, Ep|].
       split; [done|]. split; [done|]. split; by intros _ [? ?]. }
  destruct (proj1 Hp) as [a Ha]; [done|]. rewrite Ha.
  pose proof (position_lt ec name i Ep) as Hi.
  destruct (decide (size (ec_elders ec) = 1)) as [Hsz|Hsz].
  { assert (i = 0) as -> by lia. eexists v, tokens, _.
    split; [unfold voter_start; fold name; rewrite Es, Ep, (proj2 (Nat.eqb_eq _ _) Hsz); done|].
    split; [done|]. split; [by intros [[]|]|done]. }
  destruct (kg_initialize name _ _) as [[g m]|] eqn:Eg.
  2: { exists v, tokens, [].
       split; [unfold voter_start; fold name; rewrite Es, Ep, (proj2 (Nat.eqb_neq _ _) Hsz), Eg; done|done]. }
  destruct (voter_start_session fuel random kp k ec v tokens i g m Es Ep Hsz Eg (Hfuel _ _ _ _ _ Eg))
    as (v' & t' & cs & E & H). exists v', t', cs. split; [done|]. split; [by apply (Hwf (v', t') cs)|].
  split; [by intros [[]|]|]. split; [done|]. done.
Qed.
End Claims.

Module DkgWitness.
Import BitNames ToyCrates SectionKeysWitness.

(** A generator that answers its own messages twice and then has a key. *)
#[export] Instance keygen : KeyGenOps := {|
  KeyGen := nat * (gset XorName * nat);
  DkgMessage := nat;
  kg_initialize name t ps :=
    Some ((2, (ps, default 0 (fst <$> list_find (fun n => n = name) (name_list ps)))), 0);
  kg_handle_message g m :=
    match g with (S n, x) => ((n, x), Some [n]) | (O, x) => ((O, x), None) end;
  kg_timed_phase_transition g := (g, None);
  kg_is_finalized g := Nat.eqb g.1 0;
  kg_generate_keys g := Some (g.2.1, (9%N, (9%N, g.2.2)));
|}.

#[export] Instance keygen_progress : KeyGenProgress (KG := keygen).
Proof.
  refine {| kg_measure := fun g : KeyGen => g.1 |}.
  - intros [[|n] x] m; simpl; lia.
  - intros [n x]; simpl; lia.
  - intros [[|n] x] m r rs; simpl; [done|lia].
Defined.

Definition ec (ids : list N) : ElderCandidates :=
  elder_candidates_new ((fun i => peer_new (to_name i) (SocketAddrV4 i 1)) <$> ids) prefix_default.
Definition key : DkgKey := mkDkgKey [1%Z] 4.
Definition me : Keypair := to_name 1.
Definition msg (n : nat) : DkgMessage (KeyGenOps := keygen) := n.
Definition rnd : BlsPublicKeySet * BlsSecretKeyShare := (9%N, (9%N, 0)).
Definition session0 : Session := mkSession (ec [1; 2]%N) 0 (2, (dom (ec_elders (ec [1; 2]%N)), 0)) 0 failure_set_default false.

Lemma dkg_session_outcome_witness :
  (kg_measure (s_key_gen session0) < 3) /\
  (exists st' cs, session_run 3 key me (session0, 0%Z) [EvMessage (msg 0); EvTimeout; EvMessage (msg 0)] = Some (st', cs) /\
    length (outcomes cs) <= 1) /\
  (length <$> (outcomes <$> (snd <$> session_run 3 key me (session0, 0%Z) [EvMessage (msg 0); EvTimeout; EvMessage (msg 0)]))) = Some 1.
Proof.
  split; [exact (le_n 3)|]. split; [|vm_compute; reflexivity].
  destruct (dkg_session_outcome 3 key me (session0, 0%Z)
    [EvMessage (msg 0); EvTimeout; EvMessage (msg 0)] ltac:(exact (le_n 3))) as (st' & cs & E & H & _).
  exists st', cs. exact (conj E H).
Defined.

Lemma backlog_replays_in_order_witness :
  length [(key, msg 1); (mkDkgKey [] 0, msg 2); (key, msg 3)] <= BACKLOG_CAPACITY /\
  (backlog_take (foldl (fun b x => backlog_push b x.1 x.2) backlog_new
     [(key, msg 1); (mkDkgKey [] 0, msg 2); (key, msg 3)]) key).2 = [1; 3].
Proof.
  assert (length [(key, msg 1); (mkDkgKey [] 0, msg 2); (key, msg 3)] <= BACKLOG_CAPACITY)
    as Hl by (unfold BACKLOG_CAPACITY; cbn; lia).
  split; [exact Hl|].
  pose proof (proj2 (backlog_replays_in_order
    [(key, msg 1); (mkDkgKey [] 0, msg 2); (key, msg 3)] key) Hl) as H.
  destruct (backlog_take _ _) as [b' taken]. rewrite (proj1 H). vm_compute. reflexivity.
Defined.

Lemma voter_start_correct_witness :
  voter_wf me voter_default /\
  exists v' tokens' cs,
    voter_start 3 rnd me key (ec [1; 2]%N) (voter_default, 0%Z) = Some ((v', tokens'), cs) /\
    voter_wf me v'.
Proof.
  assert (voter_wf me voter_default) as Hv.
  { intros k s. unfold voter_default; cbn [dv_sessions]. by rewrite lookup_empty. }
  split; [exact Hv|].
  destruct (voter_start_correct 3 rnd me key (ec [1; 2]%N) voter_default 0%Z Hv) as (v' & t' & cs & E & H & _).
  - intros n t ps g m [= <- <-]. cbn. lia.
  - exists v', t', cs. exact (conj E H).
Defined.

End DkgWitness.
