(* ===== verification/Messages.v ===== *)
(** * Messages (src/messages/mod.rs, src/messages/plain_message.rs, src/messages/src_authority.rs,
    src/dkg/proposal.rs)

    The data of [sn_messaging] that the routing code builds and takes apart, and the operations
    that sign, verify and accumulate messages.  What [sn_messaging] computes itself (locations,
    message ids, the signature aggregator) is the parameter [MessagingOps]. *)

From stdpp Require Import base tactics list gmap sorting.
From Stdlib Require Import ZArith Lia.
From S2P Require Import Prelude Names Crates Types Thresholds SectionPeers SectionKeys.
From S2P Require Import SectionState PrefixMap Network EndUsers DkgFailure DkgSession.

Section MessageTypes.
Context `{CR : Crates, KG : !KeyGenOps, PMO : !PrefixMapOps OtherSection}.

Inductive DstLocation : Type :=
| DstEndUser (user : EndUser)
| DstNode (name : XorName)
| DstSection (name : XorName)
| DirectAndUnrouted.

Inductive SrcLocation : Type :=
| SrcEndUser (user : EndUser)
| SrcNode (name : XorName)
| SrcSection (name : XorName).

Inductive Aggregation : Type := AggregationNone | AggregationAtSource | AggregationAtDestination.

Record DestInfo : Type := mkDestInfo { di_dest : XorName; di_dest_section_pk : BlsPublicKey }.

Record RelocateDetails : Type := mkRelocateDetails {
  rd_pub_id : XorName;
  rd_destination : XorName;
  rd_destination_key : BlsPublicKey;
  rd_age : Z;
}.

Record RelocatePromise : Type := mkRelocatePromise { rp_name : XorName; rp_destination : XorName }.

Record ResourceProofResponse : Type := mkResourceProofResponse {
  rpr_solution : Z;
  rpr_data : Bytes;
  rpr_nonce : Bytes;
  rpr_nonce_signature : EdSignature;
}.

Record JoinRequest : Type := mkJoinRequest {
  jr_section_key : BlsPublicKey;
  jr_resource_proof_response : option ResourceProofResponse;
}.

Inductive JoinRejectionReason : Type :=
| RejectJoinsDisallowed
| RejectNodeNotReachable (addr : SocketAddr).

Inductive JoinResponse : Type :=
| JoinApproval (genesis_key : BlsPublicKey) (section_auth : SectionSigned SectionAuthorityProvider)
    (node_state : SectionSigned NodeState) (section_chain : SecuredLinkedList)
| JoinRetry (section_auth : SectionAuthorityProvider)
| JoinRedirect (section_auth : SectionAuthorityProvider)
| JoinRejected (reason : JoinRejectionReason)
| JoinResourceChallenge (data_size : Z) (difficulty : Z) (nonce : Bytes) (nonce_signature : EdSignature).

Inductive JoinAsRelocatedResponse : Type :=
| RelocatedApproval (section_auth : SectionSigned SectionAuthorityProvider)
    (member_info : SectionSigned NodeState) (section_chain : SecuredLinkedList)
| RelocatedRetry (section_auth : SectionAuthorityProvider)
| RelocatedRedirect (section_auth : SectionAuthorityProvider)
| RelocatedNodeNotReachable (addr : SocketAddr).

Inductive SrcAuthority : Type :=
| SrcAuthNode (public_key : EdPublicKey) (signature : EdSignature)
| SrcAuthBlsShare (src_name : XorName) (signed_share : SignedShare) (section_chain : SecuredLinkedList)
| SrcAuthSection (src_name : XorName) (signed : Signed) (section_chain : SecuredLinkedList).

Inductive RoutingMsg : Type :=
| mkRoutingMsg (id : MessageId) (src : SrcAuthority) (dst : DstLocation) (aggregation : Aggregation)
    (variant : Variant) (section_pk : BlsPublicKey)
with Variant : Type :=
| VSectionKnowledge (src_info : SectionSigned SectionAuthorityProvider * SecuredLinkedList)
    (msg : option RoutingMsg)
| VSync (section : Section_) (network : Network)
| VRelocate (details : RelocateDetails)
| VRelocatePromise (promise : RelocatePromise)
| VStartConnectivityTest (name : XorName)
| VJoinRequest (request : JoinRequest)
| VJoinResponse (response : JoinResponse)
| VJoinAsRelocatedRequest (section_key : BlsPublicKey) (relocate_payload : option RelocatePayload)
| VJoinAsRelocatedResponse (response : JoinAsRelocatedResponse)
| VUserMessage (content : Bytes)
| VBouncedUntrustedMessage (msg : RoutingMsg) (dest_info : DestInfo)
| VSectionKnowledgeQuery (last_known_key : option BlsPublicKey) (msg : RoutingMsg)
| VDkgStart (dkg_key : DkgKey) (elder_candidates : ElderCandidates)
| VDkgMessage (dkg_key : DkgKey) (message : DkgMessage)
| VDkgFailureObservation (dkg_key : DkgKey) (signed : DkgFailureSigned) (non_participants : gset XorName)
| VDkgFailureAgreement (failures : DkgFailureSignedSet)
| VPropose (content : Proposal) (signed_share : SignedShare)
with Proposal : Type :=
| POnline (node_state : NodeState) (previous_name : option XorName) (destination_key : option BlsPublicKey)
| POffline (node_state : NodeState)
| PSectionInfo (section_auth : SectionAuthorityProvider)
| POurElders (section_auth : SectionSigned SectionAuthorityProvider)
| PAccumulateAtSrc (message : PlainMessage) (proof_chain : SecuredLinkedList)
| PJoinsAllowed (joins_allowed : MessageId * bool)
with PlainMessage : Type :=
| mkPlainMessage (src : XorName) (dst : DstLocation) (dst_key : BlsPublicKey) (variant : Variant)
(** a [RelocatePayload] with its [SignedRelocateDetails], a wrapped message *)
with RelocatePayload : Type :=
| mkRelocatePayload (signed_msg : RoutingMsg) (signature_of_new_name_with_old_key : EdSignature).

Definition rm_id (m : RoutingMsg) := let 'mkRoutingMsg id _ _ _ _ _ := m in id.
Definition rm_src (m : RoutingMsg) := let 'mkRoutingMsg _ src _ _ _ _ := m in src.
Definition rm_dst (m : RoutingMsg) := let 'mkRoutingMsg _ _ dst _ _ _ := m in dst.
Definition rm_variant (m : RoutingMsg) := let 'mkRoutingMsg _ _ _ _ v _ := m in v.
Definition rm_section_pk (m : RoutingMsg) := let 'mkRoutingMsg _ _ _ _ _ pk := m in pk.
Definition pm_dst (m : PlainMessage) := let 'mkPlainMessage _ dst _ _ := m in dst.
Definition pm_dst_key (m : PlainMessage) := let 'mkPlainMessage _ _ k _ := m in k.

Inductive VerifyStatus : Type := VerifyFull | VerifyUnknown.
Inductive MessageStatus : Type := Useful | Useless | Untrusted.

(** What [sn_messaging] computes. *)
Class MessagingOps := {
  (** [MessageId::from_content] of the signatures and of a list of names *)
  message_id_default : MessageId;
  message_id_of_ed : EdSignature -> option MessageId;
  message_id_of_share : BlsSignatureShare -> option MessageId;
  message_id_of_sig : BlsSignature -> option MessageId;
  message_id_of_names : list XorName -> result MessageId MessagingError;
  (** [DstLocation::contains], [DstLocation::name], [SrcLocation::to_dst] *)
  dst_contains : DstLocation -> XorName -> Prefix -> bool;
  dst_name : DstLocation -> option XorName;
  src_to_dst : SrcLocation -> DstLocation;
  (** [SignatureAggregator] *)
  SignatureAggregator : Type;
  aggregator_default : SignatureAggregator;
  aggregator_add : SignatureAggregator -> Bytes -> SignedShare ->
    SignatureAggregator * result Signed AggregatorError;
  (** whatever [XorName::random] draws for the destination name that is filled in when sending *)
  random_name : XorName;
}.
End MessageTypes.

Section MessageOps.
Context `{CR : Crates, KG : !KeyGenOps, PMO : !PrefixMapOps OtherSection, MO : !MessagingOps}.
Context `{SerView : !Serialize (DstLocation * Variant), SerNodeState : !Serialize NodeState,
  SerSap : !Serialize SectionAuthorityProvider, SerKey : !Serialize BlsPublicKey,
  SerJoins : !Serialize (MessageId * bool)}.

(** ** Source authorities *)

Definition src_location (s : SrcAuthority) : SrcLocation :=
  match s with
  | SrcAuthNode public_key _ => SrcNode (ed25519_name public_key)
  | SrcAuthBlsShare src_name _ _ => SrcSection src_name
  | SrcAuthSection src_name _ _ => SrcSection src_name
  end.
Definition src_is_section (s : SrcAuthority) : bool :=
  match s with SrcAuthSection _ _ _ => true | _ => false end.
Definition src_name (s : SrcAuthority) : XorName :=
  match s with
  | SrcAuthNode public_key _ => ed25519_name public_key
  | SrcAuthBlsShare src_name _ _ => src_name
  | SrcAuthSection src_name _ _ => src_name
  end.
Definition src_peer (s : SrcAuthority) (addr : SocketAddr) : result Peer Error :=
  match s with
  | SrcAuthNode public_key _ => Ok (peer_new (ed25519_name public_key) addr)
  | SrcAuthSection _ _ _ | SrcAuthBlsShare _ _ _ => Err InvalidSrcLocation
  end.

(** ** Signing and verifying *)

(** the bytes of [SignableView] *)
Definition signable_bytes (dst : DstLocation) (variant : Variant) : result Bytes Error :=
  ok_or (serialize (dst, variant)) InvalidMessage.

Definition check_signature (msg : RoutingMsg) : result unit Error :=
  let? signed_bytes := signable_bytes (rm_dst msg) (rm_variant msg) in
  match rm_src msg with
  | SrcAuthNode public_key signature =>
      if negb (ed_verify public_key signed_bytes signature) then Err (ErrCreate CreateFailedSignature)
      else Ok tt
  | SrcAuthBlsShare _ signed_share _ =>
      if negb (signed_share_verify signed_share signed_bytes) then Err (ErrCreate CreateFailedSignature)
      else if decide (pks_public_key (share_public_key_set signed_share) <> rm_section_pk msg)
      then Err (ErrCreate CreateFailedSignature)
      else Ok tt
  | SrcAuthSection _ signed _ =>
      if negb (bls_verify (rm_section_pk msg) (signed_signature signed) signed_bytes)
      then Err (ErrCreate CreateFailedSignature)
      else Ok tt
  end.

Definition new_signed (src : SrcAuthority) (dst : DstLocation) (variant : Variant)
    (section_pk : BlsPublicKey) : result RoutingMsg Error :=
  let id := default message_id_default
    match src with
    | SrcAuthNode _ signature => message_id_of_ed signature
    | SrcAuthBlsShare _ signed_share _ => message_id_of_share (share_signature_share signed_share)
    | SrcAuthSection _ signed _ => message_id_of_sig (signed_signature signed)
    end in
  Ok (mkRoutingMsg id src dst AggregationNone variant section_pk).

Definition for_dst_accumulation (key_share : SectionKeyShare) (src_name : XorName) (dst : DstLocation)
    (variant : Variant) (section_chain : SecuredLinkedList) : result RoutingMsg Error :=
  let? serialized := signable_bytes dst variant in
  let signature_share := sks_sign (ks_secret_key_share key_share) serialized in
  let signed_share := mkSignedShare (ks_public_key_set key_share) (ks_index key_share) signature_share in
  new_signed (SrcAuthBlsShare src_name signed_share section_chain) dst variant
    (sll_last_key section_chain).

Definition into_dst_accumulated (msg : RoutingMsg) (signed : Signed) : result RoutingMsg Error :=
  match rm_src msg with
  | SrcAuthBlsShare src_name signed_share section_chain =>
      if decide (pks_public_key (share_public_key_set signed_share) <> signed_public_key signed)
      then Err InvalidMessage
      else if decide (signed_public_key signed <> rm_section_pk msg) then Err InvalidMessage
      else
        let? bytes := signable_bytes (rm_dst msg) (rm_variant msg) in
        if negb (signed_verify signed bytes) then Err FailedSignature
        else
          let 'mkRoutingMsg id _ dst agg variant pk := msg in
          Ok (mkRoutingMsg id (SrcAuthSection src_name signed section_chain) dst agg variant pk)
  | _ => Err InvalidMessage
  end.

Definition single_src (node : Node) (dst : DstLocation) (variant : Variant) (section_pk : BlsPublicKey) :
    result RoutingMsg Error :=
  let? serialized := signable_bytes dst variant in
  let signature := ed25519_sign serialized (node_keypair node) in
  new_signed (SrcAuthNode (keypair_public (node_keypair node)) signature) dst variant section_pk.

Definition section_src (plain : PlainMessage) (signed : Signed) (section_chain : SecuredLinkedList) :
    result RoutingMsg Error :=
  let 'mkPlainMessage src dst _ variant := plain in
  new_signed (SrcAuthSection src signed section_chain) dst variant (sll_last_key section_chain).

Definition verify_trust (proof_chain : SecuredLinkedList) (trusted_keys : list BlsPublicKey) :
    VerifyStatus :=
  if sll_check_trust proof_chain trusted_keys then VerifyFull else VerifyUnknown.

Definition verify_variant (msg : RoutingMsg) (trusted_keys : list BlsPublicKey) :
    result VerifyStatus Error :=
  match rm_variant msg with
  | VJoinResponse (JoinApproval _ section_auth node_state section_chain) =>
      if negb (section_signed_verify section_auth section_chain) then Err InvalidMessage
      else if negb (section_signed_verify node_state section_chain) then Err InvalidMessage
      else Ok (verify_trust section_chain trusted_keys)
  | VSectionKnowledge (_, chain) _ => Ok (verify_trust chain trusted_keys)
  | VSync section _ => Ok (verify_trust (sec_chain section) trusted_keys)
  | _ => Ok VerifyFull
  end.

Definition msg_verify (msg : RoutingMsg) (trusted_keys : list BlsPublicKey) : result VerifyStatus Error :=
  let? bytes := signable_bytes (rm_dst msg) (rm_variant msg) in
  match rm_src msg with
  | SrcAuthNode public_key signature =>
      if negb (ed_verify public_key bytes signature) then Err FailedSignature
      else verify_variant msg trusted_keys
  | SrcAuthBlsShare _ signed_share section_chain =>
      if decide (pks_public_key (share_public_key_set signed_share) <> rm_section_pk msg)
      then Err InvalidMessage
      else if negb (signed_share_verify signed_share bytes) then Err FailedSignature
      else Ok (verify_trust section_chain trusted_keys)
  | SrcAuthSection _ signed section_chain =>
      if negb (bls_verify (rm_section_pk msg) (signed_signature signed) bytes) then Err FailedSignature
      else Ok (verify_trust section_chain trusted_keys)
  end.

Definition msg_signed (msg : RoutingMsg) : option Signed :=
  match rm_src msg with SrcAuthSection _ signed _ => Some signed | _ => None end.

Definition updated_with_latest_key (msg : RoutingMsg) (section_pk : BlsPublicKey) : RoutingMsg :=
  let 'mkRoutingMsg id src dst agg variant _ := msg in mkRoutingMsg id src dst agg variant section_pk.

(** what is signed of a plain message *)
Definition plain_as_signable (m : PlainMessage) : DstLocation * Variant :=
  let 'mkPlainMessage _ dst _ variant := m in (dst, variant).

(** ** Proposals (src/dkg/proposal.rs) *)

(** the [Serialize] instance of [SignableView(proposal)] *)
Definition proposal_bytes (p : Proposal) : option Bytes :=
  match p with
  | POnline node_state _ _ => serialize node_state
  | POffline node_state => serialize node_state
  | PSectionInfo info => serialize info
  | POurElders info => serialize (signed_public_key (ss_signed info))
  | PAccumulateAtSrc message _ => serialize (plain_as_signable message)
  | PJoinsAllowed joins_allowed => serialize joins_allowed
  end.

Definition proposal_prove (p : Proposal) (public_key_set : BlsPublicKeySet) (index : nat)
    (secret_key_share : BlsSecretKeyShare) : result SignedShare Error :=
  let? bytes := ok_or (proposal_bytes p) (ErrProposal ProposalInvalid) in
  Ok (mkSignedShare public_key_set index (sks_sign secret_key_share bytes)).

Definition proposal_aggregator_add (agg : SignatureAggregator) (proposal : Proposal)
    (signed_share : SignedShare) : SignatureAggregator * result (Proposal * Signed) ProposalError :=
  match proposal_bytes proposal with
  | None => (agg, Err ProposalInvalid)
  | Some bytes =>
      let '(agg', r) := aggregator_add agg bytes signed_share in
      (agg', let? signed := map_err ProposalAggregation r in Ok (proposal, signed))
  end.

(** ** Lemmas *)

Lemma new_signed_fields src dst v pk m :
  new_signed src dst v pk = Ok m ->
  rm_src m = src /\ rm_dst m = dst /\ rm_variant m = v /\ rm_section_pk m = pk.
Proof. by intros [= <-]. Qed.

Lemma single_src_fields node dst v pk m :
  single_src node dst v pk = Ok m ->
  exists bytes, signable_bytes dst v = Ok bytes /\
    rm_src m = SrcAuthNode (keypair_public (node_keypair node)) (ed25519_sign bytes (node_keypair node)) /\
    rm_dst m = dst /\ rm_variant m = v /\ rm_section_pk m = pk.
Proof.
  unfold single_src. destruct (signable_bytes dst v) as [bytes|] eqn:E; [|done].
  intros H. exists bytes. split; [done|]. by apply new_signed_fields in H.
Qed.
End MessageOps.

(** ** Claims *)

Section Claims.
Context `{CR : Crates, KG : !KeyGenOps, PMO : !PrefixMapOps OtherSection, MO : !MessagingOps}.
Context `{SerView : !Serialize (DstLocation * Variant), SerNodeState : !Serialize NodeState,
  SerSap : !Serialize SectionAuthorityProvider, SerKey : !Serialize BlsPublicKey,
  SerJoins : !Serialize (MessageId * bool)}.
Context `{SL : !SignLaws, BL : !BlsLaws}.

(** C33: a message a node signs is accepted by every receiver: creating it fails only when it
    cannot be serialised; it names the node as its source, passes the signature check, and is
    verified up to the trust in the chain its variant carries. *)
Theorem single_src_roundtrip (node : Node) (dst : DstLocation) (v : Variant) (pk : BlsPublicKey) :
  match single_src node dst v pk with
  | Ok m =>
      check_signature m = Ok tt /\ src_name (rm_src m) = node_name node /\
      src_location (rm_src m) = SrcNode (node_name node) /\
      rm_dst m = dst /\ rm_variant m = v /\ rm_section_pk m = pk /\
      forall trusted, msg_verify m trusted = verify_variant m trusted
  | Err e => serialize (dst, v) = None /\ e = InvalidMessage
  end.
Proof.
  destruct (single_src node dst v pk) as [m|e] eqn:E.
  - pose proof (single_src_fields _ _ _ _ _ E) as (bytes & Eb & Hs & Hd & Hv & Hp).
    unfold check_signature, msg_verify. rewrite Hs, Hd, Hv, Eb. simpl.
    unfold ed25519_sign. rewrite ed_sign_verify. simpl.
    by rewrite <- (node_name_ed25519 node).
  - unfold single_src, signable_bytes in E. destruct (serialize (dst, v)); simpl in E; [done|].
    by injection E as <-.
Qed.

(** C34: accumulation at the destination: the message an elder sends for it passes the check
    exactly when the elder's key share is the one of the chain's last key; and a message
    accumulated from shares is accepted as a section message by everybody, with destination,
    content and key unchanged, while a signature of another key or over other content is
    refused. *)
Theorem dst_accumulation_sound (ks : SectionKeyShare) (name : XorName) (dst : DstLocation)
    (v : Variant) (chain : SecuredLinkedList) (m : RoutingMsg) (signed : Signed) :
  pks_public_key_share (ks_public_key_set ks) (ks_index ks) = sks_public_key_share (ks_secret_key_share ks) ->
  for_dst_accumulation ks name dst v chain = Ok m ->
  (check_signature m = Ok tt <-> pks_public_key (ks_public_key_set ks) = sll_last_key chain) /\
  (forall m', into_dst_accumulated m signed = Ok m' ->
     check_signature m' = Ok tt /\ src_is_section (rm_src m') = true /\
     src_name (rm_src m') = name /\ rm_dst m' = dst /\ rm_variant m' = v /\
     rm_section_pk m' = sll_last_key chain /\ msg_signed m' = Some signed) /\
  (forall bytes, signable_bytes dst v = Ok bytes ->
     signed_verify signed bytes = false \/ signed_public_key signed <> sll_last_key chain ->
     is_ok (into_dst_accumulated m signed) = false).
Proof.
  intros Hks. unfold for_dst_accumulation.
  destruct (signable_bytes dst v) as [bytes|] eqn:Eb; simpl; [|done]. intros [= <-].
  unfold check_signature, into_dst_accumulated. simpl. rewrite Eb. simpl. split; [|split].
  - unfold signed_share_verify; simpl. rewrite share_sign_verify by done. simpl.
    case_decide as E; split; intros H; done.
  - intros m'. case_decide as E1; [done|]. case_decide as E2; [done|].
    destruct (signed_verify signed bytes) eqn:Ev; simpl; [|done]. intros [= <-]. simpl.
    rewrite Eb. simpl. unfold signed_verify in Ev. rewrite signed_verify_bls in Ev.
    rewrite <- E2, Ev. done.
  - intros b [= <-] Hbad. case_decide; [done|]. case_decide as E2; [done|].
    by destruct Hbad as [->|Hk].
Qed.

(** Nothing ties the key a section message is verified with to the chain it carries: for
    every message from a section, a signature of any key [k] whatsoever verifies as fully
    trusted as soon as the attached chain has a key the receiver trusts. *)
Theorem section_source_key_unchecked (id : MessageId) (name : XorName) (dst : DstLocation)
    (agg : Aggregation) (v : Variant) (k signer : BlsPublicKey) (sig : BlsSignature)
    (chain : SecuredLinkedList) (trusted : list BlsPublicKey) (bytes : Bytes) :
  serialize (dst, v) = Some bytes -> bls_verify k sig bytes = true ->
  sll_check_trust chain trusted = true ->
  let m := mkRoutingMsg id (SrcAuthSection name (mkSigned signer sig) chain) dst agg v k in
  check_signature m = Ok tt /\ msg_verify m trusted = Ok VerifyFull.
Proof.
  intros Hs Hv Ht m. unfold m, check_signature, msg_verify, signable_bytes, verify_trust; simpl.
  rewrite Hs. simpl. rewrite Hv. simpl. by rewrite Ht.
Qed.
End Claims.

Module MessagesWitness.
Import BitNames ToyCrates ToySerialize SectionKeysWitness.
Import NetworkWitness.

#[export] Instance keygen : KeyGenOps := {|
  KeyGen := unit; DkgMessage := unit;
  kg_initialize _ _ _ := None;
  kg_handle_message g _ := (g, None);
  kg_timed_phase_transition g := (g, None);
  kg_is_finalized _ := false;
  kg_generate_keys _ := None;
|}.

#[export] Instance messaging : MessagingOps := {|
  message_id_default := 0%N;
  message_id_of_ed s := Some (xval s.1);
  message_id_of_share s := Some s.1.1;
  message_id_of_sig s := Some s.1;
  message_id_of_names ns := Ok (N.of_nat (length ns));
  dst_contains d n p :=
    match d with
    | DstNode m => bool_decide (m = n)
    | DstSection m => matches p m
    | DstEndUser u => matches p (eu_xorname u)
    | DirectAndUnrouted => true
    end;
  dst_name d :=
    match d with
    | DstNode m | DstSection m => Some m
    | DstEndUser u => Some (eu_xorname u)
    | DirectAndUnrouted => None
    end;
  src_to_dst s :=
    match s with SrcNode n => DstNode n | SrcSection n => DstSection n | SrcEndUser u => DstEndUser u end;
  SignatureAggregator := list (Bytes * SignedShare);
  aggregator_default := [];
  (** one share is enough *)
  aggregator_add agg bytes sh :=
    match pks_combine_signatures (share_public_key_set sh) [(share_index sh, share_signature_share sh)] with
    | Some sig => (agg, Ok (mkSigned (pks_public_key (share_public_key_set sh)) sig))
    | None => ((bytes, sh) :: agg, Err (agg_NotEnoughShares : AggregatorError))
    end;
  random_name := to_name 0;
|}.

Definition dst_code (d : DstLocation) : Bytes :=
  match d with
  | DstEndUser u => [0%Z; name_code (eu_xorname u); name_code (eu_socket_id u)]
  | DstNode n => [1%Z; name_code n]
  | DstSection n => [2%Z; name_code n]
  | DirectAndUnrouted => [3%Z]
  end.

(** only user messages and connectivity tests are told apart *)
#[export] Instance ser_view : Serialize (DstLocation * Variant) :=
  fun x => match x.2 with
           | VUserMessage c => Some (dst_code x.1 ++ 0%Z :: c)
           | VStartConnectivityTest n => Some (dst_code x.1 ++ [1%Z; name_code n])
           | _ => Some (dst_code x.1 ++ [2%Z])
           end.
#[export] Instance ser_joins : Serialize (MessageId * bool) :=
  fun x => Some [Z.of_N x.1; if x.2 then 1%Z else 0%Z].

Definition node1 : Node := mkNode (to_name 77 : Keypair) (SocketAddrV4 1 1).
Definition hello : Variant := VUserMessage [104%Z].

Definition dst3 : DstLocation := DstNode (to_name 3).
Definition bytes3 : Bytes := default [] (serialize (dst3, hello)).

Lemma single_src_roundtrip_witness :
  is_ok (single_src node1 dst3 hello (1%N : BlsPublicKey)) = true /\
  match single_src node1 dst3 hello (1%N : BlsPublicKey) with
  | Ok m => check_signature m = Ok tt
  | Err _ => False
  end.
Proof.
  assert (is_ok (single_src node1 dst3 hello (1%N : BlsPublicKey)) = true) as H by reflexivity.
  split; [exact H|].
  pose proof (single_src_roundtrip node1 dst3 hello (1%N : BlsPublicKey)) as R.
  destruct (single_src _ _ _ _); [exact (proj1 R)|discriminate H].
Defined.

Definition ks1 : SectionKeyShare :=
  mkSectionKeyShare (1%N : BlsPublicKeySet) 0 ((1%N, 0) : BlsSecretKeyShare).
Definition key1 : BlsPublicKey := 1%N.
Definition signed1 : Signed := mkSigned key1 (1%N, []).
Definition chain_of (k : N) : SecuredLinkedList := sll_new (k : BlsPublicKey).

Lemma dst_accumulation_sound_witness :
  exists m, for_dst_accumulation ks1 (to_name 5) dst3 hello (chain_of 1) = Ok m /\
    check_signature m = Ok tt.
Proof.
  eexists. split; [reflexivity|].
  eapply (proj1 (dst_accumulation_sound ks1 (to_name 5) dst3 hello (chain_of 1) _
    signed1 ltac:(reflexivity) ltac:(reflexivity))).
  reflexivity.
Defined.

Definition key666 : BlsPublicKey := 666%N.
Definition sig666 : BlsSignature := (666%N, bytes3).
Definition id0 : MessageId := 0%N.

Lemma section_source_key_unchecked_witness :
  sll_has_key (chain_of 1) key666 = false /\
  msg_verify (mkRoutingMsg id0 (SrcAuthSection (to_name 5) (mkSigned key1 sig666) (chain_of 1))
    dst3 AggregationNone hello key666) [key1] = Ok VerifyFull.
Proof.
  split; [reflexivity|].
  refine (proj2 (section_source_key_unchecked id0 (to_name 5) dst3
    AggregationNone hello key666 key1 sig666 (chain_of 1) [key1] bytes3 _ _ _)).
  - reflexivity.
  - vm_compute. reflexivity.
  - reflexivity.
Defined.

End MessagesWitness.
