(* ===== verification/MessageFilter.v ===== *)
(** * Deduplication of messages (src/message_filter.rs)

    Two expiring caches, of message ids seen and of (message id, recipient) pairs sent.  The
    theorem is a refinement: as long as the entries that have not expired fit into the caches, the
    filter answers as a filter that remembers the whole history would. *)

From stdpp Require Import base tactics list gmap sorting.
From Stdlib Require Import ZArith Lia.
From S2P Require Import Prelude Names Crates Types PrefixMap Network DkgSession Messages Cache.

#[local] Open Scope Z_scope.

Definition INCOMING_EXPIRY_DURATION : Z := 20 * 60 * NANOS_PER_SEC.
Definition OUTGOING_EXPIRY_DURATION : Z := 10 * 60 * NANOS_PER_SEC.
Definition MAX_ENTRIES : Z := 15000.

Inductive FilteringResult : Type := NewMessage | KnownMessage.
Definition filtering_is_new (r : FilteringResult) : bool :=
  match r with NewMessage => true | KnownMessage => false end.

Section MessageFilter.
Context `{CR : Crates, KG : !KeyGenOps, PMO : !PrefixMapOps OtherSection}.

Record MessageFilter : Type := mkMessageFilter {
  mf_incoming : Cache MessageId unit;
  mf_outgoing : Cache (MessageId * XorName) unit;
}.

Definition message_filter_new : MessageFilter :=
  mkMessageFilter
    (cache_with_expiry_duration_and_capacity INCOMING_EXPIRY_DURATION MAX_ENTRIES)
    (cache_with_expiry_duration_and_capacity OUTGOING_EXPIRY_DURATION MAX_ENTRIES).

Definition filter_outgoing (r : readings) (f : MessageFilter) (msg : RoutingMsg) (pub_id : XorName) :
    MessageFilter * FilteringResult :=
  match rm_dst msg with
  | DirectAndUnrouted => (f, NewMessage)
  | _ =>
      let '(outgoing, replaced) := cache_set r (mf_outgoing f) (rm_id msg, pub_id) tt None in
      (mkMessageFilter (mf_incoming f) outgoing,
       match replaced with Some _ => KnownMessage | None => NewMessage end)
  end.

(** [true] if it was not there already *)
Definition add_to_filter (r : readings) (f : MessageFilter) (msg_id : MessageId) : MessageFilter * bool :=
  let '(incoming, cur_value) := cache_set r (mf_incoming f) msg_id tt None in
  (mkMessageFilter incoming (mf_outgoing f),
   match cur_value with Some _ => false | None => true end).

Definition message_filter_reset (f : MessageFilter) : MessageFilter :=
  mkMessageFilter (cache_clear (mf_incoming f)) (cache_clear (mf_outgoing f)).

(** what happens to a filter between two resets *)
Inductive filter_event : Type :=
| FIncoming (id : MessageId) (r : readings)
| FOutgoing (msg : RoutingMsg) (to_ : XorName) (r : readings).

Definition filter_step (f : MessageFilter) (e : filter_event) : MessageFilter :=
  match e with
  | FIncoming id r => (add_to_filter r f id).1
  | FOutgoing msg to_ r => (filter_outgoing r f msg to_).1
  end.
Definition filter_run (f : MessageFilter) (es : list filter_event) : MessageFilter :=
  foldl filter_step f es.

(** the histories of the two caches *)
Definition incoming_of (e : filter_event) : list (MessageId * readings) :=
  match e with FIncoming id r => [(id, r)] | _ => [] end.
Definition outgoing_of (e : filter_event) : list (MessageId * XorName * readings) :=
  match e with
  | FOutgoing msg to_ r =>
      match rm_dst msg with DirectAndUnrouted => [] | _ => [((rm_id msg, to_), r)] end
  | _ => []
  end.

Lemma filter_run_incoming f es :
  mf_incoming (filter_run f es) = run_sets (mf_incoming f) (es ≫= incoming_of).
Proof.
  unfold filter_run. revert f; induction es as [|e es IH]; intros f; simpl; [done|].
  rewrite IH. destruct e as [id r|msg to_ r]; simpl.
  - unfold add_to_filter. by destruct (cache_set r (mf_incoming f) id tt None).
  - unfold filter_outgoing. destruct (rm_dst msg); try done;
      by destruct (cache_set r (mf_outgoing f) (rm_id msg, to_) tt None).
Qed.

Lemma filter_run_outgoing f es :
  mf_outgoing (filter_run f es) = run_sets (mf_outgoing f) (es ≫= outgoing_of).
Proof.
  unfold filter_run. revert f; induction es as [|e es IH]; intros f; simpl; [done|].
  rewrite IH. destruct e as [id r|msg to_ r]; simpl.
  - unfold add_to_filter. by destruct (cache_set r (mf_incoming f) id tt None).
  - unfold filter_outgoing. destruct (rm_dst msg); try done; simpl;
      by destruct (cache_set r (mf_outgoing f) (rm_id msg, to_) tt None).
Qed.

(** the filter has room and its default duration *)
Definition filter_has_room (f : MessageFilter) : Prop :=
  c_item_duration (mf_incoming f) = Some INCOMING_EXPIRY_DURATION /\
  Z.of_nat (S (size (c_items (mf_incoming f)))) <= c_capacity (mf_incoming f).

(** An id that was just seen is not new before it expires. *)
Lemma add_to_filter_again r r' f id :
  filter_has_room f -> r_sweep r <= r_item r + INCOMING_EXPIRY_DURATION ->
  r_replaced r' <= r_item r + INCOMING_EXPIRY_DURATION ->
  (add_to_filter r' (add_to_filter r f id).1 id).2 = false.
Proof.
  intros [Hd Hroom] H1 H2. unfold add_to_filter at 2.
  pose proof (cache_set_lookup r (mf_incoming f) id tt None id) as Hl.
  destruct (cache_set r (mf_incoming f) id tt None) as [inc cur]. cbn [fst] in Hl |- *.
  unfold add_to_filter, cache_set; cbn [mf_incoming fst snd].
  rewrite Hl; clear Hl.
  - rewrite lookup_insert_eq. simpl. rewrite Hd. simpl. unfold item_expired, item_new; simpl.
    destruct (Z.ltb_spec (r_item r + INCOMING_EXPIRY_DURATION) (r_sweep r)); [lia|]. simpl.
    destruct (Z.ltb_spec (r_item r + INCOMING_EXPIRY_DURATION) (r_replaced r')); [lia|]. done.
  - etransitivity; [|exact Hroom]. apply inj_le. rewrite map_size_insert. case_match; unfold Datatypes.id; lia.
Qed.
End MessageFilter.

Section Claims.
Context `{CR : Crates, KG : !KeyGenOps, PMO : !PrefixMapOps OtherSection}.

(** C22: deduplication.  As long as never more than 15000 ids seen in the last twenty minutes, and
    never more than 15000 pairs of an outgoing message and a recipient of the last ten, are to be
    remembered at once, an incoming message id is reported as new exactly when it was not seen in
    the last twenty minutes, and an outgoing message to a recipient exactly when it was not sent
    there in the last ten, direct messages always; whatever mixture of incoming and outgoing
    messages the filter saw since it was created, and however many.  Beyond that the oldest
    entries are evicted before they expire. *)
Theorem filter_refines_history (es : list filter_event) (id : MessageId) (msg : RoutingMsg)
    (to_ : XorName) (r : readings) :
  let f := filter_run message_filter_new es in
  let hi := es ≫= incoming_of in
  let ho := es ≫= outgoing_of in
  chronological 0 hi -> end_time 0 hi <= r_item r ->
  chronological 0 ho -> end_time 0 ho <= r_item r -> ordered r ->
  fits INCOMING_EXPIRY_DURATION MAX_ENTRIES hi -> fits OUTGOING_EXPIRY_DURATION MAX_ENTRIES ho ->
  ((add_to_filter r f id).2 = false <->
   exists s, last_set hi id = Some s /\ r_replaced r <= s + INCOMING_EXPIRY_DURATION) /\
  (filtering_is_new (filter_outgoing r f msg to_).2 = false <->
   rm_dst msg <> DirectAndUnrouted /\
   exists s, last_set ho (rm_id msg, to_) = Some s /\ r_replaced r <= s + OUTGOING_EXPIRY_DURATION).
Proof.
  intros f hi ho Hi Hei Ho Heo Hr Hfi Hfo.
  split.
  - unfold f, add_to_filter. rewrite filter_run_incoming. fold hi.
    rewrite <- (set_refines_history INCOMING_EXPIRY_DURATION MAX_ENTRIES hi id r); try done.
    change (mf_incoming message_filter_new) with
      (cache_with_expiry_duration_and_capacity (K := MessageId) (V := unit)
         INCOMING_EXPIRY_DURATION MAX_ENTRIES).
    destruct (cache_set r (run_sets _ hi) id tt None) as [c [[]|]]; simpl; split; done.
  - unfold f, filter_outgoing. rewrite filter_run_outgoing. fold ho.
    pose proof (set_refines_history OUTGOING_EXPIRY_DURATION MAX_ENTRIES ho (rm_id msg, to_) r
      ltac:(done) Ho Heo Hr Hfo) as Hs.
    change (mf_outgoing message_filter_new) with
      (cache_with_expiry_duration_and_capacity (K := MessageId * XorName) (V := unit)
         OUTGOING_EXPIRY_DURATION MAX_ENTRIES).
    destruct (rm_dst msg); [..|naive_solver]; rewrite <- Hs; clear Hs;
      destruct (cache_set r (run_sets _ ho) (rm_id msg, to_) tt None) as [c [[]|]]; simpl; (split; [try done|]);
      try (intros _; split; [done|eauto]); by intros [_ [? ?]].
Qed.
End Claims.

Module MessageFilterWitness.
Import BitNames ToyCrates MessagesWitness NetworkWitness.

Definition at_time (t : Z) : readings := mkReadings t t t t.
Definition id7 : MessageId := 7%N.
Definition seen : list filter_event := [FIncoming id7 (at_time 5)].
Definition any_msg : RoutingMsg :=
  mkRoutingMsg id7 (SrcAuthNode (to_name 1 : EdPublicKey) ((to_name 1, []) : EdSignature)) dst3
    AggregationNone hello key1.

Lemma filter_refines_history_witness :
  (add_to_filter (at_time 9) (filter_run message_filter_new seen) id7).2 = false.
Proof.
  apply (proj1 (filter_refines_history seen id7 any_msg (to_name 1) (at_time 9)
    ltac:(vm_compute; repeat split; discriminate) ltac:(vm_compute; discriminate)
    ltac:(exact I) ltac:(vm_compute; discriminate) ltac:(vm_compute; repeat split; discriminate)
    ltac:(apply short_fits; vm_compute; discriminate) ltac:(apply short_fits; vm_compute; discriminate))).
  exists 5. split; [reflexivity|vm_compute; discriminate].
Defined.

End MessageFilterWitness.
