(* ===== verification/Relocation.v ===== *)
(** * Relocation (src/relocation.rs)

    Which members a churn event relocates, where to and with what age, and the proofs of
    identity a relocated node presents.  The theorems: the check on trailing zero bits is the
    divisibility the comment promises, the actions are for exactly the oldest eligible members,
    and the identity proof round-trips. *)

From stdpp Require Import base tactics list gmap sorting.
From Stdlib Require Import ZArith Lia.
From S2P Require Import Prelude Names Crates Types SectionPeers SectionKeys SectionState PrefixMap.
From S2P Require Import Network DkgFailure DkgSession Messages.

#[local] Open Scope Z_scope.

(** ** Trailing zeros *)

(** [u8::trailing_zeros] of a non-zero byte *)
Fixpoint byte_trailing_zeros_loop (fuel : nat) (b : Z) : Z :=
  match fuel with
  | O => 0
  | S fuel' => if Z.odd b then 0 else 1 + byte_trailing_zeros_loop fuel' (b / 2)
  end.
Definition byte_trailing_zeros (b : Z) : Z := byte_trailing_zeros_loop 8 b.

Fixpoint trailing_zeros_loop (rev_bytes : list Z) (output : Z) : Z :=
  match rev_bytes with
  | [] => output
  | byte :: rest =>
      if byte =? 0 then trailing_zeros_loop rest (output + 8) else output + byte_trailing_zeros byte
  end.
Definition trailing_zeros (bytes : Bytes) : Z := trailing_zeros_loop (rev bytes) 0.

(** the number a byte string stands for, most significant byte first *)
Fixpoint le_value (l : list Z) : Z :=
  match l with [] => 0 | b :: l' => b + 256 * le_value l' end.
Definition be_value (bytes : Bytes) : Z := le_value (rev bytes).

Lemma byte_trailing_zeros_spec b k :
  0 < b <= 255 -> 0 <= k <= 8 -> ((2 ^ k | b) <-> k <= byte_trailing_zeros b).
Proof.
  intros Hb Hk.
  assert (Z.eqb (b mod 2 ^ k) 0 = (k <=? byte_trailing_zeros b)) as H.
  { assert (forallb (fun i => forallb (fun j =>
        Bool.eqb (Z.eqb (Z.of_nat i mod 2 ^ Z.of_nat j) 0) (Z.of_nat j <=? byte_trailing_zeros (Z.of_nat i)))
        (seq 0 9)) (seq 1 255) = true) as Hall by (vm_compute; reflexivity).
    rewrite forallb_forall in Hall. specialize (Hall (Z.to_nat b)).
    rewrite in_seq in Hall. specialize (Hall ltac:(lia)).
    rewrite forallb_forall in Hall. specialize (Hall (Z.to_nat k)).
    rewrite in_seq in Hall. specialize (Hall ltac:(lia)).
    rewrite !Z2Nat.id in Hall by lia. by apply eqb_prop in Hall. }
  rewrite <- Z.mod_divide by lia. rewrite <- Z.leb_le, <- H. by rewrite Z.eqb_eq.
Qed.

Lemma byte_trailing_zeros_range b : 0 < b <= 255 -> 0 <= byte_trailing_zeros b < 8.
Proof.
  intros Hb. split.
  - unfold byte_trailing_zeros. generalize 8%nat. clear. intros n. revert b.
    induction n as [|n IH]; intros b; simpl; [lia|]. destruct (Z.odd b); [lia|].
    specialize (IH (b / 2)). lia.
  - apply Z.lt_nge. intros Hge. apply (byte_trailing_zeros_spec b 8) in Hge; [|lia|lia].
    apply Z.divide_pos_le in Hge; lia.
Qed.

Lemma trailing_zeros_loop_acc l out : trailing_zeros_loop l out = out + trailing_zeros_loop l 0.
Proof.
  revert out; induction l as [|b l IH]; intros out; simpl; [lia|].
  destruct (b =? 0); [|lia]. rewrite (IH (out + 8)). symmetry. rewrite IH. lia.
Qed.

Lemma trailing_zeros_loop_spec l k :
  Forall (fun b => 0 <= b <= U8_MAX) l -> 0 <= k <= 8 * Z.of_nat (length l) ->
  ((2 ^ k | le_value l) <-> k <= trailing_zeros_loop l 0).
Proof.
  intros Hl. revert k. induction Hl as [|b l Hb Hl IH]; intros k Hk; simpl in *.
  - assert (k = 0) as -> by lia. simpl. split; [lia|]. intros _. apply Z.divide_1_l.
  - unfold U8_MAX in Hb. destruct (Z.eqb_spec b 0) as [->|Hb0].
    + rewrite trailing_zeros_loop_acc. destruct (Z.le_gt_cases k 8) as [H8|H8].
      * split.
        -- intros _. assert (0 <= trailing_zeros_loop l 0); [|lia]. clear -Hl.
           induction Hl as [|b l Hb Hl IH]; simpl; [lia|]. destruct (Z.eqb_spec b 0).
           ++ rewrite trailing_zeros_loop_acc. lia.
           ++ unfold U8_MAX in Hb. pose proof (byte_trailing_zeros_range b). lia.
        -- intros _. apply Z.divide_add_r; [apply Z.divide_0_r|]. apply Z.divide_mul_l.
           exists (2 ^ (8 - k)). rewrite <- Z.pow_add_r by lia. replace (8 - k + k) with 8 by lia. done.
      * replace (2 ^ k) with (256 * 2 ^ (k - 8)).
        2: { replace 256 with (2 ^ 8) by done. rewrite <- Z.pow_add_r by lia. f_equal. lia. }
        rewrite Z.add_0_l. rewrite Z.mul_divide_cancel_l by lia.
        rewrite IH by lia. lia.
    + pose proof (byte_trailing_zeros_range b ltac:(lia)) as Hr.
      assert (forall j, 0 <= j <= 8 -> (2 ^ j | 256 * le_value l)) as H256.
      { intros j Hj. apply Z.divide_mul_l. exists (2 ^ (8 - j)). rewrite <- Z.pow_add_r by lia.
        replace (8 - j + j) with 8 by lia. done. }
      rewrite Z.add_0_l. split.
      * intros Hd. apply Z.nlt_ge. intros Hlt.
        assert (2 ^ (byte_trailing_zeros b + 1) | b) as Hbad.
        { apply (Z.divide_add_cancel_r _ (256 * le_value l)); [apply H256; lia|].
          rewrite (Z.add_comm b) in Hd. eapply Z.divide_trans; [|exact Hd].
          exists (2 ^ (k - (byte_trailing_zeros b + 1))). rewrite <- Z.pow_add_r by lia. f_equal. lia. }
        apply byte_trailing_zeros_spec in Hbad; lia.
      * intros Hle. apply Z.divide_add_r; [|apply H256; lia].
        apply byte_trailing_zeros_spec; lia.
Qed.

Section Relocation.
Context `{CR : Crates, KG : !KeyGenOps, PMO : !PrefixMapOps OtherSection}.

(** ** Details and actions *)

Definition relocation_check (age : Z) (churn_signature : BlsSignature) : bool :=
  age <=? trailing_zeros (sig_to_bytes churn_signature).

Definition relocation_destination (relocating_name churn_name : XorName) : XorName :=
  name_from_content [name_bytes relocating_name; name_bytes churn_name].

Definition relocate_details_with_age (section : Section_) (network : Network) (peer : Peer)
    (destination : XorName) (age : Z) : RelocateDetails :=
  let destination_key :=
    match network_key_by_name network destination with
    | Ok key => key
    | Err _ => sll_root_key (sec_chain section)
    end in
  mkRelocateDetails (peer_name peer) destination destination_key age.

(** [u8::saturating_add] *)
Definition saturating_add_u8 (a b : Z) : Z := Z.min U8_MAX (a + b).

Definition relocate_details_new (section : Section_) (network : Network) (peer : Peer)
    (destination : XorName) : RelocateDetails :=
  relocate_details_with_age section network peer destination (saturating_add_u8 (peer_age peer) 1).

Inductive RelocateAction : Type :=
| RelocateInstant (details : RelocateDetails)
| RelocateDelayed (promise : RelocatePromise).

Definition relocate_action_new (section : Section_) (network : Network) (peer : Peer)
    (churn_name : XorName) : RelocateAction :=
  let destination := relocation_destination (peer_name peer) churn_name in
  if section_is_elder section (peer_name peer)
  then RelocateDelayed (mkRelocatePromise (peer_name peer) destination)
  else RelocateInstant (relocate_details_new section network peer destination).

Definition action_destination (a : RelocateAction) : XorName :=
  match a with
  | RelocateInstant details => rd_destination details
  | RelocateDelayed promise => rp_destination promise
  end.

Definition relocation_candidates (section : Section_) (churn_signature : BlsSignature) : list NodeState :=
  List.filter (fun info => relocation_check (peer_age (ns_peer info)) churn_signature)
    (peers_joined (sec_members section)).

(** [Iterator::max] *)
Definition max_Z (l : list Z) : option Z :=
  match l with [] => None | x :: l' => Some (foldl Z.max x l') end.

Definition relocation_actions (section : Section_) (network : Network) (churn_name : XorName)
    (churn_signature : BlsSignature) : list (NodeState * RelocateAction) :=
  let candidates := relocation_candidates section churn_signature in
  match max_Z ((fun info => peer_age (ns_peer info)) <$> candidates) with
  | None => []
  | Some max_age =>
      (fun info => (info, relocate_action_new section network (ns_peer info) churn_name)) <$>
        List.filter (fun info => peer_age (ns_peer info) =? max_age) candidates
  end.

(** ** Signed details and the payload of a relocated node *)

Record SignedRelocateDetails : Type := mkSignedRelocateDetails { srd_signed_msg : RoutingMsg }.

Definition signed_relocate_new (signed_msg : RoutingMsg) : result SignedRelocateDetails Error :=
  match rm_variant signed_msg with
  | VRelocate _ => Ok (mkSignedRelocateDetails signed_msg)
  | _ => Err InvalidMessage
  end.
Definition signed_relocate_details (s : SignedRelocateDetails) : result RelocateDetails Error :=
  match rm_variant (srd_signed_msg s) with
  | VRelocate details => Ok details
  | _ => Err InvalidMessage
  end.
Definition signed_relocate_destination (s : SignedRelocateDetails) : result XorName Error :=
  let? details := signed_relocate_details s in Ok (rd_destination details).
Definition signed_relocate_destination_key (s : SignedRelocateDetails) : result BlsPublicKey Error :=
  let? details := signed_relocate_details s in Ok (rd_destination_key details).

Definition relocate_payload_new (details : SignedRelocateDetails) (new_name : XorName)
    (old_keypair : Keypair) : RelocatePayload :=
  mkRelocatePayload (srd_signed_msg details) (ed25519_sign (name_bytes new_name) old_keypair).

Definition payload_details (p : RelocatePayload) : SignedRelocateDetails :=
  let 'mkRelocatePayload signed_msg _ := p in mkSignedRelocateDetails signed_msg.

Definition payload_verify_identity (p : RelocatePayload) (new_name : XorName) : bool :=
  let 'mkRelocatePayload _ signature := p in
  match signed_relocate_details (payload_details p) with
  | Err _ => false
  | Ok details =>
      match ed25519_pub_key (rd_pub_id details) with
      | None => false
      | Some pub_key => ed_verify pub_key (name_bytes new_name) signature
      end
  end.

Definition payload_relocate_details (p : RelocatePayload) : result RelocateDetails Error :=
  signed_relocate_details (payload_details p).

(** ** Lemmas *)

Lemma max_Z_spec l m : max_Z l = Some m <-> m ∈ l /\ forall x, x ∈ l -> x <= m.
Proof.
  assert (forall l x, foldl Z.max x l ∈ x :: l /\ forall y, y ∈ x :: l -> y <= foldl Z.max x l) as H.
  { clear. induction l as [|a l IH]; intros x; simpl.
    - split; [left|]. intros y ->%list_elem_of_singleton. lia.
    - destruct (IH (Z.max x a)) as [H1 H2]. split.
      + destruct (Z.max_spec x a) as [[_ E]|[_ E]]; rewrite E in *; set_solver.
      + assert (Z.max x a <= foldl Z.max (Z.max x a) l) by (apply H2; left).
        intros y [->|[->|Hy]%elem_of_cons]%elem_of_cons; [lia|lia|]. apply H2. by right. }
  destruct l as [|x l]; simpl.
  - split; [done|]. intros [Hm _]. by apply not_elem_of_nil in Hm.
  - destruct (H l x) as [H1 H2]. split; [by intros [= <-]|]. intros [Hm Hmax]. f_equal.
    apply Z.le_antisymm; [by apply Hmax|by apply H2].
Qed.

Lemma elem_of_candidates s sig i :
  i ∈ relocation_candidates s sig <->
  i ∈ peers_joined (sec_members s) /\ relocation_check (peer_age (ns_peer i)) sig = true.
Proof. unfold relocation_candidates. by rewrite !list_elem_of_In, filter_In. Qed.
End Relocation.

(** ** Claims *)

Section Claims.
Context `{CR : Crates, XL : !XorLaws, KG : !KeyGenOps, PMO : !PrefixMapOps OtherSection}.

(** The relocation check is the divisibility it is documented to be: read as a big-endian
    number, the signature is divisible by 2^age exactly when the check passes (for signatures
    of at least [age] bits, in particular the 96-byte BLS signatures and any age). *)
Theorem relocation_check_divides (age : Z) (sig : BlsSignature) :
  Forall (fun b => 0 <= b <= U8_MAX) (sig_to_bytes sig) ->
  0 <= age <= 8 * Z.of_nat (length (sig_to_bytes sig)) ->
  relocation_check age sig = true <-> be_value (sig_to_bytes sig) mod 2 ^ age = 0.
Proof.
  intros Hb Ha. unfold relocation_check, be_value, trailing_zeros.
  rewrite Z.leb_le, Z.mod_divide by lia. symmetry. apply trailing_zeros_loop_spec.
  - by apply Forall_rev.
  - by rewrite length_rev.
Qed.

(** C35: a churn event relocates exactly the oldest of the joined members that pass the check,
    if any pass; elders get a promise, other members are relocated at once with their age
    increased by one but never beyond a byte, and every destination is derived from the two
    names alone. *)
Theorem relocation_actions_oldest (s : Section_) (net : Network) (churn : XorName)
    (sig : BlsSignature) :
  let eligible i := i ∈ peers_joined (sec_members s) /\ relocation_check (peer_age (ns_peer i)) sig = true in
  (forall i a, (i, a) ∈ relocation_actions s net churn sig <->
     eligible i /\ (forall j, eligible j -> peer_age (ns_peer j) <= peer_age (ns_peer i)) /\
     a = relocate_action_new s net (ns_peer i) churn) /\
  (relocation_actions s net churn sig = [] <-> forall i, ~ eligible i) /\
  (forall i a, (i, a) ∈ relocation_actions s net churn sig ->
     action_destination a = relocation_destination (peer_name (ns_peer i)) churn /\
     match a with
     | RelocateDelayed _ => section_is_elder s (peer_name (ns_peer i)) = true
     | RelocateInstant d =>
         section_is_elder s (peer_name (ns_peer i)) = false /\ rd_pub_id d = peer_name (ns_peer i) /\
         peer_age (ns_peer i) <= rd_age d <= U8_MAX /\
         (peer_age (ns_peer i) < U8_MAX -> rd_age d = peer_age (ns_peer i) + 1)
     end).
Proof.
  intros eligible. set (age i := peer_age (ns_peer i)).
  assert (forall i a, (i, a) ∈ relocation_actions s net churn sig <->
    eligible i /\ (forall j, eligible j -> age j <= age i) /\ a = relocate_action_new s net (ns_peer i) churn) as H1.
  { intros i a. unfold relocation_actions. fold age.
    destruct (max_Z (age <$> relocation_candidates s sig)) as [m|] eqn:Em.
    - apply max_Z_spec in Em as [Hm Hmax]. rewrite list_elem_of_fmap. split.
      + intros (i' & [= -> ->] & Hin%list_elem_of_In). apply filter_In in Hin as [Hin Hage].
        apply Z.eqb_eq in Hage. apply list_elem_of_In, elem_of_candidates in Hin. split; [done|].
        split; [|done]. intros j Hj%elem_of_candidates. unfold age at 2. rewrite Hage. apply Hmax. apply list_elem_of_fmap. eauto.
      + intros (Hi & Hle & ->). exists i. split; [done|]. apply list_elem_of_In, filter_In.
        split; [by apply list_elem_of_In, elem_of_candidates|]. apply Z.eqb_eq.
        apply Z.le_antisymm.
        * apply Hmax. apply list_elem_of_fmap. exists i. split; [done|]. by apply elem_of_candidates.
        * apply list_elem_of_fmap in Hm as (j & -> & Hj%elem_of_candidates). by apply Hle.
    - split; [intros Hin; by apply not_elem_of_nil in Hin|]. intros (Hi%elem_of_candidates & _).
      destruct (relocation_candidates s sig); [by apply not_elem_of_nil in Hi|done]. }
  split; [done|]. split.
  - split.
    + intros Hnil i Hi.
      destruct (max_Z (age <$> relocation_candidates s sig)) as [m|] eqn:Em.
      * apply max_Z_spec in Em as [Hm Hmax].
        apply list_elem_of_fmap in Hm as (j & -> & Hj%elem_of_candidates).
        assert ((j, relocate_action_new s net (ns_peer j) churn) ∈ relocation_actions s net churn sig) as Hin.
        { apply H1. split; [done|]. split; [|done]. intros j' Hj'%elem_of_candidates.
          apply Hmax. apply list_elem_of_fmap. eauto. }
        rewrite Hnil in Hin. by apply not_elem_of_nil in Hin.
      * apply elem_of_candidates in Hi.
        destruct (relocation_candidates s sig); [by apply not_elem_of_nil in Hi|done].
    + intros Hno. destruct (relocation_actions s net churn sig) as [|[i a] l] eqn:E; [done|].
      exfalso. apply (Hno i). apply (H1 i a). left.
  - intros i a (_ & _ & ->)%H1. unfold relocate_action_new.
    destruct (section_is_elder s (peer_name (ns_peer i))) eqn:Ee; simpl; [done|].
    split; [done|]. split; [done|]. split; [done|]. unfold saturating_add_u8.
    pose proof (name_age_range (peer_name (ns_peer i))). unfold peer_age. lia.
Qed.
End Claims.

Section Identity.
Context `{CR : Crates, SL : !SignLaws, KG : !KeyGenOps, PMO : !PrefixMapOps OtherSection}.

(** The identity proof of a relocated node: a payload built with the key of the node named
    in the relocation details proves the new name; without relocation details nothing does,
    and the details read back from the payload are those that were signed. *)
Theorem relocate_payload_roundtrip (msg : RoutingMsg) (new_name : XorName) (old : Keypair) :
  match signed_relocate_new msg with
  | Ok details =>
      exists d, rm_variant msg = VRelocate d /\
        signed_relocate_destination details = Ok (rd_destination d) /\
        payload_relocate_details (relocate_payload_new details new_name old) = Ok d /\
        (rd_pub_id d = ed25519_name (keypair_public old) ->
         payload_verify_identity (relocate_payload_new details new_name old) new_name = true)
  | Err e =>
      e = InvalidMessage /\
      forall sig, payload_verify_identity (mkRelocatePayload msg sig) new_name = false
  end.
Proof.
  unfold signed_relocate_new. destruct (rm_variant msg) as [| |d| | | | | | | | | | | | | |] eqn:Ev.
  3: { exists d. unfold signed_relocate_destination, payload_relocate_details, signed_relocate_details,
         payload_verify_identity; simpl. unfold signed_relocate_details; simpl. rewrite Ev. simpl.
       split; [done|]. split; [done|]. split; [done|]. intros ->.
       rewrite pub_key_of_name. apply ed_sign_verify. }
  all: split; [done|]; intros sig; unfold payload_verify_identity, signed_relocate_details; simpl;
    by rewrite Ev.
Qed.
End Identity.

Module RelocationWitness.
Import BitNames ToyCrates ToySerialize NetworkWitness MessagesWitness SectionWitness.

Definition sig16 : BlsSignature := (1%N, [1; 0; 0]%Z).

Lemma relocation_check_divides_witness :
  Forall (fun b => 0 <= b <= U8_MAX) (sig_to_bytes sig16) /\ relocation_check 16 sig16 = true.
Proof.
  assert (Forall (fun b => 0 <= b <= U8_MAX) (sig_to_bytes sig16)) as H.
  { change (sig_to_bytes sig16) with [1; 0; 0]. unfold U8_MAX. repeat constructor; lia. }
  split; [exact H|].
  apply (relocation_check_divides 16 sig16 H).
  - change (sig_to_bytes sig16) with [1; 0; 0]. cbn. lia.
  - reflexivity.
Defined.

Definition no_net : Network := network_new.

Lemma relocation_actions_oldest_witness :
  length (relocation_actions section28 no_net (to_name 3) sig16) = 28%nat /\
  (relocation_actions section28 no_net (to_name 3) sig16 = [] <->
   forall i, ~ (i ∈ peers_joined (sec_members section28) /\
                relocation_check (peer_age (ns_peer i)) sig16 = true)).
Proof.
  split; [vm_compute; reflexivity|].
  exact (proj1 (proj2 (relocation_actions_oldest section28 no_net (to_name 3) sig16))).
Defined.

Definition relocate_msg : RoutingMsg :=
  mkRoutingMsg id0 (SrcAuthSection (to_name 5) signed1 (chain_of 1)) (DstNode (to_name 77))
    AggregationNone (VRelocate (mkRelocateDetails (to_name 77) (to_name 9) key1 6)) key1.
Definition old_keys : Keypair := to_name 77.

Lemma relocate_payload_roundtrip_witness :
  match signed_relocate_new relocate_msg with
  | Ok details => payload_verify_identity (relocate_payload_new details (to_name 6) old_keys) (to_name 6) = true
  | Err _ => False
  end.
Proof.
  pose proof (relocate_payload_roundtrip relocate_msg (to_name 6) old_keys) as H.
  cbn [signed_relocate_new rm_variant relocate_msg] in *.
  destruct H as (d & Ed & _ & _ & H). apply H. injection Ed as <-. vm_compute. reflexivity.
Defined.

End RelocationWitness.
