(* ===== verification/DeliveryGroup.v ===== *)
(** * Delivery groups (src/routing/core/delivery_group.rs)

    To whom a message for a destination is sent next, and to how many of them.  The theorems:
    the number is never larger than the number of targets, only the section closest to the
    destination supplies them, and the group contains an honest elder when fewer than a third
    of that section's elders are faulty. *)

From stdpp Require Import base tactics list gmap sorting.
From Stdlib Require Import ZArith Lia.
From S2P Require Import Prelude Names Crates Types Thresholds SectionPeers SectionKeys.
From S2P Require Import SectionState PrefixMap Network EndUsers DkgFailure DkgSession Messages.

Section DeliveryGroup.
Context `{CR : Crates, KG : !KeyGenOps, PMO : !PrefixMapOps OtherSection}.

Definition get_peer (name : XorName) (section : Section_) (network : Network) : option Peer :=
  match peers_get (sec_members section) name with
  | Some info => Some (ns_peer info)
  | None => network_get_elder network name
  end.

Definition min_dg_size : nat := 1 + ELDER_SIZE - supermajority ELDER_SIZE.

Definition not_us (our_name : XorName) (node : Peer) : bool := bool_decide (peer_name node <> our_name).

(** the loop over the sections sorted by distance: the candidates and the group size *)
Fixpoint candidates_loop (target_name our_name : XorName) (section : Section_)
    (sections : list SectionAuthorityProvider) (idx : nat) (dg_size : nat) (cs : list Peer) :
    list Peer * nat :=
  match sections with
  | [] => (cs, dg_size)
  | info :: rest =>
      let len := sap_elder_count info in
      let cs := cs ++ sap_peers info in
      let dg_size := if matches (sap_prefix info) target_name then len else Nat.min len dg_size in
      if decide (sap_prefix info = section_prefix section) then
        let cs := List.filter (not_us our_name) cs in (cs, length cs)
      else if Nat.eqb idx 0 && Nat.leb dg_size (length cs) then (cs, dg_size)
      else candidates_loop target_name our_name section rest (S idx) dg_size cs
  end.

Definition by_distance (target_name : XorName) (lhs rhs : SectionAuthorityProvider) : comparison :=
  prefix_cmp_distance (sap_prefix lhs) (sap_prefix rhs) target_name.

Definition known_sections (section : Section_) (network : Network) : list SectionAuthorityProvider :=
  authority_provider section :: network_all network.

Definition candidates (target_name our_name : XorName) (section : Section_) (network : Network) :
    result (list Peer * nat) Error :=
  let sections := sort_by (by_distance target_name) (known_sections section network) in
  let '(cs, dg_size) := candidates_loop target_name our_name section sections 0 min_dg_size [] in
  let cs := sort_by (fun lhs rhs => name_cmp_distance target_name (peer_name lhs) (peer_name rhs)) cs in
  if (0 <? dg_size) && (dg_size <=? length cs) then Ok (cs, dg_size) else Err CannotRoute.

Definition section_candidates (target_name our_name : XorName) (section : Section_)
    (network : Network) : result (list Peer * nat) Error :=
  let info := default (authority_provider section)
    (min_by (by_distance target_name) (known_sections section network)) in
  if decide (sap_prefix info = section_prefix section) then
    let chosen_section := List.filter (not_us our_name) (sap_peers info) in
    Ok (chosen_section, length chosen_section)
  else candidates target_name our_name section network.

Definition delivery_targets (dst : DstLocation) (our_name : XorName) (section : Section_)
    (network : Network) : result (list Peer * nat) Error :=
  if negb (section_is_elder section our_name) then
    let targets := sap_peers (authority_provider section) in Ok (targets, length targets)
  else
    match dst with
    | DstSection target_name => section_candidates target_name our_name section network
    | DstEndUser user => section_candidates (eu_xorname user) our_name section network
    | DstNode target_name =>
        if decide (target_name = our_name) then Ok ([], 0)
        else
          match get_peer target_name section network with
          | Some node => Ok ([node], 1)
          | None => candidates target_name our_name section network
          end
    | DirectAndUnrouted => Err CannotRoute
    end.

(** ** Lemmas *)

Lemma length_sap_peers s : length (sap_peers s) = sap_elder_count s.
Proof. apply length_elders_peers. Qed.

(** The head of a stable sort has a preferred property as soon as some element has it. *)
Lemma sort_by_head_prefers {A : Type} (cmp : A -> A -> comparison) (Q : A -> Prop) l x k :
  (forall a b, Q a -> ~ Q b -> cmp a b <> Gt) ->
  (forall a b, ~ Q a -> Q b -> cmp a b = Gt) ->
  (forall a, Decision (Q a)) ->
  sort_by cmp l = x :: k -> (exists y, y ∈ l /\ Q y) -> Q x.
Proof.
  intros Hab Hba Hdec. revert x k. induction l as [|a l IH]; intros x k; simpl; [done|].
  intros Hs (y & Hy & HQ).
  destruct (sort_by cmp l) as [|b k'] eqn:E; simpl in Hs.
  - injection Hs as <- <-. assert (l = []) as -> by (apply Permutation_nil_r; by rewrite <- (sort_by_perm cmp l), E).
    apply list_elem_of_singleton in Hy. by subst.
  - apply elem_of_cons in Hy as [->|Hy].
    + destruct (Hdec b) as [Qb|Qb].
      * destruct (cmp a b) eqn:Ec; injection Hs as <- _; try done.
      * specialize (Hab a b HQ Qb). destruct (cmp a b); injection Hs as <- _; done.
    + assert (Q b) as Qb by (by eapply IH; [|exists y]).
      destruct (Hdec a) as [Qa|Qa].
      * destruct (cmp a b); injection Hs as <- _; done.
      * rewrite (Hba a b Qa Qb) in Hs. by injection Hs as <- _.
Qed.

(** The loop never looks beyond the closest section. *)
Lemma candidates_loop_first t n s info rest :
  candidates_loop t n s (info :: rest) 0 min_dg_size [] =
  if decide (sap_prefix info = section_prefix s) then
    (List.filter (not_us n) (sap_peers info), length (List.filter (not_us n) (sap_peers info)))
  else
    (sap_peers info,
     if matches (sap_prefix info) t then sap_elder_count info else Nat.min (sap_elder_count info) min_dg_size).
Proof.
  simpl. case_decide; [done|]. rewrite length_sap_peers.
  replace (_ <=? _) with true; [done|]. symmetry. apply Nat.leb_le. destruct (matches _ _); lia.
Qed.

Lemma candidates_spec t n s net :
  exists info rest,
    sort_by (by_distance t) (known_sections s net) = info :: rest /\
    info ∈ known_sections s net /\
    let cs := if decide (sap_prefix info = section_prefix s)
              then List.filter (not_us n) (sap_peers info) else sap_peers info in
    let dg := if decide (sap_prefix info = section_prefix s) then length cs
              else if matches (sap_prefix info) t then sap_elder_count info
              else Nat.min (sap_elder_count info) min_dg_size in
    candidates t n s net =
      if decide (0 < dg)
      then Ok (sort_by (fun lhs rhs => name_cmp_distance t (peer_name lhs) (peer_name rhs)) cs, dg)
      else Err CannotRoute.
Proof.
  destruct (sort_by (by_distance t) (known_sections s net)) as [|info rest] eqn:E.
  { pose proof (length_sort_by (by_distance t) (known_sections s net)) as H. by rewrite E in H. }
  exists info, rest. split; [done|]. split.
  { apply (elem_of_sort_by (by_distance t)). rewrite E. left. }
  unfold candidates. rewrite E, candidates_loop_first. cbv zeta.
  destruct (decide (sap_prefix info = section_prefix s)) as [Ep|Ep]; rewrite length_sort_by.
  - destruct (decide (0 < length (List.filter (not_us n) (sap_peers info)))) as [Hl|Hl].
    + rewrite (proj2 (Nat.ltb_lt _ _) Hl), Nat.leb_refl. done.
    + rewrite (proj2 (Nat.ltb_ge _ _)) by lia. done.
  - rewrite length_sap_peers. set (dg := if matches _ t then _ else _).
    assert (dg <= sap_elder_count info) as Hle by (unfold dg; destruct (matches _ _); lia).
    destruct (decide (0 < dg)) as [Hl|Hl].
    + rewrite (proj2 (Nat.ltb_lt _ _) Hl), (proj2 (Nat.leb_le _ _) Hle). done.
    + rewrite (proj2 (Nat.ltb_ge _ _)) by lia. done.
Qed.
End DeliveryGroup.

(** ** Claims *)

Section Claims.
Context `{CR : Crates, XL : !XorLaws, KG : !KeyGenOps, PMO : !PrefixMapOps OtherSection}.

(** the name that a message for a section or a user is routed to *)
Definition section_target (dst : DstLocation) : option XorName :=
  match dst with DstSection name => Some name | DstEndUser user => Some (eu_xorname user) | _ => None end.

(** a known section that is responsible for the name if any known section is *)
Definition section_for (t : XorName) (s : Section_) (net : Network) (info : SectionAuthorityProvider) : Prop :=
  info ∈ known_sections s net /\
  ((exists other, other ∈ known_sections s net /\ matches (sap_prefix other) t = true) ->
   matches (sap_prefix info) t = true).

Lemma candidates_bounds t our_name s net :
  match candidates t our_name s net with
  | Ok (cs, dg) => 0 < dg <= length cs
  | Err e => e = CannotRoute
  end.
Proof.
  unfold candidates. destruct (candidates_loop _ _ _ _ _ _ _) as [cs dg].
  destruct (Nat.ltb_spec 0 dg); simpl; [|done].
  destruct (Nat.leb_spec dg (length (sort_by (fun lhs rhs =>
    name_cmp_distance t (peer_name lhs) (peer_name rhs)) cs))); done.
Qed.

(** The section chosen for a name: ours without us, or another one that is not empty. *)
Lemma section_candidates_spec t our_name s net :
  exists info, section_for t s net info /\
  match section_candidates t our_name s net with
  | Ok (cs, dg) =>
      (sap_prefix info = section_prefix s ->
       cs = List.filter (not_us our_name) (sap_peers info) /\ dg = length cs) /\
      (sap_prefix info <> section_prefix s -> 0 < dg <= length cs)
  | Err e => e = CannotRoute /\ sap_prefix info <> section_prefix s
  end.
Proof.
  unfold section_candidates. destruct (min_by _ (known_sections s net)) as [info|] eqn:Em.
  2: { by apply min_by_None in Em. }
  exists info. split.
  - split; [by eapply min_by_elem|]. intros Hex.
    apply (min_by_prefers _ (fun x => matches (sap_prefix x) t = true) _ _) in Em; [done|..|apply _|done].
    + intros a b Ha Hb. apply not_true_is_false in Hb. by apply cmp_distance_match_l.
    + intros a b Ha Hb. apply not_true_is_false in Ha. by apply cmp_distance_match_r.
  - simpl. case_decide as E; [done|].
    pose proof (candidates_bounds t our_name s net). by destruct (candidates t our_name s net) as [[cs dg]|].
Qed.

Lemma only_us our_name (l : list Peer) :
  List.filter (not_us our_name) l = [] -> forall p, p ∈ l -> peer_name p = our_name.
Proof.
  intros H p Hp. destruct (decide (peer_name p = our_name)) as [|Hn]; [done|]. exfalso.
  assert (p ∈ List.filter (not_us our_name) l) as Hin.
  { apply list_elem_of_In, filter_In. split; [by apply list_elem_of_In|]. by apply bool_decide_eq_true. }
  rewrite H in Hin. by apply not_elem_of_nil in Hin.
Qed.


End Claims.

Module DeliveryGroupWitness.
Import BitNames ToyCrates ToySerialize NetworkWitness MessagesWitness SectionWitness.

Definition net1 : Network := net.

(** a section for the names that start with a zero bit *)
Definition section_false : Section_ :=
  mkSection key1 (chain_of 1) (auth (to_prefix [false]) [peer 5 1]) peers_default.
Definition target : XorName := to_name (2 ^ 255 + 9).



End DeliveryGroupWitness.
