(* ===== verification/CoreState.v ===== *)
(** * The routing node: state, sending, anti-entropy (src/routing/core/mod.rs, api.rs,
    anti_entropy.rs, messaging/mod.rs, messaging/sending.rs, src/routing/command.rs, src/event.rs,
    src/dkg/commands.rs)

    The state of a node, the commands its handlers return and the events they emit (a log kept
    in the state).  Handlers that take [&self] are functions of the state; those that take
    [&mut self] are in a state and error monad, so that what was changed before an error stays
    changed. *)

From stdpp Require Import base tactics list gmap sorting.
From Stdlib Require Import ZArith Lia.
From S2P Require Import Prelude Names Crates Types Thresholds SectionPeers SectionKeys.
From S2P Require Import SectionState PrefixMap Network SplitBarrier EndUsers DkgFailure DkgSession.
From S2P Require Import DkgVoter Messages Cache MessageFilter Relocation DeliveryGroup.

Definition RESOURCE_PROOF_DATA_SIZE : Z := 64.
Definition RESOURCE_PROOF_DIFFICULTY : Z := 2.
Definition KEY_CACHE_SIZE : nat := 5.

Section CoreTypes.
Context `{CR : Crates, KG : !KeyGenOps, PMO : !PrefixMapOps OtherSection, MO : !MessagingOps}.

(** ** Events (src/event.rs) *)

Inductive NodeElderChange : Type := Promoted | Demoted | NoChange.
#[global] Instance NodeElderChange_eq_dec : EqDecision NodeElderChange.
Proof. solve_decision. Defined.

Record Elders : Type := mkElders {
  e_prefix : Prefix;
  e_key : BlsPublicKey;
  e_remaining : gset XorName;
  e_added : gset XorName;
  e_removed : gset XorName;
}.

(** ** Messages to other kinds of recipients *)

Inductive GetSectionResponse : Type :=
| SectionSuccess (section_auth : SectionAuthorityProvider)
| SectionRedirect (section_auth : SectionAuthorityProvider).
Inductive TargetSectionError : Type :=
| DkgInProgress
| UnrecognizedSectionKey
| TargetSectionInfoOutdated (section_auth : SectionAuthorityProvider).
Inductive SectionInfoMsg : Type :=
| GetSectionQuery (public_key : EdPublicKey)
| SectionInfoResponse (response : GetSectionResponse)
| SectionInfoUpdate (error : TargetSectionError).

Record Itinerary : Type := mkItinerary {
  it_src : SrcLocation;
  it_dst : DstLocation;
  it_aggregation : Aggregation;
}.

(** What the node gets from its surroundings: other crates and randomness.  [random_nonce] and
    [random_key_set] stand for whatever is drawn: a handler is considered for any value of them,
    but successive draws are not told apart. *)
Class CoreEnv := {
  ClientMsg : Type;
  NodeMsg : Type;
  client_msg_from : Bytes -> result ClientMsg MessagingError;
  (** [ResourceProof::validate_all] for the node's data size and difficulty *)
  rp_validate_all : Bytes -> Bytes -> Z -> bool;
  random_nonce : Bytes;
  random_key_set : BlsPublicKeySet * BlsSecretKeyShare;
  session_order : gmap DkgKey Session -> list (DkgKey * Session);
  src_equals : SrcLocation -> XorName -> bool;
  src_location_name : SrcLocation -> XorName;
  aggregate_at_dst : Itinerary -> bool;
  aggregate_at_src : Itinerary -> bool;
}.

Context `{CE : !CoreEnv}.

Inductive Event : Type :=
| EvMessageReceived (content : Bytes) (src : SrcLocation) (dst : DstLocation) (signed : option Signed)
    (section_pk : BlsPublicKey)
| EvMemberJoined (name : XorName) (previous_name : option XorName) (age : Z)
| EvMemberLeft (name : XorName) (age : Z)
| EvSectionSplit (elders sibling_elders : Elders) (self_status_change : NodeElderChange)
| EvEldersChanged (elders : Elders) (self_status_change : NodeElderChange)
| EvRelocationStarted (previous_name : XorName)
| EvRelocated (previous_name : XorName) (new_keypair : Keypair)
| EvRestartRequired
| EvClientMsgReceived (msg : ClientMsg) (user : EndUser)
| EvClientLost (addr : SocketAddr)
| EvAdultsChanged (remaining added removed : gset XorName).

Inductive MessageType : Type :=
| MTNode (msg : NodeMsg) (dest_info : DestInfo) (src_section_pk : BlsPublicKey)
| MTRouting (dest_info : DestInfo) (msg : RoutingMsg)
| MTSectionInfo (msg : SectionInfoMsg) (dest_info : DestInfo)
| MTClient (msg : ClientMsg) (dest_info : DestInfo).

(** ** Commands (src/routing/command.rs) *)

Inductive Command : Type :=
| CHandleMessage (sender : option SocketAddr) (message : RoutingMsg) (dest_info : DestInfo)
| CHandleSectionInfoMsg (sender : SocketAddr) (message : SectionInfoMsg) (dest_info : DestInfo)
| CHandleTimeout (token : Z)
| CHandleConnectionLost (addr : SocketAddr)
| CHandlePeerLost (addr : SocketAddr)
| CHandleAgreement (proposal : Proposal) (signed : Signed)
| CHandleDkgOutcome (section_auth : SectionAuthorityProvider) (outcome : SectionKeyShare)
| CHandleDkgFailure (failures : DkgFailureSignedSet)
| CSendMessage (recipients : list (XorName * SocketAddr)) (delivery_group_size : nat) (message : MessageType)
| CSendUserMessage (itinerary : Itinerary) (content : Bytes)
    (additional_proof_chain_key : option BlsPublicKey)
| CScheduleTimeout (duration : Z) (token : Z)
| CRelocate (bootstrap_addrs : list SocketAddr) (details : SignedRelocateDetails)
| CSetJoinsAllowed (joins_allowed : bool)
| CProposeOnline (peer : Peer) (previous_name : option XorName) (destination_key : option BlsPublicKey)
| CProposeOffline (name : XorName)
| CStartConnectivityTest (name : XorName)
| CTestConnectivity (name : XorName).

Definition send_message_to_nodes (recipients : list (XorName * SocketAddr)) (delivery_group_size : nat)
    (msg : RoutingMsg) (dest_info : DestInfo) : Command :=
  CSendMessage recipients delivery_group_size (MTRouting dest_info msg).
Definition send_message_to_node (recipient : XorName * SocketAddr) (routing_msg : RoutingMsg)
    (dest_info : DestInfo) : Command :=
  send_message_to_nodes [recipient] 1 routing_msg dest_info.

(** ** The state (src/routing/core/mod.rs, src/relocation.rs) *)

Inductive RelocateState : Type :=
| RsDelayed (msg : RoutingMsg)
(** with the messages passed to the bootstrap task so far; that the channel to it holds one
    message, and the handler waits while it is full, is left out *)
| RsInProgress (forwarded : list (RoutingMsg * SocketAddr)).

Record Core : Type := mkCore {
  c_node : Node;
  c_section : Section_;
  c_network : Network;
  c_keys : SectionKeysProvider;
  c_message_aggregator : SignatureAggregator;
  c_proposal_aggregator : SignatureAggregator;
  c_split_barrier : SplitBarrier;
  c_dkg_voter : DkgVoter;
  c_relocate_state : option RelocateState;
  c_msg_filter : MessageFilter;
  c_events : list Event;
  c_joins_allowed : bool;
  c_end_users : EndUserRegistry;
  (** the global timer token counter *)
  c_tokens : Z;
}.

Definition set_section (s : Section_) (c : Core) : Core :=
  mkCore (c_node c) s (c_network c) (c_keys c) (c_message_aggregator c) (c_proposal_aggregator c)
    (c_split_barrier c) (c_dkg_voter c) (c_relocate_state c) (c_msg_filter c) (c_events c)
    (c_joins_allowed c) (c_end_users c) (c_tokens c).
Definition set_network (n : Network) (c : Core) : Core :=
  mkCore (c_node c) (c_section c) n (c_keys c) (c_message_aggregator c) (c_proposal_aggregator c)
    (c_split_barrier c) (c_dkg_voter c) (c_relocate_state c) (c_msg_filter c) (c_events c)
    (c_joins_allowed c) (c_end_users c) (c_tokens c).
Definition set_keys (k : SectionKeysProvider) (c : Core) : Core :=
  mkCore (c_node c) (c_section c) (c_network c) k (c_message_aggregator c) (c_proposal_aggregator c)
    (c_split_barrier c) (c_dkg_voter c) (c_relocate_state c) (c_msg_filter c) (c_events c)
    (c_joins_allowed c) (c_end_users c) (c_tokens c).
Definition set_message_aggregator (a : SignatureAggregator) (c : Core) : Core :=
  mkCore (c_node c) (c_section c) (c_network c) (c_keys c) a (c_proposal_aggregator c)
    (c_split_barrier c) (c_dkg_voter c) (c_relocate_state c) (c_msg_filter c) (c_events c)
    (c_joins_allowed c) (c_end_users c) (c_tokens c).
Definition set_proposal_aggregator (a : SignatureAggregator) (c : Core) : Core :=
  mkCore (c_node c) (c_section c) (c_network c) (c_keys c) (c_message_aggregator c) a
    (c_split_barrier c) (c_dkg_voter c) (c_relocate_state c) (c_msg_filter c) (c_events c)
    (c_joins_allowed c) (c_end_users c) (c_tokens c).
Definition set_split_barrier (b : SplitBarrier) (c : Core) : Core :=
  mkCore (c_node c) (c_section c) (c_network c) (c_keys c) (c_message_aggregator c)
    (c_proposal_aggregator c) b (c_dkg_voter c) (c_relocate_state c) (c_msg_filter c) (c_events c)
    (c_joins_allowed c) (c_end_users c) (c_tokens c).
Definition set_dkg (v : VSt) (c : Core) : Core :=
  mkCore (c_node c) (c_section c) (c_network c) (c_keys c) (c_message_aggregator c)
    (c_proposal_aggregator c) (c_split_barrier c) v.1 (c_relocate_state c) (c_msg_filter c) (c_events c)
    (c_joins_allowed c) (c_end_users c) v.2.
Definition set_relocate_state (r : option RelocateState) (c : Core) : Core :=
  mkCore (c_node c) (c_section c) (c_network c) (c_keys c) (c_message_aggregator c)
    (c_proposal_aggregator c) (c_split_barrier c) (c_dkg_voter c) r (c_msg_filter c) (c_events c)
    (c_joins_allowed c) (c_end_users c) (c_tokens c).
Definition set_msg_filter (f : MessageFilter) (c : Core) : Core :=
  mkCore (c_node c) (c_section c) (c_network c) (c_keys c) (c_message_aggregator c)
    (c_proposal_aggregator c) (c_split_barrier c) (c_dkg_voter c) (c_relocate_state c) f (c_events c)
    (c_joins_allowed c) (c_end_users c) (c_tokens c).
Definition push_event (e : Event) (c : Core) : Core :=
  mkCore (c_node c) (c_section c) (c_network c) (c_keys c) (c_message_aggregator c)
    (c_proposal_aggregator c) (c_split_barrier c) (c_dkg_voter c) (c_relocate_state c) (c_msg_filter c)
    (c_events c ++ [e]) (c_joins_allowed c) (c_end_users c) (c_tokens c).
Definition set_joins (b : bool) (c : Core) : Core :=
  mkCore (c_node c) (c_section c) (c_network c) (c_keys c) (c_message_aggregator c)
    (c_proposal_aggregator c) (c_split_barrier c) (c_dkg_voter c) (c_relocate_state c) (c_msg_filter c)
    (c_events c) b (c_end_users c) (c_tokens c).
Definition set_end_users (u : EndUserRegistry) (c : Core) : Core :=
  mkCore (c_node c) (c_section c) (c_network c) (c_keys c) (c_message_aggregator c)
    (c_proposal_aggregator c) (c_split_barrier c) (c_dkg_voter c) (c_relocate_state c) (c_msg_filter c)
    (c_events c) (c_joins_allowed c) u (c_tokens c).

(** ** The monad of the handlers *)

Record M (A : Type) : Type := mkM { run : Core -> Core * result A Error }.
#[global] Arguments mkM {A} run.
#[global] Arguments run {A} m c.

#[global] Instance M_ret : MRet M := fun A a => mkM (fun c => (c, Ok a)).
#[global] Instance M_bind : MBind M := fun A B k m =>
  mkM (fun c => match run m c with
                | (c', Ok a) => run (k a) c'
                | (c', Err e) => (c', Err e)
                end).
Definition get : M Core := mkM (fun c => (c, Ok c)).
Definition modify (f : Core -> Core) : M unit := mkM (fun c => (f c, Ok tt)).
(** a fallible function of the state *)
Definition query {A : Type} (f : Core -> result A Error) : M A := mkM (fun c => (c, f c)).
Definition mfail {A : Type} (e : Error) : M A := mkM (fun c => (c, Err e)).
(** a step of a component that also answers *)
Definition step {A : Type} (f : Core -> Core * A) : M A := mkM (fun c => let '(c', a) := f c in (c', Ok a)).
End CoreTypes.

Section CoreOps.
Context `{CR : Crates, KG : !KeyGenOps, KP : !KeyGenProgress, PMO : !PrefixMapOps OtherSection,
  MO : !MessagingOps, VA : VecDequeAlloc, CE : !CoreEnv}.
Context `{SerView : !Serialize (DstLocation * Variant), SerNodeState : !Serialize NodeState,
  SerSap : !Serialize SectionAuthorityProvider, SerKey : !Serialize BlsPublicKey,
  SerJoins : !Serialize (MessageId * bool), SerNonce : !Serialize (XorName * Bytes),
  SerAddr : !Serialize SocketAddr}.

Definition core_new (node : Node) (section : Section_) (section_key_share : option SectionKeyShare)
    (tokens : Z) : Core :=
  mkCore node section network_new (kp_new KEY_CACHE_SIZE section_key_share)
    aggregator_default aggregator_default split_barrier_new voter_default None message_filter_new []
    true end_users_new tokens.

Definition core_first_node (node : Node) (tokens : Z) : result Core Error :=
  let? '(section, share) := first_node random_key_set.1 random_key_set.2 (node_peer node) in
  Ok (core_new node section (Some share) tokens).

(** ** Accessors (src/routing/core/api.rs) *)

Definition our_name (c : Core) : XorName := node_name (c_node c).
Definition core_is_elder (c : Core) : bool := section_is_elder (c_section c) (our_name c).
Definition section_chain (c : Core) : SecuredLinkedList := sec_chain (c_section c).
Definition last_key (c : Core) : BlsPublicKey := sll_last_key (section_chain c).
Definition section_key_now (c : Core) : BlsPublicKey := sap_section_key (authority_provider (c_section c)).

Definition core_sign_with (c : Core) (data : Bytes) (public_key : BlsPublicKey) :
    result BlsSignatureShare Error := kp_sign_with (c_keys c) data public_key.
Definition core_public_key_set (c : Core) : result BlsPublicKeySet Error :=
  let? share := kp_key_share (c_keys c) in Ok (ks_public_key_set share).
Definition core_our_index (c : Core) : result nat Error :=
  let? share := kp_key_share (c_keys c) in Ok (ks_index share).

Definition core_section_key (c : Core) (prefix : Prefix) : option BlsPublicKey :=
  if bool_decide (prefix = section_prefix (c_section c)) || is_extension_of prefix (section_prefix (c_section c))
  then Some (last_key c)
  else
    match network_key_by_prefix (c_network c) prefix with
    | Some key => Some key
    | None => if core_is_elder c then Some (sll_root_key (section_chain c)) else None
    end.

Definition matching_section (c : Core) (name : XorName) : result SectionAuthorityProvider Error :=
  if matches (section_prefix (c_section c)) name then Ok (authority_provider (c_section c))
  else network_section_by_name (c_network c) name.

Definition section_key_by_name (c : Core) (name : XorName) : BlsPublicKey :=
  if matches (section_prefix (c_section c)) name then last_key c
  else
    match network_key_by_name (c_network c) name with
    | Ok key => key
    | Err _ =>
        if matches (sibling (section_prefix (c_section c))) name then sll_prev_key (section_chain c)
        else sll_root_key (section_chain c)
    end.

Definition core_try_add (sender : SocketAddr) : M EndUser :=
  mkM (fun c =>
    let '(users, r) := end_users_try_add (c_end_users c) sender (section_prefix (c_section c)) in
    (set_end_users users c, r)).

Definition send_event (e : Event) : M unit := modify (push_event e).

Definition check_key_status (c : Core) (bls_pk : BlsPublicKey) : result unit TargetSectionError :=
  match promote_and_demote_elders (c_section c) (our_name c) with
  | _ :: _ => Err DkgInProgress
  | [] =>
      if negb (sll_has_key (section_chain c) bls_pk) then Err UnrecognizedSectionKey
      else if decide (bls_pk <> last_key c) then
        match core_public_key_set c with
        | Ok public_key_set =>
            Err (TargetSectionInfoOutdated
              (mkSap (section_prefix (c_section c)) public_key_set
                 (sap_elders (authority_provider (c_section c)))))
        | Err _ => Err DkgInProgress
        end
      else Ok tt
  end.

(** ** Snapshots *)

Record StateSnapshot : Type := mkStateSnapshot {
  sn_is_elder : bool;
  sn_last_key : BlsPublicKey;
  sn_prefix : Prefix;
  sn_elders : gset XorName;
}.
Definition state_snapshot (c : Core) : StateSnapshot :=
  mkStateSnapshot (core_is_elder c) (last_key c) (section_prefix (c_section c))
    (sap_names (authority_provider (c_section c))).

(** ** Sending (src/routing/core/messaging/sending.rs) *)

Definition send_direct_message (c : Core) (recipient : XorName * SocketAddr) (variant : Variant)
    (dst_pk : BlsPublicKey) : result Command Error :=
  let? message := single_src (c_node c) DirectAndUnrouted variant (section_key_now c) in
  Ok (send_message_to_node recipient message (mkDestInfo recipient.1 dst_pk)).

Definition send_message_to_our_elders (c : Core) (msg : RoutingMsg) : Command :=
  let targets := btree_entries (sap_elders (authority_provider (c_section c))) in
  send_message_to_nodes targets (length targets) msg
    (mkDestInfo (prefix_name (section_prefix (c_section c))) (last_key c)).

Definition send_node_approval (c : Core) (node_state : SectionSigned NodeState) : result Command Error :=
  let peer := ns_peer (ss_value node_state) in
  let variant := VJoinResponse (JoinApproval (sec_genesis_key (c_section c))
    (section_signed_authority_provider (c_section c)) node_state (section_chain c)) in
  let? message := single_src (c_node c) DirectAndUnrouted variant (section_key_now c) in
  Ok (send_message_to_node (peer_name peer, peer_addr peer) message
        (mkDestInfo (peer_name peer) (last_key c))).

(** the closure [send] of [send_sync] and [send_sync_to_adults] *)
Definition send_sync_variant (c : Core) (variant : Variant) (recipients : list (XorName * SocketAddr)) :
    result Command Error :=
  let? message := single_src (c_node c) DirectAndUnrouted variant (section_key_now c) in
  Ok (send_message_to_nodes recipients (length recipients) message (mkDestInfo random_name (last_key c))).

Definition peer_entry (p : Peer) : XorName * SocketAddr := (peer_name p, peer_addr p).

Definition send_sync (c : Core) (section : Section_) (network : Network) : result (list Command) Error :=
  let others := peer_entry <$>
    List.filter (fun p => bool_decide (peer_name p <> our_name c)) (active_members section) in
  let '(elders, non_elders) := List.partition (fun p => section_is_elder section p.1) others in
  let? c1 := send_sync_variant c (VSync section network_new) non_elders in
  let? c2 := send_sync_variant c (VSync section network) elders in
  Ok [c1; c2].

Definition send_sync_to_adults (c : Core) : result (list Command) Error :=
  let? c1 := send_sync_variant c (VSync (c_section c) network_new)
               (peer_entry <$> live_adults (c_section c)) in
  Ok [c1].

Definition send_or_handle (c : Core) (message : RoutingMsg) (recipients : list Peer) : list Command :=
  let others := peer_entry <$> List.filter (fun r => bool_decide (peer_name r <> our_name c)) recipients in
  let handle := existsb (fun r => bool_decide (peer_name r = our_name c)) recipients in
  match others with
  | [] => []
  | first :: _ =>
      [send_message_to_nodes others (length others) message
         (mkDestInfo random_name (section_key_by_name c first.1))]
  end ++
  (if handle
   then [CHandleMessage (Some (node_addr (c_node c))) message (mkDestInfo (our_name c) (last_key c))]
   else []).

Definition send_message_for_dst_accumulation (c : Core) (src : XorName) (dst : DstLocation)
    (variant : Variant) (recipients : list Peer) : result (list Command) Error :=
  let? key_share := kp_key_share (c_keys c) in
  let? message := for_dst_accumulation key_share src dst variant (section_chain c) in
  Ok (send_or_handle c message recipients).

Definition send_relocate (c : Core) (recipient : Peer) (details : RelocateDetails) :
    result (list Command) Error :=
  send_message_for_dst_accumulation c (rd_pub_id details) (DstNode (rd_pub_id details))
    (VRelocate details) [recipient].

Definition send_relocate_promise (c : Core) (recipient : Peer) (promise : RelocatePromise) :
    result (list Command) Error :=
  send_message_for_dst_accumulation c (rp_name promise) (DstSection (rp_name promise))
    (VRelocatePromise promise) [recipient].

Definition return_relocate_promise (c : Core) : option Command :=
  match c_relocate_state c with
  | Some (RsDelayed msg) => Some (send_message_to_our_elders c msg)
  | _ => None
  end.

Definition dkg_generation (c : Core) : Z := Z.of_nat (sll_main_branch_len (section_chain c)).

Definition send_dkg_start_to (c : Core) (elder_candidates : ElderCandidates) (recipients : list Peer) :
    result (list Command) Error :=
  let dkg_key := dkg_key_new elder_candidates (dkg_generation c) in
  send_message_for_dst_accumulation c (prefix_name (ec_prefix elder_candidates)) DirectAndUnrouted
    (VDkgStart dkg_key elder_candidates) recipients.
Definition send_dkg_start (c : Core) (elder_candidates : ElderCandidates) : result (list Command) Error :=
  send_dkg_start_to c elder_candidates (elder_candidates_peers elder_candidates).

Definition create_proof_chain (c : Core) (additional_key : option BlsPublicKey) :
    result SecuredLinkedList Error :=
  let? share := kp_key_share (c_keys c) in
  let last := pks_public_key (ks_public_key_set share) in
  let additional_key :=
    match additional_key with
    | Some key =>
        match sll_cmp_by_position (section_chain c) key last with Lt => [key] | _ => [] end
    | None => []
    end in
  map_err InvalidSectionChain (sll_minimize (section_chain c) (last :: additional_key)).

Definition create_aggregate_at_src_proposal (c : Core) (dst : DstLocation) (variant : Variant)
    (proof_chain_first_key : option BlsPublicKey) : result Proposal Error :=
  let? proof_chain := create_proof_chain c proof_chain_first_key in
  let dst_key :=
    match dst_name dst with
    | Some name => section_key_by_name c name
    | None => last_key c
    end in
  Ok (PAccumulateAtSrc (mkPlainMessage (prefix_name (section_prefix (c_section c))) dst dst_key variant)
        proof_chain).

(** ** Proposing (src/routing/core/messaging/mod.rs) *)

Definition send_proposal_with (c : Core) (recipients : list Peer) (proposal : Proposal)
    (key_share : SectionKeyShare) : result (list Command) Error :=
  let? signed_share := proposal_prove proposal (ks_public_key_set key_share) (ks_index key_share)
                         (ks_secret_key_share key_share) in
  let? message := single_src (c_node c) DirectAndUnrouted (VPropose proposal signed_share)
                    (section_key_now c) in
  Ok (send_or_handle c message recipients).

Definition send_proposal (c : Core) (recipients : list Peer) (proposal : Proposal) :
    result (list Command) Error :=
  let? key_share := kp_key_share (c_keys c) in send_proposal_with c recipients proposal key_share.

Definition propose (c : Core) (proposal : Proposal) : result (list Command) Error :=
  send_proposal c (sap_peers (authority_provider (c_section c))) proposal.

Definition check_lagging (c : Core) (peer : XorName * SocketAddr) (signed_share : SignedShare) :
    result (option Command) Error :=
  let public_key := pks_public_key (share_public_key_set signed_share) in
  if sll_has_key (section_chain c) public_key && bool_decide (public_key <> last_key c) then
    let? cmd := send_direct_message c peer (VSync (c_section c) (c_network c)) public_key in
    Ok (Some cmd)
  else Ok None.

Definition joins_allowed_proposal (c : Core) (joins_allowed : bool) : result (list Command) Error :=
  let? msg_id := map_err Messaging (message_id_of_names (peer_name <$> active_members (c_section c))) in
  propose c (PJoinsAllowed (msg_id, joins_allowed)).

Definition set_joins_allowed (c : Core) (joins_allowed : bool) : result (list Command) Error :=
  if core_is_elder c && bool_decide (joins_allowed <> c_joins_allowed c)
  then joins_allowed_proposal c joins_allowed
  else Ok [].

Definition make_online_proposal (c : Core) (peer : Peer) (previous_name : option XorName)
    (destination_key : option BlsPublicKey) : result (list Command) Error :=
  propose c (POnline (node_state_joined peer) previous_name destination_key).

(** [promote_and_demote_elders] of the node: a DKG is started for every proposed change *)
Definition core_promote_and_demote (c : Core) : result (list Command) Error :=
  let? css := try_map (send_dkg_start c) (promote_and_demote_elders (c_section c) (our_name c)) in
  Ok (concat css).

(** ** Relaying (src/routing/core/api.rs) *)

Fixpoint filter_targets (now : readings) (f : MessageFilter) (msg : RoutingMsg) (ps : list Peer) :
    MessageFilter * list (XorName * SocketAddr) :=
  match ps with
  | [] => (f, [])
  | p :: ps' =>
      let '(f1, r) := filter_outgoing now f msg (peer_name p) in
      let '(f2, targets) := filter_targets now f1 msg ps' in
      (f2, if filtering_is_new r then peer_entry p :: targets else targets)
  end.

Definition relay_message (now : readings) (msg : RoutingMsg) : M (option Command) :=
  c ← get;
  '(presumed_targets, dg_size) ← query (fun c =>
     delivery_targets (rm_dst msg) (our_name c) (c_section c) (c_network c));
  target_name ← query (fun _ => ok_or (dst_name (rm_dst msg)) CannotRoute);
  let dest_pk := section_key_by_name c target_name in
  targets ← step (fun c =>
     let '(f, targets) := filter_targets now (c_msg_filter c) msg presumed_targets in
     (set_msg_filter f c, targets));
  match targets with
  | [] => mret None
  | _ => mret (Some (send_message_to_nodes targets dg_size msg (mkDestInfo random_name dest_pk)))
  end.

Definition send_user_message (now : readings) (itinerary : Itinerary) (content : Bytes) :
    M (list Command) :=
  c ← get;
  if negb (src_equals (it_src itinerary) (our_name c) ||
           src_equals (it_src itinerary) (prefix_name (section_prefix (c_section c))))
  then mfail InvalidSrcLocation
  else
    match it_src itinerary with
    | SrcEndUser _ => mfail InvalidSrcLocation
    | _ =>
        match dst_name (it_dst itinerary) with
        | None => mfail InvalidDstLocation
        | Some dst_name =>
            let dest_section_pk := section_key_by_name c dst_name in
            let variant := VUserMessage content in
            let finish (msg : RoutingMsg) : M (list Command) :=
              let handle :=
                if dst_contains (it_dst itinerary) (our_name c) (section_prefix (c_section c))
                then [CHandleMessage (Some (node_addr (c_node c))) msg (mkDestInfo dst_name dest_section_pk)]
                else [] in
              relay ← relay_message now msg;
              mret (handle ++ option_list relay) in
            if aggregate_at_dst itinerary then
              key_share ← query (fun c => kp_key_share (c_keys c));
              msg ← query (fun c => for_dst_accumulation key_share (src_location_name (it_src itinerary))
                                      (it_dst itinerary) variant (section_chain c));
              finish msg
            else if aggregate_at_src itinerary then
              proposal ← query (fun c => create_aggregate_at_src_proposal c (it_dst itinerary) variant None);
              query (fun c => propose c proposal)
            else
              msg ← query (fun c => single_src (c_node c) (it_dst itinerary) variant (section_key_now c));
              finish msg
        end
    end.

(** ** DKG commands (src/dkg/commands.rs) *)

Definition dkg_into_command (node : Node) (key : BlsPublicKey) (cmd : DkgCommand) : result Command Error :=
  let send (recipients : list (XorName * SocketAddr)) (variant : Variant) : result Command Error :=
    let? message := single_src node DirectAndUnrouted variant key in
    Ok (send_message_to_nodes recipients (length recipients) message (mkDestInfo random_name key)) in
  match cmd with
  | DkgSendMessage recipients dkg_key message => send recipients (VDkgMessage dkg_key message)
  | DkgScheduleTimeout duration token => Ok (CScheduleTimeout duration token)
  | DkgHandleOutcome section_auth outcome => Ok (CHandleDkgOutcome section_auth outcome)
  | DkgSendFailureObservation recipients dkg_key signed non_participants =>
      send recipients (VDkgFailureObservation dkg_key signed non_participants)
  | DkgHandleFailureAgreement failures => Ok (CHandleDkgFailure failures)
  end.
Definition dkg_into_commands (node : Node) (key : BlsPublicKey) (cmds : list DkgCommand) :
    result (list Command) Error :=
  try_map (dkg_into_command node key) cmds.

(** ** Anti-entropy (src/routing/core/anti_entropy.rs) *)

Definition is_join_request (v : Variant) : bool :=
  match v with VJoinRequest _ => true | _ => false end.

(** the messages to send and whether the message may be executed *)
Definition anti_entropy_process (node : Node) (section : Section_) (msg : RoutingMsg) (dest_info : DestInfo) :
    result (list RoutingMsg * bool) Error :=
  if matches (section_prefix section) (src_name (rm_src msg)) then Ok ([], true)
  else
    let dst := src_to_dst (src_location (rm_src msg)) in
    let chain := sec_chain section in
    match sll_cmp_by_position chain (di_dest_section_pk dest_info) (sll_last_key chain) with
    | Lt =>
        let proof := sll_get_proof_chain_to_current chain (di_dest_section_pk dest_info) in
        match proof with
        | Err _ =>
            if is_join_request (rm_variant msg) then Ok ([], false)
            else
              let? m := single_src node dst
                (VSectionKnowledge (section_signed_authority_provider section, chain) (Some msg))
                (sap_section_key (authority_provider section)) in
              Ok ([m], false)
        | Ok truncated =>
            let? m := single_src node dst
              (VSectionKnowledge (section_signed_authority_provider section, truncated) (Some msg))
              (sap_section_key (authority_provider section)) in
            Ok ([m], false)
        end
    | _ => Ok ([], true)
    end.

Fixpoint relay_all (now : readings) (msgs : list RoutingMsg) : M (list Command) :=
  match msgs with
  | [] => mret []
  | m :: ms => c1 ← relay_message now m; cs ← relay_all now ms; mret (option_list c1 ++ cs)
  end.

Definition check_for_entropy (now : readings) (msg : RoutingMsg) (dest_info : DestInfo) :
    M (list Command * bool) :=
  c ← get;
  if negb (core_is_elder c) then mret ([], true)
  else
    '(send, can_be_executed) ← query (fun c => anti_entropy_process (c_node c) (c_section c) msg dest_info);
    commands ← relay_all now send;
    mret (commands, can_be_executed).

(** ** Changes of our section (src/routing/core/mod.rs) *)

Definition update_section_knowledge (section_auth : SectionSigned SectionAuthorityProvider)
    (chain : SecuredLinkedList) : M unit :=
  modify (fun c => set_network (network_update_section (c_network c) section_auth None chain).1 c).

(** the three parts of a change of elders *)
Definition elders_diff (prefix : Prefix) (key : BlsPublicKey) (old current : gset XorName) : Elders :=
  mkElders prefix key (old ∩ current) (current ∖ old) (old ∖ current).

Definition knowledge_commands (c : Core) : result (list Command) Error :=
  let section_auth := section_signed_authority_provider (c_section c) in
  let variant := VSectionKnowledge (section_auth, section_chain c) None in
  try_map (fun sap =>
      let? msg := single_src (c_node c) DirectAndUnrouted variant (sap_section_key (ss_value section_auth)) in
      let targets := btree_entries (sap_elders sap) in
      Ok (send_message_to_nodes targets (length targets) msg (mkDestInfo random_name (sap_section_key sap))))
    (network_all (c_network c)).

(** Demotion forgets the network and the key shares. *)
Definition demote (c : Core) : Core :=
  set_keys (kp_new KEY_CACHE_SIZE None) (set_network network_new c).

Definition status_change (old_is_elder new_is_elder : bool) : NodeElderChange :=
  if negb old_is_elder && new_is_elder then Promoted
  else if old_is_elder && negb new_is_elder then Demoted
  else NoChange.

(** the event of a new section key, and the demotion *)
Definition elders_change (old new : StateSnapshot) : M unit :=
  modify (fun c =>
    let current := sap_names (authority_provider (c_section c)) in
    let elders := elders_diff (sn_prefix new) (sn_last_key new) (sn_elders old) current in
    let change := status_change (sn_is_elder old) (sn_is_elder new) in
    let c := match change with Demoted => demote c | _ => c end in
    let sibling_elders :=
      if decide (sn_prefix new <> sn_prefix old) then
        (fun sec_auth => elders_diff (sibling (sn_prefix new)) (sap_section_key sec_auth) (sn_elders old)
                           (sap_names sec_auth)) <$>
          network_get (c_network c) (sibling (sn_prefix new))
      else None in
    let event :=
      match sibling_elders with
      | Some sibling_elders => EvSectionSplit elders sibling_elders change
      | None => EvEldersChanged elders change
      end in
    push_event event c).

Definition update_state (old : StateSnapshot) : M (list Command) :=
  c0 ← get;
  let new := state_snapshot c0 in
  _ ← modify (fun c => set_keys (kp_finalise_dkg (c_keys c) (last_key c)) c);
  changed ←
    (if decide (sn_last_key new <> sn_last_key old) then
       _ ← modify (fun c => set_msg_filter (message_filter_reset (c_msg_filter c)) c);
       elder_commands ←
         (if sn_is_elder new then
            c ← get;
            dkg ← (if kp_has_key_share (c_keys c) then
                     cs1 ← query core_promote_and_demote;
                     cs2 ← query (fun c => joins_allowed_proposal c (c_joins_allowed c));
                     mret (cs1 ++ cs2)
                   else mret []);
            knowledge ← query knowledge_commands;
            mret (dkg ++ knowledge)
          else mret []);
       sync ← (if sn_is_elder new || sn_is_elder old
               then query (fun c => send_sync c (c_section c) (c_network c)) else mret []);
       _ ← elders_change old new;
       mret (elder_commands ++ sync)
     else mret []);
  c ← get;
  mret (changed ++ (if sn_is_elder new then [] else option_list (return_relocate_promise c))).
End CoreOps.

(** ** A concrete environment, for evaluation *)

Module CoreToy.
Import BitNames ToyCrates ToySerialize SectionKeysWitness NetworkWitness MessagesWitness.

(** end users, like names and sections, are the source of messages by name *)
Definition src_name_of (s : SrcLocation) : XorName :=
  match s with SrcEndUser u => eu_xorname u | SrcNode n => n | SrcSection n => n end.

#[export] Instance env : CoreEnv := {|
  ClientMsg := Bytes;
  NodeMsg := Bytes;
  client_msg_from b := Ok b;
  rp_validate_all nonce data solution := bool_decide (data = nonce) && (solution =? 2)%Z;
  random_nonce := [7%Z];
  random_key_set := ((9%N : BlsPublicKeySet), ((9%N, 0) : BlsSecretKeyShare));
  session_order m := map_to_list m;
  src_equals s n := bool_decide (src_name_of s = n);
  src_location_name := src_name_of;
  aggregate_at_dst i := match it_aggregation i with AggregationAtDestination => true | _ => false end;
  aggregate_at_src i := match it_aggregation i with AggregationAtSource => true | _ => false end;
|}.

#[export] Instance ser_nonce : Serialize (XorName * Bytes) := fun x => Some (name_code x.1 :: x.2).
End CoreToy.
