(* ===== verification/RoutingApi.v ===== *)
(** * The public interface of a node (src/routing/mod.rs)

    What [Routing] answers about a node, as functions of its state; sending and the other
    requests that lead to commands are in [Dispatcher].  The theorems: the lists sorted by
    distance are what they are documented to be, whoever asks, and the node accepts its own
    signatures. *)

From stdpp Require Import base tactics list gmap sorting.
From Stdlib Require Import ZArith Lia.
From S2P Require Import Prelude Names Crates Types SectionPeers SectionKeys SectionState PrefixMap Network.
From S2P Require Import DkgSession DkgVoter Messages CoreState.

Section RoutingApi.
Context `{CR : Crates, KG : !KeyGenOps, PMO : !PrefixMapOps OtherSection, MO : !MessagingOps, CE : !CoreEnv}.

Definition routing_age (c : Core) : Z := node_age (c_node c).
Definition routing_public_key (c : Core) : EdPublicKey := keypair_public (node_keypair (c_node c)).
(** [Keypair::sign] of ed25519-dalek *)
Definition sign_as_node (c : Core) (data : Bytes) : EdSignature := ed_expanded_sign data (node_keypair (c_node c)).
Definition sign_as_elder (c : Core) (data : Bytes) (public_key : BlsPublicKey) : result BlsSignatureShare Error :=
  core_sign_with c data public_key.
Definition routing_verify (c : Core) (data : Bytes) (signature : EdSignature) : bool :=
  ed_verify (keypair_public (node_keypair (c_node c))) data signature.
Definition routing_name (c : Core) : XorName := node_name (c_node c).
Definition routing_section_chain (c : Core) : SecuredLinkedList := section_chain c.
Definition our_prefix (c : Core) : Prefix := section_prefix (c_section c).
Definition matches_our_prefix (c : Core) (name : XorName) : bool := matches (our_prefix c) name.
Definition routing_is_elder (c : Core) : bool := core_is_elder c.
Definition our_elders (c : Core) : list Peer := sap_peers (authority_provider (c_section c)).
(** [sorted_by(|lhs, rhs| name.cmp_distance(lhs.name(), rhs.name()))] *)
Definition sorted_by_distance (name : XorName) (peers : list Peer) : list Peer :=
  sort_by (fun lhs rhs => name_cmp_distance name (peer_name lhs) (peer_name rhs)) peers.
Definition our_elders_sorted_by_distance_to (c : Core) (name : XorName) : list Peer :=
  sorted_by_distance name (our_elders c).
Definition our_adults (c : Core) : list Peer := adults (c_section c).
Definition our_adults_sorted_by_distance_to (c : Core) (name : XorName) : list Peer :=
  sorted_by_distance name (our_adults c).
Definition our_section (c : Core) : SectionAuthorityProvider := authority_provider (c_section c).
Definition other_sections (c : Core) : list SectionAuthorityProvider := network_all (c_network c).
Definition routing_section_key (c : Core) (prefix : Prefix) : option BlsPublicKey := core_section_key c prefix.
Definition routing_matching_section (c : Core) (name : XorName) : result SectionAuthorityProvider Error :=
  matching_section c name.
Definition routing_public_key_set (c : Core) : result BlsPublicKeySet Error := core_public_key_set c.
Definition our_history (c : Core) : SecuredLinkedList := chain (c_section c).
Definition routing_our_index (c : Core) : result nat Error := core_our_index c.

(** ** Theorems *)

(** [cmp_distance] compares the distances to a name, so it is a total preorder. *)
Class DistanceLaws : Prop :=
  distance_order : forall name, cmp_preorder_on (fun _ => True) (name_cmp_distance name).

Lemma peer_distance_order `{DL : !DistanceLaws} name :
  cmp_preorder_on (fun _ : Peer => True)
    (fun lhs rhs => name_cmp_distance name (peer_name lhs) (peer_name rhs)).
Proof. destruct (distance_order name) as [H1 H2]. split; eauto. Qed.

(** The elders sorted by their distance to a name are exactly the elders, none twice, and none
    comes after one that is farther away. *)
Theorem elders_sorted_by_distance `{DL : !DistanceLaws} (c : Core) (name : XorName) :
  let sorted := our_elders_sorted_by_distance_to c name in
  sorted ≡ₚ our_elders c /\ NoDup (peer_name <$> sorted) /\
  StronglySorted (fun p q => name_cmp_distance name (peer_name p) (peer_name q) <> Gt) sorted.
Proof.
  cbn zeta. unfold our_elders_sorted_by_distance_to, sorted_by_distance. split; [apply sort_by_perm|]. split.
  - rewrite sort_by_perm. unfold our_elders, sap_peers. rewrite elders_peers_names. apply NoDup_btree_keys.
  - apply (sort_by_sorted _ _ (peer_distance_order name)). by apply Forall_forall.
Qed.

(** The adults sorted by distance are all adults of the section, also for a node that is no
    elder. *)
Theorem adults_sorted_by_distance `{DL : !DistanceLaws} (c : Core) (name : XorName) :
  let sorted := our_adults_sorted_by_distance_to c name in
  sorted ≡ₚ our_adults c /\
  StronglySorted (fun p q => name_cmp_distance name (peer_name p) (peer_name q) <> Gt) sorted.
Proof.
  cbn zeta. unfold our_adults_sorted_by_distance_to, sorted_by_distance. split; [apply sort_by_perm|].
  apply (sort_by_sorted _ _ (peer_distance_order name)). by apply Forall_forall.
Qed.

(** A node accepts what it signed. *)
Theorem node_signature_roundtrip `{SL : !SignLaws} (c : Core) (data : Bytes) :
  routing_verify c data (sign_as_node c data) = true.
Proof. apply ed_sign_verify. Qed.

(** Without a key share there is no key set and no index, and nothing can be signed; the error
    is [MissingSecretKeyShare] in each case. *)
Theorem without_key_share (c : Core) (data : Bytes) (key : BlsPublicKey) :
  kp_has_key_share (c_keys c) = false ->
  routing_public_key_set c = Err MissingSecretKeyShare /\ routing_our_index c = Err MissingSecretKeyShare /\
  sign_as_elder c data key = Err MissingSecretKeyShare.
Proof.
  unfold routing_public_key_set, core_public_key_set, routing_our_index, core_our_index, sign_as_elder,
    core_sign_with, kp_key_share, kp_sign_with, kp_has_key_share, kc_has_key_share, kc_get_most_recent, kc_sign_with.
  case_bool_decide as E; [|done]. intros _. by rewrite E.
Qed.
End RoutingApi.

Module ApiToy.
Import BitNames.

#[export] Instance distance_laws : DistanceLaws.
Proof.
  intros name. split; cbn; intros x y.
  - intros _ _ H. apply N.compare_gt_iff in H. rewrite N.compare_gt_iff. lia.
  - intros z _ _ _. rewrite !N.compare_gt_iff. lia.
Qed.
End ApiToy.
