(* ===== verification/Handling.v ===== *)
(** * The routing node: handling of messages and agreements
    (src/routing/core/messaging/handling/mod.rs, agreement.rs, decisions.rs, relocation.rs,
    bad_msgs.rs, resource_proof.rs and src/routing/core/connectivity.rs)

    The handlers of the commands of a node.  [now] is the clock a handler reads when it filters
    outgoing messages.  Logging is left out. *)

From stdpp Require Import base tactics list gmap sorting.
From Stdlib Require Import ZArith Lia.
From S2P Require Import Prelude Names Crates Types Thresholds SectionPeers SectionKeys.
From S2P Require Import SectionState PrefixMap Network SplitBarrier EndUsers DkgFailure DkgSession.
From S2P Require Import DkgVoter Messages Cache MessageFilter Relocation DeliveryGroup CoreState.

Section Handling.
Context `{CR : Crates, KG : !KeyGenOps, KP : !KeyGenProgress, PMO : !PrefixMapOps OtherSection,
  MO : !MessagingOps, VA : VecDequeAlloc, CE : !CoreEnv}.
Context `{SerView : !Serialize (DstLocation * Variant), SerNodeState : !Serialize NodeState,
  SerSap : !Serialize SectionAuthorityProvider, SerKey : !Serialize BlsPublicKey,
  SerJoins : !Serialize (MessageId * bool), SerNonce : !Serialize (XorName * Bytes),
  SerAddr : !Serialize SocketAddr}.

(** [Core::add_to_filter], of a message that was found to be a join request or not *)
Definition core_add_to_filter (now : readings) (is_join_request : result bool MessagingError)
    (msg_id : MessageId) : M bool :=
  match is_join_request with
  | Ok true => mret true
  | _ => step (fun c => let '(f, b) := add_to_filter now (c_msg_filter c) msg_id in (set_msg_filter f c, b))
  end.

(** ** Trust and decisions (decisions.rs, [verify_message] of mod.rs) *)

Definition known_keys (c : Core) : list BlsPublicKey :=
  sll_keys (section_chain c) ++ (network_keys (c_network c)).*2 ++ [sec_genesis_key (c_section c)].

Definition verify_message (c : Core) (msg : RoutingMsg) : result bool Error :=
  let? status := msg_verify msg (known_keys c) in
  match status with VerifyFull => Ok true | VerifyUnknown => Ok false end.

Definition equal_or_extension (c : Core) (prefix : Prefix) : bool :=
  bool_decide (prefix = section_prefix (c_section c)) || is_extension_of prefix (section_prefix (c_section c)).

Definition decide_propose_status (c : Core) (sender : XorName) (proposal : Proposal)
    (signed_share : SignedShare) : option MessageStatus :=
  let by_known_key :=
    if sll_has_key (section_chain c) (pks_public_key (share_public_key_set signed_share))
    then None else Some Untrusted in
  match proposal with
  | PSectionInfo section_auth =>
      if equal_or_extension c (sap_prefix section_auth) then
        if sap_contains_elder section_auth sender then None else Some Useless
      else by_known_key
  | _ => by_known_key
  end.

Definition decide_relocate_promise_status (c : Core) (promise : RelocatePromise) : option MessageStatus :=
  if decide (rp_name promise = our_name c) then
    match c_relocate_state c with Some _ => Some Useless | None => None end
  else if negb (core_is_elder c) || section_is_elder (c_section c) (rp_name promise) then Some Useless
  else None.

(** the early returns of [decide_message_status] *)
Definition early_status (c : Core) (msg : RoutingMsg) : option MessageStatus :=
  match rm_variant msg with
  | VSectionKnowledge _ _ | VStartConnectivityTest _ =>
      if negb (core_is_elder c) then Some Useless else None
  | VUserMessage _ =>
      let for_us :=
        match rm_dst msg with DstNode name => bool_decide (name = our_name c) | _ => false end in
      if negb (core_is_elder c) && negb for_us then Some Useless else None
  | VJoinRequest req =>
      if negb (core_is_elder c) && bool_decide (jr_section_key req = last_key c) then Some Useless else None
  | VJoinAsRelocatedRequest section_key _ =>
      if negb (core_is_elder c) && bool_decide (section_key = last_key c) then Some Useless else None
  | VDkgStart _ elder_candidates =>
      match ec_elders elder_candidates !! our_name c with None => Some Useless | Some _ => None end
  | VJoinResponse resp =>
      match resp with
      | JoinResourceChallenge _ _ _ _ => None
      | _ => Some Useful
      end
  | VJoinAsRelocatedResponse _ => Some Useful
  | VSync section _ =>
      if negb (matches (section_prefix section) (our_name c)) then Some Useless else None
  | VPropose content signed_share => decide_propose_status c (src_name (rm_src msg)) content signed_share
  | VRelocatePromise promise => decide_relocate_promise_status c promise
  | VRelocate _ | VBouncedUntrustedMessage _ _ | VDkgMessage _ _ | VDkgFailureObservation _ _ _
  | VDkgFailureAgreement _ | VSectionKnowledgeQuery _ _ => None
  end.

Definition decide_message_status (c : Core) (msg : RoutingMsg) : result MessageStatus Error :=
  match early_status c msg with
  | Some status => Ok status
  | None =>
      let? trusted := verify_message c msg in
      Ok (if trusted then Useful else Untrusted)
  end.

(** ** Untrusted messages (bad_msgs.rs) *)

Definition handle_untrusted_message (c : Core) (sender : option SocketAddr) (msg : RoutingMsg)
    (received_dest_info : DestInfo) : result Command Error :=
  let name := src_name (rm_src msg) in
  let bounce_dst_key := section_key_by_name c name in
  let? bounce_msg := single_src (c_node c) DirectAndUnrouted
                       (VBouncedUntrustedMessage msg received_dest_info) (section_key_now c) in
  Ok match sender with
     | Some addr => send_message_to_node (name, addr) bounce_msg (mkDestInfo name bounce_dst_key)
     | None => send_message_to_our_elders c bounce_msg
     end.

Definition handle_bounced_untrusted_message (c : Core) (sender : Peer) (dst_key : BlsPublicKey)
    (bounced_msg : RoutingMsg) : result Command Error :=
  let? resend_msg :=
    match rm_variant bounced_msg with
    | VSync section network =>
        let? section := map_err (fun _ => InvalidMessage) (extend_chain section dst_key (section_chain c)) in
        single_src (c_node c) DirectAndUnrouted (VSync section network) (section_key_now c)
    | _ => Ok (updated_with_latest_key bounced_msg (section_key_now c))
    end in
  Ok (send_message_to_node (peer_entry sender) resend_msg (mkDestInfo (peer_name sender) dst_key)).

(** ** Resource proofs (resource_proof.rs) *)

Definition validate_resource_proof_response (c : Core) (name : XorName) (response : ResourceProofResponse) :
    bool :=
  match serialize (name, rpr_nonce response) with
  | None => false
  | Some serialized =>
      if negb (ed_verify (keypair_public (node_keypair (c_node c))) serialized (rpr_nonce_signature response))
      then false
      else rp_validate_all (rpr_nonce response) (rpr_data response) (rpr_solution response)
  end.

Definition send_resource_proof_challenge (c : Core) (peer : Peer) : result Command Error :=
  let nonce := random_nonce in
  let? serialized := ok_or (serialize (peer_name peer, nonce)) InvalidMessage in
  let response := VJoinResponse (JoinResourceChallenge RESOURCE_PROOF_DATA_SIZE RESOURCE_PROOF_DIFFICULTY
    nonce (ed25519_sign serialized (node_keypair (c_node c)))) in
  send_direct_message c (peer_entry peer) response (last_key c).

(** ** Joining (mod.rs) *)

Definition reply (c : Core) (peer : Peer) (variant : Variant) : result (list Command) Error :=
  let? cmd := send_direct_message c (peer_entry peer) variant (last_key c) in Ok [cmd].

(** the rest of [handle_join_request] once the required age is settled *)
Definition join_with_age (c : Core) (peer : Peer) (join_request : JoinRequest) (age : Z) :
    result (list Command) Error :=
  if bool_decide (age <> peer_age peer) then Ok []
  else
    match jr_resource_proof_response join_request with
    | Some response =>
        if negb (validate_resource_proof_response c (peer_name peer) response) then Ok []
        else Ok [CProposeOnline peer None None]
    | None => let? cmd := send_resource_proof_challenge c peer in Ok [cmd]
    end.

Definition handle_join_request (c : Core) (peer : Peer) (join_request : JoinRequest) :
    result (list Command) Error :=
  let retry := VJoinResponse (JoinRetry (authority_provider (c_section c))) in
  if negb (matches (section_prefix (c_section c)) (peer_name peer)) ||
     bool_decide (jr_section_key join_request <> last_key c)
  then reply c peer retry
  else if peers_is_joined (sec_members (c_section c)) (peer_name peer) then Ok []
  else if negb (c_joins_allowed c) then reply c peer (VJoinResponse (JoinRejected RejectJoinsDisallowed))
  else
    if bool_decide (bit_count (section_prefix (c_section c)) = 0) then
      if (peer_age peer <? FIRST_SECTION_MIN_AGE)%Z || (FIRST_SECTION_MAX_AGE <? peer_age peer)%Z
      then Ok [] else join_with_age c peer join_request (peer_age peer)
    else if bool_decide (peer_age peer <> MIN_ADULT_AGE) then reply c peer retry
    else join_with_age c peer join_request MIN_ADULT_AGE.

Definition handle_join_as_relocated_request (c : Core) (peer : Peer) (section_key : BlsPublicKey)
    (relocate_payload : option RelocatePayload) : result (list Command) Error :=
  let retry := VJoinAsRelocatedResponse (RelocatedRetry (authority_provider (c_section c))) in
  match relocate_payload with
  | None => reply c peer retry
  | Some payload =>
      if negb (matches (section_prefix (c_section c)) (peer_name peer)) ||
         bool_decide (section_key <> last_key c)
      then reply c peer retry
      else if peers_is_joined (sec_members (c_section c)) (peer_name peer) then Ok []
      else if negb (payload_verify_identity payload (peer_name peer)) then Ok []
      else
        let? details := payload_relocate_details payload in
        if negb (matches (section_prefix (c_section c)) (rd_destination details)) then Ok []
        else
          let trusted :=
            match verify_message c (srd_signed_msg (payload_details payload)) with
            | Ok b => b | Err _ => false
            end in
          if negb trusted then Ok []
          else if bool_decide (rd_age details <> peer_age peer) then Ok []
          else Ok [CProposeOnline peer (Some (rd_pub_id details)) (Some (rd_destination_key details))]
  end.

(** ** Connectivity and DKG (connectivity.rs) *)

Definition dkg_step (f : VSt -> VSt * list DkgCommand) : M (list Command) :=
  cmds ← step (fun c => let '(v, cmds) := f (c_dkg_voter c, c_tokens c) in (set_dkg v c, cmds));
  query (fun c => dkg_into_commands (c_node c) (last_key c) cmds).

Definition handle_dkg_start (dkg_key : DkgKey) (elder_candidates : ElderCandidates) : M (list Command) :=
  c ← get;
  dkg_step (dkg_start random_key_set (node_keypair (c_node c)) dkg_key elder_candidates).
Definition handle_dkg_message (dkg_key : DkgKey) (message : DkgMessage) : M (list Command) :=
  c ← get;
  dkg_step (dkg_process_message (node_keypair (c_node c)) dkg_key message).
Definition handle_dkg_failure_observation (dkg_key : DkgKey) (non_participants : gset XorName)
    (signed : DkgFailureSigned) : M (list Command) :=
  dkg_step (fun '(v, t) =>
    let '(v', cmd) := voter_process_failure dkg_key non_participants signed v in
    ((v', t), option_list cmd)).
Definition handle_timeout (token : Z) : M (list Command) :=
  c ← get;
  dkg_step (dkg_handle_timeout session_order (node_keypair (c_node c)) token).

(** the body of the loop of [cast_offline_proposals] *)
Fixpoint offline_proposals (c : Core) (elders : list Peer) (names : list XorName) :
    result (list Command) Error :=
  match names with
  | [] => Ok []
  | name :: names' =>
      match peers_get (sec_members (c_section c)) name with
      | Some info =>
          let? info := node_state_leave info in
          let commands := match send_proposal c elders (POffline info) with Ok cs => cs | Err _ => [] end in
          let? rest := offline_proposals c elders names' in
          Ok (commands ++ rest)
      | None => offline_proposals c elders names'
      end
  end.

(** a [BTreeSet] in its order *)
Definition btree_names (names : gset XorName) : list XorName := sort_by kcmp (elements names).

Definition cast_offline_proposals (c : Core) (names : gset XorName) : result (list Command) Error :=
  let elders := List.filter (fun peer => bool_decide (peer_name peer ∉ names))
                  (sap_peers (authority_provider (c_section c))) in
  offline_proposals c elders (btree_names names).

Definition propose_offline (c : Core) (name : XorName) : result (list Command) Error :=
  cast_offline_proposals c {[ name ]}.

Definition handle_dkg_failure_agreement (c : Core) (sender : XorName) (signeds : DkgFailureSignedSet) :
    result (list Command) Error :=
  let? sender := ok_or (peers_get (sec_members (c_section c)) sender) InvalidSrcLocation in
  let generation := dkg_generation c in
  match List.find (fun ec => failure_set_verify signeds ec generation)
          (promote_and_demote_elders (c_section c) (our_name c)) with
  | None => Ok []
  | Some elder_candidates =>
      if bool_decide (fss_non_participants signeds = ∅)
      then send_dkg_start_to c elder_candidates [ns_peer sender]
      else cast_offline_proposals c (fss_non_participants signeds)
  end.

Definition handle_connection_lost (c : Core) (addr : SocketAddr) : result (list Command) Error := Ok [].

Definition handle_peer_lost (c : Core) (addr : SocketAddr) : result (list Command) Error :=
  match find_joined_member_by_addr (c_section c) addr with
  | None => Ok []
  | Some peer =>
      if negb (core_is_elder c) then Ok []
      else
        let? commands := propose_offline c (peer_name peer) in
        Ok (commands ++ [CStartConnectivityTest (peer_name peer)])
  end.

(** ** Relocation (relocation.rs) *)

Fixpoint relocate_each (c : Core) (churn_name : XorName) (relocations : list (NodeState * RelocateAction)) :
    result (list Command) Error :=
  match relocations with
  | [] => Ok []
  | (info, action) :: rest =>
      if decide (peer_name (ns_peer info) = churn_name) then relocate_each c churn_name rest
      else
        let? offline := propose c (POffline (node_state_relocate info (action_destination action))) in
        let? notice :=
          match action with
          | RelocateInstant details => send_relocate c (ns_peer info) details
          | RelocateDelayed promise => send_relocate_promise c (ns_peer info) promise
          end in
        let? later := relocate_each c churn_name rest in
        Ok (offline ++ notice ++ later)
  end.

Definition relocate_peers (c : Core) (churn_name : XorName) (churn_signature : BlsSignature) :
    result (list Command) Error :=
  if (sap_elder_count (authority_provider (c_section c)) <? ELDER_SIZE)%nat then Ok []
  else if (bit_count (section_prefix (c_section c)) <? 1)%nat then Ok []
  else relocate_each c churn_name (relocation_actions (c_section c) (c_network c) churn_name churn_signature).

Definition relocate_rejoining_peer (c : Core) (peer : Peer) (age : Z) : result (list Command) Error :=
  send_relocate c peer (relocate_details_with_age (c_section c) (c_network c) peer (peer_name peer) age).

Definition start_relocation (details : SignedRelocateDetails) : M (option Command) :=
  _ ← modify (set_relocate_state (Some (RsInProgress [])));
  c ← get;
  mret (Some (CRelocate (sap_addresses (authority_provider (c_section c))) details)).

Definition handle_relocate (details : SignedRelocateDetails) : M (option Command) :=
  d ← query (fun _ => signed_relocate_details details);
  c ← get;
  if decide (rd_pub_id d <> our_name c) then mret None
  else
    match c_relocate_state c with
    | Some (RsInProgress _) => mret None
    | Some (RsDelayed _) => start_relocation details
    | None => _ ← send_event (EvRelocationStarted (our_name c)); start_relocation details
    end.

Definition handle_relocate_promise (promise : RelocatePromise) (msg : RoutingMsg) : M (list Command) :=
  c ← get;
  if decide (rp_name promise = our_name c) then
    _ ← match c_relocate_state c with
        | None =>
            _ ← modify (set_relocate_state (Some (RsDelayed msg)));
            send_event (EvRelocationStarted (our_name c))
        | Some _ => mret tt
        end;
    c ← get;
    mret (if negb (core_is_elder c) then [send_message_to_our_elders c msg] else [])
  else if section_is_elder (c_section c) (rp_name promise) then mret []
  else
    match peers_get (sec_members (c_section c)) (rp_name promise) with
    | Some info =>
        query (fun c => send_relocate c (ns_peer info)
          (relocate_details_new (c_section c) (c_network c) (ns_peer info) (rp_destination promise)))
    | None => mret []
    end.

(** ** Agreements (agreement.rs) *)

Definition sync_adults_unless (c : Core) (dkg_commands : list Command) : result (list Command) Error :=
  match dkg_commands with [] => send_sync_to_adults c | _ => Ok [] end.

(** what is done once a member record was accepted *)
Definition online_commands (c : Core) (new_info : SectionSigned NodeState) : result (list Command) Error :=
  let? relocations := relocate_peers c (peer_name (ns_peer (ss_value new_info)))
                        (signed_signature (ss_signed new_info)) in
  let? result := core_promote_and_demote c in
  let? sync := sync_adults_unless c result in
  let? approval := send_node_approval c new_info in
  Ok (relocations ++ sync ++ result ++ [approval]).

Definition accept_online (new_info : NodeState) (previous_name : option XorName) (signed : Signed) :
    M (list Command) :=
  let info := mkSectionSigned new_info signed in
  updated ← step (fun c => let '(s, b) := update_member (c_section c) info in (set_section s c, b));
  if negb updated then mret []
  else
    _ ← send_event (EvMemberJoined (peer_name (ns_peer new_info)) previous_name (peer_age (ns_peer new_info)));
    query (fun c => online_commands c info).

Definition handle_online_agreement (new_info : NodeState) (previous_name : option XorName) (signed : Signed) :
    M (list Command) :=
  c ← get;
  match peers_get_section_signed (sec_members (c_section c)) (peer_name (ns_peer new_info)) with
  | Some old_info =>
      match ns_state (ss_value old_info) with
      | Left =>
          let new_age := Z.max MIN_AGE (peer_age (ns_peer (ss_value old_info)) / 2) in
          if (MIN_AGE <? new_age)%Z then
            query (fun c =>
              let? approval := send_node_approval c old_info in
              let? relocation := relocate_rejoining_peer c (ns_peer (ss_value old_info)) new_age in
              Ok (approval :: relocation))
          else accept_online new_info previous_name signed
      | _ => mret []
      end
  | None => accept_online new_info previous_name signed
  end.

Definition offline_commands (c : Core) (peer : Peer) (signature : BlsSignature) : result (list Command) Error :=
  let? relocations := relocate_peers c (peer_name peer) signature in
  let? result := core_promote_and_demote c in
  let? sync := sync_adults_unless c result in
  Ok (relocations ++ sync ++ result).

Definition handle_offline_agreement (node_state : NodeState) (signed : Signed) : M (list Command) :=
  let peer := ns_peer node_state in
  updated ← step (fun c =>
    let '(s, b) := update_member (c_section c) (mkSectionSigned node_state signed) in (set_section s c, b));
  if negb updated then mret []
  else
    commands ← query (fun c => offline_commands c peer (signed_signature signed));
    _ ← send_event (EvMemberLeft (peer_name peer) (peer_age peer));
    mret commands.

Definition section_info_commands (c : Core) (section_auth : SectionSigned SectionAuthorityProvider)
    (infos : list ElderCandidates) : result (list Command) Error :=
  let peers := infos ≫= elder_candidates_peers in
  let sync_recipients := peer_entry <$>
    List.filter (fun peer => negb (section_is_elder (c_section c) (peer_name peer))) peers in
  let? sync :=
    match sync_recipients with
    | [] => Ok []
    | _ =>
        let? sync_message := single_src (c_node c) DirectAndUnrouted (VSync (c_section c) (c_network c))
                               (section_key_now c) in
        Ok [send_message_to_nodes sync_recipients (length sync_recipients) sync_message
              (mkDestInfo random_name (signed_public_key (ss_signed section_auth)))]
    end in
  let? proposals := send_proposal c peers (POurElders section_auth) in
  Ok (sync ++ proposals).

Definition handle_section_info_agreement (section_auth : SectionAuthorityProvider) (signed : Signed) :
    M (list Command) :=
  c ← get;
  let info := mkSectionSigned section_auth signed in
  if equal_or_extension c (sap_prefix section_auth) then
    let infos := promote_and_demote_elders (c_section c) (our_name c) in
    if bool_decide (sap_elder_candidates section_auth ∈ infos)
    then query (fun c => section_info_commands c info infos)
    else mret []
  else
    _ ← modify (fun c => set_network (network_update_section (c_network c) info None (section_chain c)).1 c);
    mret [].

(** one of the updates the split barrier releases *)
Definition apply_elders (update : SectionSigned SectionAuthorityProvider * Signed) (c : Core) : Core :=
  let '(section_auth, key_signed) := update in
  if matches (sap_prefix (ss_value section_auth)) (our_name c)
  then set_section (update_elders (c_section c) section_auth key_signed).1 c
  else set_network
         (network_update_section (c_network c) section_auth (Some key_signed) (section_chain c)).1 c.

Definition handle_our_elders_agreement (section_auth : SectionSigned SectionAuthorityProvider)
    (key_signed : Signed) : M (list Command) :=
  updates ← step (fun c =>
    let '(b, updates) := split_barrier_process (c_split_barrier c) (section_prefix (c_section c))
                           section_auth key_signed in
    (set_split_barrier b c, updates));
  match updates with
  | [] => mret []
  | _ =>
      c ← get;
      let snapshot := state_snapshot c in
      _ ← modify (fun c => foldl (fun c u => apply_elders u c) c updates);
      update_state snapshot
  end.

Definition handle_accumulate_at_src_agreement (message : PlainMessage) (section_chain : SecuredLinkedList)
    (signed : Signed) (dest_info : DestInfo) : result Command Error :=
  let? message := section_src message signed section_chain in
  Ok (CHandleMessage None message dest_info).

Definition handle_agreement (proposal : Proposal) (signed : Signed) : M (list Command) :=
  match proposal with
  | POnline node_state previous_name _ => handle_online_agreement node_state previous_name signed
  | POffline node_state => handle_offline_agreement node_state signed
  | PSectionInfo section_auth => handle_section_info_agreement section_auth signed
  | POurElders section_auth => handle_our_elders_agreement section_auth signed
  | PAccumulateAtSrc message _ =>
      match dst_name (pm_dst message) with
      | None => mfail InvalidDstLocation
      | Some dest_name =>
          query (fun c =>
            let? cmd := handle_accumulate_at_src_agreement message (section_chain c) signed
                          (mkDestInfo dest_name (pm_dst_key message)) in
            Ok [cmd])
      end
  | PJoinsAllowed joins_allowed => _ ← modify (set_joins joins_allowed.2); mret []
  end.

(** ** Proposals, DKG results, section information (mod.rs) *)

Definition handle_proposal (proposal : Proposal) (signed_share : SignedShare) : M (list Command) :=
  mkM (fun c =>
    let '(agg, r) := proposal_aggregator_add (c_proposal_aggregator c) proposal signed_share in
    (set_proposal_aggregator agg c,
     match r with
     | Ok (proposal, signed) => Ok [CHandleAgreement proposal signed]
     | Err (ProposalAggregation e) =>
         if decide (e = agg_NotEnoughShares) then Ok [] else Err InvalidSignatureShare
     | Err ProposalInvalid => Err InvalidSignatureShare
     end)).

Definition handle_dkg_outcome (section_auth : SectionAuthorityProvider) (key_share : SectionKeyShare) :
    M (list Command) :=
  mkM (fun c =>
    let result := send_proposal_with c (sap_peers (authority_provider (c_section c)))
                    (PSectionInfo section_auth) key_share in
    let public_key := pks_public_key (ks_public_key_set key_share) in
    let keys := kp_insert_dkg_outcome (c_keys c) key_share in
    let keys := if sll_has_key (section_chain c) public_key then kp_finalise_dkg keys public_key else keys in
    (set_keys keys c, result)).

Definition handle_dkg_failure (c : Core) (signeds : DkgFailureSignedSet) : result Command Error :=
  let? message := single_src (c_node c) DirectAndUnrouted (VDkgFailureAgreement signeds)
                    (section_key_now c) in
  Ok (send_message_to_our_elders c message).

Definition handle_section_info_msg (c : Core) (sender : SocketAddr) (message : SectionInfoMsg)
    (dest_info : DestInfo) : list Command :=
  match message with
  | GetSectionQuery public_key =>
      let name := name_from_public_key public_key in
      let our := authority_provider (c_section c) in
      let redirect := SectionRedirect (default our (network_closest (c_network c) name)) in
      let response :=
        if matches (section_prefix (c_section c)) name then
          match core_public_key_set c with
          | Ok pk_set =>
              SectionSuccess (mkSap (sap_prefix our) pk_set
                (list_to_map ((fun p => (peer_name p, peer_addr p)) <$> sap_peers our)))
          | Err _ => redirect
          end
        else redirect in
      [CSendMessage [(name, sender)] 1
         (MTSectionInfo (SectionInfoResponse response) (mkDestInfo (di_dest dest_info) (last_key c)))]
  | SectionInfoResponse _ => []
  | SectionInfoUpdate _ => []
  end.

Definition handle_section_knowledge_query (c : Core) (given_key : option BlsPublicKey) (msg : RoutingMsg)
    (sender : SocketAddr) (name : XorName) (dst_location : DstLocation) : result Command Error :=
  let given_key := default (sll_root_key (section_chain c)) given_key in
  let? truncated_chain := map_err InvalidSectionChain
                            (sll_get_proof_chain_to_current (section_chain c) given_key) in
  let variant := VSectionKnowledge
    (section_signed_authority_provider (c_section c), truncated_chain) (Some msg) in
  let? msg := single_src (c_node c) dst_location variant (section_key_now c) in
  Ok (send_message_to_node (name, sender) msg (mkDestInfo name (section_key_by_name c name))).

Definition handle_user_message (msg : RoutingMsg) (content : Bytes) : M (list Command) :=
  match rm_dst msg with
  | DstEndUser user =>
      query (fun c =>
        match get_socket_addr (c_end_users c) (eu_socket_id user) with
        | Some socket_addr =>
            let? client_msg := map_err Messaging (client_msg_from content) in
            Ok [CSendMessage [(eu_xorname user, socket_addr)] 1
                  (MTClient client_msg (mkDestInfo (eu_xorname user) (last_key c)))]
        | None => Err EmptyRecipientList
        end)
  | _ =>
      _ ← send_event (EvMessageReceived content (src_location (rm_src msg)) (rm_dst msg) (msg_signed msg)
            (rm_section_pk msg));
      mret []
  end.

Definition adult_names (s : Section_) : gset XorName := list_to_set (peer_name <$> live_adults s).

(** the event that tells an adult about the change of the adults *)
Definition adults_change (old_adults current_adults : gset XorName) : M unit :=
  let added := current_adults ∖ old_adults in
  let removed := old_adults ∖ current_adults in
  if bool_decide (added = ∅) && bool_decide (removed = ∅) then mret tt
  else send_event (EvAdultsChanged (old_adults ∩ current_adults) added removed).

Definition handle_sync (section : Section_) (network : Network) : M (list Command) :=
  c ← get;
  if negb (matches (section_prefix section) (our_name c)) then mret []
  else
    let old_adults := adult_names (c_section c) in
    let snapshot := state_snapshot c in
    _ ← mkM (fun c => let '(s, r) := section_merge (c_section c) section in (set_section s c, r));
    _ ← modify (fun c => set_network (network_merge (c_network c) network (section_chain c)) c);
    c ← get;
    _ ← (if core_is_elder c then mret tt else adults_change old_adults (adult_names (c_section c)));
    update_state snapshot.

(** ** Messages (mod.rs) *)

Definition aggregate_message (msg : RoutingMsg) : M (option RoutingMsg) :=
  match rm_src msg with
  | SrcAuthBlsShare _ signed_share _ =>
      signed_bytes ← query (fun _ => signable_bytes (rm_dst msg) (rm_variant msg));
      r ← step (fun c =>
        let '(agg, r) := aggregator_add (c_message_aggregator c) signed_bytes signed_share in
        (set_message_aggregator agg c, r));
      match r with
      | Ok signed => query (fun _ => let? m := into_dst_accumulated msg signed in Ok (Some m))
      | Err e => if decide (e = agg_NotEnoughShares) then mret None else mfail InvalidSignatureShare
      end
  | _ => mret (Some msg)
  end.

Definition forward_to_relocation (msg : RoutingMsg) (sender : option SocketAddr) : M unit :=
  modify (fun c =>
    match c_relocate_state c, sender with
    | Some (RsInProgress forwarded), Some addr =>
        set_relocate_state (Some (RsInProgress (forwarded ++ [(msg, addr)]))) c
    | _, _ => c
    end).

(** [Propose]: the proposal is added first, its result is returned after the check of the sender *)
Definition handle_propose (sender : option SocketAddr) (name : XorName) (content : Proposal)
    (signed_share : SignedShare) : M (list Command) :=
  mkM (fun c =>
    let '(c, result) := run (handle_proposal content signed_share) c in
    (c,
     let? lagging :=
       match sender with
       | Some addr => let? cmd := check_lagging c (name, addr) signed_share in Ok (option_list cmd)
       | None => Ok []
       end in
     let? commands := result in
     Ok (lagging ++ commands))).

(** the [match] of [handle_useful_message], of the aggregated message *)
Definition dispatch_variant (sender : option SocketAddr) (msg : RoutingMsg) (dest_info : DestInfo) :
    M (list Command) :=
  let name := src_name (rm_src msg) in
  let need_sender := query (fun _ => ok_or sender InvalidSrcLocation) in
  match rm_variant msg with
  | VSectionKnowledge (section_auth, chain) inner =>
      _ ← update_section_knowledge section_auth chain;
      mret match inner with Some message => [CHandleMessage sender message dest_info] | None => [] end
  | VSync section network => handle_sync section network
  | VRelocate _ =>
      if src_is_section (rm_src msg) then
        signed_relocate ← query (fun _ => signed_relocate_new msg);
        cmd ← handle_relocate signed_relocate;
        mret (option_list cmd)
      else mfail InvalidSrcLocation
  | VRelocatePromise promise => handle_relocate_promise promise msg
  | VStartConnectivityTest name => mret [CTestConnectivity name]
  | VJoinRequest join_request =>
      addr ← need_sender;
      query (fun c => let? peer := src_peer (rm_src msg) addr in handle_join_request c peer join_request)
  | VJoinAsRelocatedRequest section_key payload =>
      addr ← need_sender;
      query (fun c => let? peer := src_peer (rm_src msg) addr in
                      handle_join_as_relocated_request c peer section_key payload)
  | VUserMessage content => handle_user_message msg content
  | VBouncedUntrustedMessage bounced_msg dest_info =>
      addr ← need_sender;
      query (fun c =>
        let? peer := src_peer (rm_src msg) addr in
        let? cmd := handle_bounced_untrusted_message c peer (di_dest_section_pk dest_info) bounced_msg in
        Ok [cmd])
  | VSectionKnowledgeQuery last_known_key returned_msg =>
      addr ← need_sender;
      query (fun c =>
        let? cmd := handle_section_knowledge_query c last_known_key returned_msg addr name
                      (src_to_dst (src_location (rm_src msg))) in
        Ok [cmd])
  | VDkgStart dkg_key elder_candidates => handle_dkg_start dkg_key elder_candidates
  | VDkgMessage dkg_key message => handle_dkg_message dkg_key message
  | VDkgFailureObservation dkg_key signed non_participants =>
      handle_dkg_failure_observation dkg_key non_participants signed
  | VDkgFailureAgreement signeds => query (fun c => handle_dkg_failure_agreement c name signeds)
  | VPropose content signed_share => handle_propose sender name content signed_share
  | VJoinResponse _ => mret []
  | VJoinAsRelocatedResponse _ => _ ← forward_to_relocation msg sender; mret []
  end.

Definition handle_useful_message (sender : option SocketAddr) (msg : RoutingMsg) (dest_info : DestInfo) :
    M (list Command) :=
  aggregated ← aggregate_message msg;
  match aggregated with
  | Some msg => dispatch_variant sender msg dest_info
  | None => mret []
  end.

(** the reply to a join request that is not for our section *)
Definition redirect_join (c : Core) (sender : option SocketAddr) (msg : RoutingMsg) :
    result (list Command) Error :=
  let name := src_name (rm_src msg) in
  match sender with
  | None => Ok []
  | Some addr =>
      let section_auth := default (authority_provider (c_section c)) (network_closest (c_network c) name) in
      let? cmd := send_direct_message c (name, addr) (VJoinResponse (JoinRedirect section_auth))
                    (sap_section_key section_auth) in
      Ok [cmd]
  end.

Definition handle_message (now : readings) (sender : option SocketAddr) (msg : RoutingMsg)
    (dest_info : DestInfo) : M (list Command) :=
  c ← get;
  if negb (dst_contains (rm_dst msg) (our_name c) (section_prefix (c_section c))) then
    cmd ← relay_message now msg;
    mret (option_list cmd)
  else
    status ← query (fun c => decide_message_status c msg);
    match status with
    | Useful =>
        entropy ← check_for_entropy now msg dest_info;
        let '(entropy_commands, shall_be_handled) := (entropy : list Command * bool) in
        if shall_be_handled then
          commands ← handle_useful_message sender msg dest_info;
          mret (entropy_commands ++ commands)
        else
          match entropy_commands with
          | [] => query (fun c => redirect_join c sender msg)
          | _ => mret entropy_commands
          end
    | Untrusted => query (fun c => let? cmd := handle_untrusted_message c sender msg dest_info in Ok [cmd])
    | Useless => mret []
    end.
End Handling.
