(* ===== verification/NodeInvariant.v ===== *)
(** * The invariant of a node

    A small logic of the handlers' monad: a handler [keeps] a preorder on states when every
    run of it, successful or not, relates the state before to the state after.  The preorder
    [evolves] says what never changes (the node, the genesis key), what only grows (the keys of
    the section chain, the events, the relocation state), that no authority provider is taken
    over whose signature was not checked, and that the invariant of every component of the
    state is kept. *)

From stdpp Require Import base tactics list gmap sorting.
From Stdlib Require Import ZArith Lia.
From S2P Require Import Prelude Names Crates Types Thresholds SectionPeers SectionKeys.
From S2P Require Import SectionState PrefixMap Network SplitBarrier EndUsers DkgFailure DkgSession.
From S2P Require Import DkgVoter Messages Cache MessageFilter Relocation DeliveryGroup CoreState.
From S2P Require Import Handling.

Create HintDb node_db.

(** ** The logic *)

Section Logic.
Context `{CR : Crates, KG : !KeyGenOps, PMO : !PrefixMapOps OtherSection, MO : !MessagingOps, CE : !CoreEnv}.
Context (R : Core -> Core -> Prop) `{!PreOrder R}.

Definition keeps_at {A : Type} (m : M A) (c : Core) : Prop := R c (run m c).1.
Definition keeps {A : Type} (m : M A) : Prop := forall c, keeps_at m c.

Lemma keeps_ret {A : Type} (a : A) : keeps (mret a).
Proof. intros c. unfold keeps_at. simpl. reflexivity. Qed.
Lemma keeps_fail {A : Type} e : keeps (mfail (A := A) e).
Proof. intros c. unfold keeps_at. simpl. reflexivity. Qed.
Lemma keeps_query {A : Type} (f : Core -> result A Error) : keeps (query f).
Proof. intros c. unfold keeps_at. simpl. reflexivity. Qed.
Lemma keeps_get : keeps get.
Proof. intros c. unfold keeps_at. simpl. reflexivity. Qed.
Lemma keeps_modify f : (forall c, R c (f c)) -> keeps (modify f).
Proof. intros H c. apply H. Qed.
Lemma keeps_mkM {A : Type} (f : Core -> Core * result A Error) : (forall c, R c (f c).1) -> keeps (mkM f).
Proof. intros H c. apply H. Qed.
Lemma keeps_step {A : Type} (f : Core -> Core * A) : (forall c, R c (f c).1) -> keeps (step f).
Proof. intros H c. unfold keeps_at, step; simpl. specialize (H c). destruct (f c); exact H. Qed.

Lemma keeps_at_bind {A B : Type} (m : M A) (k : A -> M B) c :
  keeps_at m c -> (forall a c', run m c = (c', Ok a) -> keeps_at (k a) c') -> keeps_at (m ≫= k) c.
Proof.
  unfold keeps_at, mbind, M_bind; simpl. destruct (run m c) as [c' [a|e]]; simpl; intros Hm Hk; [|done].
  etransitivity; [exact Hm|]. by apply Hk.
Qed.
Lemma keeps_bind {A B : Type} (m : M A) (k : A -> M B) :
  keeps m -> (forall a, keeps (k a)) -> keeps (m ≫= k).
Proof. intros Hm Hk c. apply keeps_at_bind; [apply Hm|]. intros. apply Hk. Qed.
(** the state that was read is the state at that point *)
Lemma keeps_get_bind {B : Type} (k : Core -> M B) : (forall c, keeps_at (k c) c) -> keeps (get ≫= k).
Proof. intros Hk c. apply keeps_at_bind; [apply keeps_get|]. intros a d [= <- <-]. apply Hk. Qed.

(** a successful run of a sequence is two successful runs *)
Lemma run_bind_ok {A B : Type} (m : M A) (k : A -> M B) c c' b :
  run (m ≫= k) c = (c', Ok b) -> exists a c1, run m c = (c1, Ok a) /\ run (k a) c1 = (c', Ok b).
Proof. unfold mbind, M_bind; cbn [run]. destruct (run m c) as [c1 [a|e]]; [eauto|done]. Qed.
End Logic.

(** a handler is followed bind by bind; what is left are the changes it makes *)
Ltac keeps_steps :=
  repeat match goal with
    | |- forall _, _ => intro
    | |- keeps _ (mret _) => apply (keeps_ret _)
    | |- keeps _ (mfail _) => apply (keeps_fail _)
    | |- keeps _ (query _) => apply (keeps_query _)
    | |- keeps _ get => apply (keeps_get _)
    | |- keeps _ (mbind _ _) => apply (keeps_bind _)
    | |- keeps _ (let _ := _ in _) => cbn zeta
    | |- keeps _ (if decide _ then _ else _) => case_decide
    | |- keeps _ _ => progress case_match
    end.

Ltac keeps_at_done :=
  match goal with |- keeps_at ?R ?m ?c => cut (keeps R m); [intros Hk; apply Hk|] end; keeps_steps.

(** ** What a node may do to its state *)

Section Evolves.
Context `{CR : Crates, KG : !KeyGenOps, KP : !KeyGenProgress, PMO : !PrefixMapOps OtherSection,
  MO : !MessagingOps, VA : VecDequeAlloc, CE : !CoreEnv}.
Context `{SerView : !Serialize (DstLocation * Variant), SerNodeState : !Serialize NodeState,
  SerSap : !Serialize SectionAuthorityProvider, SerKey : !Serialize BlsPublicKey,
  SerJoins : !Serialize (MessageId * bool), SerNonce : !Serialize (XorName * Bytes),
  SerAddr : !Serialize SocketAddr}.

Record core_wf (c : Core) : Prop := {
  cw_section : section_wf (c_section c);
  cw_network : network_signed (c_network c);
  cw_keys : kp_wf (c_keys c);
  cw_barrier : barrier_wf (c_split_barrier c);
  cw_voter : voter_wf (node_keypair (c_node c)) (c_dkg_voter c);
  cw_users : registry_wf (c_end_users c);
}.

Definition relocation_rank (r : option RelocateState) : nat :=
  match r with None => 0 | Some (RsDelayed _) => 1 | Some (RsInProgress _) => 2 end.

Record evolves (c c' : Core) : Prop := {
  ev_node : c_node c' = c_node c;
  ev_section : section_extends (c_section c) (c_section c');
  ev_events : c_events c `prefix_of` c_events c';
  ev_relocation : relocation_rank (c_relocate_state c) <= relocation_rank (c_relocate_state c');
  ev_auth : auth_kept (c_section c) (c_section c');
  ev_wf : core_wf c -> core_wf c';
}.

#[global] Instance evolves_preorder : PreOrder evolves.
Proof.
  split.
  - intros c. split; done || reflexivity.
  - intros a b c [? S1 E1 ? A1 ?] [? S2 E2 ? A2 ?].
    split; [congruence|by etransitivity|by etransitivity|lia|by etransitivity|auto].
Qed.

Lemma evolves_section c s :
  section_extends (c_section c) s -> auth_kept (c_section c) s -> (section_wf (c_section c) -> section_wf s) ->
  evolves c (set_section s c).
Proof. intros Hs Ha Hw. split; try done. intros []. split; auto. Qed.
Lemma evolves_network c n :
  (network_signed (c_network c) -> network_signed n) -> evolves c (set_network n c).
Proof. intros Hw. split; try done; try (by left). intros []. split; auto. Qed.
Lemma evolves_keys c k : (kp_wf (c_keys c) -> kp_wf k) -> evolves c (set_keys k c).
Proof. intros Hw. split; try done; try (by left). intros []. split; auto. Qed.
Lemma evolves_barrier c b :
  (barrier_wf (c_split_barrier c) -> barrier_wf b) -> evolves c (set_split_barrier b c).
Proof. intros Hw. split; try done; try (by left). intros []. split; auto. Qed.
Lemma evolves_dkg c v :
  (voter_wf (node_keypair (c_node c)) (c_dkg_voter c) -> voter_wf (node_keypair (c_node c)) v.1) ->
  evolves c (set_dkg v c).
Proof. intros Hw. split; try done; try (by left). intros []. split; auto. Qed.
Lemma evolves_users c u :
  (registry_wf (c_end_users c) -> registry_wf u) -> evolves c (set_end_users u c).
Proof. intros Hw. split; try done; try (by left). intros []. split; auto. Qed.
Lemma evolves_relocation c r :
  relocation_rank (c_relocate_state c) <= relocation_rank r -> evolves c (set_relocate_state r c).
Proof. intros Hr. split; try done; try (by left). intros []. by split. Qed.
Lemma evolves_event c e : evolves c (push_event e c).
Proof. split; try done; try (by left); [|by intros []; split]. simpl. by exists [e]. Qed.
Lemma evolves_filter c f : evolves c (set_msg_filter f c).
Proof. split; try done; try (by left). by intros []; split. Qed.
Lemma evolves_joins c b : evolves c (set_joins b c).
Proof. split; try done; try (by left). by intros []; split. Qed.
Lemma evolves_message_aggregator c a : evolves c (set_message_aggregator a c).
Proof. split; try done; try (by left). by intros []; split. Qed.
Lemma evolves_proposal_aggregator c a : evolves c (set_proposal_aggregator a c).
Proof. split; try done; try (by left). by intros []; split. Qed.
End Evolves.

#[export] Hint Resolve evolves_event evolves_filter evolves_joins evolves_message_aggregator
  evolves_proposal_aggregator : node_db.

(** What the model takes from its surroundings: the sessions are visited in some order. *)
Class CoreEnvLaws `{CE : CoreEnv} : Prop :=
  session_order_perm : forall m, session_order m ≡ₚ map_to_list m.

(** ** The handlers *)

Section Handlers.
Context `{CR : Crates, XL : !XorLaws, CL : !ChainLaws, KG : !KeyGenOps, KP : !KeyGenProgress,
  PMO : !PrefixMapOps OtherSection, PML : !PrefixMapLaws OtherSection, MO : !MessagingOps,
  VA : VecDequeAlloc, VL : !VecDequeAllocLaws, CE : !CoreEnv, EL : !CoreEnvLaws}.
Context `{SerView : !Serialize (DstLocation * Variant), SerNodeState : !Serialize NodeState,
  SerSap : !Serialize SectionAuthorityProvider, SerKey : !Serialize BlsPublicKey,
  SerJoins : !Serialize (MessageId * bool), SerNonce : !Serialize (XorName * Bytes),
  SerAddr : !Serialize SocketAddr}.

Lemma evolves_demote c : evolves c (demote c).
Proof.
  unfold demote. etransitivity; [apply (evolves_network c network_new); intros _; apply network_new_signed|].
  apply evolves_keys. intros _. apply kp_new_wf.
Qed.

Lemma evolves_update_member c i : evolves c (set_section (update_member (c_section c) i).1 c).
Proof. apply evolves_section; [apply update_member_extends|apply update_member_auth|apply update_member_wf]. Qed.

Lemma evolves_apply_elders c u : evolves c (apply_elders u c).
Proof.
  destruct u as [a k]. unfold apply_elders. case_match.
  - apply evolves_section; [apply update_elders_extends|apply update_elders_auth|apply update_elders_wf].
  - apply evolves_network. apply update_section_signed.
Qed.

Lemma evolves_apply_all us c : evolves c (foldl (fun c u => apply_elders u c) c us).
Proof.
  revert c; induction us as [|u us IH]; intros c; simpl; [reflexivity|].
  etransitivity; [apply evolves_apply_elders|apply IH].
Qed.

Lemma keeps_event e : keeps evolves (send_event e).
Proof. apply keeps_modify. auto with node_db. Qed.

Lemma keeps_relay now msg : keeps evolves (relay_message now msg).
Proof.
  unfold relay_message. keeps_steps. apply keeps_step. intros c. destruct (filter_targets _ _ _ _).
  apply evolves_filter.
Qed.

Lemma keeps_relay_all now msgs : keeps evolves (relay_all now msgs).
Proof.
  induction msgs as [|m ms IH]; cbn [relay_all]; [apply (keeps_ret _)|].
  keeps_steps; [apply keeps_relay|apply IH].
Qed.

Lemma keeps_entropy now msg d : keeps evolves (check_for_entropy now msg d).
Proof. unfold check_for_entropy. keeps_steps. apply keeps_relay_all. Qed.

Lemma keeps_elders_change old new : keeps evolves (elders_change old new).
Proof.
  apply keeps_modify. intros c. destruct (status_change _ _) eqn:E; cbn zeta; try apply evolves_event.
  etransitivity; [apply evolves_demote|apply evolves_event].
Qed.

Lemma keeps_update_state old : keeps evolves (update_state old).
Proof.
  unfold update_state.
  keeps_steps; try apply keeps_elders_change; apply keeps_modify; intros c;
    first [apply evolves_filter | apply evolves_keys, finalise_dkg_wf].
Qed.

Lemma keeps_dkg_step_at f c :
  (voter_wf (node_keypair (c_node c)) (c_dkg_voter c) ->
     voter_wf (node_keypair (c_node c)) (f (c_dkg_voter c, c_tokens c)).1.1) ->
  keeps_at evolves (dkg_step f) c.
Proof.
  intros Hf. apply keeps_at_bind; [apply _| |intros; apply keeps_query; apply _].
  unfold keeps_at, step; simpl.
  destruct (f (c_dkg_voter c, c_tokens c)) as [v cs]. by apply evolves_dkg.
Qed.

Lemma keeps_dkg_start k ec : keeps evolves (handle_dkg_start k ec).
Proof.
  apply (keeps_get_bind _); intros c.
  apply keeps_dkg_step_at. apply (dkg_start_wf random_key_set _ _ _ (c_dkg_voter c, c_tokens c)).
Qed.
Lemma keeps_dkg_message k m : keeps evolves (handle_dkg_message k m).
Proof.
  apply (keeps_get_bind _); intros c.
  apply keeps_dkg_step_at. apply (dkg_process_message_wf _ _ _ (c_dkg_voter c, c_tokens c)).
Qed.
Lemma keeps_timeout token : keeps evolves (handle_timeout token).
Proof.
  apply (keeps_get_bind _); intros c.
  apply keeps_dkg_step_at.
  apply (dkg_handle_timeout_wf _ _ _ (c_dkg_voter c, c_tokens c)), session_order_perm.
Qed.
Lemma keeps_failure_observation k np f : keeps evolves (handle_dkg_failure_observation k np f).
Proof.
  intros c. apply keeps_dkg_step_at. intros Hv.
  pose proof (voter_process_failure_wf _ k np f _ Hv) as H.
  by destruct (voter_process_failure k np f (c_dkg_voter c)).
Qed.

Lemma keeps_update_member i :
  keeps evolves (step (fun c => let '(s, b) := update_member (c_section c) i in (set_section s c, b))).
Proof.
  apply keeps_step. intros c. pose proof (evolves_update_member c i) as H.
  by destruct (update_member (c_section c) i).
Qed.

Lemma keeps_accept_online ns prev sg : keeps evolves (accept_online ns prev sg).
Proof. unfold accept_online. keeps_steps; [apply keeps_update_member|apply keeps_event]. Qed.
Lemma keeps_online ns prev sg : keeps evolves (handle_online_agreement ns prev sg).
Proof. unfold handle_online_agreement. keeps_steps; apply keeps_accept_online. Qed.
Lemma keeps_offline ns sg : keeps evolves (handle_offline_agreement ns sg).
Proof. unfold handle_offline_agreement. keeps_steps; [apply keeps_update_member|apply keeps_event]. Qed.
Lemma keeps_section_info sap sg : keeps evolves (handle_section_info_agreement sap sg).
Proof.
  unfold handle_section_info_agreement. keeps_steps. apply keeps_modify. intros c.
  apply evolves_network, update_section_signed.
Qed.
Lemma keeps_our_elders a k : keeps evolves (handle_our_elders_agreement a k).
Proof.
  unfold handle_our_elders_agreement. keeps_steps; [| |apply keeps_update_state].
  - apply keeps_step. intros c.
    pose proof (process_wf (c_split_barrier c) (section_prefix (c_section c)) a k) as H.
    destruct (split_barrier_process _ _ _ _) as [b us]. by apply evolves_barrier.
  - apply keeps_modify. intros c. apply evolves_apply_all.
Qed.
Lemma keeps_agreement p sg : keeps evolves (handle_agreement p sg).
Proof.
  destruct p; cbn [handle_agreement].
  - apply keeps_online.
  - apply keeps_offline.
  - apply keeps_section_info.
  - apply keeps_our_elders.
  - keeps_steps.
  - keeps_steps. apply keeps_modify. auto with node_db.
Qed.

Lemma keeps_proposal p share : keeps evolves (handle_proposal p share).
Proof.
  apply keeps_mkM. intros c. destruct (proposal_aggregator_add _ _ _) as [agg r].
  apply evolves_proposal_aggregator.
Qed.
Lemma keeps_propose sender name p share : keeps evolves (handle_propose sender name p share).
Proof.
  apply keeps_mkM. intros c. pose proof (keeps_proposal p share c) as H. unfold keeps_at in H.
  destruct (run (handle_proposal p share) c) as [c' r]. exact H.
Qed.
Lemma keeps_dkg_outcome sap share : keeps evolves (handle_dkg_outcome sap share).
Proof.
  apply keeps_mkM. intros c. apply evolves_keys. intros Hk.
  case_match; [apply finalise_dkg_wf|]; by apply insert_dkg_outcome_wf.
Qed.

Lemma keeps_adults_change old new : keeps evolves (adults_change old new).
Proof. unfold adults_change. keeps_steps. apply keeps_event. Qed.
Lemma keeps_sync s n : keeps evolves (handle_sync s n).
Proof.
  unfold handle_sync. keeps_steps; try apply keeps_update_state; try apply keeps_adults_change.
  - apply keeps_mkM. intros c. pose proof (merge_extends (c_section c) s) as H1.
    pose proof (merge_wf (c_section c) s) as H2. pose proof (merge_auth (c_section c) s) as H3.
    destruct (section_merge (c_section c) s) as [s' r].
    by apply evolves_section.
  - apply keeps_modify. intros c. apply evolves_network, merge_signed.
Qed.

Lemma keeps_relocate d : keeps evolves (handle_relocate d).
Proof.
  unfold handle_relocate, start_relocation. keeps_steps; try apply keeps_event; apply keeps_modify;
    intros c'; apply evolves_relocation; simpl; destruct (c_relocate_state c') as [[]|]; simpl; lia.
Qed.
Lemma keeps_relocate_promise p m : keeps evolves (handle_relocate_promise p m).
Proof.
  apply (keeps_get_bind _); intros c.
  case_decide; [|keeps_at_done].
  apply (keeps_at_bind _); [|intros; keeps_at_done].
  destruct (c_relocate_state c) as [r|] eqn:Er; [keeps_at_done|].
  apply (keeps_at_bind _); [|intros; apply keeps_event].
  apply evolves_relocation. rewrite Er. simpl. lia.
Qed.

Lemma keeps_user_message m b : keeps evolves (handle_user_message m b).
Proof. unfold handle_user_message. keeps_steps; apply keeps_event. Qed.
Lemma keeps_aggregate m : keeps evolves (aggregate_message m).
Proof.
  unfold aggregate_message. keeps_steps. apply keeps_step. intros c.
  destruct (aggregator_add _ _ _) as [agg r]. apply evolves_message_aggregator.
Qed.
Lemma keeps_forward m s : keeps evolves (forward_to_relocation m s).
Proof.
  apply keeps_modify. intros c. destruct (c_relocate_state c) as [[|l]|] eqn:Er; try reflexivity.
  destruct s; [|reflexivity]. apply evolves_relocation. by rewrite Er.
Qed.
Lemma keeps_knowledge a ch : keeps evolves (update_section_knowledge a ch).
Proof. apply keeps_modify. intros c. apply evolves_network, update_section_signed. Qed.

Lemma keeps_dispatch sender m d : keeps evolves (dispatch_variant sender m d).
Proof.
  unfold dispatch_variant. destruct (rm_variant m);
    keeps_steps;
    first [ apply keeps_knowledge | apply keeps_sync | apply keeps_relocate | apply keeps_relocate_promise
          | apply keeps_user_message | apply keeps_dkg_start | apply keeps_dkg_message
          | apply keeps_failure_observation | apply keeps_propose | apply keeps_forward ].
Qed.
Lemma keeps_useful sender m d : keeps evolves (handle_useful_message sender m d).
Proof. unfold handle_useful_message. keeps_steps; [apply keeps_aggregate|apply keeps_dispatch]. Qed.

Lemma keeps_message now sender m d : keeps evolves (handle_message now sender m d).
Proof.
  unfold handle_message. keeps_steps;
    first [apply keeps_relay | apply keeps_entropy | apply keeps_useful].
Qed.
Lemma keeps_user_send now i b : keeps evolves (send_user_message now i b).
Proof. unfold send_user_message. keeps_steps; apply keeps_relay. Qed.
Lemma keeps_try_add a : keeps evolves (core_try_add a).
Proof.
  apply keeps_mkM. intros c.
  pose proof (try_add_wf (c_end_users c) a (section_prefix (c_section c))) as H.
  destruct (end_users_try_add _ _ _) as [u r]. by apply evolves_users.
Qed.
Lemma keeps_add_to_filter now j id : keeps evolves (core_add_to_filter now j id).
Proof.
  unfold core_add_to_filter. keeps_steps; apply keeps_step; intros c; destruct (add_to_filter _ _ _);
    apply evolves_filter.
Qed.
End Handlers.
