(* ===== verification/Comm.v ===== *)
(** * Sending to a group of recipients (src/routing/comm.rs)

    [Comm::send] keeps a number of sends in flight at the same time and replaces every failed
    one by a send to the next recipient.  The network decides which of the sends in flight
    completes next: the loop takes a schedule, one choice per completion, and the theorem holds
    for every schedule.  The result of each send is given by an oracle, one result per
    recipient, because a recipient is tried at most once. *)

From stdpp Require Import base tactics list gmap sorting.
From Stdlib Require Import ZArith Lia.
From S2P Require Import Prelude Names Crates Types SectionKeys SectionState PrefixMap Network.
From S2P Require Import DkgSession Messages Cache CoreState.

Inductive SendStatus : Type :=
| AllRecipients
| MinDeliveryGroupSizeReached (failed_recipients : list SocketAddr)
| MinDeliveryGroupSizeFailed (failed_recipients : list SocketAddr).

Section Comm.
Context `{CR : Crates, KG : !KeyGenOps, PMO : !PrefixMapOps OtherSection, MO : !MessagingOps, CE : !CoreEnv}.

(** What [sn_messaging] does with a message to be sent. *)
Class WireOps := {
  (** [MessageType::update_dest_info(None, Some(dest))] *)
  update_dest : MessageType -> XorName -> MessageType;
  wire_serialize : MessageType -> result Bytes MessagingError;
}.
Context `{WO : !WireOps}.

(** [WireMsg] of [sn_messaging] *)
Class WireMsgOps := {
  WireMsg : Type;
  wire_from : Bytes -> result WireMsg MessagingError;
  wire_msg_id : WireMsg -> MessageId;
  wire_is_join_request : WireMsg -> result bool MessagingError;
  wire_to_message : WireMsg -> result MessageType MessagingError;
  (** [WireMsg::deserialize] *)
  wire_deserialize : Bytes -> result MessageType MessagingError;
}.
Inductive ConnectionEvent : Type :=
| Received (now : readings) (sender : SocketAddr) (bytes : Bytes)
| Disconnected (addr : SocketAddr).

(** ** Single recipients *)

(** the three results: of creating a [QuicP2p], of its endpoint, of the connection *)
Definition comm_is_reachable (with_config new_endpoint reachable : result unit Qp2pError) : result unit Error :=
  let? _ := map_err InvalidConfig with_config in
  let? _ := map_err CannotConnectEndpoint new_endpoint in
  map_err AddressNotReachable reachable.

(** with the result of [try_send_message] *)
Definition send_on_existing_connection (recipient : XorName * SocketAddr) (msg : MessageType)
    (outcome : result unit Qp2pError) : result unit Error :=
  let? _ := map_err Messaging (wire_serialize (update_dest msg recipient.1)) in
  map_err (fun _ => FailedSend recipient.2 recipient.1) outcome.

(** ** A group of recipients *)

(** the loop variables; [tasks] are the positions of the recipients of the sends in flight *)
Record SendState : Type := mkSendState {
  tasks : list nat;
  next : nat;
  successes : nat;
  failed : list nat;
}.

(** what the send to the recipient at a position came to *)
Context (outcome : nat -> result unit Qp2pError).

(** the closure [send] *)
Definition send_result (i : nat) : result unit Error :=
  match outcome i with
  | Ok _ => Ok tt
  | Err err => if qp2p_LocallyClosed err then Err ConnectionClosed else Err (AddressNotReachable err)
  end.

(** the body of the [while], of the completion of the task at place [k] *)
Definition on_completion (len : nat) (k : nat) (i : nat) (st : SendState) : result SendState Error :=
  let rest := delete k (tasks st) in
  match send_result i with
  | Ok _ => Ok (mkSendState rest (next st) (S (successes st)) (failed st))
  | Err ConnectionClosed => Err ConnectionClosed
  | Err _ =>
      if (next st <? len)%nat
      then Ok (mkSendState (rest ++ [next st]) (S (next st)) (successes st) (failed st ++ [i]))
      else Ok (mkSendState rest (next st) (successes st) (failed st ++ [i]))
  end.

(** [schedule]: which of the tasks in flight completes next, any choice outside being the first;
    [None] when the fuel does not suffice *)
Fixpoint send_loop (fuel : nat) (len : nat) (schedule : list nat) (st : SendState) :
    option (result SendState Error) :=
  match tasks st with
  | [] => Some (Ok st)
  | first :: _ =>
      match fuel with
      | 0 => None
      | S fuel =>
          let choice := hd 0 schedule in
          let k := if (choice <? length (tasks st))%nat then choice else 0 in
          match on_completion len k (nth k (tasks st) first) st with
          | Ok st' => send_loop fuel len (tail schedule) st'
          | Err e => Some (Err e)
          end
      end
  end.

Definition addr_at (recipients : list (XorName * SocketAddr)) (i : nat) : option SocketAddr :=
  snd <$> recipients !! i.

Definition send_status (recipients : list (XorName * SocketAddr)) (delivery_group_size : nat) (st : SendState) :
    SendStatus :=
  let failed_recipients := omap (addr_at recipients) (failed st) in
  if Nat.eqb (successes st) delivery_group_size then
    match failed_recipients with
    | [] => AllRecipients
    | _ => MinDeliveryGroupSizeReached failed_recipients
    end
  else MinDeliveryGroupSizeFailed failed_recipients.

Definition initial_sends (delivery_group_size : nat) : SendState :=
  mkSendState (seq 0 delivery_group_size) delivery_group_size 0 [].

Definition comm_send_fuel (fuel : nat) (schedule : list nat) (recipients : list (XorName * SocketAddr))
    (delivery_group_size : nat) (msg : MessageType) : option (result SendStatus Error) :=
  let delivery_group_size := Nat.min delivery_group_size (length recipients) in
  match recipients with
  | [] => Some (Err EmptyRecipientList)
  | (name, _) :: _ =>
      match wire_serialize (update_dest msg name) with
      | Err e => Some (Err (Messaging e))
      | Ok _ =>
          r ← send_loop fuel (length recipients) schedule (initial_sends delivery_group_size);
          Some (let? st := r in Ok (send_status recipients delivery_group_size st))
      end
  end.

(** every recipient is tried at most once, so that many completions are enough *)
Definition comm_send (schedule : list nat) (recipients : list (XorName * SocketAddr))
    (delivery_group_size : nat) (msg : MessageType) : result SendStatus Error :=
  default (Err EmptyRecipientList)
    (comm_send_fuel (length recipients) schedule recipients delivery_group_size msg).

(** ** The invariant of the loop *)

Definition succeeds (i : nat) : Prop := send_result i = Ok tt.

Record send_inv (len dg : nat) (st : SendState) : Prop := {
  si_tried : exists done_ok, length done_ok = successes st /\ Forall succeeds done_ok /\
    tasks st ++ failed st ++ done_ok ≡ₚ seq 0 (next st);
  si_failed : Forall (fun i => ~ succeeds i) (failed st);
  si_next : next st = Nat.min len (dg + length (failed st));
}.

Lemma send_result_cases i :
  succeeds i \/ send_result i = Err ConnectionClosed \/ (exists e, send_result i = Err (AddressNotReachable e)).
Proof. unfold succeeds, send_result. destruct (outcome i) as [[]|e]; [auto|]. case_match; eauto. Qed.

Lemma delete_nth_perm (l : list nat) k d : k < length l -> l ≡ₚ nth k l d :: delete k l.
Proof.
  revert k; induction l as [|x l IH]; intros [|k] Hk; simpl in *; [lia|lia|done|].
  rewrite (IH k) at 1 by lia. apply Permutation_swap.
Qed.

Lemma on_completion_inv len dg k d st st' :
  send_inv len dg st -> k < length (tasks st) ->
  on_completion len k (nth k (tasks st) d) st = Ok st' ->
  send_inv len dg st' /\
  S (length (tasks st') + (len - next st')) = length (tasks st) + (len - next st).
Proof.
  intros [(ok & Hl & Hok & Hp) Hf Hn] Hk. pose proof (delete_nth_perm (tasks st) k d Hk) as Hd.
  pose proof (Permutation_length Hd) as Hlen. simpl in Hlen. unfold on_completion. cbn zeta.
  remember (nth k (tasks st) d) as i eqn:Ei. remember (delete k (tasks st)) as rest eqn:Er.
  clear Ei Er. rewrite Hd in Hp. simpl in Hp.
  destruct (send_result_cases i) as [E|[E|[e E]]]; rewrite E; [|done|cbn match].
  - intros [= <-]. simpl. split; [|lia]. split; simpl; [|done|done].
    exists (i :: ok). simpl. repeat split; [congruence|by constructor|].
    rewrite <- Hp. by rewrite <- !Permutation_middle.
  - assert (~ succeeds i) as Hi by (unfold succeeds; congruence).
    assert (Forall (fun i => ~ succeeds i) (failed st ++ [i])) as Hf' by (apply Forall_app; auto).
    destruct (Nat.ltb_spec (next st) len) as [El|El]; intros [= <-]; simpl; rewrite ?length_app; simpl.
    + split; [|lia]. split; cbn [tasks next successes failed]; [|done|rewrite length_app; simpl; lia].
      exists ok. repeat split; [done|done|].
      rewrite seq_S, <- Hp. simpl. solve_Permutation.
    + split; [|lia]. split; simpl; [|done|rewrite length_app; simpl; lia].
      exists ok. repeat split; [done|done|]. rewrite <- Hp, <- !app_assoc. simpl.
      by rewrite <- !Permutation_middle.
Qed.

Lemma send_inv_next_le len dg st : send_inv len dg st -> next st <= len.
Proof. intros [_ _ Hn]. lia. Qed.

Lemma send_loop_spec len dg fuel schedule st :
  send_inv len dg st -> length (tasks st) + (len - next st) <= fuel ->
  (exists st', send_loop fuel len schedule st = Some (Ok st') /\ send_inv len dg st' /\ tasks st' = []) \/
  (send_loop fuel len schedule st = Some (Err ConnectionClosed) /\
   exists i, i < len /\ send_result i = Err ConnectionClosed).
Proof.
  revert schedule st; induction fuel as [|fuel IH]; intros schedule st Hinv Hm; simpl;
    (destruct (tasks st) as [|first ts] eqn:Et; [left; by exists st|]); simpl in Hm; [lia|].
  set (k := if (hd 0 schedule <? length (first :: ts))%nat then hd 0 schedule else 0).
  assert (k < length (first :: ts)) as Hk.
  { unfold k. destruct (Nat.ltb_spec (hd 0 schedule) (length (first :: ts))); simpl in *; lia. }
  rewrite <- Et in Hk |- *.
  destruct (on_completion len k (nth k (tasks st) first) st) as [st'|e] eqn:Ec.
  - destruct (on_completion_inv _ _ _ _ _ _ Hinv Hk Ec) as [Hinv' Hdec].
    apply IH; [done|]. rewrite Et in Hdec. simpl in Hdec. lia.
  - right. unfold on_completion in Ec.
    destruct (send_result_cases (nth k (tasks st) first)) as [E|[E|[q E]]]; rewrite E in Ec; cbn match in Ec;
      [done| |by case_match].
    injection Ec as <-. split; [done|]. exists (nth k (tasks st) first). split; [|done].
    destruct Hinv as [(ok & _ & _ & Hp) _ Hn].
    assert (nth k (tasks st) first ∈ seq 0 (next st)) as Hin.
    { rewrite <- Hp. apply elem_of_app. left. by apply list_elem_of_In, nth_In. }
    apply elem_of_seq in Hin. lia.
Qed.

Lemma initial_sends_inv len dg : dg <= len -> send_inv len dg (initial_sends dg).
Proof.
  intros Hd. split; simpl; [|constructor|lia]. exists []. repeat split; [constructor|].
  by rewrite app_nil_r.
Qed.

Definition succeeds_b (i : nat) : bool := match send_result i with Ok _ => true | Err _ => false end.
Lemma succeeds_b_spec i : succeeds_b i = true <-> succeeds i.
Proof. unfold succeeds_b, succeeds. destruct (send_result i) as [[]|]; by split. Qed.

(** the recipients among the first [m] to whom the send fails *)
Definition unreachable (m : nat) : list nat := List.filter (fun i => negb (succeeds_b i)) (seq 0 m).

Lemma filter_perm {A : Type} (f : A -> bool) (l k : list A) :
  l ≡ₚ k -> List.filter f l ≡ₚ List.filter f k.
Proof.
  induction 1 as [|x l k _ IH|x y l|l k j _ IH1 _ IH2]; simpl; [done| | |by etransitivity].
  - destruct (f x); by rewrite IH.
  - destruct (f x), (f y); try done. apply Permutation_swap.
Qed.

Lemma filter_all {A : Type} (f : A -> bool) (l : list A) :
  Forall (fun x => f x = true) l -> List.filter f l = l.
Proof. induction 1 as [|x l Hx _ IH]; simpl; [done|]. by rewrite Hx, IH. Qed.
Lemma filter_none {A : Type} (f : A -> bool) (l : list A) :
  Forall (fun x => f x = false) l -> List.filter f l = [].
Proof. induction 1 as [|x l Hx _ IH]; simpl; [done|]. by rewrite Hx. Qed.

Lemma send_inv_final len dg st :
  send_inv len dg st -> tasks st = [] ->
  failed st ≡ₚ unreachable (next st) /\ successes st + length (failed st) = next st.
Proof.
  intros [(ok & Hl & Hok & Hp) Hf Hn] Ht. rewrite Ht in Hp. simpl in Hp. split.
  - unfold unreachable. rewrite <- (filter_perm _ _ _ Hp), List.filter_app, filter_all, filter_none.
    + by rewrite app_nil_r.
    + eapply Forall_impl; [exact Hok|]. simpl. intros x Hx%succeeds_b_spec. by rewrite Hx.
    + eapply Forall_impl; [exact Hf|]. simpl. intros x Hx. rewrite <- succeeds_b_spec in Hx.
      by destruct (succeeds_b x).
  - apply Permutation_length in Hp. rewrite length_app, length_seq in Hp. lia.
Qed.

Lemma omap_addr_nil recipients l :
  Forall (fun i => i < length recipients) l -> omap (addr_at recipients) l = [] <-> l = [].
Proof.
  intros Hl. split; [|by intros ->]. destruct l as [|i l]; [done|]. simpl.
  apply Forall_cons in Hl as [Hi _]. unfold addr_at. apply lookup_lt_is_Some_2 in Hi as [r ->]. done.
Qed.
End Comm.

(** ** Claims *)

Section Claims.
Context `{CR : Crates, KG : !KeyGenOps, PMO : !PrefixMapOps OtherSection, MO : !MessagingOps, CE : !CoreEnv,
  WO : !WireOps}.

(** What [Comm::send] comes to, for every order of completion. *)
Lemma comm_send_spec (outcome : nat -> result unit Qp2pError) (schedule : list nat)
    (name : XorName) (addr : SocketAddr) (others : list (XorName * SocketAddr)) (delivery_group_size : nat)
    (msg : MessageType) (bytes : Bytes) :
  wire_serialize (update_dest msg name) = Ok bytes ->
  let recipients := (name, addr) :: others in
  let group := Nat.min delivery_group_size (length recipients) in
  let r := comm_send outcome schedule recipients delivery_group_size msg in
  comm_send_fuel outcome (length recipients) schedule recipients delivery_group_size msg = Some r /\
  ((r = Err ConnectionClosed /\
    exists i, i < length recipients /\ send_result outcome i = Err ConnectionClosed) \/
   exists m order, m <= length recipients /\ order ≡ₚ unreachable outcome m /\
     ((r = Ok AllRecipients /\ order = [] /\ m = group) \/
      (r = Ok (MinDeliveryGroupSizeReached (omap (addr_at recipients) order)) /\ order <> [] /\
       m = group + length order) \/
      (r = Ok (MinDeliveryGroupSizeFailed (omap (addr_at recipients) order)) /\
       m = length recipients /\ length recipients < group + length order))).
Proof.
  intros Hs recipients group r.
  assert (comm_send_fuel outcome (length recipients) schedule recipients delivery_group_size msg =
    (x ← send_loop outcome (length recipients) (length recipients) schedule (initial_sends group);
     Some (let? st := x in Ok (send_status recipients group st)))) as E.
  { unfold comm_send_fuel. simpl. by rewrite Hs. }
  assert (group <= length recipients) as Hg by (unfold group; lia).
  destruct (send_loop_spec outcome (length recipients) group (length recipients) schedule
    (initial_sends group) (initial_sends_inv outcome _ _ Hg)) as [(st & El & Hinv & Ht)|[El Hi]].
  { cbn [initial_sends tasks next]. rewrite length_seq. lia. }
  - assert (r = Ok (send_status recipients group st)) as Er.
    { unfold r, comm_send. by rewrite E, El. }
    split; [rewrite E, El; by rewrite Er|right].
    destruct (send_inv_final outcome _ _ _ Hinv Ht) as [Hp Hsum].
    exists (next st), (failed st). split; [by eapply send_inv_next_le|]. split; [done|].
    assert (Forall (fun i => i < length recipients) (failed st)) as Hlt.
    { rewrite Hp. apply Forall_forall. intros i [Hi _]%list_elem_of_In%filter_In.
      apply list_elem_of_In, elem_of_seq in Hi. pose proof (send_inv_next_le _ _ _ _ Hinv). lia. }
    destruct Hinv as [_ _ Hn]. rewrite Er. unfold send_status.
    destruct (Nat.eqb_spec (successes st) group) as [Eg|Eg].
    + destruct (omap _ (failed st)) as [|a l] eqn:Eo.
      * apply omap_addr_nil in Eo; [|done]. left. rewrite Eo in *. simpl in *. repeat split; lia.
      * right; left. rewrite <- Eo. split; [done|]. split; [|lia]. intros Hnil. by rewrite Hnil in Eo.
    + right; right. split; [done|]. lia.
  - assert (r = Err ConnectionClosed) as Er by (unfold r, comm_send; by rewrite E, El).
    split; [rewrite E, El; by rewrite Er|]. by left.
Qed.

(** C21: whatever the order in which the sends complete, [Comm::send] returns after at most one
    send per recipient.  Unless the node is shutting down, it has then tried the first [m]
    recipients, and either all of a group of the requested size (cut to the number of
    recipients) were reached at once, or exactly as many were reached after replacing those
    that failed, or every recipient was tried and fewer were reachable; the failed recipients
    reported are exactly those tried in vain. *)
Theorem send_reaches_group (outcome : nat -> result unit Qp2pError) (schedule : list nat)
    (name : XorName) (addr : SocketAddr) (others : list (XorName * SocketAddr)) (delivery_group_size : nat)
    (msg : MessageType) (bytes : Bytes) :
  wire_serialize (update_dest msg name) = Ok bytes ->
  let recipients := (name, addr) :: others in
  let group := Nat.min delivery_group_size (length recipients) in
  let r := comm_send outcome schedule recipients delivery_group_size msg in
  comm_send_fuel outcome (length recipients) schedule recipients delivery_group_size msg = Some r /\
  ((r = Err ConnectionClosed /\
    exists i, i < length recipients /\ send_result outcome i = Err ConnectionClosed) \/
   exists m order, m <= length recipients /\ order ≡ₚ unreachable outcome m /\
     ((r = Ok AllRecipients /\ order = [] /\ m = group) \/
      (r = Ok (MinDeliveryGroupSizeReached (omap (addr_at recipients) order)) /\ order <> [] /\
       m = group + length order) \/
      (r = Ok (MinDeliveryGroupSizeFailed (omap (addr_at recipients) order)) /\
       m = length recipients /\ length recipients < group + length order))).
Proof. apply comm_send_spec. Qed.
End Claims.

(** ** Witnesses *)

Module CommWitness.
Import BitNames ToyCrates ToySerialize SectionKeysWitness NetworkWitness MessagesWitness CoreToy.

#[export] Instance wire : WireOps := {|
  update_dest m _ := m;
  wire_serialize _ := Ok [];
|}.

Definition group3 : list (XorName * SocketAddr) :=
  [(to_name 2, SocketAddrV4 2 2); (to_name 3, SocketAddrV4 3 3)].
(** the first recipient is down *)
Definition first_down (i : nat) : result unit Qp2pError :=
  match i with 0 => Err (false : Qp2pError) | _ => Ok tt end.
Definition ping : MessageType :=
  MTSectionInfo (SectionInfoUpdate DkgInProgress) (mkDestInfo (to_name 0) (1%N : BlsPublicKey)).

Lemma send_reaches_group_witness :
  comm_send first_down [1; 0] ((to_name 1, SocketAddrV4 1 1) :: group3) 2 ping =
    Ok (MinDeliveryGroupSizeReached [SocketAddrV4 1 1]) /\
  comm_send_fuel first_down 3 [1; 0] ((to_name 1, SocketAddrV4 1 1) :: group3) 2 ping =
    Some (comm_send first_down [1; 0] ((to_name 1, SocketAddrV4 1 1) :: group3) 2 ping).
Proof.
  split; [reflexivity|].
  exact (proj1 (send_reaches_group first_down [1; 0] (to_name 1) (SocketAddrV4 1 1) group3 2 ping []
    eq_refl)).
Defined.
End CommWitness.
