(* ===== verification/Bootstrap.v ===== *)
(** * Joining a section (src/routing/bootstrap/mod.rs, join.rs, relocate.rs, src/ed25519.rs)

    The two state machines by which a node gets into a section: [Join] for a new node and
    [JoinAsRelocated] for one that was told to move.  Each is a loop around a [receive] loop;
    together they take one incoming event per turn, so a turn is a function of the event and
    the state, and a run is the turns over the events received so far.  A run is still going
    on, or waits for the generator of key pairs, or panicked, or returned.  What is random (the
    key pairs drawn, the age picked) is read from the state. *)

From stdpp Require Import base tactics list gmap sorting.
From Stdlib Require Import ZArith Lia.
From S2P Require Import Prelude Names Crates Types SectionPeers SectionKeys SectionState PrefixMap.
From S2P Require Import Network DkgSession Messages Cache Relocation CoreState Comm.

(** What a run has come to: it goes on, it is still drawing key pairs, it panicked, or it
    returned. *)
Inductive phase (E R A : Type) : Type :=
| Continue (a : A)
| Generating
| Panicked
| Finished (r : result R E).
#[global] Arguments Continue {E R A} a.
#[global] Arguments Generating {E R A}.
#[global] Arguments Panicked {E R A}.
#[global] Arguments Finished {E R A} r.

#[export] Instance phase_ret E R : MRet (phase E R) := fun A a => Continue a.
#[export] Instance phase_bind E R : MBind (phase E R) := fun A B k m =>
  match m with
  | Continue a => k a
  | Generating => Generating
  | Panicked => Panicked
  | Finished r => Finished r
  end.

(** the [?] operator *)
Definition try_result {E R A : Type} (r : result A E) : phase E R A :=
  match r with Ok a => Continue a | Err e => Finished (Err e) end.

(** one turn after the other, as long as the run goes on *)
Fixpoint turns {E R S X : Type} (turn : X -> S -> phase E R S) (xs : list X) (s : S) : phase E R S :=
  match xs with
  | [] => Continue s
  | x :: xs' => s' ← turn x s; turns turn xs' s'
  end.

Lemma turns_app {E R S X : Type} (turn : X -> S -> phase E R S) xs ys s :
  turns turn (xs ++ ys) s = (s' ← turns turn xs s; turns turn ys s').
Proof.
  revert s; induction xs as [|x xs IH]; intros s; simpl; [done|]. destruct (turn x s); simpl; auto.
Qed.

(** An invariant of the turns holds in every state that is reached. *)
Lemma turns_inv {E R S X : Type} (turn : X -> S -> phase E R S) (I : S -> Prop) xs s s' :
  (forall x s s', I s -> turn x s = Continue s' -> I s') ->
  I s -> turns turn xs s = Continue s' -> I s'.
Proof.
  intros Ht. revert s; induction xs as [|x xs IH]; intros s Hs; simpl; [by intros [= <-]|].
  destruct (turn x s) as [s1| | |] eqn:E1; simpl; try done. intros H. by eapply IH; [eapply Ht|].
Qed.

(** The run ended in the turn of some event, from a state that was reached. *)
Lemma turns_finished {E R S X : Type} (turn : X -> S -> phase E R S) xs s r :
  turns turn xs s = Finished r ->
  exists before x after s', xs = before ++ x :: after /\ turns turn before s = Continue s' /\
    turn x s' = Finished r.
Proof.
  revert s; induction xs as [|x xs IH]; intros s; simpl; [done|].
  destruct (turn x s) as [s1| | |] eqn:E1; simpl; try done.
  - intros (b & y & a & s' & -> & Hb & Hy)%IH. exists (x :: b), y, a, s'. simpl. by rewrite E1.
  - intros [= <-]. by exists [], x, xs, s.
Qed.

(** the run did not panic and did not come to a result yet, but possibly to an error *)
Definition calm {E R A : Type} (m : phase E R A) : Prop :=
  match m with Panicked | Finished (Ok _) => False | _ => True end.

Lemma calm_bind {E R A B : Type} (m : phase E R A) (f : A -> phase E R B) :
  calm m -> (forall a, m = Continue a -> calm (f a)) -> calm (m ≫= f).
Proof. destruct m as [a| | |[]]; simpl; auto. Qed.

(** the last elements of a list *)
Definition last_n {A : Type} (n : nat) (l : list A) : list A := drop (length l - n) l.

Lemma last_n_all {A : Type} n (l : list A) : length l <= n -> last_n n l = l.
Proof. intros H. unfold last_n. by replace (length l - n) with 0 by lia. Qed.

Lemma last_n_app {A : Type} n (l k : list A) : last_n n (last_n n l ++ k) = last_n n (l ++ k).
Proof.
  unfold last_n. rewrite !length_app, length_drop.
  destruct (decide (length l <= n)).
  - replace (length l - n) with 0 by lia. rewrite drop_0. f_equal. lia.
  - destruct (decide (length l + length k - n <= length l)).
    + rewrite !drop_app_le by (rewrite ?length_drop; lia). rewrite drop_drop. do 2 f_equal. lia.
    + rewrite !drop_app_ge by (rewrite ?length_drop; lia). rewrite length_drop. f_equal. lia.
Qed.

Lemma length_last_n {A : Type} n (l : list A) : length (last_n n l) = Nat.min n (length l).
Proof. unfold last_n. rewrite length_drop. lia. Qed.

Definition BACKLOG_CAPACITY_JOIN : nat := 100.

Section Bootstrap.
Context `{CR : Crates, KG : !KeyGenOps, PMO : !PrefixMapOps OtherSection, MO : !MessagingOps, CE : !CoreEnv,
  WM : !WireMsgOps}.
Context `{SerView : !Serialize (DstLocation * Variant), SerNodeState : !Serialize NodeState,
  SerSap : !Serialize SectionAuthorityProvider}.

(** Other crates: the range of names of a prefix ([xor_name]), and the proof of work
    ([resource_proof]). *)
Class BootstrapEnv := {
  (** [prefix.range_inclusive().contains(name)] *)
  range_contains : Prefix -> XorName -> bool;
  (** [ResourceProof::new(data_size, difficulty).create_proof_data(nonce)] *)
  rp_create_proof_data : Z -> Z -> Bytes -> Bytes;
  (** [create_prover(data).solve()] *)
  rp_solve : Z -> Z -> Bytes -> Z;
}.
(** the range of a prefix are the names it matches *)
Class BootstrapLaws `{BE : !BootstrapEnv} : Prop :=
  range_contains_matches : forall p n, range_contains p n = matches p n.
Context `{BE : !BootstrapEnv}.

(** ** Key pairs (src/ed25519.rs, src/node.rs) *)

Definition node_new (keypair : Keypair) (addr : SocketAddr) : Node := mkNode keypair addr.

(** the first of the key pairs drawn that fits, with the later draws *)
Fixpoint gen_keypair {R : Type} (draws : list Keypair) (range : Prefix) (age : Z) :
    phase Error R (Keypair * list Keypair) :=
  match draws with
  | [] => Generating
  | keypair :: draws' =>
      let new_name := name_from_public_key (keypair_public keypair) in
      if range_contains range new_name && (age =? name_age new_name)%Z then Continue (keypair, draws')
      else gen_keypair draws' range age
  end.

(** ** Both machines (mod.rs) *)

Definition bootstrap_verify_message (message : RoutingMsg) (trusted_key : option BlsPublicKey) : bool :=
  match msg_verify message (option_list trusted_key) with
  | Ok VerifyFull => true
  | Ok VerifyUnknown => match trusted_key with None => true | Some _ => false end
  | Err _ => false
  end.

Definition Recipients : Type := list (XorName * SocketAddr).

(** the message both [send_join_requests] hand over for sending; the index [recipients[0]]
    panics on an empty list *)
Definition join_request_message {R : Type} (node : Node) (variant : Variant) (recipients : Recipients)
    (section_key : BlsPublicKey) : phase Error R (MessageType * Recipients) :=
  message ← try_result (single_src node DirectAndUnrouted variant section_key);
  match recipients with
  | [] => Panicked
  | (name, _) :: _ => mret (MTRouting (mkDestInfo name section_key) message, recipients)
  end.

Definition recipient_addrs (recipients : Recipients) : gset SocketAddr := list_to_set (snd <$> recipients).

(** [.filter(|(_, addr)| !used_recipient.contains(addr))] *)
Definition unused_recipients (used : gset SocketAddr) (elders : Recipients) : Recipients :=
  List.filter (fun r => negb (bool_decide (r.2 ∈ used))) elders.

(** ** New nodes (join.rs) *)

Definition Backlogged : Type := RoutingMsg * SocketAddr * DestInfo.
Definition JoinedSection : Type := Node * Section_ * list Backlogged.

(** the fields of [Join] with the variables of the loop, the messages handed over for sending,
    and what is drawn at random *)
Record Join : Type := mkJoin {
  j_node : Node;
  j_backlog : list Backlogged;
  j_section_key : BlsPublicKey;
  j_recipients : Recipients;
  j_used : gset SocketAddr;
  j_sent : list (MessageType * Recipients);
  j_draws : list Keypair;
  j_picks : list nat;
}.

Definition join_set_node (node : Node) (draws : list Keypair) (picks : list nat) (j : Join) : Join :=
  mkJoin node (j_backlog j) (j_section_key j) (j_recipients j) (j_used j) (j_sent j) draws picks.
Definition join_set_target (section_key : BlsPublicKey) (recipients : Recipients) (j : Join) : Join :=
  mkJoin (j_node j) (j_backlog j) section_key recipients (j_used j) (j_sent j) (j_draws j) (j_picks j).
Definition join_use_recipients (j : Join) : Join :=
  mkJoin (j_node j) (j_backlog j) (j_section_key j) (j_recipients j)
    (j_used j ∪ recipient_addrs (j_recipients j)) (j_sent j) (j_draws j) (j_picks j).
Definition join_push_sent (m : MessageType * Recipients) (j : Join) : Join :=
  mkJoin (j_node j) (j_backlog j) (j_section_key j) (j_recipients j) (j_used j) (j_sent j ++ [m])
    (j_draws j) (j_picks j).
Definition join_set_backlog (b : list Backlogged) (j : Join) : Join :=
  mkJoin (j_node j) b (j_section_key j) (j_recipients j) (j_used j) (j_sent j) (j_draws j) (j_picks j).

Abbreviation JP := (phase Error JoinedSection).

Definition join_send (request : JoinRequest) (recipients : Recipients) (j : Join) : JP Join :=
  m ← join_request_message (j_node j) (VJoinRequest request) recipients (j_section_key j);
  mret (join_push_sent m j).

(** [while backlog.len() >= CAPACITY { pop_front }], then [push_back] *)
Definition backlog_message (message : RoutingMsg) (sender : SocketAddr) (dest_info : DestInfo) (j : Join) : Join :=
  let room := drop (S (length (j_backlog j)) - BACKLOG_CAPACITY_JOIN) (j_backlog j) in
  join_set_backlog (room ++ [(message, sender, dest_info)]) j.

(** the first half of a turn of [receive_join_response]: a join response, or a message for the
    backlog, or nothing *)
Definition join_incoming (e : ConnectionEvent) (j : Join) :
    Join * option (RoutingMsg * DestInfo * JoinResponse * SocketAddr) :=
  match e with
  | Received _ sender bytes =>
      match wire_deserialize bytes with
      | Ok (MTRouting dest_info msg) =>
          match rm_variant msg with
          | VJoinResponse join_response => (j, Some (msg, dest_info, join_response, sender))
          | _ => (backlog_message msg sender dest_info j, None)
          end
      | Ok (MTNode _ _ _) | Ok (MTClient _ _) | Ok (MTSectionInfo _ _) => (j, None)
      | Err _ => (j, None)
      end
  | Disconnected _ => (j, None)
  end.

(** the second half: whether the response is returned *)
Definition accept_join_response (our_name : XorName) (routing_msg : RoutingMsg) (join_response : JoinResponse) : bool :=
  match join_response with
  | JoinRejected (RejectNodeNotReachable _) | JoinRejected RejectJoinsDisallowed => true
  | JoinRetry section_auth =>
      if negb (matches (sap_prefix section_auth) our_name) then false
      else if Nat.eqb (size (sap_elders section_auth)) 0 then false
      else bootstrap_verify_message routing_msg None
  | JoinRedirect section_auth =>
      if Nat.eqb (size (sap_elders section_auth)) 0 then false
      else bootstrap_verify_message routing_msg None
  | JoinResourceChallenge _ _ _ _ => bootstrap_verify_message routing_msg None
  | JoinApproval _ _ node_state _ =>
      if decide (peer_name (ns_peer (ss_value node_state)) <> our_name) then false
      else bootstrap_verify_message routing_msg None
  end.

(** [(MIN..MAX).choose(rng).unwrap_or(MAX)], the choice being the pick modulo the length *)
Definition choose_age (pick : nat) : Z :=
  let range := seqZ FIRST_SECTION_MIN_AGE (FIRST_SECTION_MAX_AGE - FIRST_SECTION_MIN_AGE) in
  default FIRST_SECTION_MAX_AGE (range !! (pick mod length range)).

(** the changes of identity on [Retry]: an age for the first section *)
Definition first_section_identity (prefix : Prefix) (j : Join) : JP Join :=
  if prefix_is_empty prefix && (node_age (j_node j) <? FIRST_SECTION_MIN_AGE)%Z then
    '(new_keypair, draws) ← gen_keypair (j_draws j) prefix_default (choose_age (hd 0 (j_picks j)));
    mret (join_set_node (node_new new_keypair (node_addr (j_node j))) draws (tail (j_picks j)) j)
  else mret j.

(** and the age of an adult after the first split *)
Definition adult_identity (prefix : Prefix) (j : Join) : JP Join :=
  if negb (prefix_is_empty prefix) && negb (node_age (j_node j) =? MIN_ADULT_AGE)%Z then
    '(new_keypair, draws) ← gen_keypair (j_draws j) prefix MIN_ADULT_AGE;
    mret (join_set_node (node_new new_keypair (node_addr (j_node j))) draws (j_picks j) j)
  else mret j.

(** the request to a section that the node now takes for its own *)
Definition join_request_to (section_auth : SectionAuthorityProvider) (recipients : Recipients) (j : Join) : JP Join :=
  let section_key := sap_section_key section_auth in
  join_send (mkJoinRequest section_key None) recipients (join_set_target section_key recipients j).

Definition on_retry (section_auth : SectionAuthorityProvider) (j : Join) : JP Join :=
  if decide (sap_section_key section_auth = j_section_key j) then mret j
  else
    let new_recipients := btree_entries (sap_elders section_auth) in
    let prefix := sap_prefix section_auth in
    j ← first_section_identity prefix j;
    if matches prefix (node_name (j_node j)) then
      j ← adult_identity prefix j;
      join_request_to section_auth new_recipients j
    else mret j.

Definition on_redirect (section_auth : SectionAuthorityProvider) (j : Join) : JP Join :=
  if decide (sap_section_key section_auth = j_section_key j) then mret j
  else
    match unused_recipients (j_used j) (btree_entries (sap_elders section_auth)) with
    | [] => mret j
    | r :: rs =>
        if matches (sap_prefix section_auth) (node_name (j_node j)) then join_request_to section_auth (r :: rs) j
        else mret j
    end.

(** one response, with the arms of the [match] *)
Definition join_response (response : JoinResponse) (sender : SocketAddr) (dest_info : DestInfo) (j : Join) : JP Join :=
  match response with
  | JoinRejected (RejectNodeNotReachable addr) => Finished (Err (NodeNotReachable addr))
  | JoinRejected RejectJoinsDisallowed => Finished (Err TryJoinLater)
  | JoinApproval genesis_key section_auth _ section_chain =>
      section ← try_result (section_new genesis_key section_chain section_auth);
      Finished (Ok (j_node j, section, j_backlog j))
  | JoinRetry section_auth => on_retry section_auth j
  | JoinRedirect section_auth => on_redirect section_auth j
  | JoinResourceChallenge data_size difficulty nonce nonce_signature =>
      let data := rp_create_proof_data data_size difficulty nonce in
      let solution := rp_solve data_size difficulty data in
      join_send (mkJoinRequest (j_section_key j)
          (Some (mkResourceProofResponse solution data nonce nonce_signature)))
        [(di_dest dest_info, sender)] j
  end.

Definition join_turn (e : ConnectionEvent) (j : Join) : JP Join :=
  let '(j, incoming) := join_incoming e j in
  match incoming with
  | None => mret j
  | Some (routing_msg, dest_info, response, sender) =>
      if accept_join_response (node_name (j_node j)) routing_msg response
      then join_response response sender dest_info (join_use_recipients j)
      else mret j
  end.

(** [Join::new] and [Join::run], up to the first request *)
Definition join_start (node : Node) (bootstrap_addr : SocketAddr) (random_key : BlsPublicKey)
    (draws : list Keypair) (picks : list nat) : JP Join :=
  let recipients := [(node_name node, bootstrap_addr)] in
  join_send (mkJoinRequest random_key None) recipients
    (mkJoin node [] random_key recipients ∅ [] draws picks).

(** the whole run, over the events received; then the channel may be closed *)
Definition join_run (node : Node) (bootstrap_addr : SocketAddr) (random_key : BlsPublicKey)
    (draws : list Keypair) (picks : list nat) (events : list ConnectionEvent) (closed : bool) : JP Join :=
  j ← join_start node bootstrap_addr random_key draws picks;
  j ← turns join_turn events j;
  if closed then Finished (Err InvalidState) else mret j.

(** ** Relocated nodes (relocate.rs) *)

(** the fields of [JoinAsRelocated] with the variables of [run] *)
Record JoinAsRelocated : Type := mkJoinAsRelocated {
  r_node : Node;
  r_payload : option RelocatePayload;
  r_section_key : BlsPublicKey;
  r_recipients : Recipients;
  r_used : gset SocketAddr;
  r_sent : list (MessageType * Recipients);
  r_draws : list Keypair;
}.

Definition relocated_use_recipients (r : JoinAsRelocated) : JoinAsRelocated :=
  mkJoinAsRelocated (r_node r) (r_payload r) (r_section_key r) (r_recipients r)
    (r_used r ∪ recipient_addrs (r_recipients r)) (r_sent r) (r_draws r).

Abbreviation RP := (phase Error (Node * Section_)).

Definition relocated_send (request_payload : option RelocatePayload) (r : JoinAsRelocated) : RP JoinAsRelocated :=
  m ← join_request_message (r_node r) (VJoinAsRelocatedRequest (r_section_key r) request_payload)
    (r_recipients r) (r_section_key r);
  mret (mkJoinAsRelocated (r_node r) (r_payload r) (r_section_key r) (r_recipients r) (r_used r)
          (r_sent r ++ [m]) (r_draws r)).

Definition EXTRA_SPLIT_COUNT : nat := 3.

(** the new identity, and the proof that it belongs to the old one *)
Definition build_relocation_payload (prefix : Prefix) (relocate_details : SignedRelocateDetails)
    (r : JoinAsRelocated) : RP JoinAsRelocated :=
  destination ← try_result (signed_relocate_destination relocate_details);
  let name_prefix := prefix_new (bit_count prefix + EXTRA_SPLIT_COUNT) destination in
  details ← try_result (signed_relocate_details relocate_details);
  '(new_keypair, draws) ← gen_keypair (r_draws r) name_prefix (rd_age details);
  let new_name := name_from_public_key (keypair_public new_keypair) in
  let relocate_payload := relocate_payload_new relocate_details new_name (node_keypair (r_node r)) in
  mret (mkJoinAsRelocated (node_new new_keypair (node_addr (r_node r))) (Some relocate_payload)
          (r_section_key r) (r_recipients r) (r_used r) (r_sent r) draws).

(** the common end of [Retry] and [Redirect] *)
Definition relocated_request_to (section_auth : SectionAuthorityProvider) (recipients : Recipients)
    (relocate_details : SignedRelocateDetails) (r : JoinAsRelocated) : RP JoinAsRelocated :=
  r ← match r_payload r with
      | None => build_relocation_payload (sap_prefix section_auth) relocate_details r
      | Some _ => mret r
      end;
  relocated_send (r_payload r)
    (mkJoinAsRelocated (r_node r) (r_payload r) (sap_section_key section_auth) recipients (r_used r)
       (r_sent r) (r_draws r)).

(** a turn of [receive_join_response] for a join response: whether it is returned *)
Definition accept_relocated_response (expected_genesis_key : BlsPublicKey) (r : JoinAsRelocated)
    (routing_msg : RoutingMsg) (join_response : JoinAsRelocatedResponse) : result bool Error :=
  let? destination :=
    match r_payload r with
    | Some payload => signed_relocate_destination (payload_details payload)
    | None => Ok (node_name (r_node r))
    end in
  match join_response with
  | RelocatedNodeNotReachable _ => Ok true
  | RelocatedRetry section_auth | RelocatedRedirect section_auth =>
      if negb (matches (sap_prefix section_auth) destination) then Ok false
      else if Nat.eqb (size (sap_elders section_auth)) 0 then Ok false
      else Ok (bootstrap_verify_message routing_msg None)
  | RelocatedApproval _ member_info section_chain =>
      if decide (peer_name (ns_peer (ss_value member_info)) <> node_name (r_node r)) then Ok false
      else if decide (expected_genesis_key <> sll_root_key section_chain) then Ok false
      else
        let? trusted_key :=
          match r_payload r with
          | Some payload => let? details := payload_relocate_details payload in Ok (Some (rd_destination_key details))
          | None => Ok None
          end in
        Ok (bootstrap_verify_message routing_msg trusted_key)
  end.

Definition relocated_response (genesis_key : BlsPublicKey) (relocate_details : SignedRelocateDetails)
    (response : JoinAsRelocatedResponse) (r : JoinAsRelocated) : RP JoinAsRelocated :=
  match response with
  | RelocatedApproval section_auth _ section_chain =>
      section ← try_result (section_new genesis_key section_chain section_auth);
      Finished (Ok (r_node r, section))
  | RelocatedRetry section_auth =>
      if decide (sap_section_key section_auth = r_section_key r) then mret r
      else relocated_request_to section_auth (btree_entries (sap_elders section_auth)) relocate_details r
  | RelocatedRedirect section_auth =>
      if decide (sap_section_key section_auth = r_section_key r) then mret r
      else
        match unused_recipients (r_used r) (btree_entries (sap_elders section_auth)) with
        | [] => mret r
        | x :: xs => relocated_request_to section_auth (x :: xs) relocate_details r
        end
  | RelocatedNodeNotReachable addr => Finished (Err (NodeNotReachable addr))
  end.

(** one message from the channel that the node's handler feeds; others are skipped *)
Definition relocated_turn (genesis_key : BlsPublicKey) (relocate_details : SignedRelocateDetails)
    (received : RoutingMsg * SocketAddr) (r : JoinAsRelocated) : RP JoinAsRelocated :=
  let '(routing_msg, sender) := received in
  match rm_variant routing_msg with
  | VJoinAsRelocatedResponse response =>
      accepted ← try_result (accept_relocated_response genesis_key r routing_msg response);
      if (accepted : bool)
      then relocated_response genesis_key relocate_details response (relocated_use_recipients r)
      else mret r
  | _ => mret r
  end.

Definition relocated_start (node : Node) (bootstrap_addrs : list SocketAddr)
    (relocate_details : SignedRelocateDetails) (draws : list Keypair) : RP JoinAsRelocated :=
  section_key ← try_result (signed_relocate_destination_key relocate_details);
  dest_xorname ← try_result (signed_relocate_destination relocate_details);
  let recipients := (fun addr => (dest_xorname, addr)) <$> bootstrap_addrs in
  relocated_send None (mkJoinAsRelocated node None section_key recipients ∅ [] draws).

Definition relocated_run (node : Node) (bootstrap_addrs : list SocketAddr) (genesis_key : BlsPublicKey)
    (relocate_details : SignedRelocateDetails) (draws : list Keypair)
    (messages : list (RoutingMsg * SocketAddr)) (closed : bool) : RP JoinAsRelocated :=
  r ← relocated_start node bootstrap_addrs relocate_details draws;
  r ← turns (relocated_turn genesis_key relocate_details) messages r;
  if closed then Finished (Err InvalidState) else mret r.
End Bootstrap.

(** ** Lemmas *)

Section Lemmas.
Context `{CR : Crates, KG : !KeyGenOps, PMO : !PrefixMapOps OtherSection, MO : !MessagingOps, CE : !CoreEnv,
  WM : !WireMsgOps, BE : !BootstrapEnv}.
Context `{SerView : !Serialize (DstLocation * Variant), SerNodeState : !Serialize NodeState,
  SerSap : !Serialize SectionAuthorityProvider}.

(** The key pair generated is one of those drawn, in range and of the age asked for. *)
Lemma gen_keypair_spec {R : Type} draws range age kp draws' :
  gen_keypair (R := R) draws range age = Continue (kp, draws') ->
  kp ∈ draws /\ draws' ⊆ draws /\
  range_contains range (name_from_public_key (keypair_public kp)) = true /\
  name_age (name_from_public_key (keypair_public kp)) = age.
Proof.
  induction draws as [|k draws IH]; simpl; [done|].
  destruct (range_contains _ _ && _)%bool eqn:E.
  - intros [= <- <-]. apply andb_true_iff in E as [E1 E2%Z.eqb_eq]. repeat split; [left|set_solver|done|done].
  - intros (H1 & H2 & H3 & H4)%IH. repeat split; [by right|set_solver|done|done].
Qed.

Lemma elders_nonempty (m : gmap XorName SocketAddr) : Nat.eqb (size m) 0 = false -> btree_entries m <> [].
Proof.
  intros H E. apply Nat.eqb_neq in H. apply H. by rewrite <- length_btree_entries, E.
Qed.

(** *** The loop of a new node *)

(** whoever the node turned into, and what it keeps for later *)
Record join_inv (node : Node) (draws : list Keypair) (j : Join) : Prop := {
  ji_addr : node_addr (j_node j) = node_addr node;
  ji_node : j_node j = node \/ node_keypair (j_node j) ∈ draws;
  ji_draws : j_draws j ⊆ draws;
}.

Lemma ji_push node draws m j : join_inv node draws j -> join_inv node draws (join_push_sent m j).
Proof. intros []. by split. Qed.

Lemma ji_send node draws request recipients j j' :
  join_send request recipients j = Continue j' -> join_inv node draws j -> join_inv node draws j'.
Proof.
  unfold join_send, join_request_message. destruct (single_src _ _ _ _) as [msg|]; simpl; [|done].
  destruct recipients as [|[n x] rs]; simpl; [done|]. intros [= <-]. apply ji_push.
Qed.

Lemma ji_target node draws auth rs j j' :
  join_request_to auth rs j = Continue j' -> join_inv node draws j -> join_inv node draws j'.
Proof. intros H []. eapply ji_send; [exact H|]. by split. Qed.

(** a new identity is drawn, at the same address *)
Lemma ji_identity node draws picks j j' range age :
  join_inv node draws j ->
  ('(kp, d) ← gen_keypair (R := JoinedSection) (j_draws j) range age;
   mret (join_set_node (node_new kp (node_addr (j_node j))) d picks j)) = (Continue j' : phase Error JoinedSection Join) ->
  join_inv node draws j'.
Proof.
  intros [Ha Hn Hd]. destruct (gen_keypair _ _ _) as [[kp d]| | |] eqn:E; simpl; try done.
  intros [= <-]. apply gen_keypair_spec in E as (H1 & H2 & _). split; simpl; [done|right|set_solver]. by apply Hd.
Qed.

Lemma ji_first node draws prefix j j' :
  join_inv node draws j -> first_section_identity prefix j = Continue j' -> join_inv node draws j'.
Proof.
  intros Hj. unfold first_section_identity. destruct (_ && _)%bool; [|by intros [= <-]].
  by apply (ji_identity _ _).
Qed.

Lemma ji_adult node draws prefix j j' :
  join_inv node draws j -> adult_identity prefix j = Continue j' -> join_inv node draws j'.
Proof.
  intros Hj. unfold adult_identity. destruct (_ && _)%bool; [|by intros [= <-]].
  by apply (ji_identity _ _).
Qed.

Lemma ji_retry node draws auth j j' :
  join_inv node draws j -> on_retry auth j = Continue j' -> join_inv node draws j'.
Proof.
  intros Hj. unfold on_retry. case_decide as Hk; [by intros [= <-]|].
  destruct (first_section_identity _ _) as [j1| | |] eqn:E1; simpl; try done.
  pose proof (ji_first _ _ _ _ _ Hj E1) as H1. destruct (matches _ _); [|by intros [= <-]].
  destruct (adult_identity _ _) as [j2| | |] eqn:E2; simpl; try done.
  pose proof (ji_adult _ _ _ _ _ H1 E2) as H2. intros Hr. by eapply ji_target.
Qed.

Lemma ji_redirect node draws auth j j' :
  join_inv node draws j -> on_redirect auth j = Continue j' -> join_inv node draws j'.
Proof.
  intros Hj. unfold on_redirect. case_decide as Hk; [by intros [= <-]|].
  destruct (unused_recipients _ _) as [|r rs]; [by intros [= <-]|].
  destruct (matches _ _); [|by intros [= <-]]. intros H. by eapply ji_target.
Qed.

Lemma ji_incoming node draws e j : join_inv node draws j -> join_inv node draws (join_incoming e j).1.
Proof.
  intros Hj. unfold join_incoming. destruct e as [now s b|gone]; [|done].
  destruct (wire_deserialize b) as [[]|]; try done. destruct (rm_variant msg); try done;
    by destruct Hj; split.
Qed.

Lemma ji_turn node draws e j j' :
  join_inv node draws j -> join_turn e j = Continue j' -> join_inv node draws j'.
Proof.
  intros Hj. unfold join_turn. pose proof (ji_incoming node draws e j Hj) as H1.
  destruct (join_incoming e j) as [j1 [[[[m d] resp] s]|]]; simpl in H1; [|by intros [= <-]].
  destruct (accept_join_response _ _ _); [|by intros [= <-]].
  assert (join_inv node draws (join_use_recipients j1)) as H2 by (destruct H1; by split).
  destruct resp; cbn [join_response].
  - destruct (section_new _ _ _); done.
  - intros H. by eapply ji_retry.
  - intros H. by eapply ji_redirect.
  - destruct reason; done.
  - intros H. by eapply ji_send.
Qed.

(** the run from its start *)
Lemma join_run_reached node addr key draws picks events j :
  join_run node addr key draws picks events false = Continue j -> join_inv node draws j.
Proof.
  unfold join_run. destruct (join_start _ _ _ _ _) as [j0| | |] eqn:E0; simpl; try done.
  destruct (turns join_turn events j0) as [j1| | |] eqn:E1; simpl; try done. intros [= <-].
  eapply (turns_inv join_turn (join_inv node draws)); [|eapply ji_send; [exact E0|]|exact E1].
  - intros x s s' Hs Ht. by eapply ji_turn.
  - split; simpl; [done|by left|done].
Qed.

(** *** What is kept for later *)

(** the routing messages among the events that are not join responses *)
Definition backlog_entry (e : ConnectionEvent) : option Backlogged :=
  match e with
  | Received _ sender bytes =>
      match wire_deserialize bytes with
      | Ok (MTRouting dest_info msg) =>
          match rm_variant msg with VJoinResponse _ => None | _ => Some (msg, sender, dest_info) end
      | _ => None
      end
  | Disconnected _ => None
  end.

Lemma backlog_send request recipients j j' :
  join_send request recipients j = Continue j' -> j_backlog j' = j_backlog j.
Proof.
  unfold join_send, join_request_message. destruct (single_src _ _ _ _) as [msg|]; simpl; [|done].
  destruct recipients as [|[n x] rs]; simpl; [done|]. by intros [= <-].
Qed.

Lemma backlog_first prefix j j' : first_section_identity prefix j = Continue j' -> j_backlog j' = j_backlog j.
Proof.
  unfold first_section_identity. destruct (_ && _)%bool; [|by intros [= <-]].
  destruct (gen_keypair _ _ _) as [[kp d]| | |]; simpl; try done. by intros [= <-].
Qed.

Lemma backlog_adult prefix j j' : adult_identity prefix j = Continue j' -> j_backlog j' = j_backlog j.
Proof.
  unfold adult_identity. destruct (_ && _)%bool; [|by intros [= <-]].
  destruct (gen_keypair _ _ _) as [[kp d]| | |]; simpl; try done. by intros [= <-].
Qed.

Lemma backlog_response resp s d j j' :
  join_response resp s d j = Continue j' -> j_backlog j' = j_backlog j.
Proof.
  destruct resp; cbn [join_response].
  - destruct (section_new _ _ _); done.
  - unfold on_retry. case_decide as Hk; [by intros [= <-]|].
    destruct (first_section_identity _ _) as [j1| | |] eqn:E1; simpl; try done.
    apply backlog_first in E1. rewrite <- E1. destruct (matches _ _); [|by intros [= <-]].
    destruct (adult_identity _ _) as [j2| | |] eqn:E2; simpl; try done.
    apply backlog_adult in E2. rewrite <- E2. intros H. by apply backlog_send in H.
  - unfold on_redirect. case_decide as Hk; [by intros [= <-]|].
    destruct (unused_recipients _ _) as [|r rs]; [by intros [= <-]|].
    destruct (matches _ _); [|by intros [= <-]]. intros H. by apply backlog_send in H.
  - destruct reason; done.
  - apply backlog_send.
Qed.

(** The backlog holds the last messages, as many as fit, in the order they came in. *)
Lemma backlog_turn e j j' :
  join_turn e j = Continue j' ->
  j_backlog j' = match backlog_entry e with
                 | Some b => drop (S (length (j_backlog j)) - BACKLOG_CAPACITY_JOIN) (j_backlog j) ++ [b]
                 | None => j_backlog j
                 end.
Proof.
  unfold join_turn, join_incoming, backlog_entry. destruct e as [now s b|gone]; [|by intros [= <-]].
  destruct (wire_deserialize b) as [[]|]; try (by intros [= <-]).
  destruct (rm_variant msg); try (by intros [= <-]).
  destruct (accept_join_response _ _ _); [|by intros [= <-]]. intros H%backlog_response. exact H.
Qed.

Lemma backlog_turns es j j' :
  turns join_turn es j = Continue j' ->
  length (j_backlog j) <= BACKLOG_CAPACITY_JOIN ->
  j_backlog j' = last_n BACKLOG_CAPACITY_JOIN (j_backlog j ++ omap backlog_entry es).
Proof.
  revert j; induction es as [|e es IH]; intros j; simpl.
  - intros [= <-] Hl. rewrite app_nil_r. by rewrite last_n_all.
  - destruct (join_turn e j) as [j1| | |] eqn:E; simpl; try done. apply backlog_turn in E.
    intros H Hl. destruct (backlog_entry e) as [b|]; simpl in *.
    + assert (j_backlog j1 = last_n BACKLOG_CAPACITY_JOIN (j_backlog j ++ [b])) as E1.
      { rewrite E. unfold last_n. rewrite length_app. cbn [length].
        rewrite drop_app_le by (unfold Backlogged, BACKLOG_CAPACITY_JOIN in *; lia). f_equal. f_equal. unfold Backlogged, BACKLOG_CAPACITY_JOIN in *. lia. }
      rewrite (IH j1 H), E1, last_n_app, <- app_assoc; [done|].
      rewrite E1, length_last_n. lia.
    + rewrite (IH j1 H); [by rewrite E|by rewrite E].
Qed.

(** *** The end of the loop *)

(** a join response from the wire *)
Definition carries (e : ConnectionEvent) (msg : RoutingMsg) : Prop :=
  exists now sender bytes dest_info, e = Received now sender bytes /\
    wire_deserialize bytes = Ok (MTRouting dest_info msg).

(** the message verifies, as far as it can without a trusted key *)
Definition verifies (msg : RoutingMsg) (trusted_key : option BlsPublicKey) : Prop :=
  exists status, msg_verify msg (option_list trusted_key) = Ok status /\
    (trusted_key <> None -> status = VerifyFull).

Lemma bootstrap_verify_spec msg key : bootstrap_verify_message msg key = true <-> verifies msg key.
Proof.
  unfold bootstrap_verify_message, verifies. destruct (msg_verify msg _) as [[]|e]; split; try done.
  - intros _. by eexists.
  - destruct key; [done|]. intros _. by eexists.
  - intros (st & [= <-] & H). destruct key; [|done]. by specialize (H ltac:(done)).
  - by intros (st & ? & _).
Qed.

(** No response but an approval panics or returns a section. *)
Lemma calm_gen {R : Type} draws range age : calm (gen_keypair (R := R) draws range age).
Proof. induction draws as [|k draws IH]; simpl; [done|]. by destruct (_ && _)%bool. Qed.

Lemma calm_try {R A : Type} (r : result A Error) : calm (try_result (R := R) r).
Proof. by destruct r. Qed.

Lemma calm_request {R : Type} node v recipients key :
  recipients <> [] -> calm (join_request_message (R := R) node v recipients key).
Proof. intros H. apply calm_bind; [apply calm_try|]. intros m _. by destruct recipients as [|[]]. Qed.

Lemma calm_send request recipients j : recipients <> [] -> calm (join_send request recipients j).
Proof. intros H. apply calm_bind; [by apply calm_request|done]. Qed.

Lemma calm_retry auth j : Nat.eqb (size (sap_elders auth)) 0 = false -> calm (on_retry auth j).
Proof.
  intros He. unfold on_retry. case_decide; [done|]. apply calm_bind.
  - unfold first_section_identity. destruct (_ && _)%bool; [|done].
    apply calm_bind; [apply calm_gen|by intros []].
  - intros j1 _. destruct (matches _ _); [|done]. apply calm_bind.
    + unfold adult_identity. destruct (_ && _)%bool; [|done]. apply calm_bind; [apply calm_gen|by intros []].
    + intros j2 _. by apply calm_send, elders_nonempty.
Qed.

Lemma calm_redirect auth j : calm (on_redirect auth j).
Proof.
  unfold on_redirect. case_decide; [done|]. destruct (unused_recipients _ _) as [|r rs]; [done|].
  destruct (matches _ _); [|done]. by apply calm_send.
Qed.

Lemma join_turn_calm e j :
  calm (join_turn e j) \/
  exists msg g auth st chain section, carries e msg /\
    rm_variant msg = VJoinResponse (JoinApproval g auth st chain) /\
    peer_name (ns_peer (ss_value st)) = node_name (j_node j) /\ verifies msg None /\
    section_new g chain auth = Ok section /\
    join_turn e j = Finished (Ok (j_node j, section, j_backlog j)).
Proof.
  unfold join_turn, join_incoming. destruct e as [now s b|gone]; [|by left].
  destruct (wire_deserialize b) as [[]|] eqn:Eb; try by left. destruct (rm_variant msg) eqn:Ev; try by left.
  destruct (accept_join_response _ _ _) eqn:Ea; [|by left].
  destruct response as [g auth st chain|auth|auth|[]|]; cbn [join_response]; try by left.
  - destruct (section_new _ _ _) as [sec|] eqn:En; simpl; [right|by left].
    cbn [accept_join_response] in Ea. case_decide as Hn; [done|]. apply bootstrap_verify_spec in Ea.
    exists msg, g, auth, st, chain, sec. split; [by eexists _, _, _, _|]. split; [done|].
    done.
  - left. apply calm_retry. cbn [accept_join_response] in Ea. destruct (negb _); [done|].
    by destruct (Nat.eqb _ _).
  - left. apply calm_redirect.
  - left. by apply calm_send.
Qed.

(** An approval for us that verifies always does it. *)
Lemma join_turn_approval e j msg g auth st chain section :
  carries e msg -> rm_variant msg = VJoinResponse (JoinApproval g auth st chain) ->
  peer_name (ns_peer (ss_value st)) = node_name (j_node j) -> verifies msg None ->
  section_new g chain auth = Ok section ->
  join_turn e j = Finished (Ok (j_node j, section, j_backlog j)).
Proof.
  intros (now & s & b & d & -> & Eb) Ev Hn Hv%bootstrap_verify_spec Hs.
  unfold join_turn, join_incoming. rewrite Eb, Ev. cbn [accept_join_response].
  rewrite decide_False by tauto. rewrite Hv. cbn [join_response]. by rewrite Hs.
Qed.

Lemma join_start_sent node addr key draws picks j :
  join_start node addr key draws picks = Continue j ->
  exists m, j = mkJoin node [] key [(node_name node, addr)] ∅ [m] draws picks.
Proof.
  unfold join_start, join_send, join_request_message. destruct (single_src _ _ _ _) as [msg|]; simpl; [|done].
  intros [= <-]. by eexists.
Qed.

(** *** The loop of a relocated node *)

(** the section that a message tells the node of *)
Definition tells_of (msg : RoutingMsg) (section_auth : SectionAuthorityProvider) : Prop :=
  rm_variant msg = VJoinAsRelocatedResponse (RelocatedRetry section_auth) \/
  rm_variant msg = VJoinAsRelocatedResponse (RelocatedRedirect section_auth).

(** the old identity until the payload is built on the answer of some section, then a new one of
    the age that was granted, close to the destination, three bits closer than that section,
    with the payload to prove it *)
Record relocated_inv (node : Node) (details : SignedRelocateDetails) (draws : list Keypair)
    (answer : option SectionAuthorityProvider) (r : JoinAsRelocated) : Prop := {
  ri_addr : node_addr (r_node r) = node_addr node;
  ri_draws : r_draws r ⊆ draws;
  ri_identity : match r_payload r, answer with
    | None, None => r_node r = node
    | Some payload, Some section_auth =>
        payload = relocate_payload_new details (node_name (r_node r)) (node_keypair node) /\
        node_keypair (r_node r) ∈ draws /\
        exists d, signed_relocate_details details = Ok d /\ node_age (r_node r) = rd_age d /\
          range_contains
            (prefix_new (bit_count (sap_prefix section_auth) + EXTRA_SPLIT_COUNT) (rd_destination d))
            (node_name (r_node r)) = true
    | _, _ => False
    end;
}.

Lemma ri_send node details draws answer p r r' :
  relocated_send p r = Continue r' -> relocated_inv node details draws answer r ->
  relocated_inv node details draws answer r'.
Proof.
  unfold relocated_send, join_request_message. destruct (single_src _ _ _ _) as [msg|]; simpl; [|done].
  destruct (r_recipients r) as [|[n x] rs]; simpl; [done|]. intros [= <-] []. by split.
Qed.

Lemma ri_build node details draws auth r r' :
  build_relocation_payload (sap_prefix auth) details r = Continue r' ->
  relocated_inv node details draws None r -> relocated_inv node details draws (Some auth) r'.
Proof.
  unfold build_relocation_payload, signed_relocate_destination.
  destruct (signed_relocate_details details) as [d|] eqn:Ed; simpl; [|done].
  destruct (gen_keypair _ _ _) as [[kp rest]| | |] eqn:Eg; simpl; try done. intros [= <-] [Ha Hd Hi].
  destruct (r_payload r); [done|]. subst node. apply gen_keypair_spec in Eg as (H1 & H2 & H3 & H4).
  split; simpl; [done|set_solver|]. split; [done|]. split; [by apply Hd|]. by exists d.
Qed.

Lemma ri_request node details draws answer auth rs r r' :
  relocated_request_to auth rs details r = Continue r' ->
  relocated_inv node details draws answer r -> relocated_inv node details draws (Some (default auth answer)) r'.
Proof.
  intros H Hr. unfold relocated_request_to in H. destruct (r_payload r) as [p|] eqn:Ep; simpl in H.
  - eapply ri_send; [exact H|]. destruct Hr as [? ? Hi]; split; simpl; [done|done|]. rewrite Ep in *.
    by destruct answer.
  - destruct (build_relocation_payload _ _ _) as [r1| | |] eqn:Eb; simpl in H; try done.
    assert (answer = None) as ->. { destruct Hr as [_ _ Hi]. rewrite Ep in Hi. by destruct answer. }
    pose proof (ri_build _ _ _ _ _ _ Eb Hr) as H1. eapply ri_send; [exact H|]. by destruct H1; split.
Qed.

Lemma ri_answer node details draws answer auth rs msg r r' :
  relocated_request_to auth rs details r = Continue r' -> tells_of msg auth ->
  relocated_inv node details draws answer r ->
  relocated_inv node details draws answer r' \/
  answer = None /\ exists a, tells_of msg a /\ relocated_inv node details draws (Some a) r'.
Proof.
  intros H Ht Hr. pose proof (ri_request _ _ _ _ _ _ _ _ H Hr) as H1. destruct answer as [a|]; [by left|right].
  split; [done|]. by exists auth.
Qed.

Lemma ri_turn node details draws answer g m r r' :
  relocated_turn g details m r = Continue r' ->
  relocated_inv node details draws answer r ->
  relocated_inv node details draws answer r' \/
  answer = None /\ exists auth, tells_of m.1 auth /\ relocated_inv node details draws (Some auth) r'.
Proof.
  intros H Hr. revert H. unfold relocated_turn. destruct m as [msg s]. cbn [fst].
  destruct (rm_variant msg) eqn:Ev; try (intros [= <-]; by left).
  destruct (accept_relocated_response _ _ _ _) as [[]|]; simpl; [|intros [= <-]; by left|done].
  assert (relocated_inv node details draws answer (relocated_use_recipients r)) as Hu by (destruct Hr; by split).
  destruct response; cbn [relocated_response].
  - by destruct (section_new _ _ _).
  - case_decide; [intros [= <-]; by left|]. intros H'. eapply ri_answer; [done|by left|done].
  - case_decide; [intros [= <-]; by left|]. destruct (unused_recipients _ _); [intros [= <-]; by left|].
    intros H'. eapply ri_answer; [done|by right|done].
  - done.
Qed.

(** What the loop went through: the answer on which the payload was built is the message of one
    turn, before which there was no payload and after which there is one. *)
Lemma ri_turns node details draws g messages r0 r :
  relocated_inv node details draws None r0 ->
  turns (relocated_turn g details) messages r0 = Continue r ->
  exists answer, relocated_inv node details draws answer r /\
    forall auth, answer = Some auth ->
    exists before m after r1 r2, messages = before ++ m :: after /\ tells_of m.1 auth /\
      turns (relocated_turn g details) before r0 = Continue r1 /\ r_payload r1 = None /\
      relocated_turn g details m r1 = Continue r2 /\ r_payload r2 <> None.
Proof.
  intros H0. revert r; induction messages as [|m ms IH] using rev_ind; intros r.
  { intros [= <-]. by exists None. }
  rewrite turns_app. destruct (turns _ ms r0) as [r1| | |] eqn:E1; simpl; try done.
  destruct (relocated_turn g details m r1) as [r2| | |] eqn:E2; simpl; try done. intros [= <-].
  destruct (IH r1 eq_refl) as (answer & Hi & Ha).
  destruct (ri_turn _ _ _ _ _ _ _ _ E2 Hi) as [H|(-> & auth & Ht & H)].
  - exists answer. split; [done|]. intros auth He.
    destruct (Ha auth He) as (bf & m' & af & x & y & -> & H1 & H2 & H3 & H4 & H5).
    exists bf, m', (af ++ [m]), x, y. split; [by rewrite <- app_assoc|]. done.
  - exists (Some auth). split; [done|]. intros a [= <-]. exists ms, m, [], r1, r2.
    destruct Hi as [_ _ Hi], H as [_ _ H].
    destruct (r_payload r1); [done|]. by destruct (r_payload r2).
Qed.

Lemma relocated_run_reached node addrs g details draws messages r :
  relocated_run node addrs g details draws messages false = Continue r ->
  exists answer, relocated_inv node details draws answer r /\
    forall auth, answer = Some auth ->
    exists before m after r1 r2, messages = before ++ m :: after /\ tells_of m.1 auth /\
      relocated_run node addrs g details draws before false = Continue r1 /\ r_payload r1 = None /\
      relocated_turn g details m r1 = Continue r2 /\ r_payload r2 <> None.
Proof.
  unfold relocated_run. destruct (relocated_start _ _ _ _) as [r0| | |] eqn:E0; simpl; try done.
  destruct (turns _ messages r0) as [r'| | |] eqn:E1; simpl; try done. intros [= <-].
  destruct (ri_turns node details draws g messages r0 r') as (answer & Hi & Ha); [|done|].
  - unfold relocated_start in E0. destruct (signed_relocate_destination_key _); simpl in E0; [|done].
    destruct (signed_relocate_destination _); simpl in E0; [|done].
    eapply ri_send; [exact E0|]. by split.
  - exists answer. split; [done|]. intros auth He.
    destruct (Ha auth He) as (bf & m & af & x & y & H1 & H2 & H3 & H4).
    exists bf, m, af, x, y. by rewrite H3.
Qed.

Lemma calm_relocated_request auth rs details r : rs <> [] -> calm (relocated_request_to auth rs details r).
Proof.
  intros H. apply calm_bind.
  - destruct (r_payload r); [done|]. unfold build_relocation_payload.
    apply calm_bind; [apply calm_try|]. intros dst _. apply calm_bind; [apply calm_try|]. intros d _.
    apply calm_bind; [apply calm_gen|by intros []].
  - intros r1 _. apply calm_bind; [by apply calm_request|done].
Qed.

Lemma relocated_turn_calm g details m r :
  calm (relocated_turn g details m r) \/
  exists auth st chain section, rm_variant m.1 = VJoinAsRelocatedResponse (RelocatedApproval auth st chain) /\
    peer_name (ns_peer (ss_value st)) = node_name (r_node r) /\ g = sll_root_key chain /\
    section_new g chain auth = Ok section /\
    relocated_turn g details m r = Finished (Ok (r_node r, section)).
Proof.
  unfold relocated_turn. destruct m as [msg s]; simpl. destruct (rm_variant msg) eqn:Ev; try by left.
  destruct (accept_relocated_response g r msg response) as [[]|] eqn:Ea; simpl; [|by left|by left].
  destruct response as [auth st chain|auth|auth|a]; cbn [relocated_response].
  - destruct (section_new _ _ _) as [sec|] eqn:En; simpl; [right|by left].
    exists auth, st, chain, sec. split; [done|].
    revert Ea. unfold accept_relocated_response. destruct (r_payload r) as [p|]; simpl;
      [destruct (signed_relocate_destination _); simpl; [|done]|];
      (case_decide as Hn; [done|]); (case_decide as Hg; [done|]); intros _;
      done.
  - left. case_decide; [done|]. apply calm_relocated_request, elders_nonempty. revert Ea.
    unfold accept_relocated_response. destruct (match r_payload r with Some _ => _ | None => _ end); simpl; [|done].
    destruct (negb _); [done|]. by destruct (Nat.eqb _ _).
  - left. case_decide; [done|]. destruct (unused_recipients _ _) eqn:Eu; [done|].
    by apply calm_relocated_request.
  - by left.
Qed.
End Lemmas.

(** ** Claims *)

Section Claims.
Context `{CR : Crates, KG : !KeyGenOps, PMO : !PrefixMapOps OtherSection, MO : !MessagingOps, CE : !CoreEnv,
  WM : !WireMsgOps, BE : !BootstrapEnv}.
Context `{SerView : !Serialize (DstLocation * Variant), SerNodeState : !Serialize NodeState,
  SerSap : !Serialize SectionAuthorityProvider}.

(** an approval of the node with this name, by a message that verifies *)
Definition approves (e : ConnectionEvent) (name : XorName) (section : Section_) : Prop :=
  exists msg g auth st chain, carries e msg /\ rm_variant msg = VJoinResponse (JoinApproval g auth st chain) /\
    peer_name (ns_peer (ss_value st)) = name /\ verifies msg None /\ section_new g chain auth = Ok section.

(** An approval signed by a node vouches for its contents. *)
Lemma approves_signed e name section msg pk sig :
  approves e name section -> carries e msg -> rm_src msg = SrcAuthNode pk sig ->
  section_signed_verify (sec_section_auth section) (sec_chain section) = true.
Proof.
  intros (m & g & auth & st & chain & (now & s & b & d & -> & Hb) & Hv & _ & (status & Hs & _) & Hn)
    (now' & s' & b' & d' & [= <- <- <-] & Hb') Hsrc.
  rewrite Hb in Hb'. injection Hb' as <- <-. revert Hs Hn. unfold msg_verify, verify_variant. rewrite Hsrc, Hv.
  destruct (signable_bytes _ _) as [bytes|]; simpl; [|done]. destruct (negb (ed_verify _ _ _)); [done|].
  destruct (section_signed_verify auth chain) eqn:Ea; simpl; [|done]. intros _.
  unfold section_new. case_decide; [done|]. by intros [= <-].
Qed.

Lemma join_run_split node addr key draws picks before after closed j :
  join_run node addr key draws picks before false = Continue j ->
  join_run node addr key draws picks (before ++ after) closed =
    (j' ← turns join_turn after j; if closed then Finished (Err InvalidState) else mret j').
Proof.
  unfold join_run. destruct (join_start _ _ _ _ _) as [j0| | |]; simpl; try done.
  rewrite turns_app. destruct (turns join_turn before j0); simpl; try done. by intros [= ->].
Qed.

Lemma join_run_backlog node addr key draws picks events j :
  join_run node addr key draws picks events false = Continue j ->
  j_backlog j = last_n BACKLOG_CAPACITY_JOIN (omap backlog_entry events).
Proof.
  unfold join_run. destruct (join_start _ _ _ _ _) as [j0| | |] eqn:E0; simpl; try done.
  apply join_start_sent in E0 as [m ->].
  destruct (turns join_turn events _) as [j1| | |] eqn:E1; simpl; try done. intros [= <-].
  apply backlog_turns in E1; [done|]. unfold BACKLOG_CAPACITY_JOIN. simpl. lia.
Qed.

(** What a run that ended well goes back to. *)
Lemma join_run_approved node addr key draws picks events closed node' section backlog :
  join_run node addr key draws picks events closed = Finished (Ok (node', section, backlog)) ->
  exists before e after j, events = before ++ e :: after /\
    join_run node addr key draws picks before false = Continue j /\
    approves e (node_name (j_node j)) section /\ node' = j_node j /\ backlog = j_backlog j.
Proof.
  unfold join_run at 1. destruct (join_start _ _ _ _ _) as [j0| | |r] eqn:E0; simpl; try done.
  2: { intros [= ->]. revert E0. unfold join_start.
       pose proof (calm_send (mkJoinRequest key None) [(node_name node, addr)]
         (mkJoin node [] key [(node_name node, addr)] ∅ [] draws picks) ltac:(done)) as H.
       destruct (join_send _ _ _) as [| | |[]]; done. }
  destruct (turns join_turn events j0) as [j1| | |r] eqn:E1; simpl; try done; [by destruct closed|].
  intros [= ->]. apply turns_finished in E1 as (before & e & after & j & -> & Hb & Ht).
  exists before, e, after, j. split; [done|]. split; [unfold join_run; rewrite E0; simpl; by rewrite Hb|].
  destruct (join_turn_calm e j) as [Hc|(msg & g & auth & st & chain & sec & H1 & H2 & H3 & H4 & H5 & H6)].
  { rewrite Ht in Hc. done. }
  rewrite Ht in H6. injection H6 as -> -> ->. split; [|done]. by exists msg, g, auth, st, chain.
Qed.

Lemma join_run_wf node addr key draws picks events closed node' section backlog :
  join_run node addr key draws picks events closed = Finished (Ok (node', section, backlog)) ->
  section_wf section.
Proof.
  intros (? & ? & ? & ? & _ & _ & (? & ? & ? & ? & ? & _ & _ & _ & _ & H) & _)%join_run_approved.
  by eapply section_new_wf.
Qed.

Lemma relocated_run_approved node addrs g details draws messages closed node' section :
  relocated_run node addrs g details draws messages closed = Finished (Ok (node', section)) ->
  exists before m after r auth st chain, messages = before ++ m :: after /\
    relocated_run node addrs g details draws before false = Continue r /\ node' = r_node r /\
    rm_variant m.1 = VJoinAsRelocatedResponse (RelocatedApproval auth st chain) /\
    peer_name (ns_peer (ss_value st)) = node_name node' /\ g = sll_root_key chain /\
    section_new g chain auth = Ok section.
Proof.
  unfold relocated_run at 1. destruct (relocated_start _ _ _ _) as [r0| | |x] eqn:E0; simpl; try done.
  2: { intros [= ->]. revert E0. unfold relocated_start.
       destruct (signed_relocate_destination_key _); simpl; [|done].
       destruct (signed_relocate_destination _); simpl; [|done].
       unfold relocated_send, join_request_message. destruct (single_src _ _ _ _); simpl; [|done].
       by destruct addrs. }
  destruct (turns _ messages r0) as [r1| | |x] eqn:E1; simpl; try done; [by destruct closed|].
  intros [= ->]. apply turns_finished in E1 as (before & m & after & r & -> & Hb & Ht).
  destruct (relocated_turn_calm g details m r) as [Hc|(auth & st & chain & sec & H1 & H2 & H3 & H4 & H5)].
  { by rewrite Ht in Hc. }
  rewrite Ht in H5. injection H5 as -> ->. exists before, m, after, r, auth, st, chain.
  split; [done|]. split; [unfold relocated_run; rewrite E0; simpl; by rewrite Hb|]. done.
Qed.

Lemma relocated_run_wf node addrs g details draws messages closed node' section :
  relocated_run node addrs g details draws messages closed = Finished (Ok (node', section)) ->
  section_wf section.
Proof.
  intros (? & ? & ? & ? & ? & ? & ? & _ & _ & _ & _ & _ & _ & H)%relocated_run_approved.
  by eapply section_new_wf.
Qed.

(** C12: joining, whatever arrives.  The task never panics.  It returns a section only on an
    approval of the node under its current name, by a message that verifies, with the section
    of the approval, whose authority names the last key of its chain as its signer; the node
    keeps its address and has its old keys or keys that were drawn; the backlog is the last messages that
    came in before the approval and are no join responses, in order.  As long as it goes on,
    any such approval ends it, and without one, it ends with an error at the latest when the
    channel is closed. *)
Theorem join_run_correct (node : Node) (addr : SocketAddr) (key : BlsPublicKey) (draws : list Keypair)
    (picks : list nat) (events : list ConnectionEvent) (closed : bool) :
  match join_run node addr key draws picks events closed with
  | Panicked => False
  | Finished (Ok (node', section, backlog)) =>
      node_addr node' = node_addr node /\ (node' = node \/ node_keypair node' ∈ draws) /\ section_wf section /\
      exists before e after, events = before ++ e :: after /\ approves e (node_name node') section /\
        backlog = last_n BACKLOG_CAPACITY_JOIN (omap backlog_entry before)
  | Continue j =>
      closed = false /\
      join_run node addr key draws picks events true = Finished (Err InvalidState) /\
      forall e section later closed', approves e (node_name (j_node j)) section ->
        join_run node addr key draws picks (events ++ e :: later) closed' =
          Finished (Ok (j_node j, section, last_n BACKLOG_CAPACITY_JOIN (omap backlog_entry events)))
  | Generating | Finished (Err _) => True
  end.
Proof.
  destruct (join_run node addr key draws picks events closed) as [j| | |[[[node' section] backlog]|e]] eqn:E; try done.
  - destruct closed; [revert E; unfold join_run; destruct (join_start _ _ _ _ _); simpl; try done;
      by destruct (turns _ _ _)|].
    split; [done|]. split.
    + revert E. unfold join_run. destruct (join_start _ _ _ _ _); simpl; try done. by destruct (turns _ _ _).
    + intros e section later closed' (msg & g & auth & st & chain & H1 & H2 & H3 & H4 & H5).
      rewrite (join_run_split _ _ _ _ _ _ _ _ _ E). simpl.
      rewrite (join_turn_approval e j msg g auth st chain section) by done. simpl.
      by rewrite (join_run_backlog _ _ _ _ _ _ _ E).
  - revert E. unfold join_run. pose proof (calm_send (mkJoinRequest key None) [(node_name node, addr)]
      (mkJoin node [] key [(node_name node, addr)] ∅ [] draws picks) ltac:(done)) as H.
    unfold join_start. destruct (join_send _ _ _) as [j0| | |[]]; simpl; try done. clear H.
    revert j0; induction events as [|e events IH]; intros j0; simpl; [by destruct closed|].
    destruct (join_turn_calm e j0) as [Hc|(? & ? & ? & ? & ? & ? & _ & _ & _ & _ & _ & ->)]; [|done].
    destruct (join_turn e j0) as [j1| | |[]]; simpl; try done. apply IH.
  - pose proof (join_run_wf _ _ _ _ _ _ _ _ _ _ E) as Hw.
    apply join_run_approved in E as (before & e & after & j & -> & Hj & Ha & -> & ->).
    pose proof (join_run_reached _ _ _ _ _ _ _ Hj) as [H1 H2 _]. split; [done|]. split; [done|]. split; [done|].
    exists before, e, after. split; [done|]. split; [done|]. by eapply join_run_backlog.
Qed.
End Claims.

(** ** Sending the requests (mod.rs, join.rs) *)

Section Sending.
Context `{CR : Crates, KG : !KeyGenOps, PMO : !PrefixMapOps OtherSection, MO : !MessagingOps, CE : !CoreEnv,
  WO : !WireOps}.

(** the recipients or the error that is logged *)
Inductive SendReport : Type :=
| FailedRecipients (recipients : list SocketAddr)
| FailedWith (err : Error).

Definition bootstrap_send_message (outcome : nat -> result unit Qp2pError) (schedule : list nat)
    (message : MessageType) (recipients : Recipients) : option SendReport :=
  match comm_send outcome schedule recipients (length recipients) message with
  | Ok AllRecipients | Ok (MinDeliveryGroupSizeReached _) => None
  | Ok (MinDeliveryGroupSizeFailed failed) => Some (FailedRecipients failed)
  | Err err => Some (FailedWith err)
  end.

(** the task next to the loop, until the loop ends: one message after the other, each with what
    happens to its sends *)
Fixpoint send_messages (sends : nat -> (nat -> result unit Qp2pError) * list nat) (i : nat)
    (sent : list (MessageType * Recipients)) : list (option SendReport) :=
  match sent with
  | [] => []
  | (message, recipients) :: sent' =>
      bootstrap_send_message (sends i).1 (sends i).2 message recipients :: send_messages sends (S i) sent'
  end.

(** A request goes to every recipient, whatever the order in which the sends complete, and
    nothing is logged exactly when all of them succeed. *)
Theorem request_reported (outcome : nat -> result unit Qp2pError) (schedule : list nat) (message : MessageType)
    (name : XorName) (addr : SocketAddr) (others : Recipients) (bytes : Bytes) :
  wire_serialize (update_dest message name) = Ok bytes ->
  bootstrap_send_message outcome schedule message ((name, addr) :: others) = None <->
  forall i, i < S (length others) -> succeeds outcome i.
Proof.
  intros Hs. pose proof (comm_send_spec outcome schedule name addr others (S (length others)) message bytes Hs) as H.
  cbn zeta in H. destruct H as [_ H]. unfold bootstrap_send_message. cbn [length] in *. rewrite Nat.min_id in H.
  assert (forall m i, i ∈ unreachable outcome m <-> ~ succeeds outcome i /\ i < m) as Hu.
  { intros m i. unfold unreachable. rewrite list_elem_of_In, filter_In, <- list_elem_of_In, elem_of_seq, negb_true_iff.
    rewrite <- succeeds_b_spec. destruct (succeeds_b outcome i); intuition (lia || congruence). }
  destruct H as [[-> (i & Hi & Hc)]|(m & order & Hm & Hp & H)].
  - split; [done|]. intros Ha. specialize (Ha i Hi). unfold succeeds in Ha. congruence.
  - destruct H as [(-> & -> & ->)|[(-> & Ho & E)|(-> & -> & Hl)]].
    + split; [|done]. intros _ i Hi. destruct (decide (succeeds_b outcome i = true)) as [E|E].
      * by apply succeeds_b_spec.
      * exfalso. rewrite succeeds_b_spec in E. apply Permutation_nil in Hp.
        assert (i ∈ unreachable outcome (S (length others))) as Hin by (by apply Hu). rewrite Hp in Hin. set_solver.
    + destruct order; [done|]. simpl in E. lia.
    + split; [done|]. intros Ha. destruct order as [|i order]; [simpl in Hl; lia|].
      assert (i ∈ unreachable outcome (S (length others))) as [Hn Hi]%Hu by (rewrite <- Hp; left). by destruct (Hn (Ha i Hi)).
Qed.
End Sending.

(** ** A concrete environment *)

Module BootstrapToy.
Import BitNames ToyCrates ToySerialize SectionKeysWitness NetworkWitness MessagesWitness CoreToy.

#[export] Instance bootstrap_env : BootstrapEnv := {|
  range_contains p n := matches p n;
  rp_create_proof_data _ _ nonce := nonce;
  rp_solve _ difficulty _ := difficulty;
|}.
#[export] Instance bootstrap_laws : BootstrapLaws (BE := bootstrap_env).
Proof. done. Qed.
End BootstrapToy.
