(* ===== verification/Dispatcher.v ===== *)
(** * Commands and incoming messages (src/routing/dispatcher.rs, src/routing/mod.rs)

    [try_handle_command] is the dispatcher's handler of one command: the handlers of the node,
    the sends of [Comm] and the relocation that replaces the whole state.  What the network and
    the clock answer during a command is the record [Outcomes].  A node is its state with the
    commands that were spawned and not handled yet; a step handles any one of them, as tasks
    are scheduled in any order.  [connection_events] is the loop over what the transport
    delivers; [None] stands for a panic. *)

From stdpp Require Import base tactics list gmap sorting.
From Stdlib Require Import ZArith Lia.
From S2P Require Import Prelude Names Crates Types Thresholds SectionPeers SectionKeys.
From S2P Require Import SectionState PrefixMap Network SplitBarrier EndUsers DkgFailure DkgSession.
From S2P Require Import DkgVoter Messages Cache MessageFilter Relocation DeliveryGroup CoreState.
From S2P Require Import Handling NodeInvariant Comm Bootstrap.

Section Dispatcher.
Context `{CR : Crates, KG : !KeyGenOps, KP : !KeyGenProgress, PMO : !PrefixMapOps OtherSection,
  MO : !MessagingOps, VA : VecDequeAlloc, CE : !CoreEnv, WO : !WireOps}.
Context `{SerView : !Serialize (DstLocation * Variant), SerNodeState : !Serialize NodeState,
  SerSap : !Serialize SectionAuthorityProvider, SerKey : !Serialize BlsPublicKey,
  SerJoins : !Serialize (MessageId * bool), SerNonce : !Serialize (XorName * Bytes),
  SerAddr : !Serialize SocketAddr}.

(** What happens outside of the node while a command is handled. *)
Record Outcomes : Type := mkOutcomes {
  o_now : readings;
  o_reachable : SocketAddr -> result unit Qp2pError * result unit Qp2pError * result unit Qp2pError;
  o_sends : nat -> result unit Qp2pError;
  o_schedule : list nat;
  o_existing : nat -> result unit Qp2pError;
  (** the timers were cancelled before, or before the sleep is over *)
  o_cancelled : bool;
  (** what [JoinAsRelocated::run] comes to *)
  o_relocated : result (Node * Section_) Error;
}.

Definition is_reachable (o : Outcomes) (addr : SocketAddr) : bool :=
  let '(config, endpoint, reachable) := o_reachable o addr in
  match comm_is_reachable config endpoint reachable with Ok _ => true | Err _ => false end.

(** the reply to a first join request of a node that cannot be reached *)
Definition reachability_failure (o : Outcomes) (sender : SocketAddr) (message : RoutingMsg) : option Variant :=
  match rm_variant message with
  | VJoinRequest join_request =>
      match jr_resource_proof_response join_request with
      | None =>
          if negb (is_reachable o sender)
          then Some (VJoinResponse (JoinRejected (RejectNodeNotReachable sender))) else None
      | Some _ => None
      end
  | VJoinAsRelocatedRequest _ None =>
      if negb (is_reachable o sender)
      then Some (VJoinAsRelocatedResponse (RelocatedNodeNotReachable sender)) else None
  | _ => None
  end.

(** that reply, when the request comes from a node *)
Definition reachability_reply (o : Outcomes) (sender : option SocketAddr) (message : RoutingMsg) :
    option (XorName * SocketAddr * Variant) :=
  match sender with
  | Some addr =>
      match reachability_failure o addr message, rm_src message with
      | Some variant, SrcAuthNode public_key _ => Some (name_from_public_key public_key, addr, variant)
      | _, _ => None
      end
  | None => None
  end.

(** the loop over the clients that a message could not be sent to *)
Fixpoint lost_clients (o : Outcomes) (i : nat) (recipients : list (XorName * SocketAddr)) (message : MessageType) :
    list Event :=
  match recipients with
  | [] => []
  | r :: rs =>
      match send_on_existing_connection r message (o_existing o i) with
      | Ok _ => lost_clients o (S i) rs message
      | Err _ => EvClientLost r.2 :: lost_clients o (S i) rs message
      end
  end.

Definition dispatcher_send_message (o : Outcomes) (recipients : list (XorName * SocketAddr))
    (delivery_group_size : nat) (message : MessageType) : M (list Command) :=
  match message with
  | MTNode _ _ _ | MTRouting _ _ =>
      status ← query (fun _ => comm_send (o_sends o) (o_schedule o) recipients delivery_group_size message);
      mret match (status : SendStatus) with
           | MinDeliveryGroupSizeReached failed_recipients
           | MinDeliveryGroupSizeFailed failed_recipients => CHandlePeerLost <$> failed_recipients
           | AllRecipients => []
           end
  | MTClient _ _ =>
      _ ← modify (fun c => foldl (fun c e => push_event e c) c (lost_clients o 0 recipients message));
      mret []
  | MTSectionInfo _ _ => mret []
  end.

Definition handle_schedule_timeout (o : Outcomes) (token : Z) : option Command :=
  if o_cancelled o then None else Some (CHandleTimeout token).

(** [*state = Core::new(node, section, None, event_tx)]: the events go to the same channel and
    the timer tokens are global *)
Definition relocated_core (node : Node) (section : Section_) (c : Core) : Core :=
  let fresh := core_new node section None (c_tokens c) in
  foldl (fun c e => push_event e c) fresh (c_events c).

Definition dispatcher_handle_relocate (o : Outcomes) : M (list Command) :=
  c ← get;
  joined ← query (fun _ => o_relocated o);
  let '(node, section) := (joined : Node * Section_) in
  _ ← modify (relocated_core node section);
  _ ← send_event (EvRelocated (our_name c) (node_keypair node));
  mret [].

Definition start_connectivity_test (c : Core) (name : XorName) : result (list Command) Error :=
  let? msg := single_src (c_node c) (DstSection (our_name c)) (VStartConnectivityTest name) (last_key c) in
  let peers := List.filter (fun peer => bool_decide (peer_name peer <> name) &&
                                        bool_decide (peer_name peer <> our_name c))
                 (active_members (c_section c)) in
  Ok (send_or_handle c msg peers).

Definition test_connectivity (o : Outcomes) (c : Core) (name : XorName) : list Command :=
  match peers_get (sec_members (c_section c)) name with
  | Some info =>
      if negb (is_reachable o (peer_addr (ns_peer info))) then [CProposeOffline (peer_name (ns_peer info))] else []
  | None => []
  end.

Definition try_handle_command (o : Outcomes) (command : Command) : M (list Command) :=
  match command with
  | CHandleMessage sender message dest_info =>
      match reachability_reply o sender message with
      | Some (name, addr, variant) =>
          query (fun c => let? cmd := send_direct_message c (name, addr) variant (last_key c) in Ok [cmd])
      | None => handle_message (o_now o) sender message dest_info
      end
  | CHandleSectionInfoMsg sender message dest_info =>
      query (fun c => Ok (handle_section_info_msg c sender message dest_info))
  | CHandleTimeout token => handle_timeout token
  | CHandleAgreement proposal signed => handle_agreement proposal signed
  | CHandleConnectionLost addr => query (fun c => handle_connection_lost c addr)
  | CHandlePeerLost addr => query (fun c => handle_peer_lost c addr)
  | CHandleDkgOutcome section_auth outcome => handle_dkg_outcome section_auth outcome
  | CHandleDkgFailure signeds => query (fun c => let? cmd := handle_dkg_failure c signeds in Ok [cmd])
  | CSendMessage recipients delivery_group_size message =>
      dispatcher_send_message o recipients delivery_group_size message
  | CSendUserMessage itinerary content _ => send_user_message (o_now o) itinerary content
  | CScheduleTimeout _ token => mret (option_list (handle_schedule_timeout o token))
  | CRelocate _ _ => dispatcher_handle_relocate o
  | CSetJoinsAllowed joins_allowed => query (fun c => set_joins_allowed c joins_allowed)
  | CProposeOnline peer previous_name destination_key =>
      query (fun c => make_online_proposal c (peer_set_reachable peer true) previous_name destination_key)
  | CProposeOffline name => query (fun c => propose_offline c name)
  | CStartConnectivityTest name => query (fun c => start_connectivity_test c name)
  | CTestConnectivity name => query (fun c => Ok (test_connectivity o c name))
  end.

(** ** Incoming messages (src/routing/mod.rs) *)

Context `{WM : !WireMsgOps, BE : !BootstrapEnv}.

(** the end user a client message is from, registered when it is new *)
Definition client_user (sender : SocketAddr) : M EndUser :=
  c ← get;
  match get_enduser_by_addr (c_end_users c) sender with
  | Some end_user => mret end_user
  | None => core_try_add sender
  end.

(** the commands that are spawned; [None] is the panic of [unimplemented!()] *)
Definition handle_message_type (sender : SocketAddr) (message_type : MessageType) : M (option (list Command)) :=
  match message_type with
  | MTSectionInfo msg dest_info => mret (Some [CHandleSectionInfoMsg sender msg dest_info])
  | MTRouting dest_info msg =>
      match check_signature msg with
      | Err _ => mret (Some [])
      | Ok _ => mret (Some [CHandleMessage (Some sender) msg dest_info])
      end
  | MTNode _ _ _ => mret None
  | MTClient msg _ =>
      end_user ← client_user sender;
      _ ← send_event (EvClientMsgReceived msg end_user);
      mret (Some [])
  end.

Definition routing_handle_message (now : readings) (bytes : Bytes) (sender : SocketAddr) :
    M (option (list Command)) :=
  match wire_from bytes with
  | Err _ => mret (Some [])
  | Ok wire_msg =>
      is_new ← core_add_to_filter now (wire_is_join_request wire_msg) (wire_msg_id wire_msg);
      if negb is_new then mret (Some [])
      else
        match wire_to_message wire_msg with
        | Err _ => mret (Some [])
        | Ok message_type => handle_message_type sender message_type
        end
  end.

(** one turn of the loop of [handle_connection_events]; an error of a client message is logged *)
Definition connection_event (e : ConnectionEvent) (c : Core) : Core * option (list Command) :=
  match e with
  | Received now sender bytes =>
      match run (routing_handle_message now bytes sender) c with
      | (c', Ok r) => (c', r)
      | (c', Err _) => (c', Some [])
      end
  | Disconnected addr => (c, Some [CHandleConnectionLost addr])
  end.

(** whether the loop is still running after the events, with the commands spawned *)
Fixpoint connection_events (es : list ConnectionEvent) (c : Core) : Core * list Command * bool :=
  match es with
  | [] => (c, [], true)
  | e :: es' =>
      match connection_event e c with
      | (c', None) => (c', [], false)
      | (c', Some cmds) =>
          let '(c'', later, alive) := connection_events es' c' in (c'', cmds ++ later, alive)
      end
  end.

(** [Routing::send_message]: the command that is handled *)
Definition send_message (c : Core) (itinerary : Itinerary) (content : Bytes)
    (additional_proof_chain_key : option BlsPublicKey) : result Command Error :=
  let relay := Ok (CSendUserMessage itinerary content additional_proof_chain_key) in
  match it_dst itinerary with
  | DstEndUser user =>
      if matches (section_prefix (c_section c)) (eu_xorname user) then
        match get_socket_addr (c_end_users c) (eu_socket_id user) with
        | Some socket_addr =>
            let? msg := map_err Messaging (client_msg_from content) in
            Ok (CSendMessage [(eu_xorname user, socket_addr)] 1
                  (MTClient msg (mkDestInfo (eu_xorname user) (last_key c))))
        | None => relay
        end
      else relay
  | _ => relay
  end.

Definition routing_set_joins_allowed (joins_allowed : bool) : Command := CSetJoinsAllowed joins_allowed.
Definition routing_propose_offline (c : Core) (name : XorName) : result Command Error :=
  if negb (core_is_elder c) then Err InvalidState else Ok (CProposeOffline name).
Definition routing_start_connectivity_test (name : XorName) : Command := CStartConnectivityTest name.

(** [Routing::new] of the first node of a network, with the event it starts with *)
Definition routing_first (node : Node) (tokens : Z) : result Core Error :=
  let? c := core_first_node node tokens in
  let elders := mkElders (section_prefix (c_section c)) (last_key c) ∅
                  (sap_names (authority_provider (c_section c))) ∅ in
  Ok (push_event (EvEldersChanged elders Promoted) c).

(** the command for a message that arrived while the node was joining *)
Definition backlog_command (entry : Backlogged) : Command :=
  let '(message, sender, dest_info) := entry in CHandleMessage (Some sender) message dest_info.

(** ** The node as a state machine *)

(** the state and the commands spawned and not handled yet *)
Definition NodeState_ : Type := Core * list Command.

(** a relocation ends with what the join of the relocated node came to, started from the node's
    identity, its genesis key and the contents of the command *)
Definition relocation_ok (o : Outcomes) (c : Core) (command : Command) : Prop :=
  match command with
  | CRelocate bootstrap_addrs details =>
      forall node section, o_relocated o = Ok (node, section) ->
      exists draws messages closed,
        relocated_run (c_node c) bootstrap_addrs (genesis_key (c_section c)) details draws messages closed =
          Finished (Ok (node, section))
  | _ => True
  end.

Inductive node_step : NodeState_ -> NodeState_ -> Prop :=
(** a spawned command is handled, with the commands it leads to spawned in turn *)
| step_command o c before cmd after c' cmds :
    relocation_ok o c cmd ->
    run (try_handle_command o cmd) c = (c', Ok cmds) ->
    node_step (c, before ++ cmd :: after) (c', before ++ after ++ cmds)
| step_error o c before cmd after c' e :
    relocation_ok o c cmd ->
    run (try_handle_command o cmd) c = (c', Err e) ->
    node_step (c, before ++ cmd :: after) (c', before ++ after)
(** the transport delivers something *)
| step_event e c pending c' cmds :
    connection_event e c = (c', Some cmds) -> node_step (c, pending) (c', pending ++ cmds)
(** the user of the library sends a message *)
| step_send c pending itinerary content key cmd :
    send_message c itinerary content key = Ok cmd -> node_step (c, pending) (c, pending ++ [cmd])
(** or asks for something else *)
| step_api c pending cmd :
    (exists b, cmd = routing_set_joins_allowed b) \/ (exists n, routing_propose_offline c n = Ok cmd) \/
      (exists n, cmd = routing_start_connectivity_test n) ->
    node_step (c, pending) (c, pending ++ [cmd]).

(** From the first node of a network, or a node that joined a section, with the messages that
    arrived meanwhile to be handled. *)
Inductive node_reachable : NodeState_ -> Prop :=
| node_first node tokens c :
    first_keys random_key_set.1 random_key_set.2 ->
    routing_first node tokens = Ok c -> node_reachable (c, [])
| node_joined node addr key draws picks events closed node' section backlog tokens :
    join_run node addr key draws picks events closed = Finished (Ok (node', section, backlog)) ->
    node_reachable (core_new node' section None tokens, backlog_command <$> backlog)
| node_next n n' : node_reachable n -> node_step n n' -> node_reachable n'.

Definition from_node (message : RoutingMsg) : bool :=
  match rm_src message with SrcAuthNode _ _ => true | _ => false end.

(** A node right after it was admitted by an approval of which nobody checked the signature of
    the authority provider: [verify_variant], which checks it, only looks at messages sent by a
    node, and not at the answer to a relocated node. *)
Inductive admitted_unchecked : NodeState_ -> Prop :=
| unchecked_join node addr key draws picks before e after closed node' section backlog tokens msg :
    join_run node addr key draws picks (before ++ e :: after) closed = Finished (Ok (node', section, backlog)) ->
    approves e (node_name node') section -> carries e msg -> from_node msg = false ->
    admitted_unchecked (core_new node' section None tokens, backlog_command <$> backlog)
| unchecked_relocation o c before addrs details after c' cmds node section :
    relocation_ok o c (CRelocate addrs details) -> o_relocated o = Ok (node, section) ->
    run (try_handle_command o (CRelocate addrs details)) c = (c', Ok cmds) ->
    admitted_unchecked (c', before ++ after ++ cmds).
End Dispatcher.

(** ** Invariance *)

Section Invariance.
Context `{CR : Crates, XL : !XorLaws, CL : !ChainLaws, KG : !KeyGenOps, KP : !KeyGenProgress,
  PMO : !PrefixMapOps OtherSection, PML : !PrefixMapLaws OtherSection, MO : !MessagingOps,
  VA : VecDequeAlloc, VL : !VecDequeAllocLaws, CE : !CoreEnv, EL : !CoreEnvLaws, WO : !WireOps, WM : !WireMsgOps, BE : !BootstrapEnv}.
Context `{SerView : !Serialize (DstLocation * Variant), SerNodeState : !Serialize NodeState,
  SerSap : !Serialize SectionAuthorityProvider, SerKey : !Serialize BlsPublicKey,
  SerJoins : !Serialize (MessageId * bool), SerNonce : !Serialize (XorName * Bytes),
  SerAddr : !Serialize SocketAddr}.

Lemma evolves_push_events es c : evolves c (foldl (fun c e => push_event e c) c es).
Proof.
  revert c; induction es as [|e es IH]; intros c; simpl; [reflexivity|].
  etransitivity; [apply evolves_event|apply IH].
Qed.

Lemma push_events_events es c : c_events (foldl (fun c e => push_event e c) c es) = c_events c ++ es.
Proof.
  revert c; induction es as [|e es IH]; intros c; simpl; [by rewrite app_nil_r|].
  rewrite IH. simpl. by rewrite <- app_assoc.
Qed.

Lemma voter_default_wf kp : voter_wf kp voter_default.
Proof. intros k s. simpl. by rewrite lookup_empty. Qed.

Lemma core_new_wf node section share tokens :
  section_wf section -> core_wf (core_new node section share tokens).
Proof.
  intros Hs. split; simpl; [done|apply network_new_signed|apply kp_new_wf| |apply voter_default_wf|
    apply end_users_new_wf].
  split; simpl; intros ? ?; set_solver.
Qed.

Lemma relocated_core_wf node section c : section_wf section -> core_wf (relocated_core node section c).
Proof. intros Hs. unfold relocated_core. eapply ev_wf; [apply evolves_push_events|]. by apply core_new_wf. Qed.

(** Every command evolves the state, except the end of a relocation, which replaces it. *)
Lemma command_evolves o cmd c :
  evolves c (run (try_handle_command o cmd) c).1 \/
  exists node section, o_relocated o = Ok (node, section) /\
    (exists addrs details, cmd = CRelocate addrs details) /\
    (run (try_handle_command o cmd) c).1 =
      push_event (EvRelocated (our_name c) (node_keypair node)) (relocated_core node section c).
Proof.
  destruct cmd; unfold try_handle_command; try (left; apply (keeps_query _)).
  - left. destruct (reachability_reply _ _ _) as [[[]]|]; [apply (keeps_query _)|apply keeps_message].
  - left. apply keeps_timeout.
  - left. apply keeps_agreement.
  - left. apply keeps_dkg_outcome.
  - left. unfold dispatcher_send_message. cut (keeps evolves (dispatcher_send_message o recipients
      delivery_group_size message)); [intros H; apply H|]. unfold dispatcher_send_message.
    keeps_steps. apply keeps_modify. intros. apply evolves_push_events.
  - left. apply keeps_user_send.
  - unfold dispatcher_handle_relocate, mbind, M_bind. simpl.
    destruct (o_relocated o) as [[node section]|e] eqn:E; simpl; [right|left; reflexivity].
    exists node, section. eauto.
Qed.

Lemma relocated_result o c cmd node section :
  relocation_ok o c cmd -> o_relocated o = Ok (node, section) ->
  (exists addrs details, cmd = CRelocate addrs details) -> section_wf section.
Proof.
  intros Ho E (addrs & details & ->). destruct (Ho node section E) as (draws & messages & closed & H).
  by eapply relocated_run_wf.
Qed.

Lemma command_wf o cmd c :
  relocation_ok o c cmd -> core_wf c -> core_wf (run (try_handle_command o cmd) c).1.
Proof.
  intros Ho Hc. destruct (command_evolves o cmd c) as [H|(node & section & E & Hr & ->)]; [by eapply ev_wf|].
  eapply ev_wf; [apply evolves_event|]. apply relocated_core_wf. by eapply relocated_result.
Qed.

Lemma keeps_routing_message now bytes sender : keeps evolves (routing_handle_message now bytes sender).
Proof.
  unfold routing_handle_message, handle_message_type, client_user.
  keeps_steps; first [apply keeps_add_to_filter | apply keeps_event | apply keeps_try_add].
Qed.

Lemma connection_event_evolves e c : evolves c (connection_event e c).1.
Proof.
  destruct e as [now sender bytes|addr]; simpl; [|reflexivity].
  pose proof (keeps_routing_message now bytes sender c) as H. unfold keeps_at in H.
  destruct (run (routing_handle_message now bytes sender) c) as [c' [r|e]]; exact H.
Qed.

(** A join ends with a verified authority provider, or its approval was not sent by a node. *)
Lemma join_auth node addr key draws picks events closed node' section backlog tokens :
  join_run node addr key draws picks events closed = Finished (Ok (node', section, backlog)) ->
  auth_verified section \/ admitted_unchecked (core_new node' section None tokens, backlog_command <$> backlog).
Proof.
  intros Hj. destruct (join_run_approved _ _ _ _ _ _ _ _ _ _ Hj) as (before & e & after & j & -> & _ & Ha & -> & _).
  pose proof Ha as (msg & _ & _ & _ & _ & Hc & _).
  destruct (from_node msg) eqn:Ef; [left|right; by eapply unchecked_join].
  unfold from_node in Ef. destruct (rm_src msg) as [pk sig| |] eqn:Es; try done.
  pose proof (approves_signed _ _ _ _ _ _ Ha Hc Es) as H. by apply andb_true_iff in H as [_ ?].
Qed.

(** No step takes over an authority provider with an invalid signature but a relocation. *)
Lemma node_step_auth n n' :
  node_step n n' -> auth_kept (c_section n.1) (c_section n'.1) \/ admitted_unchecked n'.
Proof.
  destruct 1 as [o c bf cmd af c' cmds Ho Hr|o c bf cmd af c' e Ho Hr|e c p c' cmds He|c p i b k cmd _|c p cmd _];
    simpl; try (left; reflexivity).
  - destruct (command_evolves o cmd c) as [H|(node & section & E & (addrs & details & ->) & _)].
    + left. rewrite Hr in H. apply H.
    + right. by eapply unchecked_relocation.
  - destruct (command_evolves o cmd c) as [H|(node & section & E & (addrs & details & ->) & _)].
    + left. rewrite Hr in H. apply H.
    + revert Hr. unfold try_handle_command, dispatcher_handle_relocate, mbind, M_bind. simpl. by rewrite E.
  - left. pose proof (connection_event_evolves e c) as H. rewrite He in H. apply H.
Qed.

Lemma reachable_auth n :
  node_reachable n ->
  auth_verified (c_section n.1) \/
  exists n0, node_reachable n0 /\ admitted_unchecked n0 /\ rtc node_step n0 n /\
    sec_section_auth (c_section n.1) = sec_section_auth (c_section n0.1).
Proof.
  induction 1 as [node tokens c0 Hk Hf|node addr key draws picks events closed node' section backlog tokens
    Hs|n n' Hn IH Hst].
  - left. revert Hf. unfold routing_first, core_first_node.
    destruct (first_node _ _ _) as [[s share]|] eqn:E; simpl; [|done]. intros [= <-]. by eapply first_node_verified.
  - destruct (join_auth _ _ _ _ _ _ _ _ _ _ tokens Hs) as [H|H]; [by left|right].
    eexists. split; [by eapply node_joined|]. split; [exact H|]. by split; [reflexivity|].
  - destruct (node_step_auth n n' Hst) as [[E|H]|H]; [|by left|].
    + destruct IH as [H|(n0 & H0 & H1 & H2 & H3)]; [left; unfold auth_verified; by rewrite E|right].
      exists n0. split; [done|]. split; [done|]. split; [by eapply rtc_r|]. congruence.
    + right. exists n'. split; [by eapply node_next|]. split; [done|]. by split; [reflexivity|].
Qed.

Lemma reachable_wf n : node_reachable n -> core_wf n.1.
Proof.
  induction 1 as [node tokens c0 Hk Hf|node addr key draws picks events closed node' section backlog tokens
    Hs|n n' _ IH Hst].
  - revert Hf. unfold routing_first, core_first_node.
    destruct (first_node _ _ _) as [[s share]|] eqn:E; simpl; [|done]. intros [= <-].
    eapply ev_wf; [apply evolves_event|]. by eapply core_new_wf, first_node_wf.
  - apply core_new_wf. by eapply join_run_wf.
  - destruct Hst as [o c0 bf cmd af c' cmds Ho Hr|o c0 bf cmd af c' e Ho Hr|e c0 p c' cmds He|c0 p i b k cmd _|
      c0 p cmd _]; simpl in *; try done.
    + pose proof (command_wf o cmd c0 Ho IH) as H. by rewrite Hr in H.
    + pose proof (command_wf o cmd c0 Ho IH) as H. by rewrite Hr in H.
    + eapply ev_wf; [|exact IH]. pose proof (connection_event_evolves e c0) as H. by rewrite He in H.
Qed.

Lemma network_all_new : network_all network_new = [].
Proof.
  unfold network_all. simpl. destruct (pmap_iter pmap_new) as [|o l] eqn:E; [done|].
  assert (o ∈ pmap_iter (pmap_new (T := OtherSection))) as Ho by (rewrite E; left).
  apply pmap_iter_get in Ho. by rewrite pmap_get_new in Ho.
Qed.

Lemma relocated_fields node section (c : Core) :
  let d := push_event (EvRelocated (our_name c) (node_keypair node)) (relocated_core node section c) in
  c_node d = node /\ c_events d = c_events c ++ [EvRelocated (our_name c) (node_keypair node)] /\
  c_relocate_state d = None /\ network_all (c_network d) = [] /\
  kp_key_share (c_keys d) = Err MissingSecretKeyShare /\ c_end_users d = end_users_new.
Proof.
  unfold relocated_core. set (fresh := core_new node section None (c_tokens c)).
  assert (forall es (x : Core), let y := foldl (fun c e => push_event e c) x es in
    c_node y = c_node x /\ c_relocate_state y = c_relocate_state x /\ c_network y = c_network x /\
    c_keys y = c_keys x /\ c_end_users y = c_end_users x) as Hf.
  { intros es; induction es as [|e es IH]; intros x; simpl; [done|]. apply (IH (push_event e x)). }
  destruct (Hf (c_events c) fresh) as (H1 & H2 & H3 & H4 & H5). cbn zeta. simpl.
  rewrite H1, H2, H3, H4, H5, push_events_events. repeat split; try done. apply network_all_new.
Qed.

End Invariance.

(** ** Claims *)

Section Claims.
Context `{CR : Crates, XL : !XorLaws, CL : !ChainLaws, KG : !KeyGenOps, KP : !KeyGenProgress,
  PMO : !PrefixMapOps OtherSection, PML : !PrefixMapLaws OtherSection, MO : !MessagingOps,
  VA : VecDequeAlloc, VL : !VecDequeAllocLaws, CE : !CoreEnv, EL : !CoreEnvLaws, WO : !WireOps, WM : !WireMsgOps, BE : !BootstrapEnv}.
Context `{SerView : !Serialize (DstLocation * Variant), SerNodeState : !Serialize NodeState,
  SerSap : !Serialize SectionAuthorityProvider, SerKey : !Serialize BlsPublicKey,
  SerJoins : !Serialize (MessageId * bool), SerNonce : !Serialize (XorName * Bytes),
  SerAddr : !Serialize SocketAddr}.

(** C1: the invariant of a node holds in every state it can reach, from the first node of a
    network or from a join, whatever messages, timeouts, agreements, DKG results, requests and
    relocations are handled in whatever order: the section's authority names the last key of
    its chain as its signer and every member record verifies against the chain, every known
    section is signed by its claimed key, the key cache is within its bounds, the split barrier
    holds no two siblings, every DKG session is one the node takes part in, and the registry of
    end users maps addresses and socket ids one to one.  The signature of the section's
    authority is valid too, or it is still the one of the approval the node was last admitted
    with, and that approval was not sent by a node or was the answer to a relocation: then
    nobody checked it. *)
Theorem node_invariant (c : Core) (pending : list Command) :
  node_reachable (c, pending) ->
  core_wf c /\
  (auth_verified (c_section c) \/
   exists n0, node_reachable n0 /\ admitted_unchecked n0 /\ rtc node_step n0 (c, pending) /\
     sec_section_auth (c_section c) = sec_section_auth (c_section n0.1)).
Proof. intros H. split; [exact (reachable_wf _ H)|exact (reachable_auth _ H)]. Qed.

(** C17: what a node did stays done.  Across any step, the name and keys of the node and the
    genesis key stay, the chain only gains keys, no event is taken back and the relocation state
    only advances; the only step that replaces the state is the end of a relocation, and that one
    keeps the events, reports the new identity and starts without network, keys and end users. *)
Theorem node_history (c c' : Core) (pending pending' : list Command) :
  node_step (c, pending) (c', pending') ->
  (c_node c' = c_node c /\ section_extends (c_section c) (c_section c') /\
   c_events c `prefix_of` c_events c' /\
   relocation_rank (c_relocate_state c) <= relocation_rank (c_relocate_state c')) \/
  (exists node, c_node c' = node /\
     c_events c' = c_events c ++ [EvRelocated (our_name c) (node_keypair node)] /\
     c_relocate_state c' = None /\ network_all (c_network c') = [] /\
     kp_key_share (c_keys c') = Err MissingSecretKeyShare /\ c_end_users c' = end_users_new).
Proof.
  assert (forall d, evolves c d -> c_node d = c_node c /\ section_extends (c_section c) (c_section d) /\
    c_events c `prefix_of` c_events d /\
    relocation_rank (c_relocate_state c) <= relocation_rank (c_relocate_state d)) as Hev by (intros d []; auto).
  assert (forall o cmd, (run (try_handle_command o cmd) c).1 = c' ->
    (c_node c' = c_node c /\ section_extends (c_section c) (c_section c') /\
     c_events c `prefix_of` c_events c' /\
     relocation_rank (c_relocate_state c) <= relocation_rank (c_relocate_state c')) \/
    exists node, c_node c' = node /\
     c_events c' = c_events c ++ [EvRelocated (our_name c) (node_keypair node)] /\
     c_relocate_state c' = None /\ network_all (c_network c') = [] /\
     kp_key_share (c_keys c') = Err MissingSecretKeyShare /\ c_end_users c' = end_users_new) as Hcmd.
  { intros o cmd <-. destruct (command_evolves o cmd c) as [H|(node & section & _ & _ & ->)]; [by left; apply Hev|].
    right. exists node. apply relocated_fields. }
  intros Hst. inversion Hst as [o c0 bf cmd af d cmds _ Hr|o c0 bf cmd af d e _ Hr|e c0 p d cmds He|c0 p i b k cmd _|
    c0 p cmd _]; subst; try (left; apply Hev; reflexivity).
  - apply (Hcmd o cmd). by rewrite Hr.
  - apply (Hcmd o cmd). by rewrite Hr.
  - left. apply Hev. pose proof (connection_event_evolves e c) as H. by rewrite He in H.
Qed.

(** A [Node] message, which any peer can send, ends the loop that receives messages: the
    handler panics, and nothing that arrives later is handled. *)
Theorem node_message_ends_loop (now : readings) (bytes : Bytes) (sender : SocketAddr) (es : list ConnectionEvent)
    (c : Core) (wire_msg : WireMsg) (msg : NodeMsg) (dest_info : DestInfo) (src_section_pk : BlsPublicKey) :
  wire_from bytes = Ok wire_msg ->
  (run (core_add_to_filter now (wire_is_join_request wire_msg) (wire_msg_id wire_msg)) c).2 = Ok true ->
  wire_to_message wire_msg = Ok (MTNode msg dest_info src_section_pk) ->
  exists c', connection_events (Received now sender bytes :: es) c = (c', [], false) /\
    c_section c' = c_section c /\ c_events c' = c_events c.
Proof.
  intros Hw Hf Hm. cbn [connection_events connection_event]. unfold routing_handle_message.
  rewrite Hw. unfold mbind, M_bind; cbn [run].
  assert (forall d, (run (core_add_to_filter now (wire_is_join_request wire_msg) (wire_msg_id wire_msg)) c).1 = d ->
    c_section d = c_section c /\ c_events d = c_events c) as Hd.
  { intros d <-. unfold core_add_to_filter, step.
    destruct (wire_is_join_request wire_msg) as [[]|]; simpl; [done| |];
      by destruct (add_to_filter now (c_msg_filter c) (wire_msg_id wire_msg)). }
  destruct (run (core_add_to_filter _ _ _) c) as [d r]. simpl in Hf, Hd. subst r. simpl. rewrite Hm. simpl.
  exists d. split; [done|]. by apply Hd.
Qed.

(** C37: the filter comes before the check of the signature.  A message that carries the id of
    another one and an invalid signature is dropped, but its id stays in the filter, so the
    genuine message with that id, which on its own leads to a command, is dropped as well when
    it arrives within the twenty minutes of the filter. *)
Theorem forged_message_shadows_genuine (c : Core) (now now' : readings) (forged genuine : Bytes)
    (sender sender' : SocketAddr) (w w' : WireMsg) (m m' : RoutingMsg) (d d' : DestInfo) (e : Error) :
  wire_from forged = Ok w -> wire_from genuine = Ok w' -> wire_msg_id w = wire_msg_id w' ->
  wire_is_join_request w = Ok false -> wire_is_join_request w' = Ok false ->
  wire_to_message w = Ok (MTRouting d m) -> wire_to_message w' = Ok (MTRouting d' m') ->
  check_signature m = Err e -> check_signature m' = Ok tt ->
  filter_has_room (c_msg_filter c) ->
  (add_to_filter now' (c_msg_filter c) (wire_msg_id w')).2 = true ->
  (r_sweep now <= r_item now + INCOMING_EXPIRY_DURATION)%Z ->
  (r_replaced now' <= r_item now + INCOMING_EXPIRY_DURATION)%Z ->
  (connection_events [Received now' sender' genuine] c).1.2 = [CHandleMessage (Some sender') m' d'] /\
  (connection_events [Received now sender forged; Received now' sender' genuine] c).1.2 = [].
Proof.
  intros Hw Hw' Hid Hj Hj' Hm Hm' Hs Hs' Hroom Hnew H1 H2.
  assert (forall r x a bytes wm (is_new : bool),
    wire_from bytes = Ok wm -> wire_is_join_request wm = Ok false ->
    (add_to_filter r (c_msg_filter x) (wire_msg_id wm)).2 = is_new ->
    connection_event (Received r a bytes) x =
    (let y := set_msg_filter (add_to_filter r (c_msg_filter x) (wire_msg_id wm)).1 x in
     if negb is_new then (y, Some [])
     else match wire_to_message wm with
          | Err _ => (y, Some [])
          | Ok t => match run (handle_message_type a t) y with (z, Ok o) => (z, o) | (z, Err _) => (z, Some []) end
          end)) as Hev.
  { intros r x a bytes wm is_new E1 E2 E3. cbn [connection_event]. cbn zeta. unfold routing_handle_message. rewrite E1, E2.
    unfold core_add_to_filter, step, mbind, M_bind; cbn [run].
    destruct (add_to_filter r (c_msg_filter x) (wire_msg_id wm)) as [f b]. simpl in *. subst b.
    destruct is_new; simpl; [|done]. by destruct (wire_to_message wm). }
  split.
  - cbn [connection_events]. rewrite (Hev _ _ _ _ _ true Hw' Hj' Hnew). simpl. rewrite Hm'. simpl.
    rewrite Hs'. simpl. done.
  - cbn [connection_events].
    assert (forall b, (add_to_filter now (c_msg_filter c) (wire_msg_id w)).2 = b ->
      connection_event (Received now sender forged) c =
      (set_msg_filter (add_to_filter now (c_msg_filter c) (wire_msg_id w)).1 c, Some [])) as Hf.
    { intros b Hb. rewrite (Hev _ _ _ _ _ b Hw Hj Hb). destruct b; simpl; [|done]. rewrite Hm. simpl.
      by rewrite Hs. }
    rewrite (Hf _ eq_refl).
    set (y := set_msg_filter (add_to_filter now (c_msg_filter c) (wire_msg_id w)).1 c).
    assert ((add_to_filter now' (c_msg_filter y) (wire_msg_id w')).2 = false) as Hold.
    { rewrite <- Hid. by apply add_to_filter_again. }
    by rewrite (Hev now' y sender' genuine w' false Hw' Hj' Hold).
Qed.
End Claims.

(** ** Witnesses *)

Module NodeToy.
Import BitNames ToyCrates ToySerialize SectionKeysWitness NetworkWitness EndUsersWitness MessagesWitness CoreToy
  CommWitness BootstrapToy MessageFilterWitness.

#[export] Instance keygen_progress : KeyGenProgress (KG := keygen).
Proof. refine {| kg_measure := fun _ : KeyGen => 0 |}; simpl; intros; first [lia | done]. Defined.

#[export] Instance env_laws : CoreEnvLaws (CE := env).
Proof. intros m. reflexivity. Qed.

(** a genuine message, and one with the same id that nobody signed *)
Definition genuine_msg : RoutingMsg :=
  mkRoutingMsg id7 (SrcAuthNode (to_name 1 : EdPublicKey) ((to_name 1, bytes3) : EdSignature)) dst3
    AggregationNone hello key1.
Definition forged_msg : RoutingMsg :=
  mkRoutingMsg id7 (SrcAuthNode (to_name 1 : EdPublicKey) ((to_name 1, []) : EdSignature)) dst3
    AggregationNone hello key1.
Definition dest0 : DestInfo := mkDestInfo (to_name 3) key1.

(** the three messages on the wire, by their first byte *)
#[export] Instance wire_msgs : WireMsgOps := {|
  WireMsg := Z;
  wire_from bytes := match bytes with b :: _ => Ok b | [] => Err tt end;
  wire_msg_id _ := 7%N;
  wire_is_join_request _ := Ok false;
  wire_deserialize _ := Err tt;
  wire_to_message w :=
    Ok (if (w =? 0)%Z then MTNode ([] : NodeMsg) dest0 key1
        else if (w =? 1)%Z then MTRouting dest0 genuine_msg else MTRouting dest0 forged_msg);
|}.

Definition node_wire : WireMsg := 0%Z.
Definition genuine_wire : WireMsg := 1%Z.
Definition forged_wire : WireMsg := 2%Z.
Definition node_payload : NodeMsg := [].

Definition first_core : result Core Error := routing_first node1 0.
Definition core1 : Core :=
  match first_core with Ok c => c | Err _ => core_new node1 SectionWitness.section0 None 0 end.

Definition quiet : Outcomes :=
  mkOutcomes (at_time 0) (fun _ => (Ok tt, Ok tt, Ok tt)) (fun _ => Ok tt) [] (fun _ => Ok tt) false
    (Err InvalidState).
End NodeToy.

Module DispatcherWitness.
Import BitNames ToyCrates ToySerialize SectionKeysWitness NetworkWitness EndUsersWitness MessagesWitness CoreToy
  CommWitness BootstrapToy MessageFilterWitness NodeToy.

Lemma core1_first : routing_first node1 0 = Ok core1.
Proof. reflexivity. Qed.

Lemma keys9 : first_keys (random_key_set.1) (random_key_set.2).
Proof.
  intros msg sig. simpl. case_decide; [|done]. intros [= <-]. by apply bool_decide_eq_true.
Qed.

Lemma node_invariant_witness :
  core_wf core1 /\
  (auth_verified (c_section core1) \/
   exists n0, node_reachable n0 /\ admitted_unchecked n0 /\ rtc node_step n0 (core1, []) /\
     sec_section_auth (c_section core1) = sec_section_auth (c_section n0.1)).
Proof. apply (node_invariant core1 []). apply (node_first node1 0 core1 keys9 core1_first). Defined.

Lemma snoc_ne {A : Type} (l : list A) x : l <> l ++ [x].
Proof. intros E%(f_equal length). rewrite length_app in E. simpl in E. lia. Qed.

(** an agreement that closes the section to new nodes *)
Definition close_joins : Command := CHandleAgreement (PJoinsAllowed (id7, false)) signed1.

Lemma node_history_witness :
  node_step (core1, [close_joins]) (set_joins false core1, []) /\
  section_extends (c_section core1) (c_section (set_joins false core1)).
Proof.
  assert (node_step (core1, [close_joins]) (set_joins false core1, [])) as H.
  { exact (step_command quiet core1 [] close_joins [] (set_joins false core1) []
      I eq_refl). }
  split; [exact H|]. destruct (node_history _ _ _ _ H) as [(_ & E & _)|(n & _ & E & _)]; [exact E|].
  destruct (snoc_ne _ _ E).
Defined.

Definition node_bytes : Bytes := [0%Z].
Definition genuine_bytes : Bytes := [1%Z].
Definition forged_bytes : Bytes := [2%Z].
Definition peer9 : SocketAddr := SocketAddrV4 9 9.

Lemma node_message_ends_loop_witness :
  (connection_events [Received (at_time 1) peer9 node_bytes; Received (at_time 2) peer9 genuine_bytes] core1).2 =
    false.
Proof.
  destruct (node_message_ends_loop (at_time 1) node_bytes peer9 [Received (at_time 2) peer9 genuine_bytes] core1
    node_wire node_payload dest0 key1 eq_refl eq_refl eq_refl) as (c' & -> & _). reflexivity.
Defined.

Lemma forged_message_shadows_genuine_witness :
  (connection_events [Received (at_time 2) peer9 genuine_bytes] core1).1.2 =
    [CHandleMessage (Some peer9) genuine_msg dest0] /\
  (connection_events [Received (at_time 1) peer9 forged_bytes; Received (at_time 2) peer9 genuine_bytes] core1).1.2 =
    [].
Proof.
  apply (forged_message_shadows_genuine core1 (at_time 1) (at_time 2) forged_bytes genuine_bytes peer9 peer9
    forged_wire genuine_wire forged_msg genuine_msg dest0 dest0 (ErrCreate CreateFailedSignature));
    try reflexivity; try (vm_compute; discriminate).
  split; [reflexivity|vm_compute; discriminate].
Defined.
End DispatcherWitness.
