(* ===== verification/NodeClaims.v ===== *)
(** * What the handlers of a node guarantee

    Theorems about the handlers of [CoreState] and [Handling]: which messages may change the
    state, who is let into the section, how an outdated sender is brought up to date, what is
    reported when the elders change, and how a node that comes back is treated. *)

From stdpp Require Import base tactics list gmap sorting.
From Stdlib Require Import ZArith Lia.
From S2P Require Import Prelude Names Crates Types Thresholds SectionPeers SectionKeys.
From S2P Require Import SectionState PrefixMap Network SplitBarrier EndUsers DkgFailure DkgSession.
From S2P Require Import DkgVoter Messages Cache MessageFilter Relocation DeliveryGroup CoreState.
From S2P Require Import Handling NodeInvariant Comm Dispatcher.

Section Untouched.
Context `{CR : Crates, KG : !KeyGenOps, KP : !KeyGenProgress, PMO : !PrefixMapOps OtherSection,
  MO : !MessagingOps, VA : VecDequeAlloc, CE : !CoreEnv}.
Context `{SerView : !Serialize (DstLocation * Variant), SerNodeState : !Serialize NodeState,
  SerSap : !Serialize SectionAuthorityProvider, SerKey : !Serialize BlsPublicKey,
  SerJoins : !Serialize (MessageId * bool), SerNonce : !Serialize (XorName * Bytes),
  SerAddr : !Serialize SocketAddr}.

(** The states differ at most in the message filter, in the shares collected for messages and in
    the replies passed on to a relocation in progress. *)
Record untouched (c c' : Core) : Prop := {
  ut_node : c_node c' = c_node c;
  ut_section : c_section c' = c_section c;
  ut_network : c_network c' = c_network c;
  ut_keys : c_keys c' = c_keys c;
  ut_proposals : c_proposal_aggregator c' = c_proposal_aggregator c;
  ut_barrier : c_split_barrier c' = c_split_barrier c;
  ut_dkg : c_dkg_voter c' = c_dkg_voter c;
  ut_events : c_events c' = c_events c;
  ut_joins : c_joins_allowed c' = c_joins_allowed c;
  ut_users : c_end_users c' = c_end_users c;
  ut_relocation : relocation_rank (c_relocate_state c') = relocation_rank (c_relocate_state c);
}.

#[global] Instance untouched_preorder : PreOrder untouched.
Proof. split; [by split|]. intros a b c [] []. split; congruence. Qed.

Lemma untouched_relay now msg : keeps untouched (relay_message now msg).
Proof.
  unfold relay_message. keeps_steps. apply keeps_step. intros c. destruct (filter_targets _ _ _ _). by split.
Qed.
Lemma untouched_relay_all now msgs : keeps untouched (relay_all now msgs).
Proof.
  induction msgs as [|m ms IH]; cbn [relay_all]; [apply (keeps_ret _)|].
  keeps_steps; [apply untouched_relay|apply IH].
Qed.
Lemma untouched_entropy now msg d : keeps untouched (check_for_entropy now msg d).
Proof. unfold check_for_entropy. keeps_steps. apply untouched_relay_all. Qed.
Lemma untouched_aggregate m : keeps untouched (aggregate_message m).
Proof.
  unfold aggregate_message. keeps_steps. apply keeps_step. intros c.
  destruct (aggregator_add _ _ _) as [agg r]. by split.
Qed.
Lemma untouched_forward m s : keeps untouched (forward_to_relocation m s).
Proof.
  apply keeps_modify. intros c. destruct (c_relocate_state c) as [[|l]|] eqn:Er; try reflexivity.
  destruct s; [|reflexivity]. split; try done. simpl. by rewrite Er.
Qed.

(** replies to join requests, which are checked by the task that joins *)
Definition is_join_reply (v : Variant) : bool :=
  match v with VJoinResponse _ | VJoinAsRelocatedResponse _ => true | _ => false end.

Lemma into_dst_accumulated_variant m sg m' :
  into_dst_accumulated m sg = Ok m' -> rm_variant m' = rm_variant m.
Proof.
  destruct m as [id src dst agg v pk]. unfold into_dst_accumulated; simpl. destruct src; try done.
  case_decide; [done|]. case_decide; [done|]. destruct (signable_bytes dst v) as [bytes|]; simpl; [|done].
  destruct (signed_verify sg bytes); simpl; [|done]. by intros [= <-].
Qed.

Lemma aggregate_variant m c c' m' :
  run (aggregate_message m) c = (c', Ok (Some m')) -> rm_variant m' = rm_variant m.
Proof.
  unfold aggregate_message. destruct (rm_src m) eqn:Es; try by intros [= _ <-].
  unfold mbind, M_bind, query, step; cbn [run].
  destruct (signable_bytes _ _) as [bytes|]; [|done]. cbn [run].
  destruct (aggregator_add _ _ _) as [agg [sg|e]]; cbn [run].
  - destruct (into_dst_accumulated m sg) as [m2|] eqn:Ei; simpl; [|done]. intros [= _ <-].
    by eapply into_dst_accumulated_variant.
  - by case_decide.
Qed.

Lemma untouched_join_reply sender m d :
  is_join_reply (rm_variant m) = true -> keeps untouched (handle_useful_message sender m d).
Proof.
  intros Hv c. unfold handle_useful_message. apply (keeps_at_bind _); [apply untouched_aggregate|].
  intros [m'|] c' Ha; [|apply (keeps_ret _)]. apply aggregate_variant in Ha. rewrite <- Ha in Hv.
  unfold dispatch_variant. destruct (rm_variant m'); try done; cbn zeta.
  apply (keeps_at_bind _); [apply untouched_forward|]. intros. apply (keeps_ret _).
Qed.

(** What counts as useful was verified, replies to join requests apart. *)
Lemma useful_verified c m :
  decide_message_status c m = Ok Useful ->
  verify_message c m = Ok true \/ is_join_reply (rm_variant m) = true.
Proof.
  unfold decide_message_status.
  destruct (early_status c m) as [s|] eqn:Ee.
  - intros [= ->]. right. revert Ee. unfold early_status, decide_propose_status, decide_relocate_promise_status.
    destruct (rm_variant m); simpl; try done; repeat case_match; done.
  - destruct (verify_message c m) as [[]|]; simpl; [by left| |]; done.
Qed.
End Untouched.

(** ** Helpers on joining *)

Section Joining.
Context `{CR : Crates, KG : !KeyGenOps, KP : !KeyGenProgress, PMO : !PrefixMapOps OtherSection,
  MO : !MessagingOps, VA : VecDequeAlloc, CE : !CoreEnv}.
Context `{SerView : !Serialize (DstLocation * Variant), SerNodeState : !Serialize NodeState,
  SerSap : !Serialize SectionAuthorityProvider, SerKey : !Serialize BlsPublicKey,
  SerJoins : !Serialize (MessageId * bool), SerNonce : !Serialize (XorName * Bytes),
  SerAddr : !Serialize SocketAddr}.

(** the age a new node has to have: a range in the first section, the adult age later *)
Definition age_admitted (c : Core) (age : Z) : Prop :=
  if decide (bit_count (section_prefix (c_section c)) = 0)
  then (FIRST_SECTION_MIN_AGE <= age <= FIRST_SECTION_MAX_AGE)%Z else age = MIN_ADULT_AGE.

(** what a request has to be for the node to be proposed *)
Definition join_admissible (c : Core) (peer : Peer) (req : JoinRequest) : Prop :=
  matches (section_prefix (c_section c)) (peer_name peer) = true /\
  jr_section_key req = last_key c /\
  peers_is_joined (sec_members (c_section c)) (peer_name peer) = false /\
  c_joins_allowed c = true /\ age_admitted c (peer_age peer) /\
  exists response, jr_resource_proof_response req = Some response /\
    validate_resource_proof_response c (peer_name peer) response = true.

(** when a request is answered, and with what *)
Definition join_answer (c : Core) (peer : Peer) (req : JoinRequest) (response : JoinResponse) : Prop :=
  match response with
  | JoinRetry section_auth =>
      section_auth = authority_provider (c_section c) /\
      (matches (section_prefix (c_section c)) (peer_name peer) = false \/ jr_section_key req <> last_key c \/
       ~ age_admitted c (peer_age peer))
  | JoinRejected RejectJoinsDisallowed => c_joins_allowed c = false
  | JoinResourceChallenge _ _ _ _ =>
      c_joins_allowed c = true /\ age_admitted c (peer_age peer) /\ jr_resource_proof_response req = None
  | _ => False
  end.

(** and when it is not *)
Definition join_ignored (c : Core) (peer : Peer) (req : JoinRequest) : Prop :=
  peers_is_joined (sec_members (c_section c)) (peer_name peer) = true \/ ~ age_admitted c (peer_age peer) \/
  exists response, jr_resource_proof_response req = Some response /\
    validate_resource_proof_response c (peer_name peer) response = false.

(** a reply is one message to the peer *)
Lemma reply_only c peer v cmds :
  reply c peer v = Ok cmds ->
  exists msg dest, cmds = [send_message_to_node (peer_entry peer) msg dest] /\ rm_variant msg = v.
Proof.
  unfold reply, send_direct_message. destruct (single_src _ _ _ _) as [msg|] eqn:Es; simpl; [|done].
  intros [= <-]. apply single_src_fields in Es as (_ & _ & _ & _ & Hv & _). by eexists msg, _.
Qed.

(** the end of the handler, once everything but the resource proof is in order *)
Lemma join_with_age_cases c peer req :
  c_joins_allowed c = true -> age_admitted c (peer_age peer) ->
  let result := join_with_age c peer req (peer_age peer) in
  ((exists response, jr_resource_proof_response req = Some response /\
      validate_resource_proof_response c (peer_name peer) response = true) /\
   result = Ok [CProposeOnline peer None None]) \/
  ~ (exists response, jr_resource_proof_response req = Some response /\
      validate_resource_proof_response c (peer_name peer) response = true) /\
  (result = Ok [] /\ join_ignored c peer req \/
   (exists response, join_answer c peer req response /\ result = reply c peer (VJoinResponse response)) \/
   serialize (peer_name peer, random_nonce) = None /\ result = Err InvalidMessage).
Proof.
  intros Hj Ha. cbn zeta. unfold join_with_age. rewrite bool_decide_false by tauto.
  destruct (jr_resource_proof_response req) as [response|] eqn:Er.
  - destruct (validate_resource_proof_response _ _ response) eqn:Ev; cbn [negb]; [left; eauto|right].
    split; [intros (x & [= <-] & Hx); congruence|]. left. split; [done|]. right. right. eauto.
  - right. split; [by intros (x & ? & _)|]. right. unfold send_resource_proof_challenge.
    destruct (serialize _) as [bytes|]; simpl; [left|by right]. eexists (JoinResourceChallenge _ _ _ _).
    split; [done|]. reflexivity.
Qed.

Lemma join_request_cases c peer req :
  let result := handle_join_request c peer req in
  (join_admissible c peer req /\ result = Ok [CProposeOnline peer None None]) \/
  ~ join_admissible c peer req /\
  (result = Ok [] /\ join_ignored c peer req \/
   (exists response, join_answer c peer req response /\ result = reply c peer (VJoinResponse response)) \/
   serialize (peer_name peer, random_nonce) = None /\ result = Err InvalidMessage).
Proof.
  cbn zeta.
  pose proof (join_with_age_cases c peer req) as Hage.
  unfold handle_join_request, join_admissible, age_admitted in *. cbn zeta in *.
  destruct (matches _ (peer_name peer)) eqn:Em; cbn [negb orb]; cycle 1.
  { right. split; [naive_solver|]. right; left. exists (JoinRetry (authority_provider (c_section c))). simpl. auto. }
  case_bool_decide as Ek.
  { right. split; [naive_solver|]. right; left. exists (JoinRetry (authority_provider (c_section c))). simpl. auto. }
  assert (jr_section_key req = last_key c) as Ek' by (destruct (decide (jr_section_key req = last_key c)); tauto).
  destruct (peers_is_joined _ _) eqn:Ej.
  { right. split; [naive_solver|]. left. split; [done|]. by left. }
  destruct (c_joins_allowed c) eqn:Ea; cbn [negb]; cycle 1.
  { right. split; [naive_solver|]. right; left. by exists (JoinRejected RejectJoinsDisallowed). }
  case_bool_decide as Eb.
  - rewrite decide_True in * by done. destruct (_ || _)%bool eqn:Eage.
    + assert (~ (FIRST_SECTION_MIN_AGE <= peer_age peer <= FIRST_SECTION_MAX_AGE)%Z).
      { apply orb_true_iff in Eage as [E%Z.ltb_lt|E%Z.ltb_lt]; lia. }
      right. split; [naive_solver|]. left. split; [done|]. right; left. unfold age_admitted. by rewrite decide_True.
    + apply orb_false_iff in Eage as [E1%Z.ltb_ge E2%Z.ltb_ge].
      destruct (Hage eq_refl (conj E1 E2)) as [[H1 H2]|[H1 H2]]; [left|right].
      * split; [|exact H2]. do 4 (split; [done|]). by split.
      * split; [|exact H2]. intros (_ & _ & _ & _ & _ & H). exact (H1 H).
  - rewrite decide_False in * by done. case_bool_decide as E.
    + right. split; [naive_solver|]. right; left. exists (JoinRetry (authority_provider (c_section c))). simpl.
      split; [|done]. split; [done|]. right; right. unfold age_admitted. by rewrite decide_False.
    + assert (peer_age peer = MIN_ADULT_AGE) as Eage by (destruct (decide (peer_age peer = MIN_ADULT_AGE)); tauto).
      rewrite <- Eage.
      destruct (Hage eq_refl Eage) as [[H1 H2]|[H1 H2]]; [left|right].
      * split; [|exact H2]. do 4 (split; [done|]). by split.
      * split; [|exact H2]. intros (_ & _ & _ & _ & _ & H). exact (H1 H).
Qed.

(** what a request by relocation has to be for the node to be proposed *)
Definition relocation_admissible (c : Core) (peer : Peer) (key : BlsPublicKey) (payload : RelocatePayload)
    (details : RelocateDetails) : Prop :=
  payload_relocate_details payload = Ok details /\
  matches (section_prefix (c_section c)) (peer_name peer) = true /\ key = last_key c /\
  peers_is_joined (sec_members (c_section c)) (peer_name peer) = false /\
  payload_verify_identity payload (peer_name peer) = true /\
  matches (section_prefix (c_section c)) (rd_destination details) = true /\
  verify_message c (srd_signed_msg (payload_details payload)) = Ok true /\
  rd_age details = peer_age peer.
End Joining.

(** ** Helpers on agreements and proposals *)

Section Agreements.
Context `{CR : Crates, KG : !KeyGenOps, KP : !KeyGenProgress, PMO : !PrefixMapOps OtherSection,
  MO : !MessagingOps, VA : VecDequeAlloc, CE : !CoreEnv}.
Context `{SerView : !Serialize (DstLocation * Variant), SerNodeState : !Serialize NodeState,
  SerSap : !Serialize SectionAuthorityProvider, SerKey : !Serialize BlsPublicKey,
  SerJoins : !Serialize (MessageId * bool), SerNonce : !Serialize (XorName * Bytes),
  SerAddr : !Serialize SocketAddr}.

Lemma set_section_same c : set_section (c_section c) c = c.
Proof. by destruct c. Qed.

Lemma accept_online_rejected ns prev sg c :
  update_member (c_section c) (mkSectionSigned ns sg) = (c_section c, false) ->
  run (accept_online ns prev sg) c = (c, Ok []).
Proof.
  intros H. unfold accept_online, mbind, M_bind, step; cbn [run]. rewrite H. simpl. by rewrite set_section_same.
Qed.

Lemma accept_online_unverified ns prev sg c :
  section_signed_verify (mkSectionSigned ns sg) (section_chain c) = false ->
  run (accept_online ns prev sg) c = (c, Ok []).
Proof. unfold section_chain. intros H. apply accept_online_rejected. unfold update_member. by rewrite H. Qed.

(** a node that left does not simply join again *)
Lemma accept_online_known peer prev sg c old :
  members (sec_members (c_section c)) !! peer_name peer = Some old -> ns_state (ss_value old) = Left ->
  run (accept_online (node_state_joined peer) prev sg) c = (c, Ok []).
Proof.
  intros Ho Hs. apply accept_online_rejected. unfold update_member. case_match; [done|].
  unfold peers_update, info_name; simpl. rewrite Ho. unfold transition_allowed, info_state. rewrite Hs. simpl.
  by destruct (c_section c) as [? ? ? []].
Qed.

Lemma accept_online_new peer prev sg c (info := mkSectionSigned (node_state_joined peer) sg)
    (r := run (accept_online (node_state_joined peer) prev sg) c) :
  members (sec_members (c_section c)) !! peer_name peer = None ->
  section_signed_verify info (section_chain c) = true ->
  members (sec_members (c_section r.1)) = <[peer_name peer := info]> (members (sec_members (c_section c))) /\
  sec_chain (c_section r.1) = sec_chain (c_section c) /\
  c_events r.1 = c_events c ++ [EvMemberJoined (peer_name peer) prev (peer_age peer)].
Proof.
  intros Ho Hv. unfold r, accept_online, mbind, M_bind, step; cbn [run].
  unfold update_member, section_chain in *. fold info. rewrite Hv. cbn [negb].
  unfold peers_update, info_name; simpl. by rewrite Ho.
Qed.

Lemma elder_peer_is_elder s p :
  p ∈ sap_peers (authority_provider s) -> section_is_elder s (peer_name p) = true.
Proof.
  unfold sap_peers, elders_peers, section_is_elder, sap_contains_elder.
  intros ([n a] & -> & Hin)%list_elem_of_fmap. apply elem_of_btree_entries in Hin. simpl in *.
  rewrite Hin. by apply bool_decide_eq_true.
Qed.

Lemma send_proposal_commands c ps p cs :
  send_proposal c ps p = Ok cs -> exists m, cs = send_or_handle c m ps.
Proof.
  unfold send_proposal, send_proposal_with. destruct (kp_key_share _); simpl; [|done].
  destruct (proposal_prove _ _ _ _); simpl; [|done]. destruct (single_src _ _ _ _) as [m|]; simpl; [|done].
  intros [= <-]. by exists m.
Qed.

(** The recipients other than ourselves in one message, ourselves by a command. *)
Lemma send_or_handle_commands c m ps cmd :
  cmd ∈ send_or_handle c m ps ->
  match cmd with
  | CSendMessage recipients group _ => group = length recipients /\ recipients <> [] /\
      forall r, r ∈ recipients -> exists p, r = peer_entry p /\ p ∈ ps /\ peer_name p <> our_name c
  | CHandleMessage _ _ _ => exists p, p ∈ ps /\ peer_name p = our_name c
  | _ => False
  end.
Proof.
  unfold send_or_handle. intros [Hc|Hc]%elem_of_app.
  - destruct (peer_entry <$> List.filter _ ps) as [|first l] eqn:El; [by apply not_elem_of_nil in Hc|].
    apply list_elem_of_singleton in Hc as ->. simpl. split; [done|]. split; [done|].
    rewrite <- El. intros r (p & -> & [Hp Hb]%list_elem_of_In%filter_In)%list_elem_of_fmap.
    apply bool_decide_eq_true in Hb. exists p. split; [done|]. split; [by apply list_elem_of_In|done].
  - destruct (existsb _ ps) eqn:Ex; [|by apply not_elem_of_nil in Hc].
    apply list_elem_of_singleton in Hc as ->. apply existsb_exists in Ex as (p & Hp & Hb).
    apply bool_decide_eq_true in Hb. exists p. split; [by apply list_elem_of_In|done].
Qed.
End Agreements.

(** ** Helpers on the report of a new section key *)

Section Reporting.
Context `{CR : Crates, KG : !KeyGenOps, KP : !KeyGenProgress, PMO : !PrefixMapOps OtherSection,
  PML : !PrefixMapLaws OtherSection, MO : !MessagingOps, VA : VecDequeAlloc, CE : !CoreEnv}.
Context `{SerView : !Serialize (DstLocation * Variant), SerNodeState : !Serialize NodeState,
  SerSap : !Serialize SectionAuthorityProvider, SerKey : !Serialize BlsPublicKey,
  SerJoins : !Serialize (MessageId * bool), SerNonce : !Serialize (XorName * Bytes),
  SerAddr : !Serialize SocketAddr}.

Lemma network_get_new p : network_get network_new p = None.
Proof. unfold network_get. simpl. by rewrite pmap_get_new. Qed.

(** the elders that remain, came and left *)
Definition report_elders (old : StateSnapshot) (c : Core) : Elders :=
  elders_diff (section_prefix (c_section c)) (last_key c) (sn_elders old)
    (sap_names (authority_provider (c_section c))).

(** the parts of [update_state] that only compute commands *)
Lemma elder_commands_pure (is_elder : bool) :
  keeps eq (if is_elder then
            c ← get;
            dkg ← (if kp_has_key_share (c_keys c) then
                     cs1 ← query core_promote_and_demote;
                     cs2 ← query (fun c => joins_allowed_proposal c (c_joins_allowed c));
                     mret (cs1 ++ cs2)
                   else mret []);
            knowledge ← query knowledge_commands;
            mret (dkg ++ knowledge)
          else mret []).
Proof. keeps_steps. Qed.

Lemma update_state_runs old c c' cmds :
  run (update_state old) c = (c', Ok cmds) ->
  let c1 := set_keys (kp_finalise_dkg (c_keys c) (last_key c)) c in
  c' = if decide (last_key c <> sn_last_key old)
       then (run (elders_change old (state_snapshot c))
              (set_msg_filter (message_filter_reset (c_msg_filter c1)) c1)).1
       else c1.
Proof.
  intros H c1. unfold update_state in H.
  apply run_bind_ok in H as (c0 & c0' & [= <- <-] & H).
  apply run_bind_ok in H as ([] & c1' & [= <-] & H). fold c1 in H.
  apply run_bind_ok in H as (changed & c2 & Hch & H).
  apply run_bind_ok in H as (c3 & c3' & [= <- <-] & [= <- _]). revert Hch.
  cbn [sn_last_key state_snapshot]. case_decide as Hk; [|by intros [= <- _]]. intros H.
  apply run_bind_ok in H as ([] & c4 & [= <-] & H).
  apply run_bind_ok in H as (ec & c5 & He & H).
  change (c_msg_filter c1) with (c_msg_filter c) in *.
  pose proof (elder_commands_pure (sn_is_elder (state_snapshot c))
    (set_msg_filter (message_filter_reset (c_msg_filter c)) c1)) as Hp.
  unfold keeps_at in Hp. rewrite He in Hp. cbn [fst] in Hp. subst c5.
  apply run_bind_ok in H as (sync & c6 & Hs & H).
  assert (c6 = set_msg_filter (message_filter_reset (c_msg_filter c)) c1) as ->.
  { destruct (sn_is_elder (state_snapshot c) || sn_is_elder old);
      apply (f_equal fst) in Hs; exact (eq_sym Hs). }
  apply run_bind_ok in H as ([] & c7 & Hc & [= <- _]). by rewrite Hc.
Qed.

Lemma elders_diff_sets p k (old current : gset XorName) (e := elders_diff p k old current) :
  e_remaining e ∪ e_added e = current /\ e_remaining e ∪ e_removed e = old /\
  e_added e ## old /\ e_removed e ## current.
Proof.
  unfold e, elders_diff; simpl. repeat split; try set_solver; apply set_eq; intros x;
    destruct (decide (x ∈ old)), (decide (x ∈ current)); set_solver.
Qed.

Lemma status_change_spec a b :
  (status_change a b = Promoted <-> a = false /\ b = true) /\
  (status_change a b = Demoted <-> a = true /\ b = false).
Proof. destruct a, b; unfold status_change; simpl; naive_solver. Qed.

(** the event of a new section key *)
Definition report_event (old : StateSnapshot) (c : Core) : Event :=
  let change := status_change (sn_is_elder old) (core_is_elder c) in
  let p := section_prefix (c_section c) in
  match network_get (c_network c) (sibling p) with
  | Some sibling_auth =>
      if bool_decide (p <> sn_prefix old /\ change <> Demoted)
      then EvSectionSplit (report_elders old c)
             (elders_diff (sibling p) (sap_section_key sibling_auth) (sn_elders old) (sap_names sibling_auth)) change
      else EvEldersChanged (report_elders old c) change
  | None => EvEldersChanged (report_elders old c) change
  end.

Lemma elders_change_run old c d :
  c_section d = c_section c -> c_node d = c_node c -> c_network d = c_network c ->
  (run (elders_change old (state_snapshot c)) d).1 =
  push_event (report_event old c)
    match status_change (sn_is_elder old) (core_is_elder c) with Demoted => demote d | _ => d end.
Proof.
  intros Hs Hn Hw. unfold elders_change, modify, report_event, report_elders; cbn [run fst].
  cbn [sn_prefix sn_last_key sn_is_elder state_snapshot]. rewrite Hs.
  set (change := status_change (sn_is_elder old) (core_is_elder c)).
  destruct (decide (section_prefix (c_section c) <> sn_prefix old)) as [Hp|Hp]; cycle 1.
  { destruct change; destruct (network_get _ _); rewrite ?bool_decide_false by tauto; reflexivity. }
  destruct change; cbn [c_network demote set_keys set_network];
    rewrite ?network_get_new, ?Hw; destruct (network_get _ _); simpl;
    rewrite ?bool_decide_true by done; rewrite ?bool_decide_false by tauto; reflexivity.
Qed.
End Reporting.

(** ** Claims *)

Section Claims.
Context `{CR : Crates, KG : !KeyGenOps, KP : !KeyGenProgress, PMO : !PrefixMapOps OtherSection,
  MO : !MessagingOps, VA : VecDequeAlloc, CE : !CoreEnv}.
Context `{SerView : !Serialize (DstLocation * Variant), SerNodeState : !Serialize NodeState,
  SerSap : !Serialize SectionAuthorityProvider, SerKey : !Serialize BlsPublicKey,
  SerJoins : !Serialize (MessageId * bool), SerNonce : !Serialize (XorName * Bytes),
  SerAddr : !Serialize SocketAddr}.

(** C2: only verified messages act.  A message that is not addressed to the node, or that does
    not verify against the keys the node knows, leaves the section, the network, the key
    shares, the proposals, the split barrier, the DKG sessions, the events, the joins flag and
    the end users as they are and does not advance a relocation, whatever it contains. *)
Theorem only_verified_messages_act (now : readings) (sender : option SocketAddr) (msg : RoutingMsg)
    (dest_info : DestInfo) (c : Core) :
  dst_contains (rm_dst msg) (our_name c) (section_prefix (c_section c)) = false \/
  msg_verify msg (known_keys c) <> Ok VerifyFull ->
  untouched c (run (handle_message now sender msg dest_info) c).1.
Proof.
  intros Hno. revert c Hno.
  assert (forall c, dst_contains (rm_dst msg) (our_name c) (section_prefix (c_section c)) = false \/
    verify_message c msg <> Ok true -> keeps_at untouched (handle_message now sender msg dest_info) c) as H;
    [|intros c Hno; apply H; destruct Hno as [|Hv]; [by left|right]; unfold verify_message;
      by destruct (msg_verify msg (known_keys c)) as [[]|]].
  intros c Hno. unfold handle_message. apply (keeps_at_bind _); [apply (keeps_get _)|].
  intros c0 c1 [= <- <-].
  destruct (dst_contains _ _ _) eqn:Ed; cbn [negb].
  - destruct Hno as [Hno|Hno]; [done|]. apply (keeps_at_bind _); [apply (keeps_query _)|].
    intros status c1 [= <- Hs]. destruct status; [|keeps_at_done|keeps_at_done].
    destruct (useful_verified _ _ Hs) as [Hv|Hv]; [done|].
    apply (keeps_at_bind _); [apply untouched_entropy|]. intros [cs b] c1 _. destruct b.
    + apply (keeps_at_bind _); [by apply untouched_join_reply|]. intros. apply (keeps_ret _).
    + destruct cs; keeps_at_done.
  - apply (keeps_at_bind _); [apply untouched_relay|]. intros. apply (keeps_ret _).
Qed.


(** C11: who may join by relocation.  A relocated node is proposed, under the identity it had
    before and with the key of the section it was sent to, exactly when its payload proves that
    it owns the name it had, its new name and its destination are in the section's prefix, the
    request carries the current key, it is not already a member, the relocation was signed by a
    section whose keys are known, and its age is the one granted.  Every other request is
    ignored, fails because the payload has no relocation details, or, when it has no payload or
    the name or the key is wrong, leads to one message to the node alone, to retry with our
    current authority. *)
Theorem relocated_join_admission (c : Core) (peer : Peer) (key : BlsPublicKey) (payload : option RelocatePayload) :
  (forall p details, payload = Some p -> relocation_admissible c peer key p details ->
     handle_join_as_relocated_request c peer key payload =
       Ok [CProposeOnline peer (Some (rd_pub_id details)) (Some (rd_destination_key details))]) /\
  ((forall p details, payload = Some p -> ~ relocation_admissible c peer key p details) ->
     handle_join_as_relocated_request c peer key payload = Ok [] /\ payload <> None \/
     handle_join_as_relocated_request c peer key payload =
       reply c peer (VJoinAsRelocatedResponse (RelocatedRetry (authority_provider (c_section c)))) /\
       (payload = None \/ matches (section_prefix (c_section c)) (peer_name peer) = false \/ key <> last_key c) \/
     exists p e, payload = Some p /\ payload_relocate_details p = Err e /\
       handle_join_as_relocated_request c peer key payload = Err e) /\
  (forall variant cmds, reply c peer variant = Ok cmds ->
     exists msg dest, cmds = [send_message_to_node (peer_entry peer) msg dest] /\ rm_variant msg = variant).
Proof.
  split; [|split; [|intros variant cmds; apply reply_only]].
  - intros p d -> (H1 & H2 & H3 & H4 & H5 & H6 & H7 & H8). unfold handle_join_as_relocated_request. cbn zeta.
    rewrite H2, bool_decide_false by tauto. cbn. rewrite H4, H5, H1. cbn. rewrite H6. cbn. rewrite H7. cbn.
    by rewrite bool_decide_false by tauto.
  - intros Hno. unfold handle_join_as_relocated_request. cbn zeta.
    destruct payload as [p|]; [|right; left; auto]. specialize (Hno p). unfold relocation_admissible in Hno.
    destruct (matches _ (peer_name peer)) eqn:Em; cbn [negb orb]; [|right; left; auto].
    case_bool_decide as Ek; [right; left; auto|].
    assert (key = last_key c) as Ek' by (destruct (decide (key = last_key c)); tauto).
    destruct (peers_is_joined _ _); [by left|].
    destruct (payload_verify_identity p (peer_name peer)); cbn [negb]; [|by left].
    destruct (payload_relocate_details p) as [d|e] eqn:Ed; simpl; [|right; right; eauto].
    destruct (matches _ (rd_destination d)) eqn:Edst; cbn [negb]; [|by left].
    destruct (verify_message _ _) as [[]|]; cbn [negb]; try by left.
    case_bool_decide as Ea; [by left|]. exfalso. apply (Hno d); [done|]. repeat split; try done.
Qed.

(** The resource challenge and its answer fit: the challenge a node sends to a candidate is
    addressed to the candidate, and any answer that returns the nonce with the signature of the
    challenge passes the node's check exactly when the proof of work does. *)
Theorem resource_challenge_roundtrip `{SL : !SignLaws} (c : Core) (peer : Peer) (cmd : Command) :
  send_resource_proof_challenge c peer = Ok cmd ->
  exists signature message,
    cmd = send_message_to_node (peer_entry peer) message (mkDestInfo (peer_name peer) (last_key c)) /\
    rm_variant message = VJoinResponse (JoinResourceChallenge RESOURCE_PROOF_DATA_SIZE
      RESOURCE_PROOF_DIFFICULTY random_nonce signature) /\
    check_signature message = Ok tt /\
    forall solution data,
      validate_resource_proof_response c (peer_name peer)
        (mkResourceProofResponse solution data random_nonce signature) =
      rp_validate_all random_nonce data solution.
Proof.
  unfold send_resource_proof_challenge, validate_resource_proof_response; cbn [rpr_nonce rpr_nonce_signature].
  destruct (serialize (peer_name peer, random_nonce)) as [bytes|]; simpl; [|done].
  unfold send_direct_message. destruct (single_src _ _ _ _) as [m|] eqn:Es; simpl; [|done]. intros [= <-].
  pose proof (single_src_fields _ _ _ _ _ Es) as (b & Eb & Hsrc & Hd & Hv & Hp).
  eexists _, m. split; [done|]. split; [exact Hv|]. unfold check_signature, ed25519_sign in *.
  rewrite Hsrc, Hd, Hv, Eb. simpl. rewrite !ed_sign_verify. done.
Qed.

(** What is relayed for a message, and whether it is executed. *)
Lemma check_for_entropy_runs now msg d c c' cmds execute :
  run (check_for_entropy now msg d) c = (c', Ok (cmds, execute)) ->
  core_is_elder c = false /\ cmds = [] /\ execute = true /\ c' = c \/
  core_is_elder c = true /\ exists send, anti_entropy_process (c_node c) (c_section c) msg d = Ok (send, execute) /\
    run (relay_all now send) c = (c', Ok cmds).
Proof.
  unfold check_for_entropy. intros (c0 & c1 & [= <- <-] & H)%run_bind_ok. revert H.
  destruct (core_is_elder c); cbn [negb]; [|intros [= <- <- <-]; by left].
  intros ([send b] & c1 & [= <- Hp] & H)%run_bind_ok. apply run_bind_ok in H as (cs & c2 & Hr & [= <- <- <-]).
  right. split; [done|]. by exists send.
Qed.

Lemma relay_all_one now m c c' cmds :
  run (relay_all now [m]) c = (c', Ok cmds) ->
  exists x, run (relay_message now m) c = (c', Ok x) /\ cmds = option_list x.
Proof.
  cbn [relay_all]. intros (x & c1 & Hx & H)%run_bind_ok. apply run_bind_ok in H as (cs & c2 & [= <- <-] & [= <- <-]).
  exists x. by rewrite app_nil_r.
Qed.

Lemma single_src_valid `{SL : !SignLaws} node dst v pk m :
  single_src node dst v pk = Ok m -> check_signature m = Ok tt /\ rm_dst m = dst /\ rm_variant m = v.
Proof.
  intros Es. pose proof (single_src_fields _ _ _ _ _ Es) as (b & Eb & Hsrc & Hd & Hv & Hp).
  unfold check_signature, ed25519_sign in *. rewrite Hsrc, Hd, Hv, Eb. simpl. by rewrite ed_sign_verify.
Qed.

Lemma anti_entropy_cases `{SL : !SignLaws, CL : !ChainLaws, PL : !ChainPositionLaws} node section msg d send execute
    (knowledge := fun proof m => send = [m] /\ check_signature m = Ok tt /\
      rm_dst m = src_to_dst (src_location (rm_src msg)) /\
      rm_variant m = VSectionKnowledge (section_signed_authority_provider section, proof) (Some msg)) :
  anti_entropy_process node section msg d = Ok (send, execute) ->
  ~ (matches (section_prefix section) (src_name (rm_src msg)) = false /\
     di_dest_section_pk d <> sll_last_key (sec_chain section)) /\ send = [] /\ execute = true \/
  matches (section_prefix section) (src_name (rm_src msg)) = false /\
  di_dest_section_pk d <> sll_last_key (sec_chain section) /\ execute = false /\
  match sll_get_proof_chain_to_current (sec_chain section) (di_dest_section_pk d) with
  | Ok truncated => exists m, knowledge truncated m
  | Err _ => if is_join_request (rm_variant msg) then send = [] else exists m, knowledge (sec_chain section) m
  end.
Proof.
  unfold anti_entropy_process. cbn zeta.
  destruct (matches _ _); [intros [= <- <-]; left; naive_solver|].
  pose proof (cmp_by_position_outdated (sec_chain section) (di_dest_section_pk d)) as Hc.
  destruct (sll_cmp_by_position _ _ _); try (intros [= <- <-]; left; split; [|done]; intros [_ H%Hc]; done).
  assert (di_dest_section_pk d <> sll_last_key (sec_chain section)) as Hne by by apply Hc.
  destruct (sll_get_proof_chain_to_current _ _) as [truncated|e].
  - destruct (single_src _ _ _ _) as [m|] eqn:Es; simpl; [|done]. intros [= <- <-].
    apply single_src_valid in Es. right. split; [done|]. split; [done|]. split; [done|]. by exists m.
  - destruct (is_join_request _); [intros [= <- <-]; by right|].
    destruct (single_src _ _ _ _) as [m|] eqn:Es; simpl; [|done]. intros [= <- <-].
    apply single_src_valid in Es. right. split; [done|]. split; [done|]. split; [done|]. by exists m.
Qed.

(** C18: anti-entropy.  Unless the node is an elder and a message comes from outside of our section
    under a key that is not our last one, it is executed and nothing else happens.  Such a message
    is not executed: one message, validly signed, with our signed section authority, the message
    itself to be resent and a chain up to our last key is handed to the relay, which addresses it
    to the source and passes over targets that have it already; what the relay returns is all that
    is returned.  The chain starts at the key the sender knew, or is the whole chain when there is
    no proof from that key, as for a key that is not in the chain.  The exception is a join request
    under a key without proof: nothing is sent for it here. *)
Theorem anti_entropy_updates_sender `{SL : !SignLaws, CL : !ChainLaws, PL : !ChainPositionLaws}
    (now : readings) (msg : RoutingMsg) (dest_info : DestInfo) (c c' : Core) (cmds : list Command) (execute : bool) :
  run (check_for_entropy now msg dest_info) c = (c', Ok (cmds, execute)) ->
  let chain := section_chain c in
  let known := di_dest_section_pk dest_info in
  let updated_with proof := exists m relayed,
    check_signature m = Ok tt /\ rm_dst m = src_to_dst (src_location (rm_src msg)) /\
    rm_variant m = VSectionKnowledge (section_signed_authority_provider (c_section c), proof) (Some msg) /\
    run (relay_message now m) c = (c', Ok relayed) /\ cmds = option_list relayed in
  (execute = false <->
   core_is_elder c = true /\ matches (section_prefix (c_section c)) (src_name (rm_src msg)) = false /\
   known <> sll_last_key chain) /\
  (execute = true -> cmds = [] /\ c' = c) /\
  (execute = false ->
    match sll_get_proof_chain_to_current chain known with
    | Ok truncated =>
        sll_root_key truncated = known /\ sll_last_key truncated = sll_last_key chain /\ updated_with truncated
    | Err _ => if is_join_request (rm_variant msg) then cmds = [] /\ c' = c else updated_with chain
    end) /\
  (sll_has_key chain known = false -> exists e, sll_get_proof_chain_to_current chain known = Err e).
Proof.
  intros H. cbn zeta. unfold section_chain.
  assert (sll_has_key (sec_chain (c_section c)) (di_dest_section_pk dest_info) = false ->
    exists e, sll_get_proof_chain_to_current (sec_chain (c_section c)) (di_dest_section_pk dest_info) = Err e) as Hu.
  { intros Hk. destruct (sll_get_proof_chain_to_current _ _) as [d|e] eqn:Ep; [|by exists e].
    apply proof_chain_ends in Ep as [Ep%sll_has_key_spec _]. congruence. }
  destruct (check_for_entropy_runs _ _ _ _ _ _ _ H) as [(He & -> & -> & ->)|(He & send & Hp & Hr)].
  { split; [|split; [|split]]; try done. split; [done|]. intros [? _]. congruence. }
  apply anti_entropy_cases in Hp as [(Hno & -> & ->)|(H1 & H2 & -> & Hp)].
  - injection Hr as <- <-. split; [|split; [|split]]; try done. split; [done|]. intros (_ & H1 & H2). tauto.
  - split; [done|]. split; [done|]. split; [intros _|exact Hu].
    destruct (sll_get_proof_chain_to_current _ _) as [truncated|e] eqn:Ep.
    + apply proof_chain_ends in Ep as (_ & E1 & E2). split; [done|]. split; [done|].
      destruct Hp as (m & -> & M1 & M2 & M3). apply relay_all_one in Hr as (x & Hx & ->). eauto 10.
    + destruct (is_join_request _); [subst send; by injection Hr as <- <-|].
      destruct Hp as (m & -> & M1 & M2 & M3). apply relay_all_one in Hr as (x & Hx & ->). eauto 10.
Qed.

(** C29: what is reported when the section changes.  After an update of the section (a sync or an
    agreement on new elders) that succeeds, nothing is reported when the section key is the one
    before; otherwise exactly one event is, with our prefix and key and the elders that remain,
    came and left, which make up the current and the former elders; a promotion or demotion is
    flagged exactly when our status changed, and a demotion leaves the node without network
    knowledge and key shares.  A split is reported as such exactly when our prefix changed, the
    sibling is known and we were not demoted: since a demotion forgets the network first, an
    elder demoted by a split is told of a change of elders only. *)
Theorem elders_change_reported `{PML : !PrefixMapLaws OtherSection} (old : StateSnapshot) (c c' : Core)
    (cmds : list Command) :
  run (update_state old) c = (c', Ok cmds) ->
  c_section c' = c_section c /\ c_node c' = c_node c /\
  (last_key c = sn_last_key old -> c_events c' = c_events c /\ c_network c' = c_network c) /\
  (last_key c <> sn_last_key old ->
   exists elders change event, c_events c' = c_events c ++ [event] /\
     e_prefix elders = section_prefix (c_section c) /\ e_key elders = last_key c /\
     (e_remaining elders ∪ e_added elders = sap_names (authority_provider (c_section c)) /\
      e_remaining elders ∪ e_removed elders = sn_elders old /\
      e_added elders ## sn_elders old /\
      e_removed elders ## sap_names (authority_provider (c_section c))) /\
     ((change = Promoted <-> sn_is_elder old = false /\ core_is_elder c = true) /\
      (change = Demoted <-> sn_is_elder old = true /\ core_is_elder c = false)) /\
     (change = Demoted -> network_all (c_network c') = [] /\ kp_key_share (c_keys c') = Err MissingSecretKeyShare) /\
     match network_get (c_network c) (sibling (section_prefix (c_section c))) with
     | Some sibling_auth =>
         if bool_decide (section_prefix (c_section c) <> sn_prefix old /\ change <> Demoted)
         then event = EvSectionSplit elders
                (elders_diff (sibling (section_prefix (c_section c))) (sap_section_key sibling_auth)
                   (sn_elders old) (sap_names sibling_auth)) change
         else event = EvEldersChanged elders change
     | None => event = EvEldersChanged elders change
     end).
Proof.
  intros H. apply update_state_runs in H. cbn zeta in H.
  destruct (decide (last_key c = sn_last_key old)) as [Hk|Hk].
  { rewrite decide_False in H by tauto. subst c'. by repeat split. }
  rewrite decide_True in H by done. rewrite elders_change_run in H by done. subst c'.
  split; [by destruct (status_change _ _)|]. split; [by destruct (status_change _ _)|]. split; [done|]. intros _.
  exists (report_elders old c), (status_change (sn_is_elder old) (core_is_elder c)), (report_event old c).
  split; [by destruct (status_change _ _)|]. split; [done|]. split; [done|].
  split; [apply elders_diff_sets|]. split; [apply status_change_spec|]. split.
  - intros ->. split; [apply network_all_new|done].
  - unfold report_event. destruct (network_get _ _); [|done]. by case_bool_decide.
Qed.

(** C32: an agreement that a node is online.  A name that is recorded and has not left is ignored,
    state and all.  A node that left and comes back is sent its approval and relocated with half
    its age when that is above the minimum, and rejected when it is not, without a change of the
    state in either case.  A new name is recorded, and its arrival reported, exactly when the
    record is signed by a key of the section chain. *)
Theorem online_agreement_correct (c : Core) (peer : Peer) (previous_name : option XorName) (signed : Signed) :
  let info := mkSectionSigned (node_state_joined peer) signed in
  let r := run (handle_online_agreement (node_state_joined peer) previous_name signed) c in
  match members (sec_members (c_section c)) !! peer_name peer with
  | Some old =>
      let half := (peer_age (ns_peer (ss_value old)) / 2)%Z in
      if decide (ns_state (ss_value old) = Left /\ (MIN_AGE < half)%Z) then
        r.1 = c /\ forall cmds, r.2 = Ok cmds ->
          exists approval relocation, cmds = approval :: relocation /\
            send_node_approval c old = Ok approval /\
            send_relocate c (ns_peer (ss_value old))
              (relocate_details_with_age (c_section c) (c_network c) (ns_peer (ss_value old))
                 (peer_name (ns_peer (ss_value old))) half) = Ok relocation
      else r = (c, Ok [])
  | None =>
      if section_signed_verify info (section_chain c) then
        members (sec_members (c_section r.1)) = <[peer_name peer := info]> (members (sec_members (c_section c))) /\
        sec_chain (c_section r.1) = sec_chain (c_section c) /\
        c_events r.1 = c_events c ++ [EvMemberJoined (peer_name peer) previous_name (peer_age peer)]
      else r = (c, Ok [])
  end.
Proof.
  intros info r. unfold r, handle_online_agreement, mbind, M_bind; cbn [run get].
  unfold peers_get_section_signed. cbn [node_state_joined ns_peer].
  destruct (members (sec_members (c_section c)) !! peer_name peer) as [old|] eqn:Eo; cbn zeta.
  - destruct (ns_state (ss_value old)) as [| |d] eqn:Es; try (rewrite decide_False by naive_solver; done).
    destruct (Z.ltb_spec MIN_AGE (Z.max MIN_AGE (peer_age (ns_peer (ss_value old)) / 2))) as [Hlt|Hge].
    + rewrite decide_True by (split; [done|lia]). rewrite Z.max_r by lia. unfold query; cbn [run fst snd].
      split; [done|]. intros cmds. destruct (send_node_approval c old) as [ap|]; simpl; [|done].
      unfold relocate_rejoining_peer. destruct (send_relocate _ _ _) as [rl|]; simpl; [|done].
      intros [= <-]. by exists ap, rl.
    + rewrite decide_False by (intros [_ ?]; lia). by eapply accept_online_known.
  - destruct (section_signed_verify info (section_chain c)) eqn:Ev; [|by apply accept_online_unverified].
    by apply accept_online_new.
Qed.

(** Nobody is asked about itself.  The proposals that nodes are offline are sent to, and
    handled by, elders that are not among the nodes concerned. *)
Theorem offline_proposals_avoid_lost (c : Core) (names : gset XorName) (cmds : list Command) :
  cast_offline_proposals c names = Ok cmds ->
  forall cmd, cmd ∈ cmds ->
    match cmd with
    | CSendMessage recipients group _ =>
        group = length recipients /\ recipients <> [] /\
        forall r, r ∈ recipients -> r.1 ∉ names /\ r.1 <> our_name c /\ section_is_elder (c_section c) r.1 = true
    | CHandleMessage _ _ _ => our_name c ∉ names
    | _ => False
    end.
Proof.
  unfold cast_offline_proposals. revert cmds.
  set (elders := List.filter _ _).
  assert (forall p, p ∈ elders -> peer_name p ∉ names /\ section_is_elder (c_section c) (peer_name p) = true) as He.
  { intros p [Hin Hb]%list_elem_of_In%filter_In. apply bool_decide_eq_true in Hb. split; [done|].
    by apply elder_peer_is_elder, list_elem_of_In. }
  induction (btree_names names) as [|n ns IH]; intros cmds; simpl; [intros [= <-] cmd ?%not_elem_of_nil; done|].
  destruct (peers_get _ n) as [info|]; [|apply IH].
  destruct (node_state_leave info) as [st|]; simpl; [|done].
  destruct (offline_proposals c elders ns) as [rest|]; simpl; [|done]. intros [= <-] cmd [Hc|Hc]%elem_of_app;
    [|by apply (IH rest)].
  destruct (send_proposal c elders (POffline st)) as [cs|] eqn:Ep; [|by apply not_elem_of_nil in Hc].
  apply send_proposal_commands in Ep as [m ->]. apply send_or_handle_commands in Hc.
  destruct cmd; try done.
  - destruct Hc as (p & Hp & <-). by apply He.
  - destruct Hc as (Hg & Hn & Hr). split; [done|]. split; [done|]. intros r (p & -> & Hp & Hne)%Hr.
    destruct (He p Hp). done.
Qed.

(** A share for accumulation that bounced and is sent again after the section key changed is
    lost: the resend stamps the message with the current section key, and every receiver checks
    a share against the key the message is stamped with, so the message that was valid when it
    bounced is refused. *)
Theorem bounced_share_refused (c : Core) (sender : Peer) (dst_key : BlsPublicKey) (bounced : RoutingMsg)
    (name : XorName) (share : SignedShare) (chain : SecuredLinkedList) (cmd : Command) :
  rm_src bounced = SrcAuthBlsShare name share chain -> check_signature bounced = Ok tt ->
  rm_section_pk bounced <> section_key_now c ->
  (forall s n, rm_variant bounced <> VSync s n) ->
  handle_bounced_untrusted_message c sender dst_key bounced = Ok cmd ->
  exists resent, cmd = send_message_to_node (peer_entry sender) resent (mkDestInfo (peer_name sender) dst_key) /\
    rm_variant resent = rm_variant bounced /\ rm_src resent = rm_src bounced /\
    check_signature resent = Err (ErrCreate CreateFailedSignature).
Proof.
  intros Hsrc Hok Hkey Hsync. unfold handle_bounced_untrusted_message.
  assert (forall A (f : Section_ -> Network -> A) x,
    match rm_variant bounced with VSync s n => f s n | _ => x end = x) as Hm.
  { intros A f x. destruct (rm_variant bounced); try done. by destruct (Hsync section network). }
  rewrite Hm. simpl. intros [= <-]. exists (updated_with_latest_key bounced (section_key_now c)).
  destruct bounced as [id src dst agg v pk]. simpl in *. subst src. repeat split.
  revert Hok. unfold check_signature; simpl. destruct (signable_bytes dst v) as [bytes|]; simpl; [|done].
  destruct (signed_share_verify share bytes); simpl; [|done].
  case_decide as E1; [done|]. intros _. case_decide as E2; [done|]. congruence.
Qed.

(** A relocation that fails cannot be tried again: the error leaves the state as it is, in
    particular the mark that a relocation is in progress, and with that mark every further
    [Relocate] message is ignored. *)
Theorem failed_relocation_blocks `{WO : !WireOps} (c : Core) (o : Outcomes) (e : Error)
    (addrs : list SocketAddr) (details details' : SignedRelocateDetails) (d : RelocateDetails)
    (forwarded : list (RoutingMsg * SocketAddr)) :
  c_relocate_state c = Some (RsInProgress forwarded) -> o_relocated o = Err e ->
  signed_relocate_details details' = Ok d ->
  let c' := (run (try_handle_command o (CRelocate addrs details)) c).1 in
  c' = c /\ run (handle_relocate details') c' = (c', Ok None).
Proof.
  intros Hr Ho Hd. cbn zeta.
  assert ((run (try_handle_command o (CRelocate addrs details)) c).1 = c) as ->.
  { unfold try_handle_command, dispatcher_handle_relocate, mbind, M_bind, query; cbn [run get]. by rewrite Ho. }
  split; [done|]. unfold handle_relocate, mbind, M_bind, query; cbn [run get]. rewrite Hd.
  case_decide; [done|]. by rewrite Hr.
Qed.
End Claims.

(** ** Witnesses *)

Module NodeWitness.
Import BitNames ToyCrates ToySerialize SectionKeysWitness NetworkWitness EndUsersWitness MessagesWitness CoreToy
  CommWitness MessageFilterWitness NodeToy.

(** a message for us that nobody signed *)
Definition forged_here : RoutingMsg :=
  mkRoutingMsg id7 (SrcAuthNode (to_name 1 : EdPublicKey) ((to_name 1, []) : EdSignature))
    (DstNode (our_name core1)) AggregationNone hello key1.

Lemma only_verified_messages_act_witness :
  dst_contains (rm_dst genuine_msg) (our_name core1) (section_prefix (c_section core1)) = false /\
  untouched core1 (run (handle_message (at_time 0) None genuine_msg dest0) core1).1 /\
  dst_contains (rm_dst forged_here) (our_name core1) (section_prefix (c_section core1)) = true /\
  untouched core1 (run (handle_message (at_time 0) None forged_here dest0) core1).1.
Proof.
  assert (dst_contains (rm_dst genuine_msg) (our_name core1) (section_prefix (c_section core1)) = false) as H1
    by (vm_compute; reflexivity).
  split; [exact H1|].
  split; [apply (only_verified_messages_act (at_time 0) None genuine_msg dest0 core1); by left|].
  split; [vm_compute; reflexivity|].
  apply (only_verified_messages_act (at_time 0) None forged_here dest0 core1). right.
  assert (msg_verify forged_here (known_keys core1) = Err FailedSignature) as Hv by reflexivity.
  rewrite Hv. discriminate.
Defined.

(** a candidate of the first section with a solved challenge *)
Definition candidate : Peer := peer_new (to_name (60 + 256)) (SocketAddrV4 4 4).
Definition solved : ResourceProofResponse :=
  mkResourceProofResponse 2 [7%Z] [7%Z]
    ((to_name 77, name_code (peer_name candidate) :: [7%Z]) : EdSignature).
Definition key9 : BlsPublicKey := 9%N.
Definition request : JoinRequest := mkJoinRequest key9 (Some solved).

Lemma request_admissible : join_admissible core1 candidate request.
Proof.
  unfold join_admissible, age_admitted. do 4 (split; [vm_compute; reflexivity|]). split.
  - assert (bit_count (section_prefix (c_section core1)) = 0) as E by (vm_compute; reflexivity).
    case_decide as H; [|by destruct (H E)]. split; apply Z.leb_le; vm_compute; reflexivity.
  - exists solved. split; [reflexivity|vm_compute; reflexivity].
Qed.


(** a node relocated to us by a section with our key *)
Definition sec9 : SecuredLinkedList := sll_new key9.
Definition granted : RelocateDetails := mkRelocateDetails (to_name 50) (to_name 3) key9 60.
Definition relocate_variant : Variant := VRelocate granted.
Definition relocate_bytes : Bytes := default [] (serialize (T := DstLocation * Variant) (DstNode (to_name 50), relocate_variant)).
Definition signed9 : Signed := mkSigned key9 ((9%N, relocate_bytes) : BlsSignature).
Definition relocate_order : RoutingMsg :=
  mkRoutingMsg id7 (SrcAuthSection (to_name 8) signed9 sec9) (DstNode (to_name 50)) AggregationNone
    relocate_variant key9.
Definition payload9 : RelocatePayload :=
  mkRelocatePayload relocate_order (ed25519_sign (name_bytes (peer_name candidate)) (to_name 50 : Keypair)).

Lemma payload9_admissible : relocation_admissible core1 candidate key9 payload9 granted.
Proof. unfold relocation_admissible. do 2 (split; [reflexivity|]). split; [reflexivity|]. do 3 (split; [vm_compute; reflexivity|]). split; reflexivity. Qed.

Lemma relocated_join_admission_witness :
  relocation_admissible core1 candidate key9 payload9 granted /\
  handle_join_as_relocated_request core1 candidate key9 (Some payload9) =
    Ok [CProposeOnline candidate (Some (to_name 50)) (Some key9)].
Proof.
  split; [exact payload9_admissible|].
  apply (proj1 (relocated_join_admission core1 candidate key9 (Some payload9)) payload9 granted eq_refl).
  exact payload9_admissible.
Defined.

Definition challenge : result Command Error := send_resource_proof_challenge core1 candidate.
Definition challenge_cmd : Command := match challenge with Ok cmd => cmd | Err _ => CHandleTimeout 0 end.

Lemma resource_challenge_roundtrip_witness :
  exists signature, validate_resource_proof_response core1 (peer_name candidate)
    (mkResourceProofResponse 2 [7%Z] random_nonce signature) = true.
Proof.
  assert (send_resource_proof_challenge core1 candidate = Ok challenge_cmd) as H by reflexivity.
  destruct (resource_challenge_roundtrip core1 candidate challenge_cmd H) as (sg & m & _ & _ & _ & Hv).
  exists sg. rewrite Hv. reflexivity.
Defined.

(** an elder of a section that has moved from key 1 to key 2, with a prefix *)
Definition chain12 : SecuredLinkedList := ToyCrates.Chain 1%N [2%N].
Definition elders12 : SectionAuthorityProvider :=
  sap_new [node_peer node1; candidate] (to_prefix [true]) 2%N.
Definition core12 : Core :=
  core_new node1 (mkSection key1 chain12 (mkSectionSigned elders12 (mkSigned (2%N : BlsPublicKey) (2%N, [])))
    peers_default) None 0.
Definition entropy_run := run (check_for_entropy (at_time 0) genuine_msg dest0) core12.

Lemma anti_entropy_updates_sender_witness :
  core_is_elder core12 = true /\
  matches (section_prefix (c_section core12)) (src_name (rm_src genuine_msg)) = false /\
  match entropy_run with
  | (c', Ok (cmds, execute)) => execute = false /\ length cmds = 1
  | _ => False
  end.
Proof.
  assert (core_is_elder core12 = true) as H1 by (vm_compute; reflexivity).
  assert (matches (section_prefix (c_section core12)) (src_name (rm_src genuine_msg)) = false) as H2
    by (vm_compute; reflexivity).
  assert (match entropy_run with (_, Ok (cmds, _)) => length cmds | _ => 0 end = 1) as H3 by (vm_compute; reflexivity).
  split; [exact H1|]. split; [exact H2|].
  destruct entropy_run as [c' [[cmds execute]|e]] eqn:E; [|discriminate H3]. split; [|exact H3].
  apply (proj1 (anti_entropy_updates_sender (at_time 0) genuine_msg dest0 core12 c' cmds execute E)).
  split; [exact H1|]. split; [exact H2|]. vm_compute. discriminate.
Defined.

(** the state before the first section key *)
Definition before : StateSnapshot := mkStateSnapshot false key1 prefix_default ∅.
Definition updated : Core * result (list Command) Error := run (update_state before) core1.

Lemma elders_change_reported_witness : length (c_events updated.1) = S (length (c_events core1)).
Proof.
  assert (exists cmds, run (update_state before) core1 = (updated.1, Ok cmds)) as [cmds H]
    by (eexists; reflexivity).
  destruct (elders_change_reported before core1 updated.1 cmds H) as (_ & _ & _ & Hc).
  destruct (Hc ltac:(vm_compute; discriminate)) as (el & ch & ev & -> & _).
  rewrite length_app, Nat.add_comm. reflexivity.
Defined.

(** a section of three elders, one of which is lost *)
Definition elder (n : N) : Peer := peer_new (to_name n) (SocketAddrV4 n n).
Definition sap3 : SectionAuthorityProvider :=
  sap_new [elder 77; elder 78; elder 79] prefix_default (9%N : BlsPublicKeySet).
Definition member79 : SectionSigned NodeState :=
  mkSectionSigned (node_state_joined (elder 79)) (mkSigned key9 (9%N, [])).
Definition section3 : Section_ :=
  mkSection key9 sec9 (mkSectionSigned sap3 (mkSigned key9 (9%N, [])))
    (peers_update peers_default member79).1.
Definition core3 : Core :=
  core_new node1 section3
    (Some (mkSectionKeyShare (9%N : BlsPublicKeySet) 0 ((9%N, 0) : BlsSecretKeyShare))) 0.
Definition lost : gset XorName := {[ to_name 79 ]}.
Definition offline_cmds : list Command :=
  match cast_offline_proposals core3 lost with Ok cmds => cmds | Err _ => [] end.

Lemma offline_proposals_avoid_lost_witness : length offline_cmds = 2 /\ our_name core3 ∉ lost.
Proof.
  assert (cast_offline_proposals core3 lost = Ok offline_cmds) as H by reflexivity.
  assert (length offline_cmds = 2) as Hl by (vm_compute; reflexivity). split; [exact Hl|].
  assert (exists a b, offline_cmds = [a; CHandleMessage (Some (node_addr node1)) b
    (mkDestInfo (our_name core3) (last_key core3))]) as (a & b & E) by (eexists _, _; reflexivity).
  pose proof (offline_proposals_avoid_lost core3 lost offline_cmds H
    (CHandleMessage (Some (node_addr node1)) b (mkDestInfo (our_name core3) (last_key core3)))) as Hc.
  apply Hc. rewrite E. right. left.
Defined.

(** a share under an earlier key *)
Definition share1 : SignedShare := mkSignedShare (1%N : BlsPublicKeySet) 0 ((1%N, 0, bytes3) : BlsSignatureShare).
Definition share_msg : RoutingMsg :=
  mkRoutingMsg id7 (SrcAuthBlsShare (to_name 1) share1 (sll_new key1)) dst3 AggregationNone hello key1.

Lemma bounced_share_refused_witness :
  check_signature share_msg = Ok tt /\
  exists resent, check_signature resent = Err (ErrCreate CreateFailedSignature) /\
    rm_variant resent = rm_variant share_msg.
Proof.
  assert (exists cmd, handle_bounced_untrusted_message core1 candidate key1 share_msg = Ok cmd) as [cmd H]
    by (eexists; reflexivity).
  split; [reflexivity|].
  destruct (bounced_share_refused core1 candidate key1 share_msg (to_name 1) share1 (sll_new key1) cmd
    ltac:(reflexivity) ltac:(reflexivity) ltac:(vm_compute; discriminate) ltac:(discriminate) H) as (m & _ & Hv & _ & Hs).
  exists m. split; [exact Hs|exact Hv].
Defined.

Definition relocating : Core := set_relocate_state (Some (RsInProgress [])) core1.
Definition order50 : SignedRelocateDetails := mkSignedRelocateDetails relocate_order.

Lemma failed_relocation_blocks_witness :
  run (handle_relocate order50) (run (try_handle_command quiet (CRelocate [] order50)) relocating).1 =
  ((run (try_handle_command quiet (CRelocate [] order50)) relocating).1, Ok None).
Proof.
  exact (proj2 (failed_relocation_blocks relocating quiet InvalidState [] order50 order50 granted []
    ltac:(reflexivity) ltac:(reflexivity) ltac:(reflexivity))).
Defined.
End NodeWitness.
