(* ===== verification/JoinProtocol.v ===== *)
(** * The two sides of joining together

    The bootstrap tasks of a joining node ([Bootstrap]) against the handlers of an elder
    ([Handling]): the requests that the tasks send are the ones the handlers admit, and the
    replies of the handlers are the ones the tasks take up, except for the approval of a
    relocated node. *)

From stdpp Require Import base tactics list gmap sorting.
From Stdlib Require Import ZArith Lia.
From S2P Require Import Prelude Names Crates Types Thresholds SectionPeers SectionKeys.
From S2P Require Import SectionState PrefixMap Network SplitBarrier EndUsers DkgFailure DkgSession.
From S2P Require Import DkgVoter Messages Cache MessageFilter Relocation DeliveryGroup CoreState.
From S2P Require Import Handling NodeInvariant Comm Bootstrap Dispatcher NodeClaims.

Section JoinProtocol.
Context `{CR : Crates, XL : !XorLaws, SL : !SignLaws, KG : !KeyGenOps, KP : !KeyGenProgress,
  PMO : !PrefixMapOps OtherSection, MO : !MessagingOps, VA : VecDequeAlloc, CE : !CoreEnv,
  WM : !WireMsgOps, BE : !BootstrapEnv, BL : !BootstrapLaws}.
Context `{SerView : !Serialize (DstLocation * Variant), SerNodeState : !Serialize NodeState,
  SerSap : !Serialize SectionAuthorityProvider, SerKey : !Serialize BlsPublicKey,
  SerJoins : !Serialize (MessageId * bool), SerNonce : !Serialize (XorName * Bytes),
  SerAddr : !Serialize SocketAddr}.

(** [resource_proof]: what the prover finds is accepted by the verifier. *)
Class ResourceProofLaws : Prop :=
  rp_solve_validates : forall nonce,
    let data := rp_create_proof_data RESOURCE_PROOF_DATA_SIZE RESOURCE_PROOF_DIFFICULTY nonce in
    rp_validate_all nonce data (rp_solve RESOURCE_PROOF_DATA_SIZE RESOURCE_PROOF_DIFFICULTY data) = true.

(** ** The identity a joining node takes on *)

Lemma choose_age_range pick : (FIRST_SECTION_MIN_AGE <= choose_age pick < FIRST_SECTION_MAX_AGE)%Z.
Proof.
  unfold choose_age. set (l := seqZ _ _).
  destruct (l !! (pick mod length l)) as [a|] eqn:E; simpl.
  - apply lookup_seqZ in E. unfold FIRST_SECTION_MAX_AGE, FIRST_SECTION_MIN_AGE, MIN_ADULT_AGE, MIN_AGE in *. lia.
  - apply lookup_ge_None in E. assert (length l = 94) as Hl by reflexivity. rewrite Hl in E.
    pose proof (Nat.mod_upper_bound pick 94). lia.
Qed.

Lemma empty_matches p n : prefix_is_empty p = true -> matches p n = true.
Proof.
  intros H%prefix_is_empty_spec. apply matches_spec.
  assert (pbits p = []) as ->; [|apply prefix_nil]. apply nil_length_inv. by rewrite length_pbits.
Qed.

(** the node fits the section with the prefix: by name and by age *)
Definition fits (prefix : Prefix) (node : Node) : Prop :=
  matches prefix (node_name node) = true /\
  if prefix_is_empty prefix
  then (FIRST_SECTION_MIN_AGE <= node_age node <= FIRST_SECTION_MAX_AGE)%Z
  else node_age node = MIN_ADULT_AGE.

Lemma retry_identity prefix (j j1 j2 : Join) :
  matches prefix (node_name (j_node j)) = true -> (node_age (j_node j) <= FIRST_SECTION_MAX_AGE)%Z ->
  first_section_identity prefix j = Continue j1 -> adult_identity prefix j1 = Continue j2 ->
  matches prefix (node_name (j_node j1)) = true /\ fits prefix (j_node j2) /\
  j_sent j2 = j_sent j /\ node_addr (j_node j2) = node_addr (j_node j).
Proof.
  intros Hm Ha. unfold first_section_identity, adult_identity, fits.
  destruct (prefix_is_empty prefix) eqn:Ep; simpl.
  - destruct (Z.ltb_spec (node_age (j_node j)) FIRST_SECTION_MIN_AGE) as [Hlt|Hge].
    + destruct (gen_keypair _ _ _) as [[kp d]| | |] eqn:Eg; simpl; try done.
      intros [= <-] [= <-]. apply gen_keypair_spec in Eg as (_ & _ & _ & Hk). cbn.
      pose proof (choose_age_range (hd 0 (j_picks j))) as Hc. unfold node_age, node_name in *; cbn.
      rewrite Hk, !empty_matches by done. repeat split; try done; lia.
    + intros [= <-] [= <-]. rewrite !empty_matches by done. repeat split; try done; lia.
  - intros [= <-]. destruct (Z.eqb_spec (node_age (j_node j)) MIN_ADULT_AGE) as [Hage|_]; simpl.
    + by intros [= <-].
    + destruct (gen_keypair _ _ _) as [[kp d]| | |] eqn:Eg; simpl; try done.
      intros [= <-]. apply gen_keypair_spec in Eg as (_ & _ & Hr & Hk). rewrite range_contains_matches in Hr.
      unfold node_age, node_name; cbn. done.
Qed.

(** A request is signed by the node and is the last message handed over for sending. *)
Lemma join_send_sent request recipients j j' :
  join_send request recipients j = Continue j' ->
  exists msg dest, j' = join_push_sent (MTRouting dest msg, recipients) j /\
    rm_variant msg = VJoinRequest request /\
    src_peer (rm_src msg) (node_addr (j_node j)) = Ok (node_peer (j_node j)).
Proof.
  unfold join_send, join_request_message. destruct (single_src _ _ _ _) as [msg|] eqn:Es; simpl; [|done].
  destruct recipients as [|[n x] rs]; simpl; [done|]. intros [= <-]. exists msg, (mkDestInfo n (j_section_key j)).
  apply single_src_fields in Es as (b & _ & Hsrc & _ & Hv & _). split; [done|]. split; [done|].
  rewrite Hsrc. cbn [src_peer]. unfold node_peer. by rewrite node_name_ed25519.
Qed.

(** An elder asks a node that fits for its resource proof, and proposes it with a valid one. *)
Lemma fitting_request c (peer : Peer) (node : Node) answer :
  peer = node_peer node -> fits (section_prefix (c_section c)) node ->
  peers_is_joined (sec_members (c_section c)) (peer_name peer) = false -> c_joins_allowed c = true ->
  handle_join_request c peer (mkJoinRequest (last_key c) answer) =
  match answer with
  | None => let? cmd := send_resource_proof_challenge c peer in Ok [cmd]
  | Some response =>
      if negb (validate_resource_proof_response c (peer_name peer) response) then Ok []
      else Ok [CProposeOnline peer None None]
  end.
Proof.
  intros -> [Hm Ha] Hj Ho. unfold handle_join_request, join_with_age. cbn [jr_section_key jr_resource_proof_response].
  assert (peer_age (node_peer node) = node_age node) as Hage by done.
  assert (peer_name (node_peer node) = node_name node) as Hname by done. rewrite Hname in *.
  rewrite Hm, Hj, Ho, Hage. rewrite (bool_decide_eq_false_2 (last_key c <> last_key c)) by tauto. simpl.
  destruct (prefix_is_empty (section_prefix (c_section c))) eqn:Ep.
  - apply prefix_is_empty_spec in Ep. rewrite bool_decide_eq_true_2 by done.
    rewrite (proj2 (Z.ltb_ge _ _)), (proj2 (Z.ltb_ge _ _)) by lia. simpl.
    by rewrite (bool_decide_eq_false_2 (node_age node <> node_age node)) by tauto.
  - rewrite (bool_decide_eq_false_2 (bit_count _ = 0)).
    2: { intros H0. apply prefix_is_empty_spec in H0. congruence. }
    rewrite Ha, !(bool_decide_eq_false_2 (MIN_ADULT_AGE <> MIN_ADULT_AGE)) by tauto. done.
Qed.

(** The challenge is a message that the joining node takes up. *)
Lemma challenge_accepted c (peer : Peer) cmd name :
  send_resource_proof_challenge c peer = Ok cmd ->
  exists message signature,
    cmd = send_message_to_node (peer_entry peer) message (mkDestInfo (peer_name peer) (last_key c)) /\
    let response := JoinResourceChallenge RESOURCE_PROOF_DATA_SIZE RESOURCE_PROOF_DIFFICULTY random_nonce signature in
    rm_variant message = VJoinResponse response /\ accept_join_response name message response = true /\
    forall solution data, validate_resource_proof_response c (peer_name peer)
        (mkResourceProofResponse solution data random_nonce signature) = rp_validate_all random_nonce data solution.
Proof.
  unfold send_resource_proof_challenge, validate_resource_proof_response; cbn [rpr_nonce rpr_nonce_signature].
  destruct (serialize (peer_name peer, random_nonce)) as [bytes|]; simpl; [|done].
  unfold send_direct_message. destruct (single_src _ _ _ _) as [m|] eqn:Es; simpl; [|done]. intros [= <-].
  pose proof (single_src_fields _ _ _ _ _ Es) as (b & Eb & Hsrc & Hd & Hv & Hp).
  eexists m, _. split; [done|]. cbn zeta. split; [exact Hv|]. split.
  - cbn [accept_join_response]. apply bootstrap_verify_spec. unfold verifies, msg_verify, verify_variant.
    rewrite Hd, Hv, Eb, Hsrc. simpl. unfold ed25519_sign. rewrite ed_sign_verify. simpl. by eexists.
  - intros. unfold ed25519_sign. by rewrite ed_sign_verify.
Qed.

(** ** Claims *)

(** C13: the handshake of a joining node and an elder succeeds.  A node that is sent the current
    authority of the section it belongs to takes on an identity of the right name and age and
    sends its request to all elders; an elder that takes new nodes answers it with a challenge;
    the node accepts the challenge and answers it; and the elder then proposes the node. *)
Theorem join_handshake `{RL : !ResourceProofLaws} (c : Core) (j j1 : Join) (cmd : Command) (sender : SocketAddr) :
  let auth := authority_provider (c_section c) in
  sap_section_key auth = last_key c -> sap_section_key auth <> j_section_key j ->
  matches (sap_prefix auth) (node_name (j_node j)) = true -> (node_age (j_node j) <= FIRST_SECTION_MAX_AGE)%Z ->
  on_retry auth j = Continue j1 ->
  let peer := node_peer (j_node j1) in
  peers_is_joined (sec_members (c_section c)) (peer_name peer) = false -> c_joins_allowed c = true ->
  send_resource_proof_challenge c peer = Ok cmd ->
  (exists msg dest, j_sent j1 = j_sent j ++ [(MTRouting dest msg, btree_entries (sap_elders auth))] /\
     rm_variant msg = VJoinRequest (mkJoinRequest (last_key c) None) /\
     src_peer (rm_src msg) (node_addr (j_node j1)) = Ok peer) /\
  handle_join_request c peer (mkJoinRequest (last_key c) None) = Ok [cmd] /\
  exists challenge response dest, cmd = send_message_to_node (peer_entry peer) challenge dest /\
    rm_variant challenge = VJoinResponse response /\
    accept_join_response (node_name (j_node j1)) challenge response = true /\
    forall j2, join_response response sender dest j1 = Continue j2 ->
    exists msg dest' request, j_sent j2 = j_sent j1 ++ [(MTRouting dest' msg, [(di_dest dest, sender)])] /\
      rm_variant msg = VJoinRequest request /\ src_peer (rm_src msg) (node_addr (j_node j1)) = Ok peer /\
      handle_join_request c peer request = Ok [CProposeOnline peer None None].
Proof.
  intros auth Hkey Hold Hm Hage Hr peer Hj Ho Hc. unfold on_retry in Hr. rewrite decide_False in Hr by done.
  destruct (first_section_identity _ _) as [ja| | |] eqn:E1; simpl in Hr; try done.
  destruct (matches (sap_prefix auth) (node_name (j_node ja))) eqn:Ema.
  2: { exfalso. revert E1 Ema. unfold first_section_identity. destruct (prefix_is_empty _) eqn:Ep.
       - by rewrite empty_matches.
       - simpl. intros [= <-]. by rewrite Hm. }
  destruct (adult_identity _ _) as [jb| | |] eqn:E2; simpl in Hr; try done.
  destruct (retry_identity _ _ _ _ Hm Hage E1 E2) as (_ & Hf & Hs & Haddr).
  unfold join_request_to in Hr. rewrite Hkey in Hr.
  apply join_send_sent in Hr as (msg & dest & -> & Hv & Hp). cbn in Hv, Hp.
  split; [|split].
  - exists msg, dest. cbn. rewrite Hs. done.
  - rewrite (fitting_request c peer (j_node jb) None) by done. cbn beta iota. by rewrite Hc.
  - destruct (challenge_accepted c peer cmd (node_name (j_node jb)) Hc) as (ch & sig & -> & Hch & Hacc & Hval).
    eexists ch, _, _. split; [done|]. split; [exact Hch|]. split; [exact Hacc|]. intros j2 Hj2.
    cbn [join_response] in Hj2. apply join_send_sent in Hj2 as (msg' & dest' & -> & Hv' & Hp'). cbn in Hv', Hp'.
    exists msg', dest'. eexists. split; [done|]. split; [exact Hv'|]. split; [exact Hp'|].
    rewrite (fitting_request c peer (j_node jb)) by done. cbn beta iota.
    by rewrite Hval, rp_solve_validates.
Qed.

(** The approval that an elder sends makes the task of the node it is for return the elder's
    section. *)
Lemma approval_approves `{CL : !ChainLaws} (c : Core) (st : SectionSigned NodeState) (cmd : Command) :
  section_wf (c_section c) -> self_verify (sec_section_auth (c_section c)) = true ->
  section_signed_verify st (section_chain c) = true -> send_node_approval c st = Ok cmd ->
  exists msg dest, cmd = send_message_to_node (peer_entry (ns_peer (ss_value st))) msg dest /\
    forall e, carries e msg -> approves e (peer_name (ns_peer (ss_value st)))
      (mkSection (sec_genesis_key (c_section c)) (section_chain c) (sec_section_auth (c_section c)) peers_default).
Proof.
  intros [Hk _ _] Ha Hst. unfold send_node_approval.
  destruct (single_src _ _ _ _) as [msg|] eqn:Es; simpl; [|done]. intros [= <-].
  eexists msg, _. split; [done|]. intros e He.
  pose proof (single_src_fields _ _ _ _ _ Es) as (b & Eb & Hsrc & Hd & Hv & _).
  exists msg, (sec_genesis_key (c_section c)), (sec_section_auth (c_section c)), st, (section_chain c).
  split; [done|]. split; [done|]. split; [done|]. split.
  - exists (verify_trust (section_chain c) []). split; [|done]. simpl.
    unfold msg_verify, verify_variant. rewrite Hd, Hv, Eb, Hsrc. simpl.
    unfold ed25519_sign. rewrite ed_sign_verify, Hst. simpl. unfold section_signed_verify, section_signed_authority_provider.
    rewrite Ha, Hk. unfold section_chain. rewrite (proj2 (sll_has_key_spec _ _) (sll_last_key_in _)). done.
  - unfold section_new. rewrite decide_False; [done|]. unfold section_chain. tauto.
Qed.

(** C14: the agreement on a new node completes its join.  When an elder handles the agreement that
    a new node is online, with a record its section chain vouches for, the commands it returns
    include a message to the node; and the node's task, whatever it went through before, returns
    the elder's section, keys and all, as soon as that message arrives. *)
Theorem approval_completes_join `{CL : !ChainLaws} (c c' : Core) (new_info : NodeState)
    (previous_name : option XorName) (signed : Signed) (cmds : list Command) (node : Node) (addr : SocketAddr)
    (key : BlsPublicKey) (draws : list Keypair) (picks : list nat) (events : list ConnectionEvent) (j : Join) :
  section_wf (c_section c) -> self_verify (sec_section_auth (c_section c)) = true ->
  peers_get_section_signed (sec_members (c_section c)) (peer_name (ns_peer new_info)) = None ->
  section_signed_verify (mkSectionSigned new_info signed) (section_chain c) = true ->
  run (handle_online_agreement new_info previous_name signed) c = (c', Ok cmds) ->
  join_run node addr key draws picks events false = Continue j ->
  node_name (j_node j) = peer_name (ns_peer new_info) ->
  exists msg dest, send_message_to_node (peer_entry (ns_peer new_info)) msg dest ∈ cmds /\
    forall e later closed, carries e msg ->
    exists section backlog,
      join_run node addr key draws picks (events ++ e :: later) closed = Finished (Ok (j_node j, section, backlog)) /\
      sec_genesis_key section = sec_genesis_key (c_section c) /\ sec_chain section = section_chain c /\
      sec_section_auth section = sec_section_auth (c_section c).
Proof.
  intros Hwf Hauth Hnew Hver Hrun Hj Hname. unfold section_chain in *.
  assert (exists c1 cmd before, c_section c1 = (update_member (c_section c) (mkSectionSigned new_info signed)).1 /\
    send_node_approval c1 (mkSectionSigned new_info signed) = Ok cmd /\ cmds = before ++ [cmd]) as
    (c1 & cmd & before & Hc1 & Hcmd & ->).
  { revert Hrun. unfold handle_online_agreement, accept_online, mbind, M_bind. cbn [run get]. rewrite Hnew.
    cbn [run step]. destruct (update_member (c_section c) (mkSectionSigned new_info signed)) as [s b] eqn:Eu.
    assert (b = true) as ->.
    { revert Eu. unfold update_member. rewrite Hver. simpl. unfold peers_update, info_name. simpl.
      unfold peers_get_section_signed in Hnew. rewrite Hnew. by intros [= _ <-]. }
    cbn [negb run send_event modify query]. set (c1 := push_event _ _). unfold online_commands.
    destruct (relocate_peers _ _ _) as [l1|]; simpl; [|done].
    destruct (core_promote_and_demote _) as [l2|]; simpl; [|done].
    destruct (sync_adults_unless _ _) as [l3|]; simpl; [|done].
    destruct (send_node_approval c1 _) as [cmd|] eqn:Ea; simpl; [|done]. intros [= _ <-].
    exists c1, cmd, (l1 ++ l3 ++ l2). rewrite <- !app_assoc. done. }
  assert (sec_chain (c_section c1) = section_chain c /\ sec_section_auth (c_section c1) = sec_section_auth (c_section c) /\
    sec_genesis_key (c_section c1) = sec_genesis_key (c_section c)) as (E1 & E2 & E3).
  { rewrite Hc1. unfold update_member. rewrite Hver. simpl. by destruct (peers_update _ _). }
  destruct (approval_approves c1 (mkSectionSigned new_info signed) cmd) as (msg & dest & -> & Happ).
  { rewrite Hc1. by apply update_member_wf. }
  { by rewrite E2. }
  { unfold section_chain. by rewrite E1. }
  { done. }
  exists msg, dest. split; [set_solver|]. intros e later closed He.
  destruct (Happ e He) as (m & g & auth & st & ch & H1 & H2 & H3 & H4 & H5).
  rewrite (join_run_split _ _ _ _ _ _ _ _ _ Hj). simpl.
  rewrite (join_turn_approval e j m g auth st ch _ H1 H2 (eq_trans H3 (eq_sym Hname)) H4 H5). simpl.
  eexists _, _. split; [done|]. done.
Qed.

(** A name close to the destination is in every section of the destination that is not too
    deep. *)
Lemma close_matches depth destination name q :
  matches (prefix_new depth destination) name = true -> matches q destination = true ->
  bit_count q <= depth -> matches q name = true.
Proof.
  rewrite !matches_spec, prefix_new_bits. intros Hn Hq Hd. etrans; [|exact Hn].
  pose proof (bit_count_le q) as Hb. pose proof (length_pbits q) as Hl.
  destruct Hq as [k Hk]. exists (take (depth `min` NAME_BITS - bit_count q) k).
  rewrite Hk, take_app_ge by lia. by rewrite Hl.
Qed.

(** C16: the request of a relocated node is one that the destination admits.  Once the node has a
    payload, it was built on one message, the answer of a section that the loop took when there
    was no payload yet; the new name of the node is in the range of the destination with three
    bits more than the prefix of that section, and its age is the one granted.  So every elder of
    the destination that trusts the relocation order and whose section is not split more than
    three times further than the section that answered proposes the node, under the identity it
    had. *)
Theorem relocated_identity_admitted (node : Node) (addrs : list SocketAddr) (g : BlsPublicKey)
    (details : SignedRelocateDetails) (d : RelocateDetails) (draws : list Keypair)
    (messages : list (RoutingMsg * SocketAddr)) (r : JoinAsRelocated) (payload : RelocatePayload) :
  relocated_run node addrs g details draws messages false = Continue r -> r_payload r = Some payload ->
  signed_relocate_details details = Ok d -> rd_pub_id d = node_name node ->
  node_addr (r_node r) = node_addr node /\ node_age (r_node r) = rd_age d /\
  exists section_auth before m after r1 r2, messages = before ++ m :: after /\ tells_of m.1 section_auth /\
    relocated_run node addrs g details draws before false = Continue r1 /\ r_payload r1 = None /\
    relocated_turn g details m r1 = Continue r2 /\ r_payload r2 <> None /\
    matches (prefix_new (bit_count (sap_prefix section_auth) + 3) (rd_destination d)) (node_name (r_node r)) = true /\
    forall c, matches (section_prefix (c_section c)) (rd_destination d) = true ->
      bit_count (section_prefix (c_section c)) <= bit_count (sap_prefix section_auth) + 3 ->
      peers_is_joined (sec_members (c_section c)) (node_name (r_node r)) = false ->
      verify_message c (srd_signed_msg details) = Ok true ->
      handle_join_as_relocated_request c (node_peer (r_node r)) (last_key c) (Some payload) =
        Ok [CProposeOnline (node_peer (r_node r)) (Some (node_name node)) (Some (rd_destination_key d))].
Proof.
  intros Hr Hp Hd Hid. apply relocated_run_reached in Hr as (answer & [Ha _ Hi] & Hans). rewrite Hp in Hi.
  destruct answer as [auth|]; [|done]. destruct (Hans auth eq_refl) as (bf & m & af & r1 & r2 & H1 & H2 & H3 & H4 & H5 & H6).
  destruct Hi as (-> & _ & d' & Hd' & Hage & Hrange).
  rewrite Hd in Hd'. injection Hd' as <-. rewrite range_contains_matches in Hrange.
  split; [done|]. split; [done|]. exists auth, bf, m, af, r1, r2. do 7 (split; [done|]). clear Hans H1 H2 H3 H4 H5 H6 m.
  intros c Hm Hb Hj Hv. pose proof (close_matches _ _ _ _ Hrange Hm Hb) as Hn.
  unfold handle_join_as_relocated_request.
  assert (peer_name (node_peer (r_node r)) = node_name (r_node r)) as -> by done.
  rewrite Hn, Hj, (bool_decide_eq_false_2 (last_key c <> last_key c)) by tauto. cbn [negb orb].
  assert (payload_details (relocate_payload_new details (node_name (r_node r)) (node_keypair node)) = details)
    as Hpd by by destruct details.
  assert (payload_verify_identity (relocate_payload_new details (node_name (r_node r)) (node_keypair node))
    (node_name (r_node r)) = true) as ->.
  { unfold payload_verify_identity, relocate_payload_new. fold (relocate_payload_new details
      (node_name (r_node r)) (node_keypair node)). rewrite Hpd, Hd, Hid, node_name_ed25519, pub_key_of_name.
    apply ed_sign_verify. }
  unfold payload_relocate_details. rewrite Hpd, Hd. simpl. rewrite Hm. simpl.
  destruct details as [m]. simpl in *. rewrite Hv. simpl.
  assert (peer_age (node_peer (r_node r)) = node_age (r_node r)) as -> by done.
  rewrite Hage, (bool_decide_eq_false_2 (rd_age d <> rd_age d)) by tauto. by rewrite Hid.
Qed.

(** C40: a relocated node never learns that it was approved.  The approval that elders send to a
    new member is a [JoinResponse]: the task of the relocated node skips it, and the handler of
    the node does nothing with it, while the task only ends well on an approval of another
    kind, [JoinAsRelocatedResponse]. *)
Theorem relocation_approval_lost (c : Core) (node_state : SectionSigned NodeState) (cmd : Command) :
  send_node_approval c node_state = Ok cmd ->
  exists recipient msg dest, cmd = send_message_to_node recipient msg dest /\
    (forall g details sender r, relocated_turn g details (msg, sender) r = Continue r) /\
    (forall sender dest' (n : Core), run (dispatch_variant sender msg dest') n = (n, Ok [])) /\
    forall node addrs g details draws messages closed result,
      relocated_run node addrs g details draws messages closed = Finished (Ok result) ->
      exists m sender auth st chain, (m, sender) ∈ messages /\ m <> msg /\
        rm_variant m = VJoinAsRelocatedResponse (RelocatedApproval auth st chain).
Proof.
  unfold send_node_approval. destruct (single_src _ _ _ _) as [msg|] eqn:Es; simpl; [|done]. intros [= <-].
  apply single_src_fields in Es as (b & _ & _ & _ & Hv & _).
  eexists _, msg, _. split; [done|]. split; [|split].
  - intros. unfold relocated_turn. by rewrite Hv.
  - intros. unfold dispatch_variant. by rewrite Hv.
  - intros node addrs g details draws messages closed [node' section] H.
    apply relocated_run_approved in H as (bf & [m s] & af & r & auth & st & chain & -> & _ & _ & Hm & _).
    exists m, s, auth, st, chain. split; [set_solver|]. split; [|done]. intros ->. simpl in Hm. congruence.
Qed.

(** The first request of a relocated node carries the key that the relocation order names for
    the destination.  Elders answer it with a [Retry], and one that carries this same key is
    ignored: as long as the key is current the node never gets to build its payload. *)
Theorem current_key_blocks_relocation (node : Node) (addrs : list SocketAddr) (g key : BlsPublicKey)
    (details : SignedRelocateDetails) (draws : list Keypair) (messages : list (RoutingMsg * SocketAddr))
    (r : JoinAsRelocated) :
  signed_relocate_destination_key details = Ok key ->
  Forall (fun m => exists auth, sap_section_key auth = key /\
    (rm_variant m.1 = VJoinAsRelocatedResponse (RelocatedRetry auth) \/
     rm_variant m.1 = VJoinAsRelocatedResponse (RelocatedRedirect auth))) messages ->
  relocated_run node addrs g details draws messages false = Continue r ->
  r_payload r = None /\ r_node r = node /\ length (r_sent r) = 1.
Proof.
  intros Hk Hms. unfold relocated_run, relocated_start. rewrite Hk. simpl.
  destruct (signed_relocate_destination details) as [dest|]; simpl; [|done].
  destruct (relocated_send None _) as [r0| | |] eqn:E0; simpl; try done.
  assert (r_payload r0 = None /\ r_node r0 = node /\ length (r_sent r0) = 1 /\ r_section_key r0 = key) as H0.
  { revert E0. unfold relocated_send, join_request_message. simpl. destruct (single_src _ _ _ _); simpl; [|done].
    destruct addrs; simpl; [done|]. by intros [= <-]. }
  clear E0 Hk. revert r0 H0. induction Hms as [|[m s] messages (auth & Ha & Hm) _ IH]; intros r0 H0; cbn [turns].
  - intros [= <-]. by destruct H0 as (? & ? & ? & _).
  - simpl in Hm. assert (exists r1, relocated_turn g details (m, s) r0 = Continue r1 /\
      r_payload r1 = None /\ r_node r1 = node /\ length (r_sent r1) = 1 /\ r_section_key r1 = key) as (r1 & E1 & H1).
    { destruct H0 as (Hp & Hn & Hs & Hkey). unfold relocated_turn.
      destruct Hm as [Hm|Hm]; rewrite Hm; unfold accept_relocated_response; rewrite Hp; simpl;
        destruct (matches _ _); simpl; [|by exists r0| |by exists r0];
        destruct (Nat.eqb _ _); simpl; [by exists r0| |by exists r0|];
        (destruct (bootstrap_verify_message _ _); [|by exists r0]); cbn [relocated_response];
        rewrite decide_True by (simpl; congruence); by eexists. }
    rewrite E1. simpl. apply IH. done.
Qed.
End JoinProtocol.

(** ** Witnesses *)

Module JoinWitness.
Import BitNames ToyCrates ToySerialize SectionKeysWitness NetworkWitness EndUsersWitness MessagesWitness CoreToy
  CommWitness BootstrapToy MessageFilterWitness NodeToy NodeWitness.

#[export] Instance resource_laws : ResourceProofLaws.
Proof. intros nonce. simpl. by rewrite bool_decide_eq_true_2. Qed.

Definition there : SocketAddr := SocketAddrV4 5 5.

(** an infant, with a key pair of age 6 among those it draws *)
Definition infant : Node := mkNode (to_name 5 : Keypair) there.
Definition drawn : list Keypair := [to_name 7; to_name 6].
Definition joining : Join := mkJoin infant [] key1 [(to_name 5, there)] ∅ [] drawn [0].

Definition joining1 : Join :=
  match on_retry (authority_provider (c_section core1)) joining with Continue j => j | _ => joining end.
Definition joining_peer : Peer := node_peer (j_node joining1).
Definition joining_challenge : Command :=
  match send_resource_proof_challenge core1 joining_peer with Ok cmd => cmd | Err _ => CHandleTimeout 0 end.

Lemma join_handshake_witness :
  on_retry (authority_provider (c_section core1)) joining = Continue joining1 /\
  handle_join_request core1 joining_peer (mkJoinRequest key9 None) = Ok [joining_challenge].
Proof.
  assert (on_retry (authority_provider (c_section core1)) joining = Continue joining1) as H by reflexivity.
  split; [exact H|].
  destruct (join_handshake core1 joining joining1 joining_challenge there
    ltac:(reflexivity) ltac:(discriminate) ltac:(reflexivity) ltac:(vm_compute; discriminate) H
    ltac:(reflexivity) ltac:(reflexivity) ltac:(reflexivity)) as (_ & Hh & _). exact Hh.
Defined.

(** a node of name 50 that is relocated; the section that answers has moved to another key *)
Definition node50 : Node := mkNode (to_name 50 : Keypair) there.
Definition retry_msg : RoutingMsg :=
  match single_src node1 DirectAndUnrouted (VJoinAsRelocatedResponse (RelocatedRetry (sap [] 1))) key1 with
  | Ok m => m | Err _ => genuine_msg
  end.
Definition drawn60 : list Keypair := [to_name 7; to_name (60 + 256)].
Definition relocating_run := relocated_run node50 [there] key9 order50 drawn60 [(retry_msg, there)] false.
Definition relocating50 : JoinAsRelocated :=
  match relocating_run with Continue r => r | _ => mkJoinAsRelocated node50 None key9 [] ∅ [] [] end.

Definition payload50 : RelocatePayload := default payload9 (r_payload relocating50).

Lemma relocated_identity_admitted_witness :
  relocating_run = Continue relocating50 /\
  handle_join_as_relocated_request core1 (node_peer (r_node relocating50)) key9 (Some payload50) =
    Ok [CProposeOnline (node_peer (r_node relocating50)) (Some (to_name 50)) (Some key9)].
Proof.
  assert (relocating_run = Continue relocating50) as H by reflexivity. split; [exact H|].
  destruct (relocated_identity_admitted node50 [there] key9 order50 granted drawn60 [(retry_msg, there)]
    relocating50 payload50 H ltac:(reflexivity) ltac:(reflexivity) ltac:(reflexivity)) as
    (_ & _ & auth & bf & m & af & r1 & r2 & _ & _ & _ & _ & _ & _ & _ & Ha).
  apply (Ha core1); [reflexivity| |reflexivity|reflexivity].
  change (bit_count (section_prefix (c_section core1))) with 0. lia.
Defined.

(** the approval of the node as a member of its new section *)
Definition state50 : SectionSigned NodeState :=
  mkSectionSigned (node_state_joined (node_peer (r_node relocating50))) signed9.
Definition approval_cmd : Command :=
  match send_node_approval core1 state50 with Ok cmd => cmd | Err _ => CHandleTimeout 0 end.

Lemma relocation_approval_lost_witness :
  send_node_approval core1 state50 = Ok approval_cmd /\
  exists recipient msg dest, approval_cmd = send_message_to_node recipient msg dest /\
    relocated_turn key9 order50 (msg, there) relocating50 = Continue relocating50.
Proof.
  assert (send_node_approval core1 state50 = Ok approval_cmd) as H by reflexivity. split; [exact H|].
  destruct (relocation_approval_lost core1 state50 approval_cmd H) as (rc & m & d & -> & Hs & _).
  exists rc, m, d. split; [reflexivity|apply Hs].
Defined.

(** A whole run: the infant is told of the first section, turns into a node of age 6 and is
    approved; a user message that comes in meanwhile is kept. *)
Definition from_node1 (v : Variant) : RoutingMsg :=
  match single_src node1 DirectAndUnrouted v key1 with Ok m => m | Err _ => genuine_msg end.
Definition approved : NodeState := node_state_joined (node_peer (mkNode (to_name 6 : Keypair) there)).
Definition approval : JoinResponse :=
  JoinApproval key9 (sec_section_auth (c_section core1))
    (mkSectionSigned approved
      (mkSigned key9 ((9%N, default [] (serialize (T := NodeState) approved)) : BlsSignature)))
    (sec_chain (c_section core1)).
Definition first_retry : JoinResponse := JoinRetry (authority_provider (c_section core1)).

(** the same approval with an authority provider that nobody signed, sent in the name of a
    section under a key of the sender's own *)
Definition forged_auth : SectionSigned SectionAuthorityProvider :=
  let auth := sec_section_auth (c_section core1) in
  mkSectionSigned (ss_value auth) (mkSigned (signed_public_key (ss_signed auth)) ((666%N, []) : BlsSignature)).
Definition forged_approval : RoutingMsg :=
  let variant := VJoinResponse (JoinApproval key9 forged_auth
    (mkSectionSigned approved (mkSigned key9 ((666%N, []) : BlsSignature))) (sec_chain (c_section core1))) in
  let bytes := match signable_bytes DirectAndUnrouted variant with Ok b => b | Err _ => [] end in
  mkRoutingMsg id7 (SrcAuthSection (to_name 1) (mkSigned key1 ((key1, bytes) : BlsSignature)) (chain_of 1))
    DirectAndUnrouted AggregationNone variant key1.
Definition join_wire : WireMsgOps := {|
  WireMsg := Z;
  wire_from _ := Err tt;
  wire_msg_id _ := 0%N;
  wire_is_join_request _ := Ok false;
  wire_to_message _ := Err tt;
  wire_deserialize bytes :=
    match bytes with
    | [0%Z] => Ok (MTRouting dest0 (from_node1 (VJoinResponse first_retry)))
    | [1%Z] => Ok (MTRouting dest0 genuine_msg)
    | [2%Z] => Ok (MTRouting dest0 (from_node1 (VJoinResponse approval)))
    | [3%Z] => Ok (MTRouting dest0 forged_approval)
    | _ => Err tt
    end;
|}.

Example infant_joins :
  match join_run (WM := join_wire) infant there key1 drawn [0]
          ((fun b => Received (at_time 0) there [b]) <$> [0; 1; 2]%Z) false with
  | Finished (Ok (node, section, backlog)) =>
      node_age node = 6%Z /\ section_prefix section = prefix_default /\ length backlog = 1
  | _ => False
  end.
Proof. vm_compute. done. Qed.

(** An approval in the name of a section is taken without a look at the signatures it carries:
    the infant ends up in a section whose authority provider nobody signed. *)
Example forged_authority_admitted :
  match join_run (WM := join_wire) infant there key1 drawn [0]
          ((fun b => Received (at_time 0) there [b]) <$> [0; 3]%Z) false with
  | Finished (Ok (_, section, _)) => self_verify (sec_section_auth section) = false
  | _ => False
  end.
Proof. vm_compute. done. Qed.

Definition approved_signed : Signed :=
  mkSigned key9 ((9%N, default [] (serialize (T := NodeState) approved)) : BlsSignature).
Definition retried : list ConnectionEvent := [Received (at_time 0) there [0%Z]].
Definition infant_waiting : Join :=
  match join_run (WM := join_wire) infant there key1 drawn [0] retried false with
  | Continue j => j | _ => joining
  end.
Definition online_run := run (handle_online_agreement approved None approved_signed) core1.
Definition online_cmds : list Command := match online_run.2 with Ok cs => cs | Err _ => [] end.

Lemma approval_completes_join_witness :
  exists msg dest, send_message_to_node (peer_entry (ns_peer approved)) msg dest ∈ online_cmds.
Proof.
  assert (section_wf (c_section core1)) as Hwf.
  { eapply (first_node_wf _ _ (node_peer node1) (c_section core1)); [exact DispatcherWitness.keys9|reflexivity]. }
  assert (self_verify (sec_section_auth (c_section core1)) = true) as H1 by (vm_compute; reflexivity).
  assert (section_signed_verify (mkSectionSigned approved approved_signed) (section_chain core1) = true) as H2
    by (vm_compute; reflexivity).
  assert (run (handle_online_agreement approved None approved_signed) core1 = (online_run.1, Ok online_cmds)) as H3
    by reflexivity.
  assert (join_run (WM := join_wire) infant there key1 drawn [0] retried false = Continue infant_waiting) as H4
    by reflexivity.
  assert (node_name (j_node infant_waiting) = peer_name (ns_peer approved)) as H5 by reflexivity.
  assert (peers_get_section_signed (sec_members (c_section core1)) (peer_name (ns_peer approved)) = None) as H6
    by reflexivity.
  destruct (approval_completes_join (WM := join_wire) core1 online_run.1 approved None approved_signed online_cmds
    infant there key1 drawn [0] retried infant_waiting Hwf H1 H6 H2 H3 H4 H5) as (msg & dest & Hin & _).
  exists msg, dest. exact Hin.
Defined.
End JoinWitness.
