(* ===== verification/Startup.v ===== *)
(** * Starting and stopping a node (src/routing/mod.rs, comm.rs, dispatcher.rs, event_stream.rs)

    [routing_new] is [Routing::new] as a whole: the identity, the endpoint, the first node of a
    network or the join of a section, and the messages that arrived meanwhile, with the tasks
    spawned by the first of them interleaved with the handling of the later ones.  Dropping a
    [Routing] is [routing_drop].  The transport (qp2p) and the channels (tokio) are parameters.

    The events of a node go through a channel of [EVENT_CHANNEL_SIZE] places, and nobody reads
    it before [Routing::new] has returned: a handler with one event too many waits inside the
    lock on the node's state, so that the start is [Blocked]. *)

From stdpp Require Import base tactics list gmap sorting.
From Stdlib Require Import ZArith Lia.
From S2P Require Import Prelude Names Crates Types Thresholds SectionPeers SectionKeys.
From S2P Require Import SectionState PrefixMap Network SplitBarrier EndUsers DkgFailure DkgSession.
From S2P Require Import DkgVoter Messages Cache MessageFilter Relocation DeliveryGroup CoreState.
From S2P Require Import Handling NodeInvariant Comm Bootstrap Dispatcher NodeClaims JoinProtocol.

(** What the start has come to: a value, it waits for messages or for a fitting key pair, it is
    blocked by its own events, it panicked, or it returned an error. *)
Inductive starting (E A : Type) : Type :=
| Go (a : A)
| Waiting
| Blocked
| Panics
| Fails (e : E).
#[global] Arguments Go {E A} a.
#[global] Arguments Waiting {E A}.
#[global] Arguments Blocked {E A}.
#[global] Arguments Panics {E A}.
#[global] Arguments Fails {E A} e.

#[export] Instance starting_ret E : MRet (starting E) := fun A a => Go a.
#[export] Instance starting_bind E : MBind (starting E) := fun A B k m =>
  match m with
  | Go a => k a
  | Waiting => Waiting
  | Blocked => Blocked
  | Panics => Panics
  | Fails e => Fails e
  end.

Lemma starting_bind_go {E A B : Type} (m : starting E A) (k : A -> starting E B) b :
  (m ≫= k) = Go b -> exists a, m = Go a /\ k a = Go b.
Proof. destruct m; simpl; try done. eauto. Qed.

(** the [?] operator *)
Definition start_result {E A : Type} (r : result A E) : starting E A :=
  match r with Ok a => Go a | Err e => Fails e end.

(** what a task returns when it is awaited *)
Definition start_task {E R S : Type} (m : phase E R S) : starting E R :=
  match m with
  | Continue _ | Generating => Waiting
  | Panicked => Panics
  | Finished r => start_result r
  end.

(** the value of a computation that only draws key pairs *)
Definition start_keys {E A : Type} (m : phase E A A) : starting E A :=
  match m with Continue a => Go a | _ => start_task m end.

(** two senders of one channel; each choice says whose turn it is *)
Fixpoint interleave {A : Type} (choices : list bool) (xs ys : list A) : list A :=
  match choices, xs, ys with
  | true :: cs, x :: xs', _ => x :: interleave cs xs' ys
  | false :: cs, _, y :: ys' => y :: interleave cs xs ys'
  | _ :: cs, _, _ => interleave cs xs ys
  | [], _, _ => []
  end.

Definition EVENT_CHANNEL_SIZE : nat := 20.
Definition GENESIS_AGE : Z := 255.

Section Startup.
Context `{CR : Crates, KG : !KeyGenOps, KP : !KeyGenProgress, PMO : !PrefixMapOps OtherSection,
  MO : !MessagingOps, VA : VecDequeAlloc, CE : !CoreEnv, WO : !WireOps, WM : !WireMsgOps, BE : !BootstrapEnv}.
Context `{SerView : !Serialize (DstLocation * Variant), SerNodeState : !Serialize NodeState,
  SerSap : !Serialize SectionAuthorityProvider, SerKey : !Serialize BlsPublicKey,
  SerJoins : !Serialize (MessageId * bool), SerNonce : !Serialize (XorName * Bytes),
  SerAddr : !Serialize SocketAddr}.

(** The transport, qp2p, with the results of its asynchronous calls, and the ends of the
    channels of tokio. *)
Class TransportOps := {
  TransportConfig : Type;
  transport_default : TransportConfig;
  QuicP2p : Type;
  Endpoint : Type;
  (** [QuicP2p::with_config(Some(config), &[], true)] *)
  qp2p_with_config : TransportConfig -> result QuicP2p Qp2pError;
  qp2p_new_endpoint : QuicP2p -> result Endpoint Qp2pError;
  (** with the address of the peer that was contacted *)
  qp2p_bootstrap : QuicP2p -> result (Endpoint * SocketAddr) Qp2pError;
  endpoint_socket_addr : Endpoint -> SocketAddr;
  endpoint_close : Endpoint -> Endpoint;
  (** the sender of the channel of connection events *)
  ConnectionTx : Type;
  (** the receiver of events: what was sent through it and not received yet *)
  EventRx : Type;
  event_rx : list Event -> EventRx;
  (** [recv] of a receiver whose senders are alive, [None] while there is nothing to receive *)
  event_recv : EventRx -> option (Event * EventRx);
}.
Context `{TO : !TransportOps}.

(** ** The endpoint (comm.rs) *)

Record Comm_ : Type := mkComm {
  comm_quic_p2p : QuicP2p;
  comm_endpoint : Endpoint;
  comm_event_tx : option ConnectionTx;
}.

(** the tasks that pass on what the transport delivers *)
Definition handle_incoming_messages (incoming_msgs : list (readings * SocketAddr * Bytes)) : list ConnectionEvent :=
  (fun '(now, src, msg) => Received now src msg) <$> incoming_msgs.
Definition handle_disconnection_events (disconnections : list SocketAddr) : list ConnectionEvent :=
  Disconnected <$> disconnections.

Definition comm_new (transport_config : TransportConfig) (event_tx : ConnectionTx) : result Comm_ Error :=
  let? quic_p2p := map_err InvalidConfig (qp2p_with_config transport_config) in
  let? endpoint := map_err CannotConnectEndpoint (qp2p_new_endpoint quic_p2p) in
  Ok (mkComm quic_p2p endpoint (Some event_tx)).

Definition comm_bootstrap (transport_config : TransportConfig) (event_tx : ConnectionTx) :
    result (Comm_ * SocketAddr) Error :=
  let? quic_p2p := map_err InvalidConfig (qp2p_with_config transport_config) in
  let? '(endpoint, bootstrap_addr) := map_err CannotConnectEndpoint (qp2p_bootstrap quic_p2p) in
  Ok (mkComm quic_p2p endpoint (Some event_tx), bootstrap_addr).

Definition comm_terminate (comm : Comm_) : Comm_ :=
  mkComm (comm_quic_p2p comm) (endpoint_close (comm_endpoint comm)) None.

Definition our_connection_info (comm : Comm_) : SocketAddr := endpoint_socket_addr (comm_endpoint comm).

(** [Drop for Comm] *)
Definition comm_drop (comm : Comm_) : Comm_ :=
  mkComm (comm_quic_p2p comm) (endpoint_close (comm_endpoint comm)) (comm_event_tx comm).

(** ** The event stream (event_stream.rs) *)

Record EventStream : Type := event_stream_new { events_rx : EventRx }.

Definition event_stream_next (s : EventStream) : option (Event * EventStream) :=
  '(event, rx) ← event_recv (events_rx s); Some (event, event_stream_new rx).

(** the next events, as many as there are, up to a number *)
Fixpoint event_stream_take (n : nat) (s : EventStream) : list Event :=
  match n with
  | 0 => []
  | S n => match event_stream_next s with
           | Some (event, s') => event :: event_stream_take n s'
           | None => []
           end
  end.

(** ** The dispatcher (dispatcher.rs) *)

Record Dispatcher_ : Type := mkDispatcher {
  d_core : Core;
  d_comm : Comm_;
  d_cancel_timer : bool;
}.

Definition dispatcher_new (state : Core) (comm : Comm_) : Dispatcher_ := mkDispatcher state comm false.

Definition dispatcher_terminate (d : Dispatcher_) : Dispatcher_ :=
  mkDispatcher (d_core d) (comm_terminate (d_comm d)) true.

(** [handle_command]: the timers of a dispatcher that was terminated are cancelled *)
Definition dispatcher_handle_command (o : Outcomes) (command : Command) (d : Dispatcher_) :
    Dispatcher_ * result (list Command) Error :=
  let o := mkOutcomes (o_now o) (o_reachable o) (o_sends o) (o_schedule o) (o_existing o)
             (d_cancel_timer d || o_cancelled o) (o_relocated o) in
  let '(state, r) := run (try_handle_command o command) (d_core d) in
  (mkDispatcher state (d_comm d) (d_cancel_timer d), r).

(** ** Routing (mod.rs) *)

Record Config : Type := mkConfig {
  cfg_first : bool;
  cfg_keypair : option Keypair;
  cfg_transport_config : TransportConfig;
}.
Definition config_default : Config := mkConfig false None transport_default.

(** the dispatcher, with the commands that were spawned *)
Record Routing : Type := mkRouting {
  rt_dispatcher : Dispatcher_;
  rt_spawned : list Command;
}.

(** [Drop for Routing] *)
Definition routing_drop (r : Routing) : Routing :=
  mkRouting (dispatcher_terminate (rt_dispatcher r)) (rt_spawned r).

(** *** Spawned tasks *)

(** one of the spawned commands, what happens while it is handled and, when it is a relocation,
    what the relocated node draws and receives *)
Record Task : Type := mkTask {
  t_index : nat;
  t_outcomes : Outcomes;
  t_draws : list Keypair;
  t_messages : list (RoutingMsg * SocketAddr);
  t_closed : bool;
}.

(** [None] while the node is still joining its new section *)
Definition task_outcomes (t : Task) (c : Core) (command : Command) : option Outcomes :=
  let o := t_outcomes t in
  match command with
  | CRelocate bootstrap_addrs details =>
      match relocated_run (c_node c) bootstrap_addrs (genesis_key (c_section c)) details (t_draws t)
              (t_messages t) (t_closed t) with
      | Finished r => Some (mkOutcomes (o_now o) (o_reachable o) (o_sends o) (o_schedule o) (o_existing o)
                              (o_cancelled o) r)
      | _ => None
      end
  | _ => Some o
  end.

Definition run_task (t : Task) (n : NodeState_) : NodeState_ :=
  let '(c, pending) := n in
  match pending !! t_index t with
  | None => n
  | Some command =>
      match task_outcomes t c command with
      | None => n
      | Some o =>
          let '(c', r) := run (try_handle_command o command) c in
          (c', delete (t_index t) pending ++ match r with Ok cmds => cmds | Err _ => [] end)
      end
  end.

(** nobody receives the events yet *)
Definition send_events (n : NodeState_) : starting Error NodeState_ :=
  if (length (c_events n.1) <=? EVENT_CHANNEL_SIZE)%nat then Go n else Blocked.

Fixpoint run_tasks (ts : list Task) (n : NodeState_) : starting Error NodeState_ :=
  match ts with
  | [] => Go n
  | t :: ts' => n' ← send_events (run_task t n); run_tasks ts' n'
  end.

(** *** The messages that arrived while the node was joining *)

(** one of them: [handle_commands], with the tasks that run before *)
Definition handle_backlogged (turn : list Task * Outcomes) (entry : Backlogged) (n : NodeState_) :
    starting Error NodeState_ :=
  n ← run_tasks turn.1 n;
  let '(c, r) := run (try_handle_command turn.2 (backlog_command entry)) n.1 in
  _ ← send_events (c, n.2);
  cmds ← start_result r;
  mret (c, n.2 ++ cmds).

Fixpoint process_backlog (turn : nat -> list Task * Outcomes) (i : nat) (backlog : list Backlogged) (n : NodeState_) :
    starting Error NodeState_ :=
  match backlog with
  | [] => Go n
  | entry :: backlog' => n' ← handle_backlogged (turn i) entry n; process_backlog turn (S i) backlog' n'
  end.

(** *** [Routing::new] *)

(** what the node draws, what it is sent while it joins, and what happens while it handles the
    messages that it kept *)
Record Surroundings : Type := mkSurroundings {
  su_draws : list Keypair;
  su_section_key : BlsPublicKey;
  su_picks : list nat;
  su_connection_tx : ConnectionTx;
  su_incoming : list (readings * SocketAddr * Bytes);
  su_disconnections : list SocketAddr;
  su_order : list bool;
  su_turns : nat -> list Task * Outcomes;
  su_tokens : Z;
}.

(** [config.keypair.unwrap_or_else(...)], with the draws that are left *)
Definition config_keypair (config : Config) (draws : list Keypair) : starting Error (Keypair * list Keypair) :=
  match cfg_keypair config with
  | Some keypair => mret (keypair, draws)
  | None => start_keys (gen_keypair draws prefix_default MIN_ADULT_AGE)
  end.

(** what comes in while the node joins *)
Definition connection_feed (su : Surroundings) : list ConnectionEvent :=
  interleave (su_order su) (handle_incoming_messages (su_incoming su))
    (handle_disconnection_events (su_disconnections su)).

Definition start_first (config : Config) (su : Surroundings) (draws : list Keypair) :
    starting Error (Core * Comm_ * list Backlogged) :=
  '(keypair, _) ← start_keys (gen_keypair draws prefix_default GENESIS_AGE);
  comm ← start_result (comm_new (cfg_transport_config config) (su_connection_tx su));
  let node := node_new keypair (our_connection_info comm) in
  state ← start_result (routing_first node (su_tokens su));
  mret (state, comm, []).

(** the channel stays open: [comm] holds a sender *)
Definition start_joined (config : Config) (su : Surroundings) (keypair : Keypair) (draws : list Keypair) :
    starting Error (Core * Comm_ * list Backlogged) :=
  '(comm, bootstrap_addr) ← start_result (comm_bootstrap (cfg_transport_config config) (su_connection_tx su));
  let node := node_new keypair (our_connection_info comm) in
  '(node, section, backlog) ←
    start_task (join_run node bootstrap_addr (su_section_key su) draws (su_picks su) (connection_feed su) false);
  mret (core_new node section None (su_tokens su), comm, backlog).

Definition routing_new (config : Config) (su : Surroundings) : starting Error (Routing * EventStream) :=
  '(keypair, draws) ← config_keypair config (su_draws su);
  '(state, comm, backlog) ←
    (if cfg_first config then start_first config su draws else start_joined config su keypair draws);
  '(state, spawned) ← process_backlog (su_turns su) 0 backlog (state, []);
  mret (mkRouting (dispatcher_new state comm) spawned, event_stream_new (event_rx (c_events state))).
End Startup.

(** ** Lemmas *)

Section Lemmas.
Context `{CR : Crates, XL : !XorLaws, CL : !ChainLaws, KG : !KeyGenOps, KP : !KeyGenProgress,
  PMO : !PrefixMapOps OtherSection, PML : !PrefixMapLaws OtherSection, MO : !MessagingOps,
  VA : VecDequeAlloc, VL : !VecDequeAllocLaws, CE : !CoreEnv, EL : !CoreEnvLaws, WO : !WireOps, WM : !WireMsgOps,
  BE : !BootstrapEnv, TO : !TransportOps}.
Context `{SerView : !Serialize (DstLocation * Variant), SerNodeState : !Serialize NodeState,
  SerSap : !Serialize SectionAuthorityProvider, SerKey : !Serialize BlsPublicKey,
  SerJoins : !Serialize (MessageId * bool), SerNonce : !Serialize (XorName * Bytes),
  SerAddr : !Serialize SocketAddr}.

Lemma send_events_go n n' : send_events n = Go n' -> n' = n /\ length (c_events n.1) <= EVENT_CHANNEL_SIZE.
Proof. unfold send_events. destruct (_ <=? _)%nat eqn:E; [|done]. intros [= <-]. by apply Nat.leb_le in E. Qed.

(** a node keeps its address, also when it is relocated *)
Lemma command_addr o cmd c :
  relocation_ok o c cmd -> node_addr (c_node (run (try_handle_command o cmd) c).1) = node_addr (c_node c).
Proof.
  intros Ho. destruct (command_evolves o cmd c) as [H|(node & section & E & (addrs & details & ->) & ->)].
  - by rewrite (ev_node _ _ H).
  - destruct (relocated_fields node section c) as [-> _]. destruct (Ho node section E) as (draws & ms & closed & Hr).
    apply relocated_run_approved in Hr as (? & ? & ? & r & ? & ? & ? & _ & Hr & -> & _).
    by destruct (relocated_run_reached _ _ _ _ _ _ _ Hr) as (? & [] & _).
Qed.

Lemma task_outcomes_ok t c cmd o : task_outcomes t c cmd = Some o -> relocation_ok o c cmd.
Proof.
  unfold task_outcomes. destruct cmd; simpl; try done.
  destruct (relocated_run _ _ _ _ _ _ _) as [| | |r] eqn:E; [done..|]. intros [= <-] node section [= ->]. eauto.
Qed.

(** A task is a step of the node, whatever else is to be handled. *)
Lemma run_task_step t c pending others n :
  run_task t (c, pending) = n ->
  node_addr (c_node n.1) = node_addr (c_node c) /\
  (n = (c, pending) \/ node_step (c, others ++ pending) (n.1, others ++ n.2)).
Proof.
  intros <-. cbn [run_task]. destruct (pending !! t_index t) as [cmd|] eqn:Ec; [|by auto].
  destruct (task_outcomes t c cmd) as [o|] eqn:Eo; [|by auto]. apply task_outcomes_ok in Eo.
  pose proof (command_addr o cmd c Eo) as Ha. apply list_elem_of_split_length in Ec as (before & after & -> & Hk).
  destruct (run (try_handle_command o cmd) c) as [c' r] eqn:Er. simpl in *. split; [done|right].
  rewrite Hk, delete_middle. destruct r as [cmds|e].
  - rewrite <- !app_assoc, !(app_assoc others before). by eapply step_command.
  - rewrite app_nil_r, !(app_assoc others before). by eapply step_error.
Qed.

(** Starting from a state that a node can reach, with commands that are still to be handled,
    the tasks and the messages lead to such states again. *)
Lemma run_tasks_reachable ts c pending others n :
  node_reachable (c, others ++ pending) -> run_tasks ts (c, pending) = Go n ->
  node_reachable (n.1, others ++ n.2) /\ node_addr (c_node n.1) = node_addr (c_node c).
Proof.
  revert c pending. induction ts as [|t ts IH]; intros c pending Hn; simpl; [by intros [= <-]|].
  intros (m & Hm & Hr)%starting_bind_go. apply send_events_go in Hm as [Hm _].
  destruct (run_task_step t c pending others m (eq_sym Hm)) as [Ha Hs]. destruct m as [c' pending'].
  assert (node_reachable (c', others ++ pending')) as Hc' by
    (destruct Hs as [[= -> ->]|Hs]; [done|by eapply node_next]).
  destruct (IH c' pending' Hc' Hr) as [H1 H2]. split; [done|]. simpl in *. congruence.
Qed.

Lemma process_backlog_reachable turn i backlog c pending n :
  node_reachable (c, (backlog_command <$> backlog) ++ pending) ->
  process_backlog turn i backlog (c, pending) = Go n ->
  node_reachable n /\ node_addr (c_node n.1) = node_addr (c_node c) /\
  (length (c_events c) <= EVENT_CHANNEL_SIZE -> length (c_events n.1) <= EVENT_CHANNEL_SIZE).
Proof.
  revert i c pending. induction backlog as [|entry backlog IH]; intros i c pending Hn; cbn [process_backlog].
  { intros [= <-]. done. }
  intros (m & Hm & Hr)%starting_bind_go. unfold handle_backlogged in Hm.
  apply starting_bind_go in Hm as ([c1 p1] & Ht & Hm).
  destruct (run_tasks_reachable _ _ _ _ _ Hn Ht) as [Hn1 Ha1]. simpl in Hn1, Ha1, Hm.
  assert (relocation_ok (turn i).2 c1 (backlog_command entry)) as Ho by by destruct entry as [[]].
  pose proof (command_addr _ _ _ Ho) as Ha2.
  destruct (run (try_handle_command (turn i).2 (backlog_command entry)) c1) as [c2 r] eqn:E. simpl in Ha2.
  apply starting_bind_go in Hm as (? & [_ He]%send_events_go & Hm). destruct r as [cmds|]; simpl in Hm; [|done].
  injection Hm as <-. edestruct (IH (S i) c2 (p1 ++ cmds)) as (H1 & H2 & H3); [|exact Hr|].
  - eapply node_next; [exact Hn1|].
    pose proof (step_command (turn i).2 c1 [] _ ((backlog_command <$> backlog) ++ p1) c2 cmds Ho E) as Hs.
    simpl in Hs. by rewrite <- app_assoc in Hs.
  - split; [done|]. split; [congruence|]. auto.
Qed.
End Lemmas.

(** ** Claims *)

Section Claims.
Context `{CR : Crates, XL : !XorLaws, CL : !ChainLaws, KG : !KeyGenOps, KP : !KeyGenProgress,
  PMO : !PrefixMapOps OtherSection, PML : !PrefixMapLaws OtherSection, MO : !MessagingOps,
  VA : VecDequeAlloc, VL : !VecDequeAllocLaws, CE : !CoreEnv, EL : !CoreEnvLaws, WO : !WireOps, WM : !WireMsgOps,
  BE : !BootstrapEnv, TO : !TransportOps}.
Context `{SerView : !Serialize (DstLocation * Variant), SerNodeState : !Serialize NodeState,
  SerSap : !Serialize SectionAuthorityProvider, SerKey : !Serialize BlsPublicKey,
  SerJoins : !Serialize (MessageId * bool), SerNonce : !Serialize (XorName * Bytes),
  SerAddr : !Serialize SocketAddr}.

(** tokio: a channel delivers in the order of sending *)
Class EventRxLaws : Prop :=
  event_recv_spec : forall es, event_recv (event_rx es) =
    match es with [] => None | e :: es' => Some (e, event_rx es') end.

Lemma event_stream_take_spec `{ER : !EventRxLaws} n es : event_stream_take n (event_stream_new (event_rx es)) = take n es.
Proof.
  revert es; induction n as [|n IH]; intros es; simpl; [done|]. unfold event_stream_next. simpl.
  rewrite event_recv_spec. destruct es as [|e es]; simpl; [done|]. by rewrite IH.
Qed.

Lemma routing_first_fields node tokens c :
  routing_first node tokens = Ok c -> c_node c = node /\ length (c_events c) = 1.
Proof. unfold routing_first. destruct (core_first_node node tokens) as [d|] eqn:E; simpl; [|done].
  intros [= <-]. simpl. revert E. unfold core_first_node. destruct (first_node _ _ _) as [[s sh]|]; simpl; [|done].
  by intros [= <-].
Qed.

(** what either way of starting comes to: a state that a node starts from, at its own endpoint *)
Lemma start_reachable config su keypair draws c comm backlog :
  first_keys random_key_set.1 random_key_set.2 ->
  (if cfg_first config then start_first config su draws else start_joined config su keypair draws) =
    Go (c, comm, backlog) ->
  node_reachable (c, backlog_command <$> backlog) /\ node_addr (c_node c) = our_connection_info comm /\
  comm_event_tx comm = Some (su_connection_tx su) /\ length (c_events c) <= 1.
Proof.
  intros Hk. destruct (cfg_first config).
  - unfold start_first. intros ([kp d] & _ & H)%starting_bind_go. apply starting_bind_go in H as (cm & Hc & H).
    apply starting_bind_go in H as (st & Hs & [= <- <- <-]).
    destruct (routing_first _ _) as [c'|] eqn:E; simpl in Hs; [injection Hs as ->|done].
    destruct (routing_first_fields _ _ _ E) as [Hn Hl]. split; [by eapply node_first|].
    rewrite Hn, Hl. split; [done|]. split; [|done]. revert Hc. unfold comm_new.
    destruct (qp2p_with_config _); simpl; [|done]. destruct (qp2p_new_endpoint _); simpl; [|done]. by intros [= <-].
  - unfold start_joined. intros ([cm addr] & Hc & H)%starting_bind_go.
    apply starting_bind_go in H as ([[node section] bl] & Hj & [= <- <- <-]).
    destruct (join_run _ _ _ _ _ _ _) as [| | |[r|]] eqn:E; simpl in Hj; try done. injection Hj as ->.
    split; [by eapply node_joined|]. apply join_run_approved in E as (? & ? & ? & j & _ & Hr & _ & -> & _).
    apply join_run_reached in Hr as [Ha _ _]. split; [done|]. split; [|simpl; lia].
    revert Hc. unfold comm_bootstrap. destruct (qp2p_with_config _); simpl; [|done].
    destruct (qp2p_bootstrap _) as [[]|]; simpl; [|done]. by intros [= <- _].
Qed.

(** C15: starting refines the state machine of a node.  Whatever [Routing::new] returns is a state
    of the machine, with the commands it spawned: the first node of a network, or a node that
    joined and handled the messages that had arrived, with their tasks in between.  The node is
    known under the address of its endpoint, its timers run, the transport can report to it,
    and the user receives the events of the start, all of them and in order. *)
Theorem startup_refines_node `{ER : !EventRxLaws} (config : Config) (su : Surroundings) (routing : Routing)
    (stream : EventStream) :
  first_keys random_key_set.1 random_key_set.2 ->
  routing_new config su = Go (routing, stream) ->
  let d := rt_dispatcher routing in
  node_reachable (d_core d, rt_spawned routing) /\
  node_addr (c_node (d_core d)) = our_connection_info (d_comm d) /\
  comm_event_tx (d_comm d) = Some (su_connection_tx su) /\ d_cancel_timer d = false /\
  length (c_events (d_core d)) <= EVENT_CHANNEL_SIZE /\
  forall n, event_stream_take n stream = take n (c_events (d_core d)).
Proof.
  intros Hk. unfold routing_new. intros ([kp draws] & _ & H)%starting_bind_go.
  apply starting_bind_go in H as ([[c comm] backlog] & Hs & H).
  apply starting_bind_go in H as ([c' spawned] & Hp & [= <- <-]). cbn zeta. simpl.
  destruct (start_reachable _ _ _ _ _ _ _ Hk Hs) as (Hn & Ha & Ht & Hl).
  edestruct process_backlog_reachable as (H1 & H2 & H3); [|exact Hp|]; [by rewrite app_nil_r|].
  simpl in *. split; [done|]. split; [congruence|]. split; [done|]. split; [done|].
  split; [apply H3; unfold EVENT_CHANNEL_SIZE; lia|]. intros n. apply event_stream_take_spec.
Qed.

(** *** User messages among the messages that were kept *)

(** a user message to this name, with the signature of the node that sends it *)
Record user_message (name : XorName) (prefix : Prefix) (verified : bool) (entry : Backlogged) : Prop := {
  um_variant : exists content, rm_variant entry.1.1 = VUserMessage content;
  um_dst : rm_dst entry.1.1 = DstNode name;
  um_for_us : dst_contains (rm_dst entry.1.1) name prefix = true;
  um_src : exists public_key signature bytes, rm_src entry.1.1 = SrcAuthNode public_key signature /\
    signable_bytes (rm_dst entry.1.1) (rm_variant entry.1.1) = Ok bytes /\
    ed_verify public_key bytes signature = verified;
}.

(** the event for the user *)
Definition user_event (entry : Backlogged) : Event :=
  let '(msg, sender, _) := entry in
  match rm_variant msg with
  | VUserMessage content =>
      EvMessageReceived content (src_location (rm_src msg)) (rm_dst msg) (msg_signed msg) (rm_section_pk msg)
  | _ => EvClientLost sender
  end.

Lemma user_message_handled o c entry verified :
  core_is_elder c = false -> user_message (our_name c) (section_prefix (c_section c)) verified entry ->
  run (try_handle_command o (backlog_command entry)) c =
    if verified then (push_event (user_event entry) c, Ok []) else (c, Err FailedSignature).
Proof.
  intros He [(content & Hv) Hd Hus (pk & sig & bytes & Hsrc & Hb & Hver)]. destruct entry as [[m a] d].
  cbn [fst] in *. cbn [backlog_command try_handle_command user_event].
  unfold reachability_reply, reachability_failure. rewrite Hv. unfold handle_message, mbind, M_bind.
  cbn [run get query step]. rewrite Hus. cbn [negb run].
  assert (decide_message_status c m = if verified then Ok Useful else Err FailedSignature) as ->.
  { unfold decide_message_status, early_status. rewrite Hv, Hd, He, bool_decide_eq_true_2 by done.
    unfold verify_message, msg_verify, verify_variant. rewrite Hb, Hsrc, Hv. cbn [andb negb].
    simpl. rewrite Hver. by destruct verified. }
  destruct verified; [|done]. cbn [run]. unfold check_for_entropy, mbind, M_bind. cbn [run get]. rewrite He.
  cbn [negb run mret M_ret]. unfold handle_useful_message, aggregate_message. rewrite Hsrc.
  unfold mbind, M_bind. cbn [run mret M_ret]. unfold dispatch_variant. rewrite Hv.
  unfold handle_user_message. rewrite Hd. simpl. by rewrite Hsrc.
Qed.

Lemma run_tasks_nothing ts c :
  length (c_events c) <= EVENT_CHANNEL_SIZE -> run_tasks ts (c, []) = Go (c, []).
Proof.
  intros H. induction ts as [|t ts IH]; [done|]. cbn [run_tasks run_task]. rewrite lookup_nil.
  unfold send_events. apply Nat.leb_le in H. simpl. rewrite H. exact IH.
Qed.

Lemma user_message_step turn c entry verified :
  length (c_events c) <= EVENT_CHANNEL_SIZE ->
  core_is_elder c = false -> user_message (our_name c) (section_prefix (c_section c)) verified entry ->
  handle_backlogged turn entry (c, []) =
    if verified then
      (if (length (c_events c) <? EVENT_CHANNEL_SIZE)%nat then Go (push_event (user_event entry) c, []) else Blocked)
    else Fails FailedSignature.
Proof.
  intros Hl He Hu. unfold handle_backlogged. rewrite (run_tasks_nothing _ _ Hl). unfold mbind at 1, starting_bind at 1.
  cbn [fst snd]. rewrite (user_message_handled _ _ _ _ He Hu). destruct verified; unfold send_events; cbn [fst].
  - cbn [c_events push_event]. rewrite length_app. simpl (length [_]). rewrite Nat.add_1_r.
    unfold Nat.ltb. by destruct (_ <=? _)%nat.
  - apply Nat.leb_le in Hl. rewrite Hl. done.
Qed.

(** the messages are delivered as long as there is room for their events *)
Lemma user_messages_processed turn i good rest c :
  core_is_elder c = false ->
  Forall (user_message (our_name c) (section_prefix (c_section c)) true) good ->
  length (c_events c) + length good <= EVENT_CHANNEL_SIZE ->
  process_backlog turn i (good ++ rest) (c, []) =
  process_backlog turn (i + length good) rest (foldl (fun c e => push_event e c) c (user_event <$> good), []).
Proof.
  revert i c. induction good as [|entry good IH]; intros i c He Hg Hl; [by rewrite Nat.add_0_r|].
  apply Forall_cons in Hg as [Hu Hg]. cbn [length] in Hl. cbn [app process_backlog].
  rewrite (user_message_step _ _ _ true) by (done || lia).
  assert (length (c_events c) <? EVENT_CHANNEL_SIZE = true)%nat as -> by (apply Nat.ltb_lt; lia).
  cbn [mbind starting_bind length]. rewrite <- Nat.add_succ_comm. apply (IH (S i) (push_event (user_event entry) c)).
  - done.
  - done.
  - simpl. rewrite length_app. simpl. lia.
Qed.

Lemma pushed_events_core es c :
  let d := foldl (fun c e => push_event e c) c es in
  core_is_elder d = core_is_elder c /\ our_name d = our_name c /\ section_prefix (c_section d) = section_prefix (c_section c).
Proof. revert c; induction es as [|e es IH]; intros c; simpl; [done|]. apply (IH (push_event e c)). Qed.

(** C38: a node that is sent too much while it joins never starts.  The backlog keeps up to a
    hundred messages, the channel of events has twenty places and no reader yet: a node whose
    backlog begins with more than twenty user messages for it, which anyone can sign and send,
    handles twenty and waits for ever in the twenty-first. *)
Theorem crowded_backlog_blocks (config : Config) (su : Surroundings) (keypair : Keypair) (draws : list Keypair)
    (node : Node) (section : Section_) (comm : Comm_) (crowd rest : list Backlogged) :
  cfg_first config = false ->
  config_keypair config (su_draws su) = Go (keypair, draws) ->
  start_joined config su keypair draws = Go (core_new node section None (su_tokens su), comm, crowd ++ rest) ->
  section_is_elder section (node_name node) = false ->
  Forall (user_message (node_name node) (section_prefix section) true) crowd ->
  EVENT_CHANNEL_SIZE < length crowd ->
  routing_new config su = Blocked.
Proof.
  intros Hf Hk Hs He Hg Hl. unfold routing_new. rewrite Hk, Hf. cbn [mbind starting_bind]. rewrite Hs.
  cbn [mbind starting_bind]. rewrite <- (take_drop EVENT_CHANNEL_SIZE crowd) in Hg |- *.
  assert (drop EVENT_CHANNEL_SIZE crowd <> []) as Hd.
  { intros E%(f_equal length). rewrite length_drop in E. simpl in E. lia. }
  assert (length (take EVENT_CHANNEL_SIZE crowd) = EVENT_CHANNEL_SIZE) as Ht by (rewrite length_take; lia).
  destruct (drop EVENT_CHANNEL_SIZE crowd) as [|entry later]; [done|]. apply Forall_app in Hg as [Hg [Hu _]%Forall_cons].
  rewrite <- app_assoc. rewrite user_messages_processed; [|done|done|by simpl; rewrite Ht].
  set (c := core_new node section None (su_tokens su)).
  destruct (pushed_events_core (user_event <$> take EVENT_CHANNEL_SIZE crowd) c) as (E1 & E2 & E3).
  pose proof (push_events_events (user_event <$> take EVENT_CHANNEL_SIZE crowd) c) as E4.
  apply (f_equal length) in E4. rewrite length_app, length_fmap, Ht in E4. simpl (length (c_events c)) in E4.
  cbn [app process_backlog]. rewrite (user_message_step _ _ _ true).
  - rewrite E4. done.
  - rewrite E4. done.
  - by rewrite E1.
  - by rewrite E2, E3.
Qed.

(** The signature of a message is not checked before it is kept.  A running node drops a
    user message with a wrong signature; a joining node keeps it, and the first such message in
    the backlog makes [Routing::new] return an error, although the node was admitted. *)
Theorem forged_backlog_aborts_start (config : Config) (su : Surroundings) (keypair : Keypair) (draws : list Keypair)
    (node : Node) (section : Section_) (comm : Comm_) (genuine rest : list Backlogged) (forged : Backlogged) :
  cfg_first config = false ->
  config_keypair config (su_draws su) = Go (keypair, draws) ->
  start_joined config su keypair draws =
    Go (core_new node section None (su_tokens su), comm, genuine ++ forged :: rest) ->
  section_is_elder section (node_name node) = false ->
  Forall (user_message (node_name node) (section_prefix section) true) genuine ->
  length genuine <= EVENT_CHANNEL_SIZE ->
  user_message (node_name node) (section_prefix section) false forged ->
  routing_new config su = Fails FailedSignature /\
  forall sender c, run (handle_message_type sender (MTRouting forged.2 forged.1.1)) c = (c, Ok (Some [])).
Proof.
  intros Hf Hk Hs He Hg Hl Hu. split.
  - unfold routing_new. rewrite Hk, Hf. cbn [mbind starting_bind]. rewrite Hs. cbn [mbind starting_bind].
    set (c := core_new node section None (su_tokens su)). rewrite user_messages_processed by done.
    destruct (pushed_events_core (user_event <$> genuine) c) as (E1 & E2 & E3).
    pose proof (push_events_events (user_event <$> genuine) c) as E4.
    apply (f_equal length) in E4. rewrite length_app, length_fmap in E4. simpl (length (c_events c)) in E4.
    cbn [process_backlog]. rewrite (user_message_step _ _ _ false).
    + done.
    + rewrite E4. done.
    + by rewrite E1.
    + by rewrite E2, E3.
  - intros sender c. destruct Hu as [_ _ _ (pk & sig & bytes & Hsrc & Hb & Hver)].
    unfold handle_message_type, check_signature. rewrite Hb, Hsrc. simpl. by rewrite Hver.
Qed.

Lemma first_node_section pk sk p s ks :
  first_node pk sk p = Ok (s, ks) ->
  authority_provider s = sap_new [peer_set_reachable p true] prefix_default pk /\
  sec_chain s = sll_new (pks_public_key pk).
Proof.
  unfold first_node, create_first_section_authority_provider, create_first_signed at 1.
  destruct (ok_or (serialize _) _) as [bytes|]; simpl; [|done].
  destruct (ok_or (pks_combine_signatures _ _) _) as [sig|]; simpl; [|done].
  unfold section_new. case_decide; simpl; [done|].
  by destruct (first_members _ _ _ _) as [ms|]; simpl; [|done]; intros [= <- <-].
Qed.

(** The first node of a network.  Whatever the network sends, it has the fixed age of
    255, is the only elder of the one section, whose chain holds the one key it
    generated, and starts with nothing to do and a single event, its own promotion. *)
Theorem genesis_node_starts (config : Config) (su : Surroundings) (routing : Routing) (stream : EventStream) :
  cfg_first config = true ->
  routing_new config su = Go (routing, stream) ->
  let c := d_core (rt_dispatcher routing) in
  node_age (c_node c) = GENESIS_AGE /\ core_is_elder c = true /\
  section_prefix (c_section c) = prefix_default /\
  sll_keys (section_chain c) = [pks_public_key random_key_set.1] /\
  rt_spawned routing = [] /\
  c_events c = [EvEldersChanged (mkElders prefix_default (pks_public_key random_key_set.1) ∅ {[our_name c]} ∅) Promoted].
Proof.
  intros Hf. unfold routing_new. rewrite Hf. intros ([kp draws] & _ & H)%starting_bind_go.
  apply starting_bind_go in H as ([[c comm] backlog] & Hs & H). unfold start_first in Hs.
  apply starting_bind_go in Hs as ([kp' d'] & Hg & Hs). apply starting_bind_go in Hs as (cm & _ & Hs).
  apply starting_bind_go in Hs as (st & Hs & [= -> -> <-]). simpl in H. injection H as <- _.
  assert (name_age (name_from_public_key (keypair_public kp')) = GENESIS_AGE) as Hage.
  { unfold start_keys, start_task in Hg. destruct (gen_keypair draws prefix_default GENESIS_AGE) as [x| | |x] eqn:E; try done.
    - injection Hg as ->. by apply gen_keypair_spec in E as (_ & _ & _ & ?).
    - exfalso. clear Hg. induction draws as [|k draws IH]; simpl in E; [done|]. destruct (_ && _)%bool; [done|auto]. }
  revert Hs. unfold routing_first, core_first_node.
  destruct (first_node _ _ _) as [[section share]|] eqn:E; simpl; [|done]. intros [= <-].
  apply first_node_section in E as [Ha Hk]. cbn zeta. simpl.
  unfold core_is_elder, section_is_elder, section_prefix, last_key, section_chain. simpl. rewrite Ha, Hk, sll_new_keys, sll_new_last.
  assert (forall p, collect_elders [p] = {[peer_name p := peer_addr p]}) as Hc by done.
  unfold sap_contains_elder, sap_names. cbn [sap_new sap_prefix sap_elders]. rewrite Hc, dom_singleton_L.
  repeat split; [exact Hage|]. apply bool_decide_eq_true. exists (our_connection_info comm). apply lookup_singleton_eq.
Qed.

(** Once a [Routing] is dropped no timer fires any more, the endpoint is closed and the sender
    of connection events is gone. *)
Theorem dropped_routing_quiet (r : Routing) (o : Outcomes) (duration token : Z) :
  let d := rt_dispatcher (routing_drop r) in
  dispatcher_handle_command o (CScheduleTimeout duration token) d = (d, Ok []) /\
  comm_endpoint (d_comm d) = endpoint_close (comm_endpoint (d_comm (rt_dispatcher r))) /\
  comm_event_tx (d_comm d) = None.
Proof. done. Qed.
End Claims.

(** ** Witnesses *)

Module StartupWitness.
Import BitNames ToyCrates ToySerialize SectionKeysWitness NetworkWitness EndUsersWitness MessagesWitness CoreToy
  CommWitness BootstrapToy MessageFilterWitness NodeToy JoinWitness.

(** endpoints at a fixed address that can be closed; the receiver of events is their queue *)
#[export] Instance transport : TransportOps := {|
  TransportConfig := unit;
  transport_default := tt;
  QuicP2p := unit;
  Endpoint := SocketAddr * bool;
  qp2p_with_config _ := Ok tt;
  qp2p_new_endpoint _ := Ok (there, true);
  qp2p_bootstrap _ := Ok ((there, true), there);
  endpoint_socket_addr := fst;
  endpoint_close e := (e.1, false);
  ConnectionTx := unit;
  EventRx := list Event;
  event_rx := id;
  event_recv es := match es with [] => None | e :: es' => Some (e, es') end;
|}.
#[export] Instance event_rx_laws : EventRxLaws.
Proof. intros [|e es]; done. Qed.

(** a user message for the node that the infant becomes, and one that nobody signed *)
Definition name6 : XorName := to_name 6.
Definition hello_user : Variant := VUserMessage [1%Z].
Definition user_msg : RoutingMsg :=
  match single_src node1 (DstNode name6) hello_user key1 with Ok m => m | Err _ => genuine_msg end.
Definition unsigned_msg : RoutingMsg :=
  mkRoutingMsg id7 (SrcAuthNode (to_name 1 : EdPublicKey) ((to_name 1, []) : EdSignature)) (DstNode name6)
    AggregationNone hello_user key1.

#[export] Instance start_wire : WireMsgOps := {|
  WireMsg := Z;
  wire_from _ := Err tt;
  wire_msg_id _ := 0%N;
  wire_is_join_request _ := Ok false;
  wire_to_message _ := Err tt;
  wire_deserialize bytes :=
    match bytes with
    | [0%Z] => Ok (MTRouting dest0 (from_node1 (VJoinResponse first_retry)))
    | [1%Z] => Ok (MTRouting dest0 user_msg)
    | [2%Z] => Ok (MTRouting dest0 (from_node1 (VJoinResponse approval)))
    | [3%Z] => Ok (MTRouting dest0 unsigned_msg)
    | _ => Err tt
    end;
|}.

(** the infant, sent these messages *)
Definition keypair5 : Keypair := to_name 5.
Definition as_infant : Config := mkConfig false (Some keypair5) tt.
Definition sent (bs : list Z) : Surroundings :=
  mkSurroundings drawn key1 [0] tt ((fun b => (at_time 0, there, [b])) <$> bs) [] (replicate (length bs) true)
    (fun _ => ([], quiet)) 0.
Definition started_infant := routing_new as_infant (sent [0; 1; 2]%Z).

Example infant_starts :
  match started_infant with
  | Go (routing, stream) =>
      node_age (c_node (d_core (rt_dispatcher routing))) = 6%Z /\ length (event_stream_take 5 stream) = 1
  | _ => False
  end.
Proof. vm_compute. done. Qed.

Definition the_routing (m : starting Error (Routing * EventStream)) : Routing * EventStream :=
  match m with
  | Go r => r
  | _ => (mkRouting (dispatcher_new core1 (mkComm (tt : QuicP2p) ((there, true) : Endpoint) None)) [],
          event_stream_new (event_rx []))
  end.
Definition running : Routing := (the_routing started_infant).1.
Definition running_events : EventStream := (the_routing started_infant).2.

Lemma startup_refines_node_witness :
  node_reachable (d_core (rt_dispatcher running), rt_spawned running) /\
  length (c_events (d_core (rt_dispatcher running))) = 1.
Proof.
  assert (routing_new as_infant (sent [0; 1; 2]%Z) = Go (running, running_events)) as H by reflexivity.
  split; [|reflexivity].
  exact (proj1 (startup_refines_node as_infant (sent [0; 1; 2]%Z) running running_events DispatcherWitness.keys9 H)).
Defined.

(** the node and its section once it has joined *)
Definition node6 : Node := mkNode (to_name 6 : Keypair) there.
Definition section6 : Section_ := c_section (d_core (rt_dispatcher running)).
Definition comm6 : Comm_ := mkComm (tt : QuicP2p) ((there, true) : Endpoint) (Some (tt : ConnectionTx)).
Definition kept (m : RoutingMsg) : Backlogged := (m, there, dest0).

Lemma kept_user_message verified m :
  rm_variant m = hello_user -> rm_dst m = DstNode name6 ->
  (exists public_key signature bytes, rm_src m = SrcAuthNode public_key signature /\
    signable_bytes (DstNode name6) hello_user = Ok bytes /\ ed_verify public_key bytes signature = verified) ->
  user_message (node_name node6) (section_prefix section6) verified (kept m).
Proof.
  intros Hv Hd (pk & sig & b & H1 & H2 & H3). split; cbn [kept fst].
  - rewrite Hv. by eexists.
  - rewrite Hd. reflexivity.
  - rewrite Hd. reflexivity.
  - exists pk, sig, b. by rewrite Hd, Hv.
Qed.

Lemma kept_genuine : user_message (node_name node6) (section_prefix section6) true (kept user_msg).
Proof. apply kept_user_message; [reflexivity|reflexivity|]. eexists _, _, _. repeat split; reflexivity. Qed.
Lemma kept_unsigned : user_message (node_name node6) (section_prefix section6) false (kept unsigned_msg).
Proof. apply kept_user_message; [reflexivity|reflexivity|]. eexists _, _, _. repeat split; reflexivity. Qed.

Definition crowd_sent : Surroundings := sent (0%Z :: replicate 21 1%Z ++ [2%Z]).

Lemma crowded_backlog_blocks_witness : routing_new as_infant crowd_sent = Blocked.
Proof.
  assert (start_joined as_infant crowd_sent keypair5 drawn =
    Go (core_new node6 section6 None 0, comm6, replicate 21 (kept user_msg) ++ [])) as H by reflexivity.
  assert (section_is_elder section6 (node_name node6) = false) as He by reflexivity.
  apply (crowded_backlog_blocks as_infant crowd_sent keypair5 drawn node6 section6 comm6
    (replicate 21 (kept user_msg)) [] eq_refl eq_refl H He).
  - apply Forall_replicate, kept_genuine.
  - rewrite length_replicate. unfold EVENT_CHANNEL_SIZE. lia.
Defined.

Definition forged_sent : Surroundings := sent [0; 1; 3; 1; 2]%Z.

Lemma forged_backlog_aborts_start_witness : routing_new as_infant forged_sent = Fails FailedSignature.
Proof.
  assert (start_joined as_infant forged_sent keypair5 drawn =
    Go (core_new node6 section6 None 0, comm6, [kept user_msg] ++ kept unsigned_msg :: [kept user_msg])) as H
    by reflexivity.
  assert (section_is_elder section6 (node_name node6) = false) as He by reflexivity.
  apply (forged_backlog_aborts_start as_infant forged_sent keypair5 drawn node6 section6 comm6
    [kept user_msg] [kept user_msg] (kept unsigned_msg) eq_refl eq_refl H He).
  - apply Forall_singleton, kept_genuine.
  - unfold EVENT_CHANNEL_SIZE. simpl. lia.
  - apply kept_unsigned.
Defined.

(** a first node, which draws a key pair of age 255 *)
Definition as_first : Config := mkConfig true (Some keypair5) tt.
Definition genesis_sent : Surroundings :=
  mkSurroundings [to_name 7; to_name 255] key1 [] tt [] [] [] (fun _ => ([], quiet)) 0.
Definition genesis : Routing := (the_routing (routing_new as_first genesis_sent)).1.
Definition genesis_events : EventStream := (the_routing (routing_new as_first genesis_sent)).2.

Lemma genesis_node_starts_witness :
  core_is_elder (d_core (rt_dispatcher genesis)) = true /\
  node_age (c_node (d_core (rt_dispatcher genesis))) = 255%Z.
Proof.
  assert (routing_new as_first genesis_sent = Go (genesis, genesis_events)) as H by reflexivity.
  destruct (genesis_node_starts as_first genesis_sent genesis genesis_events eq_refl H) as (H1 & H2 & _).
  split; [exact H2|exact H1].
Defined.
End StartupWitness.
