(* ===== verification/Float64.v ===== *)
(** * The floating-point numbers of the language

    [f64] as the specification of binary64 of the Standard Library, with the operations that
    src/network/mod.rs uses: addition, division, [sum], [ceil], the conversion of an integer
    and the saturating conversion to [u64].

    The lemmas say when these operations are exact.  A normal number is a mantissa of 53 bits
    with an exponent; whatever equals it in value is rounded to it, and so sums and quotients
    that have such a value are computed without error. *)

From stdpp Require Import base tactics list.
From Stdlib Require Import ZArith Lia SpecFloat.
From S2P Require Import Prelude.
#[local] Open Scope Z_scope.

Definition f64 : Type := spec_float.
Definition PREC : Z := 53.
Definition EMAX : Z := 1024.
Definition U64_MAX : Z := 2 ^ 64 - 1.

Definition f64_add : f64 -> f64 -> f64 := SFadd PREC EMAX.
Definition f64_div : f64 -> f64 -> f64 := SFdiv PREC EMAX.

(** [n as f64] *)
Definition f64_of_int (n : Z) : f64 := binary_normalize PREC EMAX n 0 false.

(** [iter.sum::<f64>()] *)
Definition f64_sum (xs : list f64) : f64 := foldl f64_add (S754_zero false) xs.

(** [x.ceil()] *)
Definition f64_ceil (x : f64) : f64 :=
  match x with
  | S754_finite s m e =>
      if 0 <=? e then x
      else binary_normalize PREC EMAX (- (- cond_Zopp s (Zpos m) / 2 ^ (- e))) 0 s
  | _ => x
  end.

(** [x as u64]: towards zero, and saturating *)
Definition f64_to_u64 (x : f64) : Z :=
  match x with
  | S754_finite false m e => Z.min (Z.shiftl (Zpos m) e) U64_MAX
  | S754_infinity false => U64_MAX
  | _ => 0
  end.

(** ** Normal numbers *)

Record normal (m : positive) (e : Z) : Prop := {
  normal_mantissa : 2 ^ 52 <= Zpos m < 2 ^ 53;
  normal_exponent : -1074 <= e <= 971;
}.

Lemma digits2_log2 (p : positive) : Zpos (digits2_pos p) = Z.log2 (Zpos p) + 1.
Proof.
  induction p as [p IH|p IH|]; cbn [digits2_pos]; [| |done].
  - rewrite Pos2Z.inj_succ, IH, (Pos2Z.inj_xI p), Z.log2_succ_double by lia. lia.
  - rewrite Pos2Z.inj_succ, IH, (Pos2Z.inj_xO p), Z.log2_double by lia. lia.
Qed.

Lemma digits2_scaled (m p : positive) k :
  2 ^ 52 <= Zpos m < 2 ^ 53 -> 0 <= k -> Zpos p = Zpos m * 2 ^ k -> Zpos (digits2_pos p) = 53 + k.
Proof.
  intros Hm Hk E. rewrite digits2_log2, E, Z.log2_mul_pow2 by lia.
  rewrite (Z.log2_unique (Zpos m) 52) by lia. lia.
Qed.

Lemma digits2_shrunk (m p : positive) k :
  2 ^ 52 <= Zpos m < 2 ^ 53 -> 0 <= k -> Zpos m = Zpos p * 2 ^ k -> Zpos (digits2_pos p) = 53 - k.
Proof.
  intros Hm Hk E. rewrite digits2_log2. pose proof (Z.log2_mul_pow2 (Zpos p) k ltac:(lia) Hk) as H.
  rewrite <- E, (Z.log2_unique (Zpos m) 52) in H by lia. lia.
Qed.

Lemma fexp_normal e : -1074 <= e -> fexp PREC EMAX (53 + e) = e.
Proof. unfold fexp, emin, PREC, EMAX. lia. Qed.

(** shifting out zeroes *)
Lemma shr_zeroes (k m : positive) :
  iter_pos shr_1 k (Build_shr_record (Zpos m * 2 ^ Zpos k) false false) = Build_shr_record (Zpos m) false false.
Proof.
  revert m. induction k as [k IH|k IH|]; intros m; cbn [iter_pos].
  - replace (Zpos m * 2 ^ Zpos k~1) with (Zpos (Z.to_pos (Zpos (Z.to_pos (Zpos m * 2 ^ Zpos k)) * 2 ^ Zpos k))~0).
    + cbn [shr_1 orb]. rewrite Z2Pos.id by lia. rewrite IH, Z2Pos.id by lia. apply IH.
    + rewrite Pos2Z.inj_xO, !Z2Pos.id by lia. rewrite (Pos2Z.inj_xI k).
      replace (2 * Zpos k + 1) with (Zpos k + Zpos k + 1) by lia. rewrite !Z.pow_add_r by lia. lia.
  - replace (Zpos m * 2 ^ Zpos k~0) with (Zpos (Z.to_pos (Zpos m * 2 ^ Zpos k)) * 2 ^ Zpos k).
    + rewrite IH, Z2Pos.id by lia. apply IH.
    + rewrite Z2Pos.id by lia. rewrite (Pos2Z.inj_xO k), <- Z.add_diag, Z.pow_add_r by lia. lia.
  - change (2 ^ 1) with 2. rewrite Z.mul_comm. reflexivity.
Qed.

(** Whatever equals a normal number is rounded to it: first when it has too many bits, *)
Lemma round_aux_exact m e p k :
  normal m e -> 0 <= k -> Zpos p = Zpos m * 2 ^ k ->
  binary_round_aux PREC EMAX false (Zpos p) (e - k) loc_Exact = S754_finite false m e.
Proof.
  intros [Hm He] Hk Ep. unfold binary_round_aux, shr_fexp, Zdigits2.
  rewrite (digits2_scaled m p k) by done. replace (53 + k + (e - k)) with (53 + e) by lia.
  rewrite fexp_normal by lia. replace (e - (e - k)) with k by lia.
  assert (shr (shr_record_of_loc (Zpos p) loc_Exact) (e - k) k = (Build_shr_record (Zpos m) false false, e)) as ->.
  { rewrite Ep. destruct k as [|k|k]; [|unfold shr; cbn [shr_record_of_loc]|lia].
    - simpl. f_equal; [f_equal|]; lia.
    - rewrite shr_zeroes. f_equal. lia. }
  cbn [shr_m loc_of_shr_record round_nearest_even]. unfold Zdigits2.
  rewrite (digits2_scaled m m 0) by lia. rewrite Z.add_0_r, fexp_normal, Z.sub_diag by lia. cbn [shr shr_record_of_loc shr_m].
  assert (e <=? EMAX - PREC = true) as -> by (apply Z.leb_le; unfold EMAX, PREC; lia). done.
Qed.

(** and then whatever number of bits it has. *)
Lemma round_exact m e p e' :
  normal m e -> Zpos p * 2 ^ (e' - Z.min e e') = Zpos m * 2 ^ (e - Z.min e e') ->
  binary_round PREC EMAX false p e' = S754_finite false m e.
Proof.
  intros Hn Hv. pose proof Hn as [Hm He]. unfold binary_round.
  destruct (Z.le_ge_cases e' e) as [Hle|Hle].
  - rewrite Z.min_r, Z.sub_diag, Z.mul_1_r in Hv by lia. rewrite (digits2_scaled m p (e - e')) by lia.
    replace (53 + (e - e') + e') with (53 + e) by lia. rewrite fexp_normal by lia.
    assert (shl_align p e' e = (p, e')) as ->.
    { unfold shl_align. destruct (e - e') eqn:E; [done|done|lia]. }
    pose proof (round_aux_exact m e p (e - e') Hn ltac:(lia) Hv) as H. by replace (e - (e - e')) with e' in H by lia.
  - rewrite Z.min_l, Z.sub_diag, Z.mul_1_r in Hv by lia. rewrite (digits2_shrunk m p (e' - e)) by lia.
    replace (53 - (e' - e) + e') with (53 + e) by lia. rewrite fexp_normal by lia.
    assert (shl_align p e' e = (m, e)) as ->.
    { unfold shl_align. destruct (e - e') as [|k|k] eqn:E; [|lia|].
      - replace (e' - e) with 0 in Hv by lia. f_equal; [|lia]. lia.
      - f_equal. apply Pos2Z.inj. replace (e' - e) with (Zpos k) in Hv by lia. rewrite <- Hv.
        clear. induction k as [|k IH] using Pos.peano_ind; [simpl; lia|].
        rewrite Pos.iter_succ, Pos2Z.inj_xO, IH, Pos2Z.inj_succ, Z.pow_succ_r by lia. lia. }
    pose proof (round_aux_exact m e m 0 Hn ltac:(lia) ltac:(lia)) as H. by rewrite Z.sub_0_r in H.
Qed.

(** ** Values *)

(** [n * 2 ^ e], scaled to an integer *)
Definition scaled (n e : Z) : Z := n * 2 ^ (e + 1100).

Lemma scaled_shift n k e : 0 <= k -> -1100 <= e - k -> scaled (n * 2 ^ k) (e - k) = scaled n e.
Proof.
  intros Hk He. unfold scaled. rewrite <- Z.mul_assoc, <- Z.pow_add_r by lia. do 2 f_equal. lia.
Qed.

Lemma scaled_eq n e n' e' :
  -1100 <= e -> -1100 <= e' -> scaled n e = scaled n' e' ->
  n * 2 ^ (e - Z.min e' e) = n' * 2 ^ (e' - Z.min e' e).
Proof.
  intros He He' H. apply (Z.mul_cancel_r _ _ (2 ^ (Z.min e' e + 1100))); [lia|].
  rewrite <- !Z.mul_assoc, <- !Z.pow_add_r by lia. unfold scaled in H.
  by replace (e - Z.min e' e + (Z.min e' e + 1100)) with (e + 1100) by lia;
     replace (e' - Z.min e' e + (Z.min e' e + 1100)) with (e' + 1100) by lia.
Qed.

Lemma round_value m e p e' :
  normal m e -> -1100 <= e' -> scaled (Zpos p) e' = scaled (Zpos m) e ->
  binary_round PREC EMAX false p e' = S754_finite false m e.
Proof. intros Hn He' H. apply round_exact; [done|]. destruct Hn. by apply scaled_eq; [|lia|]. Qed.

(** Integers of at most 53 bits, and the next one, are normal at any moderate scale. *)
Lemma normal_exists n e :
  0 < n <= 2 ^ 53 -> -1000 <= e <= 900 ->
  exists m e', normal m e' /\ e - 52 <= e' <= e + 1 /\ scaled (Zpos m) e' = scaled n e.
Proof.
  intros Hn He. destruct (decide (n = 2 ^ 53)) as [->|Hne].
  - exists (2 ^ 52)%positive, (e + 1). split; [split; [done|lia]|]. split; [lia|].
    unfold scaled. replace (e + 1 + 1100) with (1 + (e + 1100)) by lia. rewrite Z.pow_add_r by lia. lia.
  - pose proof (Z.log2_spec n ltac:(lia)) as [H1 H2]. pose proof (Z.log2_nonneg n).
    assert (Z.log2 n <= 52) as Hl by (apply Z.lt_succ_r, Z.log2_lt_pow2; lia).
    exists (Z.to_pos (n * 2 ^ (52 - Z.log2 n))), (e - (52 - Z.log2 n)). rewrite Z2Pos.id by lia.
    split; [split; [|lia]|split; [lia|apply scaled_shift; lia]]. rewrite Z2Pos.id by lia.
    replace (2 ^ 52) with (2 ^ Z.log2 n * 2 ^ (52 - Z.log2 n)) by (rewrite <- Z.pow_add_r by lia; f_equal; lia).
    replace (2 ^ 53) with (2 ^ Z.succ (Z.log2 n) * 2 ^ (52 - Z.log2 n)) by (rewrite <- Z.pow_add_r by lia; f_equal; lia).
    nia.
Qed.

(** [x] is the number [n * 2 ^ e] *)
Definition represents (x : f64) (n e : Z) : Prop :=
  (n = 0 /\ x = S754_zero false) \/
  (0 < n /\ exists m e', x = S754_finite false m e' /\ normal m e' /\ e - 52 <= e' <= e + 1 /\
     scaled (Zpos m) e' = scaled n e).

Lemma normalize_represents n e :
  0 <= n <= 2 ^ 53 -> -1000 <= e <= 900 -> represents (binary_normalize PREC EMAX n e false) n e.
Proof.
  intros Hn He. destruct n as [|p|p]; [by left| |lia]. right. split; [lia|].
  destruct (normal_exists (Zpos p) e) as (m & e' & Hm & Hb & Hv); [lia|lia|].
  exists m, e'. simpl. split; [|done]. apply round_value; [done|lia|done].
Qed.

Lemma represents_unique x y n e : represents x n e -> represents y n e -> -1000 <= e -> x = y.
Proof.
  intros [[-> ->]|(Hn & m & e1 & -> & Hm & Hb & Hv)] [[? ->]|(Hn' & m' & e2 & -> & Hm' & Hb' & Hv')] He; try done; try lia.
  rewrite <- (round_value m e1 m e1), <- (round_value m' e2 m e1); try done; try lia; try congruence.
Qed.

Lemma shl_align_value p e e' :
  e' <= e -> Zpos (shl_align p e e').1 = Zpos p * 2 ^ (e - e').
Proof.
  intros Hle. unfold shl_align. destruct (e' - e) as [|k|k] eqn:E; [|lia|]; simpl.
  - replace (e - e') with 0 by lia. lia.
  - replace (e - e') with (Zpos k) by lia. clear. induction k as [|k IH] using Pos.peano_ind; [simpl; lia|].
    rewrite Pos.iter_succ, Pos2Z.inj_xO, IH, Pos2Z.inj_succ, Z.pow_succ_r by lia. lia.
Qed.

(** A sum of at most 53 bits is exact. *)
Lemma add_represents x y a b e :
  represents x a e -> represents y b e -> a + b <= 2 ^ 53 -> -1000 <= e <= 900 ->
  represents (f64_add x y) (a + b) e.
Proof.
  intros [[-> ->]|(Ha & m1 & e1 & -> & [Hm1 He1] & Hb1 & Hv1)] [[-> ->]|(Hb & m2 & e2 & -> & [Hm2 He2] & Hb2 & Hv2)] Hle He.
  - by left.
  - right. split; [lia|]. exists m2, e2. done.
  - right. split; [lia|]. exists m1, e1. rewrite Z.add_0_r. done.
  - unfold f64_add, SFadd, cond_Zopp.
    destruct (normal_exists (a + b) e) as (m & e' & Hm & Hb' & Hv); [lia|lia|].
    right. split; [lia|]. exists m, e'. split; [|done].
    set (p1 := (shl_align m1 e1 (Z.min e1 e2)).1). set (p2 := (shl_align m2 e2 (Z.min e1 e2)).1).
    change (Zpos p1 + Zpos p2) with (Zpos (p1 + p2)). cbn [binary_normalize].
    apply round_value; [done|lia|]. rewrite Pos2Z.inj_add, Hv. unfold p1, p2. rewrite !shl_align_value by lia.
    unfold scaled in *. rewrite !Z.mul_add_distr_r, <- Hv1, <- Hv2, <- !Z.mul_assoc, <- !Z.pow_add_r by lia.
    f_equal; do 2 f_equal; lia.
Qed.

(** the number [2 ^ j] *)
Definition f64_pow2 (j : Z) : f64 := S754_finite false (2 ^ 52)%positive (j - 52).

(** Division by a power of two only changes the exponent. *)
Lemma div_pow2 m e j :
  normal m e -> normal m (e - j) -> -1022 <= j <= 1023 ->
  f64_div (S754_finite false m e) (f64_pow2 j) = S754_finite false m (e - j).
Proof.
  intros [Hm He] Hn Hj. pose proof Hn as [_ He']. unfold f64_div, f64_pow2, SFdiv, SFdiv_core_binary, Zdigits2.
  rewrite (digits2_scaled m m 0) by lia. rewrite (digits2_scaled (2 ^ 52) (2 ^ 52) 0) by done.
  assert (Z.min (fexp PREC EMAX (53 + 0 + e - (53 + 0 + (j - 52)))) (e - (j - 52)) = Z.max (e - j - 1) (-1074)) as ->.
  { unfold fexp, emin, PREC, EMAX. lia. }
  set (k := e - (j - 52) - Z.max (e - j - 1) (-1074)). assert (52 <= k <= 53) as Hk by (unfold k; lia).
  assert (Z.div_eucl match k with Z0 => Zpos m | Zpos _ => Z.shiftl (Zpos m) k | Zneg _ => 0 end (Zpos (2 ^ 52)) =
    (Zpos m * 2 ^ (k - 52), 0)) as ->.
  { destruct k as [|k'|k']; [lia| |lia]. rewrite Z.shiftl_mul_pow2 by lia.
    assert (Zpos m * 2 ^ Zpos k' = Zpos m * 2 ^ (Zpos k' - 52) * Zpos (2 ^ 52)) as E.
    { rewrite <- Z.mul_assoc. f_equal. change (Zpos (2 ^ 52)) with (2 ^ 52). rewrite <- Z.pow_add_r by lia. f_equal. lia. }
    rewrite (surjective_pairing (Z.div_eucl _ _)).
    change (Z.div_eucl ?a ?b).1 with (a / b). change (Z.div_eucl ?a ?b).2 with (a mod b).
    rewrite E, Z.div_mul, Z.mod_mul by done. done. }
  pose proof (round_aux_exact m (e - j) (Z.to_pos (Zpos m * 2 ^ (k - 52))) (k - 52) Hn ltac:(lia)) as H.
  rewrite Z2Pos.id in H by lia. cbn [xorb]. rewrite <- (H eq_refl). f_equal. unfold k. lia.
Qed.

(** A number that is an integer is its own ceiling, and is converted exactly up to saturation. *)
Lemma ceil_integer m e n :
  normal m e -> scaled (Zpos m) e = scaled n 0 -> f64_ceil (S754_finite false m e) = S754_finite false m e.
Proof.
  intros Hn Hv. pose proof Hn as [Hm He]. cbn [f64_ceil]. destruct (0 <=? e) eqn:E; [done|]. apply Z.leb_gt in E.
  apply scaled_eq in Hv; [|lia|lia]. rewrite Z.min_r, Z.sub_diag, Z.mul_1_r, Z.sub_0_l in Hv by lia.
  cbn [cond_Zopp]. rewrite Hv, <- Z.mul_opp_l, Z.div_mul, Z.opp_involutive by lia.
  destruct n as [|p|p]; [lia| |lia]. cbn [binary_normalize]. apply round_value; [done|lia|].
  unfold scaled. rewrite Hv, <- Z.mul_assoc, <- Z.pow_add_r by lia. do 2 f_equal. lia.
Qed.

Lemma to_u64_integer m e n :
  normal m e -> scaled (Zpos m) e = scaled n 0 -> f64_to_u64 (S754_finite false m e) = Z.min n U64_MAX.
Proof.
  intros [Hm He] Hv. cbn [f64_to_u64]. f_equal. apply scaled_eq in Hv; [|lia|lia].
  destruct (Z.le_ge_cases 0 e) as [H|H].
  - rewrite Z.min_l, Z.sub_diag, Z.mul_1_r, Z.sub_0_r in Hv by lia. by rewrite Z.shiftl_mul_pow2.
  - rewrite Z.min_r, Z.sub_diag, Z.mul_1_r, Z.sub_0_l in Hv by lia.
    rewrite Z.shiftl_div_pow2 by lia. by rewrite Hv, Z.div_mul by lia.
Qed.
