(* ===== verification/NetworkStats.v ===== *)
(** * Network statistics (src/network/mod.rs, src/network/stats.rs)

    The estimate of the number of elders in the network, in the floating-point arithmetic of
    [Float64]: the known elders divided by the fraction of the name space that the known
    prefixes cover.  The library function [exp2] is a parameter, exact on small integers.

    The theorem: when the known prefixes are disjoint and cover the name space, the fraction is
    computed as exactly one and the estimate is the number of known elders.  It rests on the
    Kraft equality, that the weights of a disjoint cover by bit strings add up to one, and on
    the exactness of sums of 53 bits.  Prefixes that overlap are counted twice. *)

From stdpp Require Import base tactics list gmap.
From Stdlib Require Import ZArith Lia SpecFloat.
From S2P Require Import Prelude Names Crates Types PrefixMap Network Float64.

(** ** Weights of bit strings *)

Definition incomparable (l k : list bool) : Prop := ~ (l `prefix_of` k) /\ ~ (k `prefix_of` l).

(** the number of strings of a length that start with one of the list, counted with repetition *)
Definition weight (depth : nat) (ls : list (list bool)) : Z :=
  foldr (fun l acc => 2 ^ Z.of_nat (depth - length l) + acc)%Z 0%Z ls.

(** the rests of the strings that start with a bit *)
Definition tails (b : bool) (ls : list (list bool)) : list (list bool) :=
  omap (fun l => match l with c :: l' => if eqb c b then Some l' else None | [] => None end) ls.

Lemma elem_of_tails b ls l : l ∈ tails b ls <-> b :: l ∈ ls.
Proof.
  unfold tails. rewrite list_elem_of_omap. split.
  - intros ([|c k] & Hin & H); [done|]. destruct (eqb c b) eqn:E; [|done]. apply eqb_prop in E. by simplify_eq.
  - intros H. exists (b :: l). by rewrite eqb_reflx.
Qed.

Lemma tails_weight depth ls :
  [] ∉ ls -> weight (S depth) ls = (weight depth (tails false ls) + weight depth (tails true ls))%Z.
Proof.
  induction ls as [|[|b l] ls IH]; intros Hn; [done|set_solver|].
  change (weight (S depth) ((b :: l) :: ls)) with (2 ^ Z.of_nat (depth - length l) + weight (S depth) ls)%Z.
  rewrite IH by set_solver. destruct b; cbn; unfold weight, tails; lia.
Qed.

Lemma tails_incomparable b ls :
  ForallOrdPairs incomparable ls -> ForallOrdPairs incomparable (tails b ls).
Proof.
  induction 1 as [|l ls Hl _ IH]; [constructor|]. destruct l as [|c l]; [exact IH|].
  cbn. destruct (eqb c b) eqn:E; [|exact IH]. apply eqb_prop in E as ->. constructor; [|exact IH].
  apply Forall_forall. intros k [H1 H2]%elem_of_tails%(proj1 (Forall_forall _ _) Hl).
  split; intros H; [apply H1|apply H2]; by apply prefix_cons.
Qed.

Lemma empty_alone ls : ForallOrdPairs incomparable ls -> [] ∈ ls -> ls = [[]].
Proof.
  induction 1 as [|l ls Hl _ IH]; [set_solver|]. rewrite elem_of_cons. intros [<-|Hin].
  - destruct ls as [|k ls]; [done|]. apply Forall_cons in Hl as [[H _] _]. destruct H. apply prefix_nil.
  - rewrite Forall_forall in Hl. destruct (Hl _ Hin) as [_ H]. destruct H. apply prefix_nil.
Qed.

(** The Kraft equality. *)
Lemma kraft depth ls :
  ForallOrdPairs incomparable ls -> Forall (fun l => length l <= depth) ls ->
  (forall w, length w = depth -> exists l, l ∈ ls /\ l `prefix_of` w) ->
  weight depth ls = (2 ^ Z.of_nat depth)%Z.
Proof.
  revert ls. induction depth as [|depth IH]; intros ls Hi Hl Hc.
  - destruct (Hc [] eq_refl) as (l & Hin & ->%prefix_nil_inv). by rewrite (empty_alone _ Hi Hin).
  - destruct (decide ([] ∈ ls)) as [Hn|Hn]; [rewrite (empty_alone _ Hi Hn); simpl weight; lia|].
    assert (forall b, weight depth (tails b ls) = 2 ^ Z.of_nat depth)%Z as Ht.
    { intros b. apply IH; [by apply tails_incomparable| |].
      - apply Forall_forall. intros l H%elem_of_tails%(proj1 (Forall_forall _ _) Hl). simpl in H. lia.
      - intros w Hw. destruct (Hc (b :: w)) as (l & Hin & Hp); [simpl; lia|]. destruct l as [|c l]; [done|].
        pose proof (prefix_cons_inv_1 _ _ _ _ Hp) as ->. exists l.
        split; [by apply elem_of_tails|by eapply prefix_cons_inv_2]. }
    rewrite tails_weight, !Ht, Nat2Z.inj_succ, Z.pow_succ_r by (done || lia). lia.
Qed.

Section NetworkStats.
Context `{CR : Crates, PMO : !PrefixMapOps OtherSection}.

(** [f64::exp2] *)
Class FloatEnv := { f64_exp2 : f64 -> f64 }.
(** exact on the integers that are used *)
Class FloatLaws `{FE : !FloatEnv} : Prop :=
  exp2_integer : forall k, (0 <= k <= 256)%Z -> f64_exp2 (f64_of_int k) = f64_pow2 k.
Context `{FE : !FloatEnv}.

Record NetworkStats : Type := mkNetworkStats {
  known_elders : Z;
  total_elders : Z;
  total_elders_exact : bool;
}.

(** the line that [print] logs *)
Inductive StatsLine : Type :=
| ExactTotal (known : Z)
| EstimatedTotal (known total : Z).
Definition stats_print (s : NetworkStats) : StatsLine :=
  if total_elders_exact s then ExactTotal (known_elders s) else EstimatedTotal (known_elders s) (total_elders s).

Definition known_prefixes (n : Network) (our : SectionAuthorityProvider) : list Prefix :=
  sap_prefix our :: ((fun info => sap_prefix (os_value info)) <$> pmap_iter (sections n)).

(** [1.0 / (p.bit_count() as f64).exp2()] *)
Definition prefix_fraction (p : Prefix) : f64 :=
  f64_div (f64_of_int 1) (f64_exp2 (f64_of_int (Z.of_nat (bit_count p)))).

Definition network_elder_counts (n : Network) (our : SectionAuthorityProvider) : Z * Z * bool :=
  let is_exact := is_covered_by prefix_default (known_prefixes n our) in
  let network_fraction := f64_sum (prefix_fraction <$> known_prefixes n our) in
  let known := Z.of_nat (sap_elder_count our + length (network_elders n)) in
  let total := f64_div (f64_of_int known) network_fraction in
  (known, f64_to_u64 (f64_ceil total), is_exact).

Definition network_stats (n : Network) (our : SectionAuthorityProvider) : NetworkStats :=
  let '(known, total, exact) := network_elder_counts n our in mkNetworkStats known total exact.

(** ** The fraction *)

Context `{XL : !XorLaws, FL : !FloatLaws}.

Definition EXACT_BITS : nat := 52.

Lemma prefix_fraction_value p :
  bit_count p <= EXACT_BITS ->
  represents (prefix_fraction p) (2 ^ Z.of_nat (EXACT_BITS - bit_count p)) (-52).
Proof.
  unfold EXACT_BITS. intros Hp. unfold prefix_fraction. rewrite exp2_integer by lia.
  change (f64_of_int 1) with (S754_finite false (2 ^ 52) (-52)).
  rewrite div_pow2 by (first [split; lia | lia]). right. split; [lia|].
  exists (2 ^ 52)%positive, (-52 - Z.of_nat (bit_count p))%Z. split; [done|]. split; [split; lia|]. split; [lia|].
  rewrite <- (scaled_shift (2 ^ Z.of_nat (52 - bit_count p)) (Z.of_nat (bit_count p))) by lia.
  rewrite <- Z.pow_add_r by lia. f_equal. change (Zpos (2 ^ 52)) with (2 ^ 52)%Z. f_equal. lia.
Qed.

Lemma weight_nonneg d ls : (0 <= weight d ls)%Z.
Proof. induction ls; simpl; lia. Qed.

Lemma fraction_value ps :
  Forall (fun p => bit_count p <= EXACT_BITS) ps -> (weight EXACT_BITS (pbits <$> ps) <= 2 ^ 53)%Z ->
  represents (f64_sum (prefix_fraction <$> ps)) (weight EXACT_BITS (pbits <$> ps)) (-52).
Proof.
  assert (forall a acc, Forall (fun p => bit_count p <= EXACT_BITS) ps -> represents acc a (-52) -> (0 <= a)%Z ->
    (a + weight EXACT_BITS (pbits <$> ps) <= 2 ^ 53)%Z ->
    represents (foldl f64_add acc (prefix_fraction <$> ps)) (a + weight EXACT_BITS (pbits <$> ps)) (-52)) as H.
  { induction ps as [|p ps IH]; intros a acc Hps Ha Hp Hw; [by rewrite Z.add_0_r|].
    apply Forall_cons in Hps as [Hb Hps]. cbn [fmap list_fmap foldl weight foldr] in *.
    change (foldr _ 0%Z (pbits <$> ps)) with (weight EXACT_BITS (pbits <$> ps)) in *.
    pose proof (weight_nonneg EXACT_BITS (pbits <$> ps)). rewrite length_pbits in *.
    rewrite Z.add_assoc in *. apply IH; [done| |lia|done]. apply add_represents; [done| |lia|lia].
    by apply prefix_fraction_value. }
  intros Hps Hw. apply (H 0%Z); [done|by left|done|lia].
Qed.

(** any bit string is the beginning of a name *)
Lemma name_with_bits w : length w <= NAME_BITS -> exists n, w `prefix_of` nbits n.
Proof.
  intros Hw. cut (exists p, pbits p = w).
  { intros [p <-]. exists (prefix_name p). apply matches_spec, matches_prefix_name. }
  induction w as [|b w IH] using rev_ind.
  - exists prefix_default. apply nil_length_inv. by rewrite length_pbits, prefix_default_empty.
  - rewrite length_app in Hw. simpl in Hw. destruct IH as [p Hp]; [lia|]. exists (pushed p b).
    rewrite pushed_bits, Hp; [done|]. rewrite <- length_pbits, Hp. lia.
Qed.

Definition disjoint_prefixes (p q : Prefix) : Prop := forall n, ~ (matches p n = true /\ matches q n = true).

Lemma disjoint_incomparable p q : disjoint_prefixes p q -> incomparable (pbits p) (pbits q).
Proof.
  intros H. split; intros Hp.
  - apply (H (prefix_name q)). split; [|apply matches_prefix_name]. apply matches_spec.
    etrans; [exact Hp|]. apply matches_spec, matches_prefix_name.
  - apply (H (prefix_name p)). split; [apply matches_prefix_name|]. apply matches_spec.
    etrans; [exact Hp|]. apply matches_spec, matches_prefix_name.
Qed.

(** disjoint prefixes that cover the name space have the whole weight *)
Lemma cover_weight ps :
  ForallOrdPairs disjoint_prefixes ps -> Forall (fun p => bit_count p <= EXACT_BITS) ps ->
  is_covered_by prefix_default ps = true -> weight EXACT_BITS (pbits <$> ps) = (2 ^ 52)%Z.
Proof.
  intros Hd Hb Hc. apply kraft.
  - clear Hb Hc. induction Hd as [|p ps Hp _ IH]; simpl; constructor; [|done].
    apply Forall_fmap. eapply Forall_impl; [exact Hp|]. intros q. apply disjoint_incomparable.
  - apply Forall_fmap. eapply Forall_impl; [exact Hb|]. intros p. simpl. by rewrite length_pbits.
  - intros w Hw. destruct (name_with_bits w) as [n Hn]; [rewrite Hw; unfold EXACT_BITS, NAME_BITS; lia|].
    destruct (proj1 (is_covered_by_spec _ _) Hc n (matches_default n)) as (q & Hq & Hm%matches_spec).
    exists (pbits q). split; [by apply list_elem_of_fmap_2|].
    destruct (prefix_weak_total _ _ _ Hm Hn) as [H|H]; [done|].
    rewrite Forall_forall in Hb. specialize (Hb _ Hq). pose proof (prefix_length _ _ H). rewrite length_pbits in *.
    rewrite (prefix_length_eq _ _ H); [done|]. rewrite length_pbits. lia.
Qed.

(** C25: when the known prefixes are disjoint and cover the name space, none of them longer than
    52 bits, the fraction of the network is computed as exactly one, and so the estimated
    number of elders is the number of known elders, without rounding. *)
Theorem network_stats_exact (n : Network) (our : SectionAuthorityProvider) :
  let known := Z.of_nat (sap_elder_count our + length (network_elders n)) in
  ForallOrdPairs disjoint_prefixes (known_prefixes n our) ->
  Forall (fun p => bit_count p <= EXACT_BITS) (known_prefixes n our) ->
  is_covered_by prefix_default (known_prefixes n our) = true ->
  (known <= 2 ^ 53)%Z ->
  network_stats n our = mkNetworkStats known known true /\
  stats_print (network_stats n our) = ExactTotal known.
Proof.
  intros known Hd Hb Hc Hk. cut (network_stats n our = mkNetworkStats known known true); [by intros ->|].
  unfold network_stats, network_elder_counts. rewrite Hc. f_equal. fold known.
  pose proof (cover_weight _ Hd Hb Hc) as Hw. pose proof (fraction_value _ Hb ltac:(lia)) as Hf. rewrite Hw in Hf.
  assert (f64_sum (prefix_fraction <$> known_prefixes n our) = f64_pow2 0) as ->.
  { eapply represents_unique; [exact Hf| |lia]. right. split; [lia|].
    exists (2 ^ 52)%positive, (-52)%Z. repeat split; lia. }
  destruct (normalize_represents known 0) as [[-> E]|(Hpos & m & e & E & Hm & He & Hv)]; [lia|lia|by vm_compute|].
  unfold f64_of_int. rewrite E. rewrite div_pow2; [|done|by rewrite Z.sub_0_r|lia]. rewrite Z.sub_0_r.
  rewrite (ceil_integer m e known), (to_u64_integer m e known) by done. unfold U64_MAX. lia.
Qed.
End NetworkStats.

(** ** Witnesses *)

Module NetworkStatsWitness.
Import BitNames ToyCrates ToySerialize NetworkWitness.

(** the exact powers, by the value of the argument *)
#[export] Instance float_env : FloatEnv := {|
  f64_exp2 x := f64_pow2 (f64_to_u64 x);
|}.
#[export] Instance float_laws : FloatLaws (FE := float_env).
Proof.
  intros k Hk. unfold float_env, f64_exp2. f_equal.
  destruct (normalize_represents k 0) as [[-> _]|(Hpos & m & e & E & Hm & He & Hv)]; [lia|lia|done|].
  unfold f64_of_int. rewrite E, (to_u64_integer m e k) by done. unfold U64_MAX. lia.
Qed.

Definition our_half : SectionAuthorityProvider := sap [false] 1.

Lemma network_stats_exact_witness :
  stats_print (network_stats net our_half) = ExactTotal 2.
Proof.
  assert (is_covered_by prefix_default (known_prefixes net our_half) = true) as Hc by (vm_compute; reflexivity).
  assert (known_prefixes net our_half = [to_prefix [false]; to_prefix [true]]) as E by reflexivity.
  assert (Forall (fun p => bit_count p <= EXACT_BITS) (known_prefixes net our_half)) as Hb.
  { rewrite E. repeat (apply Forall_cons; split; [apply Nat.leb_le; vm_compute; reflexivity|]). by apply Forall_nil. }
  assert (ForallOrdPairs disjoint_prefixes (known_prefixes net our_half)) as Hd.
  { rewrite E. apply FOP_cons; [|apply FOP_cons; [by apply Forall_nil|apply FOP_nil]].
    apply Forall_singleton. intros n [[k1 H1]%matches_spec [k2 H2]%matches_spec].
    rewrite (pbits_xbits (to_prefix [false])), (xbits_to_prefix [false]) in H1.
    rewrite (pbits_xbits (to_prefix [true])), (xbits_to_prefix [true]), H1 in H2. discriminate H2. }
  exact (proj2 (network_stats_exact net our_half Hd Hb Hc ltac:(vm_compute; discriminate))).
Defined.

(** A network of which the node learned longer and longer prefixes on one side only: the shorter
    ones stay in the map, the fraction exceeds one, and the total is estimated to be less than
    what is known. *)
Definition overlapping : Network :=
  foldl (fun n '(bits, k) => (network_update_section n (signed_sap bits k 1) None chain1).1) network_new
    ((fun i => (replicate i false, N.of_nat i)) <$> [1; 2; 3; 4; 5; 6]).

Theorem overlapping_sections_underestimate :
  network_stats overlapping (sap [true; true] 9) = mkNetworkStats 7 6 false.
Proof. vm_compute. reflexivity. Qed.
End NetworkStatsWitness.
