(* ===== verification/Split.v ===== *)
(** * A section split, from the agreements to the event

    The split barrier ([SplitBarrier]), the change of the section's authority ([SectionState]),
    the knowledge of the sibling ([Network]) and the update of the node with its event
    ([CoreState]) together: the agreement on one half changes nothing yet, and the one on the
    other half, in whichever order they come, makes the node a member of its half that knows the
    other half. *)

From stdpp Require Import base tactics list gmap sorting.
From Stdlib Require Import ZArith Lia.
From S2P Require Import Prelude Names Crates Types Thresholds SectionPeers SectionKeys.
From S2P Require Import SectionState PrefixMap Network SplitBarrier EndUsers DkgFailure DkgSession.
From S2P Require Import DkgVoter Messages Cache MessageFilter Relocation DeliveryGroup CoreState.
From S2P Require Import Handling NodeInvariant Comm Bootstrap Dispatcher NodeClaims JoinProtocol.

Section Split.
Context `{CR : Crates, XL : !XorLaws, CL : !ChainLaws, KG : !KeyGenOps, KP : !KeyGenProgress,
  PMO : !PrefixMapOps OtherSection, PML : !PrefixMapLaws OtherSection, MO : !MessagingOps, VA : VecDequeAlloc,
  CE : !CoreEnv}.
Context `{SerView : !Serialize (DstLocation * Variant), SerNodeState : !Serialize NodeState,
  SerSap : !Serialize SectionAuthorityProvider, SerKey : !Serialize BlsPublicKey,
  SerJoins : !Serialize (MessageId * bool), SerNonce : !Serialize (XorName * Bytes),
  SerAddr : !Serialize SocketAddr}.

Abbreviation Entry := (SectionSigned SectionAuthorityProvider * Signed)%type.

(** an agreement on the elders of one half of the section, signed by a key of the chain *)
Record half (c : Core) (b : bool) (e : Entry) : Prop := {
  half_prefix : entry_auth_prefix e = pushed (section_prefix (c_section c)) b;
  half_verified : other_section_verify (mkOtherSection e.1 (Some e.2)) (section_chain c) = true;
}.

(** ** Pieces *)

(** a verified section is stored when nothing longer is known *)
Lemma update_section_stores n a k chain :
  other_section_verify (mkOtherSection a k) chain = true -> ~ known_longer n (sap_prefix (ss_value a)) ->
  network_get (network_update_section n a k chain).1 (sap_prefix (ss_value a)) = Some (ss_value a).
Proof.
  intros Hv Hl. unfold network_update_section. rewrite Hv. cbn [negb].
  destruct (pmap_insert_free (sections n) (mkOtherSection a k) Hl) as (_ & H & _).
  destruct (pmap_insert (sections n) (mkOtherSection a k)) as [m rep]. simpl in H.
  assert (network_get (mkNetwork m) (sap_prefix (ss_value a)) = Some (ss_value a)) as Hg.
  { unfold network_get. cbn [sections]. change (sap_prefix (ss_value a)) with (entry_prefix (mkOtherSection a k)).
    by rewrite H. }
  destruct rep; [case_decide|]; exact Hg.
Qed.

Lemma filter_siblings_none p l a :
  sap_prefix (ss_value a) = p -> Forall (fun e => entry_auth_prefix e <> sibling p) l ->
  List.filter (is_sibling_of a) l = [] /\ List.filter (fun e => negb (is_sibling_of a e)) l = l.
Proof.
  intros <-. induction 1 as [|e l He _ [IH1 IH2]]; [done|].
  assert (is_sibling_of a e = false) as E by (by apply bool_decide_eq_false_2). simpl. by rewrite E, IH1, IH2.
Qed.

(** the first half is kept and the second releases both *)
Lemma barrier_both bar p b x y :
  bit_count p < NAME_BITS -> entry_auth_prefix x = pushed p b -> entry_auth_prefix y = pushed p (negb b) ->
  Forall (fun e => forall b, entry_auth_prefix e <> pushed p b) (cached bar) ->
  let held := mkSplitBarrier (cached bar ++ [x]) in
  split_barrier_process bar p x.1 x.2 = (held, []) /\
  split_barrier_process held p y.1 y.2 = (bar, [x; y]).
Proof.
  intros Hp Hx Hy Hb. cbn zeta. destruct x as [xa xk], y as [ya yk]. unfold entry_auth_prefix in Hx, Hy. cbn [fst snd] in *.
  unfold split_barrier_process. rewrite Hx, Hy, !pushed_extension by done. cbn [negb]. rewrite !partition_filter.
  assert (Forall (fun e => entry_auth_prefix e <> sibling (pushed p b)) (cached bar)) as H1.
  { rewrite sibling_pushed by done. eapply Forall_impl; [exact Hb|]. intros e He. apply He. }
  assert (Forall (fun e => entry_auth_prefix e <> sibling (pushed p (negb b))) (cached bar)) as H2.
  { rewrite sibling_pushed by done. eapply Forall_impl; [exact Hb|]. intros e He. apply He. }
  destruct (filter_siblings_none _ _ xa Hx H1) as [-> ->].
  destruct (filter_siblings_none _ _ ya Hy H2) as [E1 E2]. split; [done|].
  cbn [cached]. rewrite !List.filter_app, E1, E2. simpl. unfold is_sibling_of, entry_auth_prefix. simpl.
  rewrite Hx, Hy, sibling_pushed, negb_involutive, bool_decide_eq_true_2 by done. simpl. rewrite app_nil_r.
  by destruct bar.
Qed.

(** Both agreements are applied, in either order. *)
Lemma apply_both c ours eo et d chain' :
  matches (section_prefix (c_section c)) (our_name c) = true -> bit_count (section_prefix (c_section c)) < NAME_BITS ->
  ours = name_bit (our_name c) (bit_count (section_prefix (c_section c))) ->
  half c ours eo -> half c (negb ours) et ->
  sll_insert (section_chain c) (signed_public_key eo.2) (signed_public_key (ss_signed eo.1)) (signed_signature eo.2) =
    (chain', Ok tt) ->
  sll_last_key chain' = signed_public_key (ss_signed eo.1) ->
  ~ known_longer (c_network c) (entry_auth_prefix et) ->
  d = apply_elders et (apply_elders eo c) \/ d = apply_elders eo (apply_elders et c) ->
  c_section d = prune_members (mkSection (sec_genesis_key (c_section c)) chain' eo.1 (sec_members (c_section c))) /\
  network_get (c_network d) (entry_auth_prefix et) = Some (ss_value et.1) /\
  c_node d = c_node c /\ c_events d = c_events c /\ c_split_barrier d = c_split_barrier c.
Proof.
  intros Hm Hp Ho [Po Vo] [Pt Vt] Hi Hl Hn Hd. destruct eo as [oa ok], et as [ta tk].
  unfold entry_auth_prefix in *. cbn [fst snd] in *.
  assert (forall x, c_node x = c_node c -> matches (sap_prefix (ss_value oa)) (our_name x) = true) as Mo.
  { intros x Hx. unfold our_name. rewrite Hx, Po. by apply matches_pushed. }
  assert (forall x, c_node x = c_node c -> matches (sap_prefix (ss_value ta)) (our_name x) = false) as Mt.
  { intros x Hx. unfold our_name. rewrite Hx, Pt. apply not_true_is_false. rewrite matches_pushed by done.
    intros [_ E]. unfold our_name in *. subst ours. by destruct (name_bit _ _). }
  assert (self_verify oa = true) as So.
  { unfold other_section_verify in Vo. simpl in Vo. by apply andb_true_iff in Vo as [_ ?]. }
  assert ((update_elders (c_section c) oa ok).1 =
    prune_members (mkSection (sec_genesis_key (c_section c)) chain' oa (sec_members (c_section c)))) as Hu.
  { unfold update_elders. rewrite Po, pushed_extension, So by done. rewrite andb_false_r. cbn [negb].
    unfold section_chain in Hi. rewrite Hi. cbn [fst]. unfold adopt_auth, with_chain. cbn [sec_chain].
    by rewrite decide_True by done. }
  assert (other_section_verify (mkOtherSection ta (Some tk)) chain' = true) as Vt'.
  { unfold other_section_verify in *. simpl in *. rewrite !andb_true_iff, sll_has_key_spec in *.
    destruct Vt as [[? ?] ?]. split; [|done]. split; [|done]. apply (sll_insert_keys _ _ _ _ _ Hi). auto. }
  assert (forall x, c_node x = c_node c ->
    apply_elders (oa, ok) x = set_section (update_elders (c_section x) oa ok).1 x) as Eo.
  { intros x Hx. unfold apply_elders. by rewrite (Mo x Hx). }
  assert (forall x, c_node x = c_node c -> apply_elders (ta, tk) x =
    set_network (network_update_section (c_network x) ta (Some tk) (section_chain x)).1 x) as Et.
  { intros x Hx. unfold apply_elders. by rewrite (Mt x Hx). }
  destruct Hd as [->| ->].
  - rewrite (Eo c eq_refl), Et by done. cbn [set_network set_section c_section c_network c_node c_events c_split_barrier].
    rewrite Hu. split; [done|]. split; [|done]. by apply update_section_stores.
  - rewrite (Et c eq_refl), Eo by done. cbn [set_network set_section c_section c_network c_node c_events c_split_barrier].
    rewrite Hu. split; [done|]. split; [|done]. by apply update_section_stores.
Qed.

(** ** The update of the node when a command cannot be built *)

Lemma run_bind_err {A B : Type} (m : M A) (k : A -> M B) c c' e :
  run (m ≫= k) c = (c', Err e) ->
  run m c = (c', Err e) \/ exists a c1, run m c = (c1, Ok a) /\ run (k a) c1 = (c', Err e).
Proof.
  unfold mbind, M_bind; cbn [run]. destruct (run m c) as [c1 [a|e']]; [eauto|].
  intros [= <- <-]. by left.
Qed.

(** the error comes before the event and before a demotion *)
Lemma update_state_fails old c c' e :
  run (update_state old) c = (c', Err e) ->
  c' = set_msg_filter (message_filter_reset (c_msg_filter c)) (set_keys (kp_finalise_dkg (c_keys c) (last_key c)) c).
Proof.
  unfold update_state. set (c1 := set_keys _ c).
  intros [H|(c0 & ? & [= <- <-] & H)]%run_bind_err; [done|].
  apply run_bind_err in H as [H|([] & c1' & [= <-] & H)]; [done|]. fold c1 in H.
  apply run_bind_err in H as [H|(changed & c2 & _ & H)]; [|by apply run_bind_err in H as [?|(? & ? & [= <- <-] & ?)]].
  revert H. case_decide as Hk; [|done]. intros [H|([] & c4 & [= <-] & H)]%run_bind_err; [done|].
  change (c_msg_filter c1) with (c_msg_filter c) in *. set (c3 := set_msg_filter _ c1) in *.
  pose proof (elder_commands_pure (sn_is_elder (state_snapshot c)) c3) as Hp.
  apply run_bind_err in H as [H|(ec & c5 & He & H)].
  { unfold keeps_at in Hp. by rewrite H in Hp. }
  unfold keeps_at in Hp. rewrite He in Hp. cbn [fst] in Hp. subst c5.
  apply run_bind_err in H as [H|(sync & c6 & _ & H)].
  { destruct (sn_is_elder _ || sn_is_elder old); [|done]. apply (f_equal fst) in H. exact (eq_sym H). }
  by apply run_bind_err in H as [?|([] & ? & ? & ?)].
Qed.

(** ** The split *)

(** the two agreements, up to the update of the node *)
Lemma agreements_run c p b x y :
  p = section_prefix (c_section c) -> bit_count p < NAME_BITS ->
  entry_auth_prefix x = pushed p b -> entry_auth_prefix y = pushed p (negb b) ->
  Forall (fun e => forall b, entry_auth_prefix e <> pushed p b) (cached (c_split_barrier c)) ->
  let held := set_split_barrier (mkSplitBarrier (cached (c_split_barrier c) ++ [x])) c in
  run (handle_agreement (POurElders x.1) x.2) c = (held, Ok []) /\
  run (handle_agreement (POurElders y.1) y.2) held =
  run (update_state (state_snapshot c)) (apply_elders y (apply_elders x c)).
Proof.
  intros -> Hp Hx Hy Hb held. destruct (barrier_both _ _ _ _ _ Hp Hx Hy Hb) as [E1 E2].
  assert (set_split_barrier (c_split_barrier c) held = c) as Hc by (by destruct c).
  unfold handle_agreement, handle_our_elders_agreement, step, mbind, M_bind; cbn [run].
  rewrite E1. split; [done|].
  change (section_prefix (c_section held)) with (section_prefix (c_section c)).
  change (c_split_barrier held) with (mkSplitBarrier (cached (c_split_barrier c) ++ [x])). rewrite E2, Hc. done.
Qed.

Lemma pushed_ne p b : bit_count p < NAME_BITS -> pushed p b <> p.
Proof.
  intros Hp E. apply (f_equal (fun q => length (pbits q))) in E. rewrite pushed_bits, length_app in E by done.
  simpl in E. lia.
Qed.

(** the report of a split *)
Lemma split_reported c d q sib :
  section_prefix (c_section d) = q -> q <> section_prefix (c_section c) ->
  network_get (c_network d) (sibling q) = Some sib ->
  let change := status_change (core_is_elder c) (core_is_elder d) in
  let old := sap_names (authority_provider (c_section c)) in
  let elders := elders_diff q (last_key d) old (sap_names (authority_provider (c_section d))) in
  report_event (state_snapshot c) d =
  if decide (change = Demoted) then EvEldersChanged elders change
  else EvSectionSplit elders (elders_diff (sibling q) (sap_section_key sib) old (sap_names sib)) change.
Proof.
  intros Hq Hne Hs. cbn zeta. unfold report_event, report_elders. cbn [sn_is_elder sn_prefix sn_elders state_snapshot].
  rewrite Hq, Hs. case_decide as Hd; [by rewrite bool_decide_eq_false_2 by tauto|by rewrite bool_decide_eq_true_2 by done].
Qed.

(** the update of a node whose section has just split *)
Lemma split_update c d q sib :
  section_prefix (c_section d) = q -> q <> section_prefix (c_section c) ->
  network_get (c_network d) (sibling q) = Some sib -> last_key d <> last_key c ->
  let r := run (update_state (state_snapshot c)) d in
  c_section r.1 = c_section d /\ c_node r.1 = c_node d /\ c_split_barrier r.1 = c_split_barrier d /\
  match r.2 with
  | Ok _ =>
      let change := status_change (core_is_elder c) (core_is_elder d) in
      let old := sap_names (authority_provider (c_section c)) in
      let elders := elders_diff q (last_key d) old (sap_names (authority_provider (c_section d))) in
      if decide (change = Demoted)
      then c_events r.1 = c_events d ++ [EvEldersChanged elders change] /\ network_all (c_network r.1) = []
      else c_events r.1 = c_events d ++ [EvSectionSplit elders
             (elders_diff (sibling q) (sap_section_key sib) old (sap_names sib)) change] /\
           network_get (c_network r.1) (sibling q) = Some sib
  | Err _ => c_events r.1 = c_events d /\ network_get (c_network r.1) (sibling q) = Some sib
  end.
Proof.
  intros Hq Hne Hs Hk. destruct (run (update_state (state_snapshot c)) d) as [d' [cmds|e]] eqn:Hr; cbn [fst snd].
  - apply update_state_runs in Hr. cbn zeta in Hr. rewrite decide_True in Hr by done.
    rewrite elders_change_run, (split_reported c d q sib) in Hr by done.
    cbn zeta in Hr |- *. cbn [sn_is_elder state_snapshot] in Hr. subst d'.
    set (change := status_change _ _). destruct change; simpl; repeat split; try done; apply network_all_new.
  - apply update_state_fails in Hr. by subst d'.
Qed.

(** C4: a section split runs to its end.  An elder (or adult) of a section whose prefix can still
    grow is given the agreements on the elders of the two halves, each signed by a key of its
    chain, in whichever order.  The first is only held back: no other part of the state changes and
    there are no commands.  The second, whatever it is, makes the node a member of its own half:
    with the half's elders as its authority, the key of those elders as its last key and the members
    of that half only, and the barrier is as it was before the two.  When the commands can be
    built, exactly one event reports it: a split, with the elders of both halves, and the other half
    is known from then on; for an elder that the split demotes it is a change of elders, and the
    network is forgotten.  When they cannot, the section has split all the same, the other half is
    known, and nothing is reported. *)
Theorem split_completes (c : Core) (first second ours theirs : Entry) (chain' : SecuredLinkedList)
    (p := section_prefix (c_section c)) (b := name_bit (our_name c) (bit_count p))
    (key := signed_public_key (ss_signed ours.1)) :
  matches p (our_name c) = true -> bit_count p < NAME_BITS ->
  half c b ours -> half c (negb b) theirs ->
  (first = ours /\ second = theirs) \/ (first = theirs /\ second = ours) ->
  Forall (fun e => forall b, entry_auth_prefix e <> pushed p b) (cached (c_split_barrier c)) ->
  sll_insert (section_chain c) (signed_public_key ours.2) key (signed_signature ours.2) = (chain', Ok tt) ->
  sll_last_key chain' = key -> key <> last_key c ->
  ~ known_longer (c_network c) (pushed p (negb b)) ->
  let held := set_split_barrier (mkSplitBarrier (cached (c_split_barrier c) ++ [first])) c in
  run (handle_agreement (POurElders first.1) first.2) c = (held, Ok []) /\
  let r := run (handle_agreement (POurElders second.1) second.2) held in
  section_prefix (c_section r.1) = pushed p b /\ authority_provider (c_section r.1) = ss_value ours.1 /\
  last_key r.1 = key /\ c_node r.1 = c_node c /\ c_split_barrier r.1 = c_split_barrier c /\
  (forall n, members (sec_members (c_section r.1)) !! n =
     if matches (pushed p b) n then members (sec_members (c_section c)) !! n else None) /\
  match r.2 with
  | Ok _ =>
      let change := status_change (core_is_elder c) (core_is_elder r.1) in
      let old := sap_names (authority_provider (c_section c)) in
      let our_elders := elders_diff (pushed p b) key old (sap_names (ss_value ours.1)) in
      let their_elders := elders_diff (pushed p (negb b)) (sap_section_key (ss_value theirs.1)) old
                            (sap_names (ss_value theirs.1)) in
      if decide (change = Demoted)
      then c_events r.1 = c_events c ++ [EvEldersChanged our_elders change] /\ network_all (c_network r.1) = []
      else c_events r.1 = c_events c ++ [EvSectionSplit our_elders their_elders change] /\
           network_get (c_network r.1) (pushed p (negb b)) = Some (ss_value theirs.1)
  | Err _ =>
      c_events r.1 = c_events c /\ network_get (c_network r.1) (pushed p (negb b)) = Some (ss_value theirs.1)
  end.
Proof.
  intros Hm Hp Ho Ht Hor Hb Hi Hl Hk Hn. cbn zeta. set (r := run (handle_agreement (POurElders second.1) second.2) _).
  assert (run (handle_agreement (POurElders first.1) first.2) c =
      (set_split_barrier (mkSplitBarrier (cached (c_split_barrier c) ++ [first])) c, Ok []) /\
    r = run (update_state (state_snapshot c)) (apply_elders second (apply_elders first c))) as [H1 H2].
  { destruct Hor as [[-> ->]|[-> ->]].
    - apply (agreements_run c p b); [done|done|apply Ho|apply Ht|done].
    - apply (agreements_run c p (negb b)); [done|done|apply Ht|rewrite negb_involutive; apply Ho|done]. }
  split; [exact H1|]. clearbody r. subst r. set (d := apply_elders second (apply_elders first c)).
  destruct (apply_both c b ours theirs d chain' Hm Hp eq_refl Ho Ht Hi Hl) as (Es & En & Ed & Ee & Eb).
  { by rewrite (half_prefix _ _ _ Ht). }
  { destruct Hor as [[-> ->]|[-> ->]]; auto. }
  rewrite (half_prefix _ _ _ Ht) in En. clearbody d.
  assert (section_prefix (c_section d) = pushed p b) as Ep by (rewrite Es; apply (half_prefix _ _ _ Ho)).
  assert (last_key d = key) as Ek by (unfold last_key, section_chain; rewrite Es; exact Hl).
  assert (authority_provider (c_section d) = ss_value ours.1) as Ea by (by rewrite Es).
  assert (forall n, members (sec_members (c_section d)) !! n =
     if matches (pushed p b) n then members (sec_members (c_section c)) !! n else None) as Em.
  { intros n. rewrite Es, prune_members_lookup. change (section_prefix (mkSection _ _ ours.1 _)) with (entry_auth_prefix ours).
    by rewrite (half_prefix _ _ _ Ho). }
  destruct (split_update c d (pushed p b) (ss_value theirs.1)) as (Us & Un & Ub & Ur).
  { done. } { by apply pushed_ne. } { by rewrite sibling_pushed by done. } { by rewrite Ek. }
  unfold last_key, section_chain, core_is_elder, our_name in *. rewrite Us, Un, Ub, Ed, Eb.
  repeat (split; [done|]). revert Ur. cbn zeta. rewrite Ee, Ea, Ek, Ed, sibling_pushed by done. done.
Qed.
End Split.

(** ** A split of the first section *)

Module SplitWitness.
Import BitNames ToyCrates ToySerialize SectionKeysWitness NetworkWitness EndUsersWitness MessagesWitness CoreToy
  CommWitness BootstrapToy MessageFilterWitness NodeToy NodeWitness.

Definition bit77 : bool := name_bit (our_name core1) 0.
(** the elders of a half, signed by their own key [k], and the key signed by the section's *)
Definition half_sap (b : bool) (k : N) (peers : list Peer) : SectionAuthorityProvider :=
  sap_new peers (to_prefix [b]) (k : BlsPublicKeySet).
Definition half_entry (b : bool) (k : N) (peers : list Peer) : SectionSigned SectionAuthorityProvider * Signed :=
  (mkSectionSigned (half_sap b k peers)
     (mkSigned (k : BlsPublicKey) ((k, default [] (serialize (half_sap b k peers))) : BlsSignature)),
   mkSigned key9 ((9%N, [Z.of_N k]) : BlsSignature)).
Definition our_half : SectionSigned SectionAuthorityProvider * Signed := half_entry bit77 12 [node_peer node1].
Definition their_half : SectionSigned SectionAuthorityProvider * Signed := half_entry (negb bit77) 13 [candidate].
Definition chain_after : SecuredLinkedList := ToyCrates.Chain 9%N [12%N].
Definition held1 : Core := set_split_barrier (mkSplitBarrier [their_half]) core1.

Lemma split_completes_witness :
  run (handle_agreement (POurElders their_half.1) their_half.2) core1 = (held1, Ok []) /\
  last_key (run (handle_agreement (POurElders our_half.1) our_half.2) held1).1 = (12%N : BlsPublicKey).
Proof.
  assert (matches (section_prefix (c_section core1)) (our_name core1) = true) as H1 by reflexivity.
  assert (bit_count (section_prefix (c_section core1)) < NAME_BITS) as H2.
  { change (bit_count (section_prefix (c_section core1))) with 0. unfold NAME_BITS. lia. }
  assert (half core1 bit77 our_half) as H3 by (split; reflexivity).
  assert (half core1 (negb bit77) their_half) as H4 by (split; reflexivity).
  assert (~ known_longer (c_network core1) (pushed (section_prefix (c_section core1)) (negb bit77))) as H5.
  { intros (q & o & Hg & _). change (c_network core1) with network_new in Hg. unfold network_new in Hg. cbn [sections] in Hg. by rewrite pmap_get_new in Hg. }
  destruct (split_completes core1 their_half our_half our_half their_half chain_after H1 H2 H3 H4
    (or_intror (conj eq_refl eq_refl)) (Forall_nil_2 _) ltac:(reflexivity) ltac:(reflexivity) ltac:(discriminate) H5)
    as (Hf & _ & _ & Hk & _).
  split; [exact Hf|exact Hk].
Defined.
End SplitWitness.
