(* ===== verification/Pending.v ===== *)
(** * Pending commands: agreements and relocations

    What a running node has left to do, over all its handlers ([Handling], [CoreState]) and the
    command loop ([Dispatcher]): where the agreements that wait to be handled come from, and how the
    relocation of the node, the command that waits for it and the events that report it go
    together. *)

From stdpp Require Import base tactics list gmap sorting.
From Stdlib Require Import ZArith Lia.
From S2P Require Import Prelude Names Crates Types Thresholds SectionPeers SectionKeys.
From S2P Require Import SectionState PrefixMap Network SplitBarrier EndUsers DkgFailure DkgSession.
From S2P Require Import DkgVoter Messages Cache MessageFilter Relocation DeliveryGroup CoreState.
From S2P Require Import Handling NodeInvariant Comm Bootstrap Dispatcher.

Create HintDb pending_db.

(** ** What a computation returns *)

Definition ok_all {A E : Type} (Q : A -> Prop) (r : result A E) : Prop :=
  match r with Ok a => Q a | Err _ => True end.

Lemma ok_all_bind {A B E : Type} (P : A -> Prop) (Q : B -> Prop) (r : result A E) (k : A -> result B E) :
  ok_all P r -> (forall a, P a -> ok_all Q (k a)) -> ok_all Q (rbind r k).
Proof. destruct r; simpl; auto. Qed.
Lemma ok_all_any {A B E : Type} (Q : B -> Prop) (r : result A E) (k : A -> result B E) :
  (forall a, ok_all Q (k a)) -> ok_all Q (rbind r k).
Proof. destruct r; simpl; auto. Qed.
Lemma ok_all_map_err {A E F : Type} (Q : A -> Prop) (f : E -> F) (r : result A E) :
  ok_all Q r -> ok_all Q (map_err f r).
Proof. by destruct r. Qed.
Lemma ok_all_try_map {A B E : Type} (Q : B -> Prop) (f : A -> result B E) (l : list A) :
  (forall a, ok_all Q (f a)) -> ok_all (Forall Q) (try_map f l).
Proof.
  intros Hf. induction l as [|a l IH]; simpl; [constructor|].
  eapply ok_all_bind; [apply Hf|]. intros b Hb. eapply ok_all_bind; [exact IH|]. intros bs Hbs. by constructor.
Qed.

Section Pending.
Context `{CR : Crates, XL : !XorLaws, CL : !ChainLaws, KG : !KeyGenOps, KP : !KeyGenProgress,
  PMO : !PrefixMapOps OtherSection, PML : !PrefixMapLaws OtherSection, MO : !MessagingOps,
  VA : VecDequeAlloc, VL : !VecDequeAllocLaws, CE : !CoreEnv, EL : !CoreEnvLaws, WO : !WireOps, WM : !WireMsgOps, BE : !BootstrapEnv}.
Context `{SerView : !Serialize (DstLocation * Variant), SerNodeState : !Serialize NodeState,
  SerSap : !Serialize SectionAuthorityProvider, SerKey : !Serialize BlsPublicKey,
  SerJoins : !Serialize (MessageId * bool), SerNonce : !Serialize (XorName * Bytes),
  SerAddr : !Serialize SocketAddr}.

(** neither an agreement nor a relocation *)
Definition ordinary (cmd : Command) : Prop :=
  match cmd with CHandleAgreement _ _ | CRelocate _ _ => False | _ => True end.

Definition emits {A : Type} (Q : A -> Prop) (m : M A) : Prop := forall c, ok_all Q (run m c).2.

Lemma emits_ret {A : Type} (Q : A -> Prop) a : Q a -> emits Q (mret a).
Proof. by intros H c. Qed.
Lemma emits_fail {A : Type} (Q : A -> Prop) e : emits Q (mfail e).
Proof. by intros c. Qed.
Lemma emits_query {A : Type} (Q : A -> Prop) f : (forall c, ok_all Q (f c)) -> emits Q (query f).
Proof. intros H c. apply H. Qed.
Lemma emits_mkM {A : Type} (Q : A -> Prop) f : (forall c, ok_all Q (f c).2) -> emits Q (mkM f).
Proof. intros H c. apply H. Qed.
Lemma emits_bind {A B : Type} (P : A -> Prop) (Q : B -> Prop) (m : M A) (k : A -> M B) :
  emits P m -> (forall a, P a -> emits Q (k a)) -> emits Q (m ≫= k).
Proof.
  intros Hm Hk c. specialize (Hm c). unfold mbind, M_bind; cbn [run].
  destruct (run m c) as [c' [a|e]]; simpl in *; [apply (Hk a Hm)|done].
Qed.
Lemma emits_any {A B : Type} (Q : B -> Prop) (m : M A) (k : A -> M B) :
  (forall a, emits Q (k a)) -> emits Q (m ≫= k).
Proof. intros Hk. apply (emits_bind (fun _ => True)); [|auto]. intros c. by destruct (run m c).2. Qed.

Lemma ordinary_option o : (forall cmd, o = Some cmd -> ordinary cmd) -> Forall ordinary (option_list o).
Proof. destruct o; simpl; auto. Qed.

(** ** The commands the handlers return *)

Lemma direct_ordinary c r v k : ok_all ordinary (send_direct_message c r v k).
Proof. by apply ok_all_any. Qed.
Lemma approval_ordinary c s : ok_all ordinary (send_node_approval c s).
Proof. by apply ok_all_any. Qed.
Lemma sync_variant_ordinary c v rs : ok_all ordinary (send_sync_variant c v rs).
Proof. by apply ok_all_any. Qed.
Lemma send_or_handle_ordinary c m rs : Forall ordinary (send_or_handle c m rs).
Proof. unfold send_or_handle. apply Forall_app. split; case_match; repeat constructor. Qed.
Lemma accumulation_ordinary c s d v rs : ok_all (Forall ordinary) (send_message_for_dst_accumulation c s d v rs).
Proof. do 2 (apply ok_all_any; intros). apply send_or_handle_ordinary. Qed.
Lemma proposal_with_ordinary c rs p ks : ok_all (Forall ordinary) (send_proposal_with c rs p ks).
Proof. do 2 (apply ok_all_any; intros). apply send_or_handle_ordinary. Qed.
Lemma proposal_ordinary c rs p : ok_all (Forall ordinary) (send_proposal c rs p).
Proof. apply ok_all_any. intros. apply proposal_with_ordinary. Qed.
Lemma propose_ordinary c p : ok_all (Forall ordinary) (propose c p).
Proof. apply proposal_ordinary. Qed.
Lemma promote_ordinary c : ok_all (Forall ordinary) (core_promote_and_demote c).
Proof.
  eapply ok_all_bind; [apply ok_all_try_map; intros; apply accumulation_ordinary|].
  intros css H. simpl. by apply Forall_concat.
Qed.
Lemma joins_proposal_ordinary c b : ok_all (Forall ordinary) (joins_allowed_proposal c b).
Proof. apply ok_all_any. intros. apply propose_ordinary. Qed.
Lemma knowledge_ordinary c : ok_all (Forall ordinary) (knowledge_commands c).
Proof. apply ok_all_try_map. intros. by apply ok_all_any. Qed.
Lemma send_sync_ordinary c s n : ok_all (Forall ordinary) (send_sync c s n).
Proof.
  unfold send_sync. destruct (List.partition _ _). eapply ok_all_bind; [apply sync_variant_ordinary|].
  intros. eapply ok_all_bind; [apply sync_variant_ordinary|]. intros. simpl. by repeat constructor.
Qed.
Lemma sync_adults_ordinary c cs : ok_all (Forall ordinary) (sync_adults_unless c cs).
Proof.
  destruct cs; [|by constructor]. eapply ok_all_bind; [apply sync_variant_ordinary|]. intros. by repeat constructor.
Qed.
Lemma relocate_each_ordinary c n l : ok_all (Forall ordinary) (relocate_each c n l).
Proof.
  induction l as [|[info a] l IH]; simpl; [constructor|]. case_decide; [exact IH|].
  eapply ok_all_bind; [apply propose_ordinary|]. intros os Ho. apply (ok_all_bind (Forall ordinary)).
  { destruct a; apply accumulation_ordinary. }
  intros ns Hn. eapply ok_all_bind; [exact IH|]. intros ls Hl. simpl. by rewrite !Forall_app.
Qed.
Lemma relocate_peers_ordinary c n s : ok_all (Forall ordinary) (relocate_peers c n s).
Proof. unfold relocate_peers. do 2 (case_match; [by constructor|]). apply relocate_each_ordinary. Qed.
Lemma offline_proposals_ordinary c es ns : ok_all (Forall ordinary) (offline_proposals c es ns).
Proof.
  induction ns as [|n ns IH]; simpl; [constructor|]. case_match; [|exact IH]. apply ok_all_any. intros st.
  eapply ok_all_bind; [exact IH|]. intros cs Hcs. simpl. rewrite Forall_app. split; [|done].
  pose proof (proposal_ordinary c es (POffline st)) as Hp. by destruct (send_proposal _ _ _).
Qed.
Lemma reply_ordinary c p v : ok_all (Forall ordinary) (reply c p v).
Proof. eapply ok_all_bind; [apply direct_ordinary|]. intros. by repeat constructor. Qed.
End Pending.

#[export] Hint Resolve direct_ordinary approval_ordinary sync_variant_ordinary send_or_handle_ordinary
  accumulation_ordinary proposal_with_ordinary proposal_ordinary propose_ordinary promote_ordinary
  joins_proposal_ordinary knowledge_ordinary send_sync_ordinary sync_adults_ordinary relocate_peers_ordinary
  offline_proposals_ordinary reply_ordinary emits_query : pending_db.

(** a result is followed bind by bind, with the facts above for its parts *)
Ltac ordinary_steps :=
  repeat match goal with
    | |- forall _, _ => intro
    | |- ok_all _ (rbind _ _) => first [eapply ok_all_bind; [solve [eauto with pending_db]|] | apply ok_all_any]
    | |- ok_all _ (let _ := _ in _) => cbn zeta
    | |- ok_all _ (Err _) => exact I
    | |- ok_all (Forall _) (Ok _) => cbn [ok_all]
    | |- ok_all _ _ => solve [eauto with pending_db]
    | |- ok_all _ _ => progress case_match
    | |- Forall _ (_ ++ _) => apply Forall_app; split
    | |- Forall _ (match _ with _ => _ end) => case_match
    | |- Forall _ _ => solve [repeat constructor; eauto with pending_db]
    | |- emits _ (mret _) => apply emits_ret
    | |- emits _ (mfail _) => apply emits_fail
    | |- emits _ (query _) => apply emits_query
    | |- emits _ (mbind _ _) => first [eapply emits_bind; [solve [eauto with pending_db]|] | apply emits_any]
    | |- emits _ (let _ := _ in _) => cbn zeta
    | |- emits _ (if decide _ then _ else _) => case_decide
    | |- emits _ _ => solve [eauto with pending_db]
    | |- emits _ _ => progress case_match
    end.

Section Handlers.
Context `{CR : Crates, XL : !XorLaws, CL : !ChainLaws, KG : !KeyGenOps, KP : !KeyGenProgress,
  PMO : !PrefixMapOps OtherSection, PML : !PrefixMapLaws OtherSection, MO : !MessagingOps,
  VA : VecDequeAlloc, VL : !VecDequeAllocLaws, CE : !CoreEnv, EL : !CoreEnvLaws, WO : !WireOps, WM : !WireMsgOps, BE : !BootstrapEnv}.
Context `{SerView : !Serialize (DstLocation * Variant), SerNodeState : !Serialize NodeState,
  SerSap : !Serialize SectionAuthorityProvider, SerKey : !Serialize BlsPublicKey,
  SerJoins : !Serialize (MessageId * bool), SerNonce : !Serialize (XorName * Bytes),
  SerAddr : !Serialize SocketAddr}.

Lemma challenge_ordinary c p : ok_all ordinary (send_resource_proof_challenge c p).
Proof. unfold send_resource_proof_challenge. ordinary_steps. Qed.
Lemma join_with_age_ordinary c p j a : ok_all (Forall ordinary) (join_with_age c p j a).
Proof. unfold join_with_age. pose proof (challenge_ordinary c p). ordinary_steps. Qed.
Lemma join_request_ordinary c p j : ok_all (Forall ordinary) (handle_join_request c p j).
Proof. unfold handle_join_request. pose proof (join_with_age_ordinary c p j). ordinary_steps. Qed.
Lemma relocated_request_ordinary c p k l : ok_all (Forall ordinary) (handle_join_as_relocated_request c p k l).
Proof. unfold handle_join_as_relocated_request. ordinary_steps. Qed.
Lemma failure_agreement_ordinary c n f : ok_all (Forall ordinary) (handle_dkg_failure_agreement c n f).
Proof. unfold handle_dkg_failure_agreement, cast_offline_proposals, send_dkg_start_to. ordinary_steps. Qed.
Lemma peer_lost_ordinary c a : ok_all (Forall ordinary) (handle_peer_lost c a).
Proof. unfold handle_peer_lost, propose_offline, cast_offline_proposals. ordinary_steps. Qed.
Lemma online_commands_ordinary c i : ok_all (Forall ordinary) (online_commands c i).
Proof. unfold online_commands. ordinary_steps. Qed.
Lemma offline_commands_ordinary c p s : ok_all (Forall ordinary) (offline_commands c p s).
Proof. unfold offline_commands. ordinary_steps. Qed.
Lemma section_info_commands_ordinary c a infos : ok_all (Forall ordinary) (section_info_commands c a infos).
Proof.
  unfold section_info_commands. cbn zeta. apply (ok_all_bind (Forall ordinary)); ordinary_steps.
Qed.
Lemma check_lagging_ordinary c p s : ok_all (fun o => Forall ordinary (option_list o)) (check_lagging c p s).
Proof. unfold check_lagging. case_match; [|by constructor]. eapply ok_all_bind; [apply direct_ordinary|]. by repeat constructor. Qed.
Lemma redirect_ordinary c s m : ok_all (Forall ordinary) (redirect_join c s m).
Proof. unfold redirect_join. ordinary_steps. Qed.
Lemma relay_ordinary now m : emits (fun o => Forall ordinary (option_list o)) (relay_message now m).
Proof. unfold relay_message. ordinary_steps. Qed.
Lemma relay_all_ordinary now ms : emits (Forall ordinary) (relay_all now ms).
Proof.
  induction ms as [|m ms IH]; cbn [relay_all]; [by apply emits_ret|].
  eapply emits_bind; [apply relay_ordinary|]. intros o Ho. eapply emits_bind; [apply IH|]. intros cs Hcs.
  apply emits_ret. by apply Forall_app.
Qed.
Lemma entropy_ordinary now m d : emits (fun r => Forall ordinary r.1) (check_for_entropy now m d).
Proof.
  unfold check_for_entropy. apply emits_any. intros c. case_match; [by apply emits_ret|].
  apply emits_any. intros [send b]. eapply emits_bind; [apply relay_all_ordinary|]. intros cs Hcs. by apply emits_ret.
Qed.
Lemma return_promise_ordinary c : Forall ordinary (option_list (return_relocate_promise c)).
Proof. unfold return_relocate_promise. repeat case_match; repeat constructor. Qed.
Lemma update_state_ordinary old : emits (Forall ordinary) (update_state old).
Proof.
  unfold update_state. do 2 (apply emits_any; intro). apply (emits_bind (Forall ordinary)).
  - case_decide; [|by apply emits_ret]. apply emits_any. intros _. apply (emits_bind (Forall ordinary)).
    + case_match; [|by apply emits_ret]. apply emits_any. intros c. apply (emits_bind (Forall ordinary)); ordinary_steps.
    + intros ec Hec. apply (emits_bind (Forall ordinary)); [ordinary_steps|]. intros sy Hsy. apply emits_any. intros _.
      apply emits_ret. by apply Forall_app.
  - intros cs Hcs. apply emits_any. intros c. apply emits_ret. apply Forall_app. split; [done|].
    case_match; [constructor|apply return_promise_ordinary].
Qed.
Lemma dkg_step_ordinary f : emits (Forall ordinary) (dkg_step f).
Proof.
  apply emits_any. intros cs. apply emits_query. intros c. apply ok_all_try_map. intros [];
    cbn [dkg_into_command]; try done; by apply ok_all_any.
Qed.
End Handlers.

#[export] Hint Resolve join_request_ordinary relocated_request_ordinary failure_agreement_ordinary
  peer_lost_ordinary online_commands_ordinary offline_commands_ordinary section_info_commands_ordinary
  check_lagging_ordinary redirect_ordinary relay_ordinary entropy_ordinary update_state_ordinary
  dkg_step_ordinary : pending_db.

(** ** Relocations and their events *)

Section Relocations.
Context `{CR : Crates, XL : !XorLaws, CL : !ChainLaws, KG : !KeyGenOps, KP : !KeyGenProgress,
  PMO : !PrefixMapOps OtherSection, PML : !PrefixMapLaws OtherSection, MO : !MessagingOps,
  VA : VecDequeAlloc, VL : !VecDequeAllocLaws, CE : !CoreEnv, EL : !CoreEnvLaws, WO : !WireOps, WM : !WireMsgOps, BE : !BootstrapEnv}.
Context `{SerView : !Serialize (DstLocation * Variant), SerNodeState : !Serialize NodeState,
  SerSap : !Serialize SectionAuthorityProvider, SerKey : !Serialize BlsPublicKey,
  SerJoins : !Serialize (MessageId * bool), SerNonce : !Serialize (XorName * Bytes),
  SerAddr : !Serialize SocketAddr}.

(** What the events say of a relocation, read from a state in which one is under way or not: a
    relocation starts only when none is under way and ends only when one is. *)
Fixpoint relocating_after (under_way : bool) (es : list Event) : option bool :=
  match es with
  | [] => Some under_way
  | EvRelocationStarted _ :: es' => if under_way then None else relocating_after true es'
  | EvRelocated _ _ :: es' => if under_way then relocating_after false es' else None
  | _ :: es' => relocating_after under_way es'
  end.

Lemma relocating_after_app b es es' :
  relocating_after b (es ++ es') = (relocating_after b es ≫= fun b' => relocating_after b' es').
Proof.
  revert b; induction es as [|e es IH]; intros b; [done|]. destruct e; simpl; try apply IH; destruct b; auto.
Qed.

Definition is_relocating (c : Core) : bool := match c_relocate_state c with Some _ => true | None => false end.
Definition in_progress (c : Core) : nat :=
  match c_relocate_state c with Some (RsInProgress _) => 1 | _ => 0 end.
Definition is_relocation (cmd : Command) : bool := match cmd with CRelocate _ _ => true | _ => false end.
Definition relocations (cmds : list Command) : nat := length (List.filter is_relocation cmds).

(** an agreement that the aggregation of signature shares over the bytes of its proposal completed *)
Definition aggregated (cmd : Command) : Prop :=
  match cmd with
  | CHandleAgreement proposal signed =>
      exists bytes agg agg' share, proposal_bytes proposal = Some bytes /\
        aggregator_add agg bytes share = (agg', Ok signed)
  | _ => True
  end.

Lemma relocations_app l l' : relocations (l ++ l') = relocations l + relocations l'.
Proof. unfold relocations. by rewrite List.filter_app, length_app. Qed.
Lemma relocations_cons x l : relocations (x :: l) = (if is_relocation x then 1 else 0) + relocations l.
Proof. unfold relocations. simpl. by destruct (is_relocation x). Qed.
Lemma ordinary_relocations cs : Forall ordinary cs -> relocations cs = 0.
Proof. induction 1 as [|cmd cs H _ IH]; [done|]. by destruct cmd. Qed.
Lemma ordinary_aggregated cs : Forall ordinary cs -> Forall aggregated cs.
Proof. intros H. eapply Forall_impl; [exact H|]. by intros []. Qed.

(** ** Handlers that leave the relocation alone *)

Record calm (c d : Core) : Prop := {
  calm_state : is_relocating d = is_relocating c;
  calm_progress : in_progress d = in_progress c;
  calm_events : forall b, relocating_after b (c_events d) = relocating_after b (c_events c);
  calm_restart : EvRestartRequired ∈ c_events d -> EvRestartRequired ∈ c_events c;
}.

#[global] Instance calm_preorder : PreOrder calm.
Proof.
  split; [done|]. intros a b c [? ? E1 R1] [? ? E2 R2]. split; [congruence|congruence| |auto]. intros x. by rewrite E2.
Qed.

Definition unmarked (e : Event) : bool :=
  match e with EvRelocationStarted _ | EvRelocated _ _ | EvRestartRequired => false | _ => true end.
Lemma calm_push e c : unmarked e = true -> calm c (push_event e c).
Proof.
  intros He. split; [done|done| |].
  - intros b. simpl. rewrite relocating_after_app.
    destruct (relocating_after b (c_events c)) as [b'|]; [|done]. simpl. by destruct e.
  - simpl. intros [H|H%list_elem_of_singleton]%elem_of_app; [done|]. by subst e.
Qed.
Lemma calm_apply us c : calm c (foldl (fun c u => apply_elders u c) c us).
Proof.
  revert c; induction us as [|[a k] us IH]; intros c; simpl; [reflexivity|].
  etransitivity; [|apply IH]. unfold apply_elders. by case_match.
Qed.

Lemma calm_event e : unmarked e = true -> keeps calm (send_event e).
Proof. intros He. apply keeps_modify. intros c. by apply calm_push. Qed.
Lemma calm_relay now m : keeps calm (relay_message now m).
Proof. unfold relay_message. keeps_steps. apply keeps_step. intros c. by destruct (filter_targets _ _ _ _). Qed.
Lemma calm_relay_all now ms : keeps calm (relay_all now ms).
Proof.
  induction ms as [|m ms IH]; cbn [relay_all]; [apply (keeps_ret _)|]. keeps_steps; [apply calm_relay|apply IH].
Qed.
Lemma calm_entropy now m d : keeps calm (check_for_entropy now m d).
Proof. unfold check_for_entropy. keeps_steps. apply calm_relay_all. Qed.
Lemma calm_update_state old : keeps calm (update_state old).
Proof.
  unfold update_state. keeps_steps; apply keeps_modify; intros d; try done.
  etransitivity; [|by apply calm_push; case_match]. by destruct (status_change _ _).
Qed.
Lemma calm_dkg_step f : keeps calm (dkg_step f).
Proof. unfold dkg_step. keeps_steps. apply keeps_step. intros c. by destruct (f _). Qed.
Lemma calm_update_member i :
  keeps calm (step (fun c => let '(s, b) := update_member (c_section c) i in (set_section s c, b))).
Proof. apply keeps_step. intros c. by destruct (update_member _ _). Qed.
Lemma calm_accept_online ns prev sg : keeps calm (accept_online ns prev sg).
Proof. unfold accept_online. keeps_steps; [apply calm_update_member|by apply calm_event]. Qed.
Lemma calm_agreement p sg : keeps calm (handle_agreement p sg).
Proof.
  destruct p; cbn [handle_agreement].
  - unfold handle_online_agreement. keeps_steps; apply calm_accept_online.
  - unfold handle_offline_agreement. keeps_steps; [apply calm_update_member|by apply calm_event].
  - unfold handle_section_info_agreement. keeps_steps. by apply keeps_modify.
  - unfold handle_our_elders_agreement. keeps_steps; [| |apply calm_update_state].
    + apply keeps_step. intros c. by destruct (split_barrier_process _ _ _ _).
    + apply keeps_modify. intros c. apply calm_apply.
  - keeps_steps.
  - keeps_steps. by apply keeps_modify.
Qed.
Lemma calm_sync s n : keeps calm (handle_sync s n).
Proof.
  unfold handle_sync, adults_change. keeps_steps; try apply calm_update_state; try by apply calm_event.
  - apply keeps_mkM. intros c. by destruct (section_merge _ _).
  - by apply keeps_modify.
Qed.

(** ** All handlers *)

Definition reported (c : Core) : Prop :=
  relocating_after false (c_events c) = Some (is_relocating c) /\ EvRestartRequired ∉ c_events c.

(** what a handler may do: the events stay in step with the state, a relocation is returned
    only when it was just set in progress, and agreements only when they were aggregated *)
Definition tame (m : M (list Command)) : Prop :=
  forall c, let '(c', r) := run m c in
  (reported c -> reported c') /\ in_progress c <= in_progress c' /\
  match r with
  | Ok cmds => relocations cmds + in_progress c <= in_progress c' /\ Forall aggregated cmds
  | Err _ => True
  end.

Definition no_relocation (cmds : list Command) : Prop := relocations cmds = 0 /\ Forall aggregated cmds.
Lemma ordinary_no_relocation cs : Forall ordinary cs -> no_relocation cs.
Proof. split; [by apply ordinary_relocations|by apply ordinary_aggregated]. Qed.

Lemma calm_reported c d : calm c d -> (reported c -> reported d) /\ in_progress d = in_progress c.
Proof. intros [E1 E2 E3 E4]. split; [|done]. unfold reported. rewrite E1, E3. tauto. Qed.

Lemma tame_calm m : keeps calm m -> emits no_relocation m -> tame m.
Proof.
  intros Hk He c. specialize (Hk c). specialize (He c). unfold keeps_at in Hk.
  destruct (run m c) as [c' r]. simpl in *. destruct (calm_reported _ _ Hk) as [Hr ->].
  split; [done|]. split; [done|]. destruct r; [|done]. destruct He as [-> ?]. by split.
Qed.
Lemma tame_ordinary m : keeps calm m -> emits (Forall ordinary) m -> tame m.
Proof.
  intros Hk He. apply tame_calm; [done|]. intros c. specialize (He c).
  destruct (run m c).2; [|done]. by apply ordinary_no_relocation.
Qed.
Lemma tame_bind {A : Type} (P : A -> Prop) (m : M A) k :
  keeps calm m -> emits P m -> (forall a, P a -> tame (k a)) -> tame (m ≫= k).
Proof.
  intros Hk He Ht c. specialize (Hk c). specialize (He c). unfold keeps_at in Hk. unfold mbind, M_bind; cbn [run].
  destruct (run m c) as [c1 [a|e]]; simpl in *; destruct (calm_reported _ _ Hk) as [Hr Hp].
  - specialize (Ht a He c1). destruct (run (k a) c1) as [c2 r]. rewrite Hp in Ht. naive_solver.
  - by rewrite Hp.
Qed.
Lemma tame_any {A : Type} (m : M A) k : keeps calm m -> (forall a, tame (k a)) -> tame (m ≫= k).
Proof. intros Hk Ht. apply (tame_bind (fun _ => True)); [done| |auto]. intros c. by destruct (run m c).2. Qed.
Lemma tame_prepend m pre : Forall ordinary pre -> tame m -> tame (cs ← m; mret (pre ++ cs)).
Proof.
  intros Hp Ht c. specialize (Ht c). unfold mbind, M_bind; cbn [run]. destruct (run m c) as [c1 [cs|e]]; [|done].
  simpl. destruct Ht as (? & ? & ? & ?). rewrite relocations_app, (ordinary_relocations pre) by done.
  split; [done|]. split; [done|]. split; [done|]. apply Forall_app. split; [by apply ordinary_aggregated|done].
Qed.

(** the relocation itself: the command comes with the state in progress, the first notice with the event *)
Lemma started_reported c st :
  reported c -> is_relocating c = false -> is_relocating st = true ->
  c_events st = c_events c ++ [EvRelocationStarted (our_name c)] -> reported st.
Proof.
  intros [H1 H2] Hc Hs He. unfold reported. rewrite He, Hs, relocating_after_app, H1, Hc. split; [done|].
  intros [H|H%list_elem_of_singleton]%elem_of_app; done.
Qed.
Lemma state_reported c r : is_relocating c = true -> reported c -> reported (set_relocate_state (Some r) c).
Proof. unfold reported. by intros ->. Qed.

Lemma tame_relocate d : tame (o ← handle_relocate d; mret (option_list o)).
Proof.
  intros c. unfold handle_relocate, start_relocation, mbind, M_bind, query, get, modify, send_event; cbn [run].
  destruct (signed_relocate_details d) as [dt|e]; [|done]. case_decide; [by split_and!|].
  destruct (c_relocate_state c) as [[|]|] eqn:Er; cbn [run mret M_ret option_list].
  - split; [apply state_reported; unfold is_relocating; by rewrite Er|]. unfold in_progress. rewrite Er. simpl.
    split; [lia|]. split; [cbn; lia|by repeat constructor].
  - split; [done|]. split; [done|]. by split.
  - unfold modify; cbn [run]. split.
    + intros Hr. apply (started_reported c); try done. unfold is_relocating. by rewrite Er.
    + unfold in_progress. rewrite Er. simpl. split; [lia|]. split; [cbn; lia|by repeat constructor].
Qed.
Lemma tame_promise p m : tame (handle_relocate_promise p m).
Proof.
  intros c. unfold handle_relocate_promise, mbind, M_bind, query, get, modify, send_event; cbn [run].
  assert (forall d (b : bool), no_relocation (if b then [send_message_to_our_elders d m] else [])) as Hs.
  { intros d b. apply ordinary_no_relocation. destruct b; repeat constructor. }
  case_decide.
  - destruct (c_relocate_state c) as [st|] eqn:Er; cbn [run mret M_ret].
    + match goal with |- context [if ?b then [?x] else []] => destruct (Hs c b) as [E ?] end. by rewrite E.
    + unfold modify; cbn [run]. match goal with |- context [if ?b then [?x] else []] => destruct (Hs (push_event
        (EvRelocationStarted (our_name c)) (set_relocate_state (Some (RsDelayed m)) c)) b) as [E Hg] end. rewrite E. split.
      * intros Hr. apply (started_reported c); try done. unfold is_relocating. by rewrite Er.
      * unfold in_progress. cbn [c_relocate_state push_event set_relocate_state]. by rewrite Er.
  - destruct (section_is_elder _ _); [by split_and!|]. destruct (peers_get _ _); [|by split_and!]. cbn [run].
    pose proof (accumulation_ordinary c) as Hacc. unfold send_relocate.
    match goal with |- context [send_message_for_dst_accumulation c ?a ?b ?v ?l] => specialize (Hacc a b v l);
      destruct (send_message_for_dst_accumulation c a b v l) end; [|done].
    destruct (ordinary_no_relocation _ Hacc) as [-> ?]. split; [done|]. by repeat split.
Qed.
Lemma tame_propose sender n p share : tame (handle_propose sender n p share).
Proof.
  apply tame_calm.
  - apply keeps_mkM. intros c. unfold handle_proposal; cbn [run]. by destruct (proposal_aggregator_add _ _ _).
  - apply emits_mkM. intros c. unfold handle_proposal; cbn [run].
    destruct (proposal_aggregator_add _ _ _) as [agg r] eqn:Ea. cbn [snd].
    apply (ok_all_bind (Forall ordinary)).
    { case_match; [|by constructor]. eapply ok_all_bind; [apply check_lagging_ordinary|done]. }
    intros lag Hlag. apply (ok_all_bind no_relocation).
    { unfold proposal_aggregator_add in Ea. destruct (proposal_bytes p) as [bytes|] eqn:Eb; [|by simplify_eq].
      destruct (aggregator_add (c_proposal_aggregator c) bytes share) as [agg' [signed|e]] eqn:Eg; simplify_eq/=.
      - split; [done|]. constructor; [|done]. by exists bytes, (c_proposal_aggregator c), agg, share.
      - by case_decide. }
    intros cs [Hc Ha]. split; [by rewrite relocations_app, Hc, ordinary_relocations|].
    apply Forall_app. split; [by apply ordinary_aggregated|done].
Qed.

Lemma sync_ordinary sec n : emits (Forall ordinary) (handle_sync sec n).
Proof. unfold handle_sync. ordinary_steps. Qed.
Lemma user_message_ordinary m b : emits (Forall ordinary) (handle_user_message m b).
Proof. unfold handle_user_message. ordinary_steps. Qed.
Lemma accumulate_ordinary m ch sg d : ok_all ordinary (handle_accumulate_at_src_agreement m ch sg d).
Proof. by apply ok_all_any. Qed.
Lemma agreement_ordinary p sg : emits (Forall ordinary) (handle_agreement p sg).
Proof.
  pose proof accumulate_ordinary. unfold handle_agreement, handle_online_agreement, accept_online, handle_offline_agreement,
    handle_section_info_agreement, handle_our_elders_agreement, relocate_rejoining_peer, send_relocate. ordinary_steps.
Qed.
Lemma calm_forward m sender : keeps calm (forward_to_relocation m sender).
Proof.
  apply keeps_modify. intros c. destruct (c_relocate_state c) as [[|l]|] eqn:Er; try reflexivity.
  destruct sender; [|reflexivity]. split; [| |done|done]; unfold is_relocating, in_progress; by rewrite Er.
Qed.

Lemma bounced_ordinary c p k m : ok_all ordinary (handle_bounced_untrusted_message c p k m).
Proof. by apply ok_all_any. Qed.
Lemma knowledge_query_ordinary c k m s n d : ok_all ordinary (handle_section_knowledge_query c k m s n d).
Proof. unfold handle_section_knowledge_query. do 2 (apply ok_all_any; intros). done. Qed.
Lemma untrusted_ordinary c s m d : ok_all ordinary (handle_untrusted_message c s m d).
Proof. apply ok_all_any. intros. by destruct s. Qed.

Lemma calm_user_message m b : keeps calm (handle_user_message m b).
Proof. unfold handle_user_message. keeps_steps; by apply calm_event. Qed.
Lemma calm_dkg_start k ec : keeps calm (handle_dkg_start k ec).
Proof. apply (keeps_bind _); [apply (keeps_get _)|intros; apply calm_dkg_step]. Qed.
Lemma calm_dkg_message k m : keeps calm (handle_dkg_message k m).
Proof. apply (keeps_bind _); [apply (keeps_get _)|intros; apply calm_dkg_step]. Qed.
Lemma calm_timeout t : keeps calm (handle_timeout t).
Proof. apply (keeps_bind _); [apply (keeps_get _)|intros; apply calm_dkg_step]. Qed.

Lemma tame_dispatch sender m d : tame (dispatch_variant sender m d).
Proof.
  pose proof bounced_ordinary. pose proof knowledge_query_ordinary.
  unfold dispatch_variant. destruct (rm_variant m) eqn:E.
  all: try apply tame_propose; try apply tame_promise.
  all: try (case_match; [apply tame_any; [apply (keeps_query _)|intros; apply tame_relocate]|]).
  all: apply tame_ordinary; [keeps_steps|try (unfold handle_dkg_start, handle_dkg_message, handle_dkg_failure_observation;
    eauto using sync_ordinary, user_message_ordinary; ordinary_steps)].
  all: first [by apply keeps_modify | apply calm_sync | apply calm_user_message
    | apply calm_dkg_start | apply calm_dkg_message | apply calm_dkg_step | apply calm_forward].
Qed.

Lemma tame_useful sender m d : tame (handle_useful_message sender m d).
Proof.
  apply tame_any.
  - unfold aggregate_message. keeps_steps. apply keeps_step. intros c. by destruct (aggregator_add _ _ _).
  - intros [m'|]; [apply tame_dispatch|]. apply tame_ordinary; [apply (keeps_ret _)|by apply emits_ret].
Qed.

Lemma tame_message now sender m d : tame (handle_message now sender m d).
Proof.
  pose proof untrusted_ordinary. unfold handle_message. apply tame_any; [apply (keeps_get _)|]. intros c. case_match.
  { apply tame_ordinary; [|ordinary_steps; eauto with pending_db]. keeps_steps. apply calm_relay. }
  apply tame_any; [apply (keeps_query _)|]. intros [].
  - eapply tame_bind; [apply calm_entropy|apply entropy_ordinary|]. intros [ec []] Hec; simpl in Hec.
    + apply tame_prepend; [done|apply tame_useful].
    + apply tame_ordinary; [keeps_steps|ordinary_steps]. done.
  - apply tame_ordinary; [keeps_steps|ordinary_steps].
  - apply tame_ordinary; [keeps_steps|ordinary_steps].
Qed.

(** every command but the relocation itself *)
Lemma calm_push_events es c :
  Forall (fun e => unmarked e = true) es -> calm c (foldl (fun c e => push_event e c) c es).
Proof.
  intros H. revert c. induction H as [|e es He _ IH]; intros c; simpl; [reflexivity|].
  etransitivity; [by apply calm_push|apply IH].
Qed.
Lemma lost_clients_unmarked o i rs m : Forall (fun e => unmarked e = true) (lost_clients o i rs m).
Proof. revert i; induction rs as [|r rs IH]; intros i; simpl; [constructor|]. case_match; [apply IH|by constructor]. Qed.

Lemma tame_send o rs n m : tame (dispatcher_send_message o rs n m).
Proof.
  assert (forall l, Forall ordinary (CHandlePeerLost <$> l)) as Hl.
  { intros l. induction l; by repeat constructor. }
  destruct m; cbn [dispatcher_send_message]; apply tame_ordinary; keeps_steps; ordinary_steps; auto.
  apply keeps_modify. intros c. apply calm_push_events, lost_clients_unmarked.
Qed.
Lemma tame_user_send now i b : tame (send_user_message now i b).
Proof.
  apply tame_ordinary.
  - unfold send_user_message. keeps_steps; apply calm_relay.
  - unfold send_user_message. ordinary_steps; done.
Qed.

Lemma tame_command o cmd : is_relocation cmd = false -> tame (try_handle_command o cmd).
Proof.
  destruct cmd; intros H; try discriminate H; cbn [try_handle_command].
  - destruct (reachability_reply _ _ _) as [[[n a] v]|]; [|apply tame_message].
    apply tame_ordinary; [keeps_steps|ordinary_steps].
  - apply tame_ordinary; [keeps_steps|]. apply emits_query. intros c. unfold handle_section_info_msg.
    destruct message; simpl; repeat constructor.
  - apply tame_ordinary; [apply calm_timeout|unfold handle_timeout; ordinary_steps].
  - apply tame_ordinary; [keeps_steps|unfold handle_connection_lost; ordinary_steps].
  - apply tame_ordinary; [keeps_steps|ordinary_steps].
  - apply tame_ordinary; [apply calm_agreement|apply agreement_ordinary].
  - apply tame_ordinary; [by apply keeps_mkM|]. apply emits_mkM. intros c. apply proposal_with_ordinary.
  - apply tame_ordinary; [keeps_steps|]. unfold handle_dkg_failure. apply emits_query. intros c.
    eapply (ok_all_bind ordinary); [by apply ok_all_any|]. by repeat constructor.
  - apply tame_send.
  - apply tame_user_send.
  - apply tame_ordinary; [keeps_steps|]. unfold handle_schedule_timeout. ordinary_steps. case_match; repeat constructor.
  - apply tame_ordinary; [keeps_steps|unfold set_joins_allowed; ordinary_steps].
  - apply tame_ordinary; [keeps_steps|unfold make_online_proposal; ordinary_steps].
  - apply tame_ordinary; [keeps_steps|unfold propose_offline, cast_offline_proposals; ordinary_steps].
  - apply tame_ordinary; [keeps_steps|unfold start_connectivity_test; ordinary_steps; eauto with pending_db].
  - apply tame_ordinary; [keeps_steps|unfold test_connectivity; ordinary_steps].
Qed.

(** ** Every reachable state *)

Record settled (n : NodeState_) : Prop := {
  st_reported : reported n.1;
  st_relocations : relocations n.2 <= in_progress n.1;
  st_aggregated : Forall aggregated n.2;
}.

Lemma settled_ordinary c c' pending cmds :
  calm c c' -> Forall ordinary cmds -> settled (c, pending) -> settled (c', pending ++ cmds).
Proof.
  intros [Hr Hp]%calm_reported Ho [H1 H2 H3]. split; cbn [fst snd] in *; [auto| |].
  - rewrite relocations_app, (ordinary_relocations cmds), Hp by done. lia.
  - apply Forall_app. split; [done|by apply ordinary_aggregated].
Qed.

Lemma connection_settled e c c' cmds :
  connection_event e c = (c', Some cmds) -> calm c c' /\ Forall ordinary cmds.
Proof.
  destruct e as [now sender bytes|addr]; cbn [connection_event]; [|by intros [= <- <-]; split; repeat constructor].
  assert (keeps calm (routing_handle_message now bytes sender)) as Hk.
  { unfold routing_handle_message, handle_message_type, client_user, core_add_to_filter, core_try_add. keeps_steps;
      first [by apply calm_event | apply keeps_step; intros d; by destruct (add_to_filter _ _ _)
            | apply keeps_mkM; intros d; by destruct (end_users_try_add _ _ _)]. }
  assert (emits (fun r => forall cs, r = Some cs -> Forall ordinary cs) (routing_handle_message now bytes sender)) as He.
  { unfold routing_handle_message, handle_message_type. ordinary_steps; naive_solver (repeat constructor). }
  specialize (Hk c). specialize (He c). unfold keeps_at in Hk. destruct (run _ c) as [d [r|e']]; cbn in Hk, He.
  - intros [= <- ->]. auto.
  - intros [= <- <-]. by split.
Qed.

Lemma push_events_relocation es c :
  c_relocate_state (foldl (fun c e => push_event e c) c es) = c_relocate_state c.
Proof. revert c; induction es as [|e es IH]; intros c; simpl; [done|]. by rewrite IH. Qed.

Lemma settled_relocate o c c' r before after addrs details :
  settled (c, before ++ CRelocate addrs details :: after) ->
  run (try_handle_command o (CRelocate addrs details)) c = (c', r) ->
  settled (c', before ++ after ++ match r with Ok cmds => cmds | Err _ => [] end).
Proof.
  intros [H1 H2 H3]. cbn [fst snd] in *. rewrite relocations_app, relocations_cons in H2. cbn [is_relocation] in H2.
  apply Forall_app in H3 as [Hb Ha]. inversion Ha as [|? ? _ Ha']; subst.
  assert (in_progress c <= 1) by (unfold in_progress; repeat case_match; lia).
  assert (Forall aggregated (before ++ after)) as Hba by (by apply Forall_app).
  cbn [try_handle_command]. unfold dispatcher_handle_relocate, mbind, M_bind, query; cbn [run get].
  destruct (o_relocated o) as [[node section]|e]; cbn [run modify send_event]; intros [= <- <-];
    cbn match; rewrite app_nil_r.
  - assert (is_relocating c = true) as Hr.
    { unfold is_relocating. unfold in_progress in *. destruct (c_relocate_state c); [done|lia]. }
    destruct H1 as [H1 Hn]. rewrite Hr in H1.
    split; cbn [fst snd]; [|rewrite relocations_app; unfold in_progress in *; repeat case_match; lia|done].
    unfold reported, is_relocating, relocated_core. cbn [push_event c_events c_relocate_state]. rewrite push_events_events.
    rewrite push_events_relocation. split; [|set_solver]. change (c_events (core_new _ _ _ _)) with (@nil Event). rewrite app_nil_l. by rewrite relocating_after_app, H1.
  - split; cbn [fst snd]; [done|rewrite relocations_app; lia|done].
Qed.

Lemma reachable_settled n : node_reachable n -> settled n.
Proof.
  induction 1 as [node tokens c _ Hc|node addr key draws picks events closed node' section backlog tokens _|n n' _ IH Hs].
  - revert Hc. unfold routing_first, core_first_node. destruct (first_node _ _ _) as [[s k]|]; simpl; [|done].
    intros [= <-]. split; [|done|done]. split; [done|]. cbn. by intros H%list_elem_of_singleton.
  - split; cbn [fst snd]; [split; [done|apply not_elem_of_nil]| |]; rewrite ?ordinary_relocations; try lia; try apply ordinary_aggregated;
      apply Forall_fmap, Forall_forall; by intros [[]] _.
  - destruct Hs as [o c before cmd after c' cmds _ Hr|o c before cmd after c' e _ Hr|e c pending c' cmds He
      |c pending it content key cmd Hc|c pending cmd Hc].
    + destruct (is_relocation cmd) eqn:Er; [destruct cmd; try done; by apply (settled_relocate _ _ _ _ _ _ _ _ IH Hr)|].
      pose proof (tame_command o cmd Er c) as Ht. rewrite Hr in Ht. destruct Ht as (T1 & T2 & T3 & T4), IH as [H1 H2 H3].
      cbn [fst snd] in *. rewrite relocations_app, relocations_cons, Er in H2.
      apply Forall_app in H3 as [Hb Ha]. inversion Ha; subst.
      split; cbn [fst snd]; [auto|rewrite !relocations_app; lia|]. by rewrite !Forall_app.
    + destruct (is_relocation cmd) eqn:Er.
      { destruct cmd; try done. rewrite <- (app_nil_r after). by apply (settled_relocate _ _ _ _ _ _ _ _ IH Hr). }
      pose proof (tame_command o cmd Er c) as Ht. rewrite Hr in Ht. destruct Ht as (T1 & T2 & _), IH as [H1 H2 H3].
      cbn [fst snd] in *. rewrite relocations_app, relocations_cons, Er in H2.
      apply Forall_app in H3 as [Hb Ha]. inversion Ha; subst.
      split; cbn [fst snd]; [auto|rewrite relocations_app; lia|]. by rewrite Forall_app.
    + apply connection_settled in He as [Hk Ho]. by apply (settled_ordinary c).
    + apply (settled_ordinary c); [reflexivity| |done]. constructor; [|done]. revert Hc. unfold send_message.
      destruct (it_dst it); try (intros [= <-]; done). repeat (case_match; try (intros [= <-]; done)).
      destruct (client_msg_from content); simpl; [intros [= <-]; done|done].
    + apply (settled_ordinary c); [reflexivity| |done]. constructor; [|done].
      destruct Hc as [[b ->]|[[m Hm]|[m ->]]]; [done| |done]. revert Hm. unfold routing_propose_offline.
      case_match; [done|by intros [= <-]].
Qed.

(** C5: relocations are reported and carried out one at a time.  In every state a node can reach,
    the events so far tell of a start only when no relocation was under way and of an end only
    when one was, so that starts and ends alternate; they say that one is under way exactly when the
    node's state does; and a relocation waits to be carried out only while the state is in
    progress, never more than one, so that two never run against each other. *)
Theorem relocations_paired (c : Core) (pending : list Command) :
  node_reachable (c, pending) ->
  relocating_after false (c_events c) = Some (is_relocating c) /\
  relocations pending <= in_progress c /\ in_progress c <= 1.
Proof.
  intros [[H1 _] H2 _]%reachable_settled. split; [exact H1|]. split; [exact H2|].
  unfold in_progress. repeat case_match; lia.
Qed.

(** The event that is documented as telling the user to restart a node is never sent. *)
Theorem restart_never_required (c : Core) (pending : list Command) :
  node_reachable (c, pending) -> EvRestartRequired ∉ c_events c.
Proof. by intros [[_ H] _ _]%reachable_settled. Qed.

(** C3: nothing is agreed on without signatures.  Whatever messages a node in any reachable state
    was sent, with agreements forged or replayed in them, a command to carry out an agreement waits
    only if the signature aggregator completed a signature from shares over the bytes of that very
    proposal, and it carries that signature. *)
Theorem agreements_aggregated (c : Core) (pending : list Command) (proposal : Proposal) (signed : Signed) :
  node_reachable (c, pending) -> CHandleAgreement proposal signed ∈ pending ->
  exists bytes agg agg' share, proposal_bytes proposal = Some bytes /\
    aggregator_add agg bytes share = (agg', Ok signed).
Proof.
  intros [_ _ H]%reachable_settled Hin. rewrite Forall_forall in H. exact (H _ Hin).
Qed.
End Relocations.

(** ** The first node closes its section: the proposal, its share and the agreement *)

Module PendingWitness.
Import BitNames ToyCrates ToySerialize SectionKeysWitness NetworkWitness EndUsersWitness MessagesWitness CoreToy
  CommWitness BootstrapToy MessageFilterWitness NodeToy.

Definition run1 : Core * result (list Command) Error := run (try_handle_command quiet (CSetJoinsAllowed false)) core1.
Definition share_msg : Command :=
  match run1.2 with Ok [cmd] => cmd | _ => CHandleTimeout 0 end.
Definition run2 : Core * result (list Command) Error := run (try_handle_command quiet share_msg) run1.1.
Definition agreed : Command := match run2.2 with Ok [cmd] => cmd | _ => CHandleTimeout 0 end.
Definition agreed_proposal : Proposal :=
  match agreed with CHandleAgreement p _ => p | _ => PJoinsAllowed (id7, true) end.
Definition agreed_signed : Signed :=
  match agreed with CHandleAgreement _ s => s | _ => signed1 end.

Lemma agreement_reachable : node_reachable (run2.1, [CHandleAgreement agreed_proposal agreed_signed]).
Proof.
  assert (node_reachable (core1, [])) as H0.
  { apply (node_first node1 0); [exact DispatcherWitness.keys9|reflexivity]. }
  assert (node_reachable (core1, [CSetJoinsAllowed false])) as H1.
  { eapply node_next; [exact H0|]. apply (step_api core1 []). left. by exists false. }
  assert (node_reachable (run1.1, [share_msg])) as H2.
  { eapply node_next; [exact H1|]. apply (step_command quiet core1 [] (CSetJoinsAllowed false) []); [exact I|reflexivity]. }
  eapply node_next; [exact H2|]. apply (step_command quiet run1.1 [] share_msg []); [exact I|reflexivity].
Qed.

Lemma relocations_paired_witness :
  node_reachable (run2.1, [CHandleAgreement agreed_proposal agreed_signed]) /\
  relocating_after false (c_events run2.1) = Some false.
Proof.
  split; [exact agreement_reachable|].
  destruct (relocations_paired run2.1 [CHandleAgreement agreed_proposal agreed_signed] agreement_reachable) as [H _].
  exact H.
Defined.

Lemma agreements_aggregated_witness :
  agreed_proposal = PJoinsAllowed (match agreed_proposal with PJoinsAllowed (i, _) => i | _ => id7 end, false) /\
  exists bytes agg agg' share, proposal_bytes agreed_proposal = Some bytes /\
    aggregator_add agg bytes share = (agg', Ok agreed_signed).
Proof.
  split; [reflexivity|].
  apply (agreements_aggregated run2.1 [CHandleAgreement agreed_proposal agreed_signed] agreed_proposal agreed_signed
    agreement_reachable). by left.
Defined.
End PendingWitness.
