(* ===== verification/ChurnSchedule.v ===== *)
(** * The churn schedule of the stress test (examples/stress.rs)

    The schedule given on the command line, groups of three numbers, and the churn events that it
    stands for, with the checks of the options.  A panic is [None], an error a value of [result].

    What is the language's is modelled: the conversion of text to [usize], [Duration] as a number of
    nanoseconds with its overflow, the conversion of seconds to a [Duration].  The conversion of
    text to [f64] and the random numbers are arguments. *)

From stdpp Require Import base tactics list strings.
From Stdlib Require Import ZArith Lia SpecFloat Ascii.
From S2P Require Import Prelude Cache Float64.
#[local] Open Scope Z_scope.

(** ** Numbers *)

Definition f64_mul : f64 -> f64 -> f64 := SFmul PREC EMAX.
Definition f64_le : f64 -> f64 -> bool := SFleb.
Definition f64_lt : f64 -> f64 -> bool := SFltb.

(** the number of nanoseconds a [Duration] can hold, which is what [u64] seconds come to *)
Definition DURATION_NANOS : Z := 2 ^ 64 * NANOS_PER_SEC.

(** [Duration::from_secs_f64]; [None] when it panics *)
Definition duration_from_secs_f64 (secs : f64) : option Duration :=
  let nanos := f64_mul secs (f64_of_int NANOS_PER_SEC) in
  match nanos with
  | S754_nan | S754_infinity _ => None
  | S754_zero _ => Some 0
  | S754_finite s m e =>
      if f64_le (f64_of_int DURATION_NANOS) nanos then None
      else if s then None
      else Some (Z.shiftl (Zpos m) e)
  end.

(** [Duration + Duration] *)
Definition duration_add (a b : Duration) : option Duration :=
  if a + b <? DURATION_NANOS then Some (a + b) else None.

Definition digit (c : ascii) : option Z :=
  let n := Z.of_nat (nat_of_ascii c) - 48 in
  if (0 <=? n) && (n <=? 9) then Some n else None.

Fixpoint parse_digits (acc : Z) (s : string) : option Z :=
  match s with
  | EmptyString => Some acc
  | String c s' =>
      match digit c with
      | Some d => if acc * 10 + d <? USIZE_MODULUS then parse_digits (acc * 10 + d) s' else None
      | None => None
      end
  end.

(** [str::parse::<usize>] *)
Definition parse_usize (s : string) : option Z :=
  match s with
  | EmptyString => None
  | String "+"%char EmptyString => None
  | String "+"%char s' => parse_digits 0 s'
  | _ => parse_digits 0 s
  end.

(** ** Options *)

Inductive StressError : Type :=
| NoSchedule
| ProbeFrequencyNotPositive
| ParseFloatError
| ParseIntError.

(** the checks at the start of [main], up to the interval of the probes; [None] is the panic of
    [Duration::from_secs_f64] *)
Definition check_options (schedule : list string) (probe_frequency : f64) : option (result Duration StressError) :=
  match schedule with
  | [] => Some (Err NoSchedule)
  | _ =>
      if f64_le probe_frequency (S754_zero false) then Some (Err ProbeFrequencyNotPositive)
      else Ok <$> duration_from_secs_f64 (f64_div (f64_of_int 1) probe_frequency)
  end.

(** ** The schedule *)

Record ChurnPeriod : Type := mkChurnPeriod {
  cp_duration : Duration;
  cp_joins : Z;
  cp_drops : Z;
}.
Definition ChurnSchedule : Type := list ChurnPeriod.

(** [slice::chunks(3)] *)
Fixpoint chunks3 {A : Type} (l : list A) : list (list A) :=
  match l with
  | a :: b :: c :: l' => [a; b; c] :: chunks3 l'
  | [] => []
  | l => [l]
  end.

Section Parse.
Context (parse_f64 : string -> option f64).

(** [chunk.get(i).map(|n| n.parse()).unwrap_or(Ok(default))?] *)
Definition field {A : Type} (parse : string -> option A) (default : A) (e : StressError) (chunk : list string)
    (i : nat) : result A StressError :=
  match chunk !! i with
  | Some n => ok_or (parse n) e
  | None => Ok default
  end.

Definition parse_period (chunk : list string) : option (result ChurnPeriod StressError) :=
  match field parse_f64 (S754_zero false) ParseFloatError chunk 0 with
  | Err e => Some (Err e)
  | Ok duration =>
      duration ← duration_from_secs_f64 duration;
      Some (let? joins := field parse_usize 0 ParseIntError chunk 1 in
            let? drops := field parse_usize 0 ParseIntError chunk 2 in
            Ok (mkChurnPeriod duration joins drops))
  end.

(** the chunks are visited up to the first error *)
Fixpoint parse_periods (chunks : list (list string)) : option (result ChurnSchedule StressError) :=
  match chunks with
  | [] => Some (Ok [])
  | chunk :: chunks' =>
      r ← parse_period chunk;
      match r with
      | Err e => Some (Err e)
      | Ok period =>
          rs ← parse_periods chunks';
          Some (let? periods := rs in Ok (period :: periods))
      end
  end.

Definition parse (input : list string) : option (result ChurnSchedule StressError) :=
  parse_periods (chunks3 input).
End Parse.

(** ** The churn events *)

Inductive ChurnEvent : Type := ChurnJoin | ChurnDrop.

#[export] Instance ChurnEvent_eq_dec : EqDecision ChurnEvent.
Proof. solve_decision. Defined.

Section Events.
(** [rng.gen_range(start, end)], the n-th call *)
Context (gen_range : nat -> Duration -> Duration -> Duration).

(** [for _ in 0..count { queue.insert(event, ..) }] *)
Fixpoint insert_events (call : nat) (event : ChurnEvent) (count : nat) (start end_ : Duration) :
    list (ChurnEvent * Duration) :=
  match count with
  | O => []
  | S count' =>
      (event, if start <? end_ then gen_range call start end_ else start) ::
      insert_events (S call) event count' start end_
  end.

Definition period_events (call : nat) (period : ChurnPeriod) (start end_ : Duration) :
    list (ChurnEvent * Duration) :=
  insert_events call ChurnJoin (Z.to_nat (cp_joins period)) start end_ ++
  insert_events (call + Z.to_nat (cp_joins period)) ChurnDrop (Z.to_nat (cp_drops period)) start end_.

(** what is inserted in the queue; it yields each entry once, at its time *)
Fixpoint schedule_events (call : nat) (start : Duration) (schedule : ChurnSchedule) :
    option (list (ChurnEvent * Duration)) :=
  match schedule with
  | [] => Some []
  | period :: schedule' =>
      end_ ← duration_add start (cp_duration period);
      later ← schedule_events (call + Z.to_nat (cp_joins period) + Z.to_nat (cp_drops period)) end_ schedule';
      Some (period_events call period start end_ ++ later)
  end.
End Events.

(** ** Health *)

Definition percent (num den : Z) : f64 :=
  if 0 <? den then f64_div (f64_mul (f64_of_int 100) (f64_of_int num)) (f64_of_int den) else S754_zero false.

Inductive Color : Type := Green | Yellow | Red | Magenta | Blue.
(** all styles are bold *)
Record Theme : Type := mkTheme { th_label : Color; th_value : Color; th_error : Color }.
Definition theme_default : Theme := mkTheme Magenta Blue Red.

Definition theme_health (health : f64) : Color :=
  if f64_lt (f64_of_int 80) health then Green
  else if f64_lt (f64_of_int 50) health then Yellow
  else Red.

(** ** Lemmas *)

Lemma chunks3_lookup {A : Type} (l : list A) i :
  chunks3 l !! i = if (3 * i <? length l)%nat then Some (take 3 (drop (3 * i) l)) else None.
Proof.
  revert l; induction i as [|i IH]; intros l.
  - by destruct l as [|a [|b [|c l]]].
  - replace (3 * S i)%nat with (S (S (S (3 * i)))) by lia.
    destruct l as [|a [|b [|c l]]]; [done|done|done|].
    change (chunks3 (a :: b :: c :: l) !! S i) with (chunks3 l !! i). rewrite IH.
    by change (S (S (S (3 * i))) <? length (a :: b :: c :: l))%nat with (3 * i <? length l)%nat.
Qed.

Lemma length_chunks3 {A : Type} (l : list A) : length (chunks3 l) = ((length l + 2) / 3)%nat.
Proof.
  assert (forall n (l : list A), (length l <= n)%nat -> length (chunks3 l) = ((length l + 2) / 3)%nat) as H.
  { induction n as [|n IH]; intros [|a [|b [|c l']]] Hl; try done; simpl in Hl; try lia.
    cbn [chunks3 length]. rewrite IH by lia. replace (S (S (S (length l'))) + 2)%nat with (length l' + 2 + 1 * 3)%nat by lia.
    rewrite Nat.div_add by lia. lia. }
  by apply (H (length l)).
Qed.

Lemma parse_periods_ok f chunks ps :
  parse_periods f chunks = Some (Ok ps) -> Forall2 (fun chunk p => parse_period f chunk = Some (Ok p)) chunks ps.
Proof.
  revert ps; induction chunks as [|ch chunks IH]; intros ps; simpl; [intros [= <-]; constructor|].
  destruct (parse_period f ch) as [[p|e]|] eqn:Ep; simpl; try done.
  destruct (parse_periods f chunks) as [[ps'|e]|]; simpl; try done. intros [= <-]. constructor; auto.
Qed.

(** the value of a field, which is zero when it is missing *)
Definition given {A : Type} (parse : string -> option A) (default : A) (o : option string) (a : A) : Prop :=
  match o with Some n => parse n = Some a | None => a = default end.

Lemma field_ok {A : Type} (parse : string -> option A) d e chunk i a :
  field parse d e chunk i = Ok a -> given parse d (chunk !! i) a.
Proof. unfold field, given. destruct (chunk !! i); [destruct (parse s)|]; by intros [= ->]. Qed.

Lemma parse_period_ok f chunk p :
  parse_period f chunk = Some (Ok p) ->
  (exists secs, given f (S754_zero false) (chunk !! 0%nat) secs /\ duration_from_secs_f64 secs = Some (cp_duration p)) /\
  given parse_usize 0 (chunk !! 1%nat) (cp_joins p) /\ given parse_usize 0 (chunk !! 2%nat) (cp_drops p).
Proof.
  unfold parse_period. destruct (field f _ _ _ _) as [secs|] eqn:E0; [|done].
  destruct (duration_from_secs_f64 secs) as [dur|] eqn:Ed; simpl; [|done].
  destruct (field _ _ _ _ 1) as [joins|] eqn:E1; [|done]. destruct (field _ _ _ _ 2) as [drops|] eqn:E2; [|done].
  intros [= <-]. apply field_ok in E0, E1, E2. simpl. eauto.
Qed.

Section EventLemmas.
Context (gen_range : nat -> Duration -> Duration -> Duration).
Context (gen_range_within : forall i a b, a < b -> a <= gen_range i a b < b).

Definition within (start dur t : Duration) : Prop := start <= t /\ (t < start + dur \/ dur <= 0 /\ t = start).

Definition planned (p : ChurnPeriod) (start : Duration) (block : list (ChurnEvent * Duration)) : Prop :=
  block.*1 = replicate (Z.to_nat (cp_joins p)) ChurnJoin ++ replicate (Z.to_nat (cp_drops p)) ChurnDrop /\
  Forall (within start (cp_duration p)) block.*2.

Lemma insert_events_spec call e n start dur :
  let l := insert_events gen_range call e n start (start + dur) in
  l.*1 = replicate n e /\ Forall (within start dur) l.*2.
Proof.
  revert call; induction n as [|n IH]; intros call; cbn zeta; [by repeat constructor|].
  destruct (IH (S call)) as [E F]. cbn [insert_events]. rewrite !fmap_cons. cbn [fst snd replicate].
  split; [by rewrite E|]. constructor; [|done]. unfold within.
  destruct (Z.ltb_spec start (start + dur)) as [H|H]; [|lia].
  pose proof (gen_range_within call _ _ H). lia.
Qed.

Lemma period_events_planned call p start :
  planned p start (period_events gen_range call p start (start + cp_duration p)).
Proof.
  unfold planned, period_events. rewrite !fmap_app.
  destruct (insert_events_spec call ChurnJoin (Z.to_nat (cp_joins p)) start (cp_duration p)) as [-> F1].
  destruct (insert_events_spec (call + Z.to_nat (cp_joins p)) ChurnDrop (Z.to_nat (cp_drops p)) start (cp_duration p))
    as [-> F2].
  split; [done|]. by apply Forall_app.
Qed.

Definition total (durations : list Duration) : Duration := foldr Z.add 0 durations.

Lemma schedule_events_blocks call start schedule :
  Forall (fun p => 0 <= cp_duration p) schedule ->
  start + total (cp_duration <$> schedule) < DURATION_NANOS ->
  exists blocks, schedule_events gen_range call start schedule = Some (concat blocks) /\
    length blocks = length schedule /\
    forall i p block, schedule !! i = Some p -> blocks !! i = Some block ->
      planned p (start + total (cp_duration <$> take i schedule)) block.
Proof.
  intros Hp. revert call start. induction Hp as [|p schedule H0 Hp IH]; intros call start Ht; simpl.
  { exists []. split; [done|]. split; [done|]. intros i p block. by rewrite lookup_nil. }
  assert (0 <= total (cp_duration <$> schedule)) as Hn.
  { clear -Hp. unfold total. induction Hp; [done|]. rewrite fmap_cons. cbn [foldr]. lia. }
  unfold duration_add. rewrite fmap_cons in Ht. change (total (cp_duration p :: (cp_duration <$> schedule)))
    with (cp_duration p + total (cp_duration <$> schedule)) in Ht. destruct (Z.ltb_spec (start + cp_duration p) DURATION_NANOS); [|lia]. simpl.
  destruct (IH (call + Z.to_nat (cp_joins p) + Z.to_nat (cp_drops p))%nat (start + cp_duration p)) as (bs & -> & Hl & Hb);
    [lia|]. simpl.
  exists (period_events gen_range call p start (start + cp_duration p) :: bs). split; [done|]. split; [simpl; lia|].
  intros [|i] q block Hq Hblock; cbn in Hq, Hblock; cbn [take].
  - simplify_eq. change (total _) with 0. rewrite Z.add_0_r. apply period_events_planned.
  - change (total (cp_duration <$> p :: take i schedule)) with (cp_duration p + total (cp_duration <$> take i schedule)).
    rewrite Z.add_assoc. by apply (Hb i).
Qed.
End EventLemmas.

Lemma duration_from_secs_nonneg x d : duration_from_secs_f64 x = Some d -> 0 <= d.
Proof.
  unfold duration_from_secs_f64. destruct (f64_mul _ _) as [| | |s m e]; try done; [intros [= <-]; lia|].
  case_match; [done|]. destruct s; [done|]. intros [= <-]. apply Z.shiftl_nonneg. lia.
Qed.

(** ** Claims *)

(** The schedule is carried out as documented.  When the command line parses and the periods
    fit in a [Duration], there is one period for every three numbers; its length in seconds, its
    joins and its drops are the numbers given in their places, zero for the ones left out; and the
    queue is given, for each period, exactly its joins and drops, at times inside the period,
    which starts when the one before it ends. *)
Theorem churn_schedule_executed (parse_f64 : string -> option f64)
    (gen_range : nat -> Duration -> Duration -> Duration) (input : list string) (schedule : ChurnSchedule) :
  (forall i a b, a < b -> a <= gen_range i a b < b) ->
  parse parse_f64 input = Some (Ok schedule) ->
  total (cp_duration <$> schedule) < DURATION_NANOS ->
  length schedule = ((length input + 2) / 3)%nat /\
  (forall i p, schedule !! i = Some p ->
     (exists secs, given parse_f64 (S754_zero false) (input !! (3 * i)%nat) secs /\
        duration_from_secs_f64 secs = Some (cp_duration p)) /\
     given parse_usize 0 (input !! (3 * i + 1)%nat) (cp_joins p) /\
     given parse_usize 0 (input !! (3 * i + 2)%nat) (cp_drops p)) /\
  exists blocks, schedule_events gen_range 0 0 schedule = Some (concat blocks) /\
    length blocks = length schedule /\
    forall i p block, schedule !! i = Some p -> blocks !! i = Some block ->
      planned p (total (cp_duration <$> take i schedule)) block.
Proof.
  intros Hg Hp%parse_periods_ok Ht.
  assert (forall i p, schedule !! i = Some p ->
    parse_period parse_f64 (take 3 (drop (3 * i) input)) = Some (Ok p)) as Hi.
  { intros i p Hs. destruct (Forall2_lookup_r _ _ _ _ _ Hp Hs) as (ch & Hch & H). rewrite chunks3_lookup in Hch.
    destruct (3 * i <? length input)%nat; [|done]. by inversion Hch; subst ch. }
  split; [by rewrite <- (Forall2_length _ _ _ Hp), length_chunks3|]. split.
  - intros i p Hs. apply Hi, parse_period_ok in Hs.
    rewrite !lookup_take_lt, !lookup_drop, Nat.add_0_r in Hs by lia. exact Hs.
  - apply (schedule_events_blocks gen_range Hg 0 0); [|done]. apply Forall_lookup. intros i p Hs.
    destruct (parse_period_ok _ _ _ (Hi i p Hs)) as [(secs & _ & Hd) _]. by eapply duration_from_secs_nonneg.
Qed.

(** What is documented as an error in the options is in part a panic: a probe frequency that is not a
    number passes the check that it is positive, and a negative length of a period is not
    reported. *)
Theorem bad_numbers_panic (parse_f64 : string -> option f64) (s : string) (input : list string) :
  check_options (s :: input) S754_nan = None /\
  (parse_f64 s = Some (f64_of_int (-1)) -> parse parse_f64 [s] = None).
Proof. split; [done|]. intros H. unfold parse. simpl. unfold parse_period, field. simpl. rewrite H. reflexivity. Qed.

Module ChurnWitness.

(** whole seconds *)
Definition parse_seconds (s : string) : option f64 := f64_of_int <$> parse_usize s.
Definition at_start (n : nat) (a b : Duration) : Duration := a.
(** the example of the help text, with the last number left out *)
Definition arguments : list string := ["10"; "5"; "0"; "20"; "15"]%string.
Definition plan : ChurnSchedule := [mkChurnPeriod 10000000000 5 0; mkChurnPeriod 20000000000 15 0].

Lemma churn_schedule_executed_witness :
  parse parse_seconds arguments = Some (Ok plan) /\
  exists blocks, schedule_events at_start 0 0 plan = Some (concat blocks) /\ length blocks = 2%nat.
Proof.
  assert (parse parse_seconds arguments = Some (Ok plan)) as H by (vm_compute; reflexivity).
  split; [exact H|].
  destruct (churn_schedule_executed parse_seconds at_start arguments plan) as (_ & _ & bs & Hb & Hl & _);
    [unfold at_start; lia|exact H|vm_compute; reflexivity|].
  exists bs. split; [exact Hb|exact Hl].
Defined.
End ChurnWitness.
