(* ===== verification/ProbeTracker.v ===== *)
(** * The probe tracker of the stress test (examples/stress.rs)

    For each section the probe messages sent in the last minute, with the signature shares received
    for them: a [Cache] per prefix.  A pending probe holds a shared aggregator, which [receive]
    changes in place; a probe that collected enough shares is a success.

    Every reading of the clock is an argument, as in [Cache]. *)

From stdpp Require Import base tactics list gmap sorting.
From Stdlib Require Import ZArith Lia.
From S2P Require Import Prelude Names Crates Types SectionKeys SectionState PrefixMap Network DkgSession DkgVoter Messages Cache.
#[local] Open Scope Z_scope.

Definition PROBE_WINDOW : Duration := 60 * NANOS_PER_SEC.

Section ProbeTracker.
Context `{CR : Crates, KG : !KeyGenOps, PMO : !PrefixMapOps OtherSection, MO : !MessagingOps}.

Inductive ProbeState : Type :=
| PsPending (aggregator : SignatureAggregator)
| PsSuccess.

Abbreviation SectionProbes := (Cache XorName ProbeState).

Record ProbeTracker : Type := mkProbeTracker { pt_sections : gmap Prefix SectionProbes }.
Definition tracker_default : ProbeTracker := mkProbeTracker ∅.

(** [send], with the clock at the [get] and during the [set] *)
Definition tracker_send (now : Instant) (r : readings) (t : ProbeTracker) (src : Prefix) (dst : XorName) :
    ProbeTracker :=
  let cache := default (cache_with_expiry_duration PROBE_WINDOW) (pt_sections t !! src) in
  let cache :=
    match cache_get now cache dst with
    | None => (cache_set r cache dst (PsPending aggregator_default) None).1
    | Some _ => cache
    end in
  mkProbeTracker (<[src := cache]> (pt_sections t)).

(** the first section, in order, in which the probe is known *)
Fixpoint find_probe (now : Prefix -> Instant) (dst : XorName) (sections : list (Prefix * SectionProbes)) :
    option (Prefix * ProbeState * SectionProbes) :=
  match sections with
  | [] => None
  | (prefix, cache) :: rest =>
      match cache_get (now prefix) cache dst with
      | Some state => Some (prefix, state, cache)
      | None => find_probe now dst rest
      end
  end.

(** the aggregator behind the [Arc] of a pending probe *)
Definition put_aggregator (agg : SignatureAggregator) (i : Item ProbeState) : Item ProbeState :=
  mkItem (PsPending agg) (it_time i).

Definition tracker_receive (now : Prefix -> Instant) (r : readings) (t : ProbeTracker) (dst : XorName)
    (signed_share : SignedShare) : ProbeTracker :=
  match find_probe now dst (btree_entries (pt_sections t)) with
  | None => t
  | Some (_, PsSuccess, _) => t
  | Some (prefix, PsPending aggregator, cache) =>
      let '(aggregator, result) := aggregator_add aggregator (name_bytes dst) signed_share in
      let cache := with_items cache (alter (put_aggregator aggregator) dst (c_items cache)) in
      let cache :=
        match result with
        | Ok _ => (cache_set r cache dst PsSuccess None).1
        | Err _ => cache
        end in
      mkProbeTracker (<[prefix := cache]> (pt_sections t))
  end.

Definition is_success (e : XorName * Item ProbeState) : bool :=
  match it_object e.2 with PsSuccess => true | PsPending _ => false end.

(** (prefix, delivered, sent) *)
Definition tracker_status (t : ProbeTracker) : list (Prefix * Z * Z) :=
  (fun e => (e.1, cache_count e.2 is_success, cache_len e.2)) <$> btree_entries (pt_sections t).

Definition tracker_prune (t : ProbeTracker) : ProbeTracker :=
  let remove := (List.filter (fun e => cache_is_empty e.2) (btree_entries (pt_sections t))).*1 in
  mkProbeTracker (foldl (fun m prefix => delete prefix m) (pt_sections t) remove).

(** ** Lemmas *)

(** a section's cache as the tracker makes it: with its duration, unbounded, and not empty *)
Record probes_wf (c : SectionProbes) : Prop := {
  pw_duration : c_item_duration c = Some PROBE_WINDOW;
  pw_capacity : c_capacity c = USIZE_MAX;
  pw_nonempty : cache_is_empty c = false;
}.
Definition tracker_wf (t : ProbeTracker) : Prop := map_Forall (fun _ => probes_wf) (pt_sections t).

Lemma cache_len_pos (c : SectionProbes) k : is_Some (c_items c !! k) -> 1 <= cache_len c.
Proof.
  intros [i Hi]. unfold cache_len. destruct (size (c_items c)) eqn:E; [|lia].
  apply map_size_empty_inv in E. by rewrite E, lookup_empty in Hi.
Qed.

(** the probe that was just stored is still there: a [set] does not take a minute *)
Lemma cache_set_nonempty r (c : SectionProbes) k v :
  c_item_duration c = Some PROBE_WINDOW -> c_capacity c = USIZE_MAX -> r_sweep r <= r_item r + PROBE_WINDOW ->
  probes_wf (cache_set r c k v None).1.
Proof.
  intros Hd Hc Hr. destruct (cache_set_meta r c k v None) as [E1 E2]. split; [congruence|congruence|].
  unfold cache_set; cbn [fst]. rewrite Hd. set (c1 := with_items _ _).
  assert (1 <= cache_len (cache_remove_expired (r_sweep r) c1)) as H1.
  { apply (cache_len_pos _ k). rewrite remove_expired_lookup. unfold c1, with_items; simpl.
    rewrite lookup_insert_eq. unfold item_expired. simpl. destruct (Z.ltb_spec (r_item r + PROBE_WINDOW) (r_sweep r)); [lia|eauto]. }
  unfold cache_is_empty. rewrite drop_excess_size by (unfold c1, with_items; simpl; rewrite Hc; done).
  change (c_capacity (cache_remove_expired (r_sweep r) c1)) with (c_capacity c). rewrite Hc.
  apply Z.eqb_neq. change USIZE_MAX with (2 ^ 64 - 1). lia.
Qed.

Lemma cache_get_present now (c : SectionProbes) k : is_Some (cache_get now c k) -> is_Some (c_items c !! k).
Proof. unfold cache_get. destruct (c_items c !! k); [eauto|by intros []]. Qed.

Lemma send_wf now r t src dst :
  r_sweep r <= r_item r + PROBE_WINDOW -> tracker_wf t -> tracker_wf (tracker_send now r t src dst).
Proof.
  intros Hr Ht. unfold tracker_send, tracker_wf; cbn [pt_sections]. apply map_Forall_insert_2; [|done].
  destruct (pt_sections t !! src) as [c|] eqn:Ec; simpl.
  - destruct (map_Forall_lookup_1 _ _ _ _ Ht Ec) as [W1 W2 W3].
    destruct (cache_get now c dst); [by split|]. by apply cache_set_nonempty.
  - assert (cache_get now (cache_with_expiry_duration (K := XorName) (V := ProbeState) PROBE_WINDOW) dst = None) as ->.
    { unfold cache_get. simpl. by rewrite lookup_empty. }
    by apply cache_set_nonempty.
Qed.

Lemma find_probe_in now dst l p s c : find_probe now dst l = Some (p, s, c) -> (p, c) ∈ l /\ cache_get (now p) c dst = Some s.
Proof.
  induction l as [|[p' c'] l IH]; simpl; [done|]. destruct (cache_get (now p') c' dst) eqn:E.
  - intros [= <- <- <-]. split; [left|done].
  - intros H. destruct (IH H). split; [by right|done].
Qed.

Lemma receive_wf now r t dst share :
  r_sweep r <= r_item r + PROBE_WINDOW -> tracker_wf t -> tracker_wf (tracker_receive now r t dst share).
Proof.
  intros Hr Ht. unfold tracker_receive. destruct (find_probe _ _ _) as [[[p [agg|]] c]|] eqn:Ef; try done.
  apply find_probe_in in Ef as [Hin%elem_of_btree_entries Hg].
  destruct (map_Forall_lookup_1 _ _ _ _ Ht Hin) as [W1 W2 W3].
  destruct (aggregator_add _ _ _) as [agg' res]. unfold tracker_wf; cbn [pt_sections]. apply map_Forall_insert_2; [|done].
  destruct res; [by apply cache_set_nonempty|]. split; [done|done|].
  assert (1 <= cache_len (with_items c (alter (put_aggregator agg') dst (c_items c)))) as Hl.
  { apply (cache_len_pos _ dst). simpl. rewrite lookup_alter_eq.
    destruct (cache_get_present (now p) c dst) as [i ->]; [by rewrite Hg|]. eauto. }
  unfold cache_is_empty. apply Z.eqb_neq. lia.
Qed.

Lemma prune_nothing t : tracker_wf t -> tracker_prune t = t.
Proof.
  intros Ht. unfold tracker_prune.
  assert (List.filter (fun e : Prefix * SectionProbes => cache_is_empty e.2) (btree_entries (pt_sections t)) = []) as ->;
    [|by destruct t].
  destruct (List.filter _ _) as [|[p c] l] eqn:E; [done|].
  assert (In (p, c) ((p, c) :: l)) as Hin by (by left). rewrite <- E in Hin. apply filter_In in Hin as [Hin He].
  apply list_elem_of_In, elem_of_btree_entries in Hin.
  destruct (map_Forall_lookup_1 _ _ _ _ Ht Hin) as [_ _ W]. simpl in He. congruence.
Qed.

(** ** What the stress test does with it *)

Inductive probe_op : Type :=
| OpSend (now : Instant) (r : readings) (src : Prefix) (dst : XorName)
| OpReceive (now : Prefix -> Instant) (r : readings) (dst : XorName) (signed_share : SignedShare)
| OpPrune.
Definition probe_do (t : ProbeTracker) (op : probe_op) : ProbeTracker :=
  match op with
  | OpSend now r src dst => tracker_send now r t src dst
  | OpReceive now r dst share => tracker_receive now r t dst share
  | OpPrune => tracker_prune t
  end.
(** no single [set] takes longer than a probe is kept *)
Definition prompt (op : probe_op) : Prop :=
  match op with
  | OpSend _ r _ _ | OpReceive _ r _ _ => r_sweep r <= r_item r + PROBE_WINDOW
  | OpPrune => True
  end.

Lemma probes_run_wf ops t : Forall prompt ops -> tracker_wf t -> tracker_wf (foldl probe_do t ops).
Proof.
  intros Ho. revert t. induction Ho as [|op ops Hp _ IH]; intros t Ht; [done|]. apply IH.
  destruct op; simpl in *; [by apply send_wf|by apply receive_wf|by rewrite prune_nothing].
Qed.

Lemma probe_do_dom t op : tracker_wf t -> dom (pt_sections t) ⊆ dom (pt_sections (probe_do t op)).
Proof.
  intros Ht. destruct op; cbn [probe_do].
  - unfold tracker_send; cbn [pt_sections]. rewrite dom_insert_L. set_solver.
  - unfold tracker_receive. destruct (find_probe _ _ _) as [[[p [agg|]] c]|]; [|done..].
    destruct (aggregator_add _ _ _) as [agg' res]. cbn [pt_sections]. rewrite dom_insert_L. set_solver.
  - by rewrite prune_nothing.
Qed.

Lemma cache_count_le (c : SectionProbes) f : 0 <= cache_count c f <= cache_len c.
Proof.
  unfold cache_count, cache_len. rewrite <- (length_btree_entries (c_items c)).
  split; [lia|]. apply inj_le, List.filter_length_le.
Qed.

(** C39: a section that was probed is never forgotten.  The tracker says that it stops tracking a
    probe after a minute and prunes the sections without probes; but a cache sheds its expired
    entries only when a new one is stored, so it is never empty: whatever was sent and received and
    however much time has passed, pruning removes nothing, every section ever probed (also one
    that has split since) is still reported, and with at least one probe sent. *)
Theorem pruning_removes_nothing (ops later : list probe_op) (src : Prefix) (dst : XorName) (now : Instant) (r : readings) :
  Forall prompt ops -> Forall prompt later -> prompt (OpSend now r src dst) ->
  let t := foldl probe_do tracker_default (ops ++ OpSend now r src dst :: later) in
  tracker_prune t = t /\
  exists delivered sent, (src, delivered, sent) ∈ tracker_status t /\ 0 <= delivered <= sent /\ 1 <= sent.
Proof.
  intros Ho Hl Hs t.
  assert (tracker_wf (foldl probe_do tracker_default ops)) as W0 by (by apply probes_run_wf).
  set (t1 := probe_do (foldl probe_do tracker_default ops) (OpSend now r src dst)).
  assert (tracker_wf t1) as W1 by (by apply send_wf).
  assert (t = foldl probe_do t1 later) as E by (unfold t; by rewrite foldl_app).
  assert (forall ops t, Forall prompt ops -> tracker_wf t -> dom (pt_sections t) ⊆ dom (pt_sections (foldl probe_do t ops))) as Hd.
  { clear. intros ops t Ho. revert t. induction Ho as [|op ops Hp Ho IH]; intros t Ht; [done|]. simpl.
    etransitivity; [by apply (probe_do_dom t op)|]. apply IH. apply (probes_run_wf [op]); [by constructor|done]. }
  assert (tracker_wf t) as W by (rewrite E; by apply probes_run_wf).
  split; [by apply prune_nothing|].
  assert (src ∈ dom (pt_sections t)) as [c Hc]%elem_of_dom.
  { rewrite E. apply Hd; [done|done|]. unfold t1, probe_do, tracker_send; cbn [pt_sections]. rewrite dom_insert_L. set_solver. }
  exists (cache_count c is_success), (cache_len c). split; [|split; [apply cache_count_le|]].
  - apply list_elem_of_fmap. exists (src, c). split; [done|]. by apply elem_of_btree_entries.
  - destruct (map_Forall_lookup_1 _ _ _ _ W Hc) as [_ _ H]. apply Z.eqb_neq in H. unfold cache_len in *. lia.
Qed.
End ProbeTracker.

Module ProbeWitness.
Import BitNames ToyCrates ToySerialize SectionKeysWitness NetworkWitness MessagesWitness.

Definition start : readings := mkReadings 0 0 0 0.
Definition half0 : Prefix := to_prefix [false].
Definition probe3 : XorName := to_name 3.

(** after pruning the section is still there *)
Lemma pruning_removes_nothing_witness :
  exists delivered sent,
    (half0, delivered, sent) ∈
      tracker_status (foldl probe_do tracker_default [OpSend 0 start half0 probe3; OpPrune]) /\ 1 <= sent.
Proof.
  destruct (pruning_removes_nothing [] [OpPrune] half0 probe3 0 start (Forall_nil_2 _)) as [_ (d & n & Hin & _ & Hn)].
  - repeat constructor.
  - vm_compute. discriminate.
  - exists d, n. split; [exact Hin|exact Hn].
Defined.
End ProbeWitness.
