(* ===== verification/StressTest.v ===== *)
(** * The stress test of the library (examples/stress.rs)

    A program that runs many nodes in one process, adds and removes some as its schedule says
    ([ChurnSchedule]), sends probe messages between their sections ([ProbeTracker]) and prints how the
    network fares.

    The nodes run on their own: [world] is the state that each of them is in when it is asked, and
    the entry of a node in [ss_nodes] holds the handle it is asked by.  The report that is printed is
    the value of [print_status], and the ones printed so far are part of the state.  The
    random choices and the readings of the clock are arguments; a panic is [None]. *)

From stdpp Require Import base tactics list gmap sorting.
From Stdlib Require Import ZArith Lia SpecFloat.
From S2P Require Import Prelude Names Crates Types Thresholds SectionPeers SectionKeys.
From S2P Require Import SectionState PrefixMap Network SplitBarrier EndUsers DkgFailure DkgSession.
From S2P Require Import DkgVoter Messages Cache MessageFilter Relocation DeliveryGroup CoreState RoutingApi.
From S2P Require Import Handling NodeInvariant Comm Bootstrap Dispatcher NodeClaims JoinProtocol Startup.
From S2P Require Import Float64 Pending ChurnSchedule ProbeTracker.
#[local] Open Scope Z_scope.

Definition MIN_PRINT_DELAY : Duration := 500 * NANOS_PER_MILLI.
(** the number of bootstrap contacts *)
Definition COUNT : nat := 1.

Section Stress.
Context `{CR : Crates, KG : !KeyGenOps, KP : !KeyGenProgress, PMO : !PrefixMapOps OtherSection,
  MO : !MessagingOps, VA : VecDequeAlloc, CE : !CoreEnv, WO : !WireOps, WM : !WireMsgOps, BE : !BootstrapEnv,
  TO : !TransportOps}.
Context `{SerView : !Serialize (DstLocation * Variant), SerNodeState : !Serialize NodeState,
  SerSap : !Serialize SectionAuthorityProvider, SerKey : !Serialize BlsPublicKey,
  SerJoins : !Serialize (MessageId * bool), SerNonce : !Serialize (XorName * Bytes),
  SerAddr : !Serialize SocketAddr}.

(** What the program takes from elsewhere: the configuration of qp2p for a list of contacts on this
    machine, and the encoding of bincode. *)
Class StressOps := {
  transport_local : list SocketAddr -> TransportConfig;
  probe_serialize : SignedShare -> option Bytes;
  probe_deserialize : Bytes -> option SignedShare;
  name_serialize : XorName -> option Bytes;
}.
Context `{SO : !StressOps}.

(** ** State *)

Definition Handle : Type := Z.
Definition world : Type := Handle -> Routing.
Definition core_of (w : world) (h : Handle) : Core := d_core (rt_dispatcher (w h)).

Record ElderState : Type := mkElderState { es_key : BlsPublicKey; es_num_elders : Z }.

Inductive NodeEntry : Type :=
| Joining
| Joined_ (node : Handle) (name : XorName) (age : Z) (prefix : Prefix) (is_relocating : bool)
    (elder : option ElderState).

Record Stats : Type := mkStats {
  join_attempts : Z;
  join_failures : Z;
  join_successes : Z;
  drops : Z;
  relocation_attempts : Z;
  relocation_successes : Z;
  promotions : Z;
  demotions : Z;
}.
Definition stats_default : Stats := mkStats 0 0 0 0 0 0 0 0.

Definition add_join_attempt (s : Stats) : Stats :=
  let 'mkStats a f j d ra rs p e := s in mkStats (a + 1) f j d ra rs p e.
Definition add_join_failure (s : Stats) : Stats :=
  let 'mkStats a f j d ra rs p e := s in mkStats a (f + 1) j d ra rs p e.
Definition add_join_success (s : Stats) : Stats :=
  let 'mkStats a f j d ra rs p e := s in mkStats a f (j + 1) d ra rs p e.
Definition add_drop (s : Stats) : Stats :=
  let 'mkStats a f j d ra rs p e := s in mkStats a f j (d + 1) ra rs p e.
Definition add_relocation_attempt (s : Stats) : Stats :=
  let 'mkStats a f j d ra rs p e := s in mkStats a f j d (ra + 1) rs p e.
Definition add_relocation_success (s : Stats) : Stats :=
  let 'mkStats a f j d ra rs p e := s in mkStats a f j d ra (rs + 1) p e.
Definition add_promotion (s : Stats) : Stats :=
  let 'mkStats a f j d ra rs p e := s in mkStats a f j d ra rs (p + 1) e.
Definition add_demotion (s : Stats) : Stats :=
  let 'mkStats a f j d ra rs p e := s in mkStats a f j d ra rs p (e + 1).

(** ** The report *)

(** the variables of the loop of [print_status] *)
Record Counts : Type := mkCounts {
  num_active : Z;
  num_joining : Z;
  num_relocating : Z;
  num_elders : Z;
  ages : list Z;
  members_per_section : gmap Prefix Z;
}.
Definition counts_zero : Counts := mkCounts 0 0 0 0 (replicate 256 0) ∅.

Definition count_node (k : Counts) (node : NodeEntry) : Counts :=
  match node with
  | Joining =>
      mkCounts (num_active k) (num_joining k + 1) (num_relocating k) (num_elders k) (ages k) (members_per_section k)
  | Joined_ _ _ age prefix is_relocating elder =>
      mkCounts
        (if is_relocating then num_active k else num_active k + 1)
        (num_joining k)
        (if is_relocating then num_relocating k + 1 else num_relocating k)
        (match elder with Some _ => num_elders k + 1 | None => num_elders k end)
        (alter (fun n => n + 1) (Z.to_nat age) (ages k))
        (<[prefix := default 0 (members_per_section k !! prefix) + 1]> (members_per_section k))
  end.
Definition count_nodes (nodes : gmap Z NodeEntry) : Counts := foldl count_node counts_zero (btree_values nodes).

Record Status : Type := mkStatus {
  st_duration : Duration;
  st_total : Z;
  st_counts : Counts;
  (** the ages that occur, with the number of nodes *)
  st_ages : list (nat * Z);
  (** the sections with members, with the share of probes delivered and its colour *)
  st_health : list (Prefix * f64 * Color);
  st_failure_style : Color;
  st_join_successes : f64;
  st_join_failures : f64;
  st_relocation_successes : f64;
  st_stats : Stats;
}.

Record StressNetwork : Type := mkStressNetwork {
  ss_nodes : gmap Z NodeEntry;
  ss_next_id : Z;
  ss_start_time : Instant;
  ss_print_time : Instant;
  ss_probe_tracker : ProbeTracker;
  ss_stats : Stats;
  ss_printed : list Status;
}.

Definition stress_new (now : Instant) : StressNetwork :=
  mkStressNetwork ∅ 0 now (now - MIN_PRINT_DELAY) tracker_default stats_default [].

Definition with_nodes (nodes : gmap Z NodeEntry) (s : StressNetwork) : StressNetwork :=
  mkStressNetwork nodes (ss_next_id s) (ss_start_time s) (ss_print_time s) (ss_probe_tracker s) (ss_stats s) (ss_printed s).
Definition with_tracker (t : ProbeTracker) (s : StressNetwork) : StressNetwork :=
  mkStressNetwork (ss_nodes s) (ss_next_id s) (ss_start_time s) (ss_print_time s) t (ss_stats s) (ss_printed s).
Definition with_stats (f : Stats -> Stats) (s : StressNetwork) : StressNetwork :=
  mkStressNetwork (ss_nodes s) (ss_next_id s) (ss_start_time s) (ss_print_time s) (ss_probe_tracker s)
    (f (ss_stats s)) (ss_printed s).

Definition print_status (now : Instant) (s : StressNetwork) : Status :=
  let counts := count_nodes (ss_nodes s) in
  let stats := ss_stats s in
  mkStatus (now - ss_start_time s) (Z.of_nat (size (ss_nodes s))) counts
    (List.filter (fun e => 0 <? e.2) (imap pair (ages counts)))
    ((fun '(prefix, delivered, sent) =>
        let percent := percent delivered sent in (prefix, percent, theme_health percent)) <$>
     List.filter (fun e => bool_decide (is_Some (members_per_section counts !! e.1.1))) (tracker_status (ss_probe_tracker s)))
    (if join_failures stats =? 0 then th_value theme_default else th_error theme_default)
    (percent (join_successes stats) (join_attempts stats))
    (percent (join_failures stats) (join_attempts stats))
    (percent (relocation_successes stats) (relocation_attempts stats))
    stats.

(** the clock is read once for the two readings in a row *)
Definition try_print_status (now : Instant) (s : StressNetwork) : StressNetwork :=
  if MIN_PRINT_DELAY <? now - ss_print_time s
  then mkStressNetwork (ss_nodes s) (ss_next_id s) (ss_start_time s) now (ss_probe_tracker s) (ss_stats s)
         (ss_printed s ++ [print_status now s])
  else s.

(** ** Churn *)

Definition U64_MODULUS : Z := 2 ^ 64.

(** [None] is the panic of [expect] *)
Definition new_node_id (s : StressNetwork) : option (Z * StressNetwork) :=
  if ss_next_id s + 1 <? U64_MODULUS
  then Some (ss_next_id s,
    mkStressNetwork (ss_nodes s) (ss_next_id s + 1) (ss_start_time s) (ss_print_time s) (ss_probe_tracker s)
      (ss_stats s) (ss_printed s))
  else None.

(** the nodes that have joined, with their ages *)
Definition joined_nodes (nodes : gmap Z NodeEntry) : list (Handle * Z) :=
  omap (fun node => match node with Joined_ h _ age _ _ _ => Some (h, age) | Joining => None end) (btree_values nodes).

Definition get_bootstrap_addrs (w : world) (s : StressNetwork) : list SocketAddr :=
  (fun e => our_connection_info (d_comm (rt_dispatcher (w e.1)))) <$>
  take COUNT (sort_by (fun lhs rhs => Z.compare rhs.2 lhs.2) (joined_nodes (ss_nodes s))).

(** with the task that is spawned: [add_node] with this id and configuration *)
Definition create_node (w : world) (now : Instant) (s : StressNetwork) : option (StressNetwork * (Z * Config)) :=
  let bootstrap_addrs := get_bootstrap_addrs w s in
  '(id, s) ← new_node_id s;
  let s := with_stats add_join_attempt (with_nodes (<[id := Joining]> (ss_nodes s)) s) in
  let config := mkConfig (match bootstrap_addrs with [] => true | _ => false end) None
                  (transport_local bootstrap_addrs) in
  Some (try_print_status now s, (id, config)).

(** [1.0 / 2f64.powf(age as f64)] *)
Definition drop_weight (age : Z) : f64 := f64_div (f64_of_int 1) (f64_pow2 age).

Definition weighted_ids (nodes : gmap Z NodeEntry) : list (Z * f64) :=
  omap (fun e => match e.2 with Joined_ _ _ age _ _ _ => Some (e.1, drop_weight age) | Joining => None end)
    (btree_entries nodes).

(** [sample] is [WeightedIndex::new] and [sample] of rand: no index when the weights are refused *)
Definition remove_random_node (sample : list f64 -> option nat) (now : Instant) (s : StressNetwork) :
    option StressNetwork :=
  let weighted_ids := weighted_ids (ss_nodes s) in
  match sample weighted_ids.*2 with
  | None => Some s
  | Some index =>
      '(id, _) ← weighted_ids !! index;
      Some match ss_nodes s !! id with
           | Some node =>
               let s := with_stats add_drop (with_nodes (delete id (ss_nodes s)) s) in
               let s := match node with
                        | Joined_ _ _ _ _ true _ => with_stats add_relocation_success s
                        | _ => s
                        end in
               try_print_status now s
           | None => s
           end
  end.

(** ** Events *)

Inductive StressEvent : Type :=
| JoinSuccess (id : Z) (node : Handle)
| JoinFailure (id : Z) (error : Error)
| RoutingEvent (id : Z) (event : Event).

Inductive ProbeError : Type :=
| ErrBincode
| ErrUnexpectedDst
| ErrSign (e : Error)
| ErrIndex (e : Error)
| ErrSend (e : Error).

Definition elders_event (id : Z) (elders : Elders) (self_status_change : NodeElderChange) (s : StressNetwork) :
    StressNetwork :=
  let s :=
    match ss_nodes s !! id with
    | Some (Joined_ node name age prefix is_relocating elder) =>
        let old_prefix := prefix in
        let elder :=
          if bool_decide (name ∈ e_added elders) || bool_decide (name ∈ e_remaining elders)
          then Some (mkElderState (e_key elders) (Z.of_nat (size (e_remaining elders) + size (e_added elders))))
          else if bool_decide (name ∈ e_removed elders) && bool_decide (old_prefix = e_prefix elders)
          then None
          else elder in
        with_nodes (<[id := Joined_ node name age (e_prefix elders) is_relocating elder]> (ss_nodes s)) s
    | _ => s
    end in
  match self_status_change with
  | Promoted => with_stats add_promotion s
  | Demoted => with_stats add_demotion s
  | NoChange => s
  end.

(** the events of a node; [now] and [r] are the clock when a probe is received *)
Definition routing_event (w : world) (now : Prefix -> Instant) (r : readings) (id : Z) (event : Event)
    (s : StressNetwork) : result StressNetwork ProbeError :=
  match event with
  | EvEldersChanged elders change | EvSectionSplit elders _ change => Ok (elders_event id elders change s)
  | EvRelocationStarted _ =>
      Ok match ss_nodes s !! id with
         | Some (Joined_ node name age prefix _ elder) =>
             with_stats add_relocation_attempt
               (with_nodes (<[id := Joined_ node name age prefix true elder]> (ss_nodes s)) s)
         | _ => s
         end
  | EvRelocated _ _ =>
      Ok match ss_nodes s !! id with
         | Some (Joined_ node name age prefix _ elder) =>
             with_stats add_relocation_success
               (with_nodes (<[id := Joined_ node (routing_name (core_of w node)) (routing_age (core_of w node))
                                      prefix false elder]> (ss_nodes s)) s)
         | _ => s
         end
  | EvMessageReceived content _ dst _ _ =>
      let? signed_share := ok_or (probe_deserialize content) ErrBincode in
      let? dst :=
        match dst with
        | DstSection name | DstNode name => Ok name
        | DirectAndUnrouted | DstEndUser _ => Err ErrUnexpectedDst
        end in
      Ok (with_tracker (tracker_receive now r (ss_probe_tracker s) dst signed_share) s)
  | _ => Ok s
  end.

(** a node that has joined is asked for its name, its age and its prefix in one state *)
Definition handle_event (w : world) (now : Prefix -> Instant) (r : readings) (clock : Instant) (event : StressEvent)
    (s : StressNetwork) : result StressNetwork ProbeError :=
  let? s :=
    match event with
    | JoinSuccess id node =>
        let c := core_of w node in
        Ok (with_stats add_join_success
              (with_nodes (<[id := Joined_ node (routing_name c) (routing_age c) (our_prefix c) false None]>
                             (ss_nodes s)) s))
    | JoinFailure id error => Ok (with_stats add_join_failure (with_nodes (delete id (ss_nodes s)) s))
    | RoutingEvent id event => routing_event w now r id event s
    end in
  Ok (try_print_status clock s).

(** ** Probes *)

(** the states in which a node answers the calls that a probe takes: it goes on in between *)
Record ProbeCalls : Type := mkProbeCalls {
  at_public_key_set : Core;
  at_name : Core;
  at_sign : Core;
  at_index : Core;
  at_send : Core;
  (** what the surroundings do while the message is sent *)
  pc_outcomes : Outcomes;
}.

(** [Routing::send_message] *)
Definition routing_send_message (o : Outcomes) (c : Core) (itinerary : Itinerary) (content : Bytes) : result unit Error :=
  let? command := send_message c itinerary content None in
  let? _ := (run (try_handle_command o command) c).2 in
  Ok tt.

Definition try_send_probe (calls : ProbeCalls) (dst : XorName) : result bool ProbeError :=
  match routing_public_key_set (at_public_key_set calls) with
  | Err _ => Ok false
  | Ok public_key_set =>
      let src := routing_name (at_name calls) in
      let? bytes := ok_or (name_serialize dst) ErrBincode in
      let? signature_share := map_err ErrSign (sign_as_elder (at_sign calls) bytes (pks_public_key public_key_set)) in
      let? index := map_err ErrIndex (routing_our_index (at_index calls)) in
      let? bytes := ok_or (probe_serialize (mkSignedShare public_key_set index signature_share)) ErrBincode in
      let itinerary := mkItinerary (SrcNode src) (DstSection dst) AggregationNone in
      match routing_send_message (pc_outcomes calls) (at_send calls) itinerary bytes with
      | Ok _ => Ok true
      | Err InvalidSrcLocation => Ok false
      | Err error => Err (ErrSend error)
      end
  end.

(** the loop of [send_probes]: [random] is the i-th random name and [clock] the readings when the
    i-th node's probe is recorded *)
Fixpoint probe_loop (calls : Handle -> ProbeCalls) (random : nat -> XorName) (clock : nat -> Instant * readings)
    (i : nat) (cache : gmap Prefix XorName) (nodes : list (Handle * Prefix)) (t : ProbeTracker) :
    ProbeTracker * result unit ProbeError :=
  match nodes with
  | [] => (t, Ok tt)
  | (node, prefix) :: nodes' =>
      let '(cache, dst) :=
        match cache !! prefix with
        | Some dst => (cache, dst)
        | None => let dst := substituted_in prefix (random i) in (<[prefix := dst]> cache, dst)
        end in
      match try_send_probe (calls node) dst with
      | Err e => (t, Err e)
      | Ok sent =>
          let t := if sent then tracker_send (clock i).1 (clock i).2 t prefix dst else t in
          probe_loop calls random clock (S i) cache nodes' t
      end
  end.

Definition probed_nodes (nodes : gmap Z NodeEntry) : list (Handle * Prefix) :=
  omap (fun node => match node with Joined_ h _ _ prefix _ _ => Some (h, prefix) | Joining => None end)
    (btree_values nodes).

Definition send_probes (calls : Handle -> ProbeCalls) (random : nat -> XorName) (clock : nat -> Instant * readings)
    (now : Instant) (s : StressNetwork) : StressNetwork * result unit ProbeError :=
  let '(t, r) := probe_loop calls random clock 0 ∅ (probed_nodes (ss_nodes s)) (ss_probe_tracker s) in
  match r with
  | Err e => (with_tracker t s, Err e)
  | Ok _ => (try_print_status now (with_tracker (tracker_prune t) s), Ok tt)
  end.

(** ** The main loop *)

(** a task of [add_node]: its node is starting, or it passes on the node's events, these so far *)
Inductive NodeTask : Type :=
| Starting (config : Config)
| Forwarding (passed : list Event).

Definition StressState : Type := StressNetwork * gmap Z NodeTask.

(** the events that a node of the library can have sent, in order *)
Definition sent_by_a_node (es : list Event) : Prop :=
  exists c pending, node_reachable (c, pending) /\ es `prefix_of` c_events c.

Inductive stress_step : StressState -> StressState -> Prop :=
(** [ChurnEvent::Join], and the genesis node *)
| stress_create w now s tasks s' id config :
    create_node w now s = Some (s', (id, config)) ->
    stress_step (s, tasks) (s', <[id := Starting config]> tasks)
(** [ChurnEvent::Drop]; the task of the node goes on *)
| stress_remove sample now s tasks s' :
    remove_random_node sample now s = Some s' -> stress_step (s, tasks) (s', tasks)
(** [add_node]: [Routing::new] has returned *)
| stress_joined w now r clock s tasks id config node s' :
    tasks !! id = Some (Starting config) ->
    handle_event w now r clock (JoinSuccess id node) s = Ok s' ->
    stress_step (s, tasks) (s', <[id := Forwarding []]> tasks)
| stress_failed w now r clock s tasks id config error s' :
    tasks !! id = Some (Starting config) ->
    handle_event w now r clock (JoinFailure id error) s = Ok s' ->
    stress_step (s, tasks) (s', delete id tasks)
(** it passes on the next event of its node *)
| stress_event w now r clock s tasks id passed event s' :
    tasks !! id = Some (Forwarding passed) -> sent_by_a_node (passed ++ [event]) ->
    handle_event w now r clock (RoutingEvent id event) s = Ok s' ->
    stress_step (s, tasks) (s', <[id := Forwarding (passed ++ [event])]> tasks)
(** the interval of the probes *)
| stress_probe calls random clock now s tasks s' :
    send_probes calls random clock now s = (s', Ok tt) -> stress_step (s, tasks) (s', tasks).

Inductive stress_reachable : StressState -> Prop :=
| stress_init now : stress_reachable (stress_new now, ∅)
| stress_next s s' : stress_reachable s -> stress_step s s' -> stress_reachable s'.
End Stress.

(** ** Tallies *)

Section Tally.
Context `{CR : Crates}.
Implicit Types (f : NodeEntry -> Z) (m : gmap Z NodeEntry).

Definition sum (l : list Z) : Z := foldr Z.add 0 l.
Definition tally f m : Z := sum (f <$> btree_values m).

Lemma sum_perm (l l' : list Z) : l ≡ₚ l' -> sum l = sum l'.
Proof. unfold sum. induction 1; simpl; lia. Qed.

Lemma tally_entries f m : tally f m = sum ((fun e => f e.2) <$> map_to_list m).
Proof.
  unfold tally, btree_values. rewrite <- list_fmap_compose. apply sum_perm. unfold btree_entries.
  by rewrite sort_by_perm.
Qed.
Lemma tally_empty f : tally f ∅ = 0.
Proof. by rewrite tally_entries, map_to_list_empty. Qed.
Lemma tally_insert f m i x : m !! i = None -> tally f (<[i := x]> m) = f x + tally f m.
Proof. intros H. rewrite !tally_entries. by rewrite (sum_perm _ _ (fmap_Permutation _ _ _ (map_to_list_insert m i x H))). Qed.
Lemma tally_delete f m i x : m !! i = Some x -> tally f m = f x + tally f (delete i m).
Proof.
  intros H. rewrite <- (insert_delete_id m i x H) at 1. apply tally_insert. apply lookup_delete_eq.
Qed.
Lemma tally_replace f m i x y : m !! i = Some x -> tally f (<[i := y]> m) = tally f m - f x + f y.
Proof.
  intros H. rewrite (tally_delete f m i x H), <- insert_delete_eq, tally_insert by apply lookup_delete_eq. lia.
Qed.

Definition one_joining (n : NodeEntry) : Z := match n with Joining => 1 | _ => 0 end.
Definition one_joined (n : NodeEntry) : Z := match n with Joined_ _ _ _ _ _ _ => 1 | _ => 0 end.
Definition one_relocating (n : NodeEntry) : Z := match n with Joined_ _ _ _ _ true _ => 1 | _ => 0 end.

Lemma count_nodes_tally m (k := count_nodes m) :
  num_joining k = tally one_joining m /\ num_relocating k = tally one_relocating m /\
  num_active k + num_relocating k = tally one_joined m.
Proof.
  assert (forall l k, let k' := foldl count_node k l in
    num_joining k' = num_joining k + sum (one_joining <$> l) /\
    num_relocating k' = num_relocating k + sum (one_relocating <$> l) /\
    num_active k' + num_relocating k' = num_active k + num_relocating k + sum (one_joined <$> l)) as H.
  { intros l. induction l as [|n l IH]; intros k0; [simpl; lia|].
    destruct (IH (count_node k0 n)) as (E1 & E2 & E3). cbn zeta. cbn [foldl].
    rewrite !fmap_cons. destruct n as [|h x a p [] e]; simpl in *; lia. }
  unfold k, count_nodes. apply (H (btree_values m) counts_zero).
Qed.

Lemma tally_size m : Z.of_nat (size m) = tally one_joining m + tally one_joined m.
Proof.
  unfold tally. rewrite <- (length_btree_values m). induction (btree_values m) as [|n l IH]; [done|].
  rewrite !fmap_cons. simpl. destruct n; simpl; lia.
Qed.
End Tally.

(** ** The figures add up *)

Section Figures.
Context `{CR : Crates, XL : !XorLaws, CL : !ChainLaws, KG : !KeyGenOps, KP : !KeyGenProgress,
  PMO : !PrefixMapOps OtherSection, PML : !PrefixMapLaws OtherSection, MO : !MessagingOps,
  VA : VecDequeAlloc, VL : !VecDequeAllocLaws, CE : !CoreEnv, EL : !CoreEnvLaws, WO : !WireOps, WM : !WireMsgOps,
  BE : !BootstrapEnv, TO : !TransportOps}.
Context `{SerView : !Serialize (DstLocation * Variant), SerNodeState : !Serialize NodeState,
  SerSap : !Serialize SectionAuthorityProvider, SerKey : !Serialize BlsPublicKey,
  SerJoins : !Serialize (MessageId * bool), SerNonce : !Serialize (XorName * Bytes),
  SerAddr : !Serialize SocketAddr}.
Context `{SO : !StressOps}.

(** the entry of a node agrees with its task *)
Definition entry_ok (n : option NodeEntry) (t : option NodeTask) : Prop :=
  match n, t with
  | Some Joining, Some (Starting _) => True
  | Some (Joined_ _ _ _ _ is_relocating _), Some (Forwarding passed) => relocating_after false passed = Some is_relocating
  | None, Some (Forwarding _) | None, None => True
  | _, _ => False
  end.

Record figures (nodes : gmap Z NodeEntry) (next_id : Z) (st : Stats) (tasks : gmap Z NodeTask) : Prop := {
  fg_entries : forall id, entry_ok (nodes !! id) (tasks !! id);
  fg_fresh : forall id, is_Some (tasks !! id) -> id < next_id;
  fg_joins : join_attempts st = join_successes st + join_failures st + tally one_joining nodes;
  fg_drops : join_successes st = drops st + tally one_joined nodes;
  fg_relocations : relocation_attempts st = relocation_successes st + tally one_relocating nodes;
}.
Definition figures_of (s : StressState) : Prop := figures (ss_nodes s.1) (ss_next_id s.1) (ss_stats s.1) s.2.

Lemma try_print_fields now s (s' := try_print_status now s) :
  ss_nodes s' = ss_nodes s /\ ss_next_id s' = ss_next_id s /\ ss_stats s' = ss_stats s.
Proof. unfold s', try_print_status. by destruct (_ <? _). Qed.
Lemma figures_print now s tasks : figures_of (s, tasks) -> figures_of (try_print_status now s, tasks).
Proof. unfold figures_of; cbn [fst snd]. by destruct (try_print_fields now s) as (-> & -> & ->). Qed.

(** the entry of one node and its task change *)
Lemma entries_update (nodes : gmap Z NodeEntry) (tasks : gmap Z NodeTask) id n t :
  (forall i, entry_ok (nodes !! i) (tasks !! i)) -> entry_ok (Some n) (Some t) ->
  forall i, entry_ok (<[id := n]> nodes !! i) (<[id := t]> tasks !! i).
Proof.
  intros H He i. destruct (decide (i = id)) as [->|Hne]; [by rewrite !lookup_insert_eq|].
  by rewrite !lookup_insert_ne by done.
Qed.

Lemma create_figures w now s tasks s' id config :
  create_node w now s = Some (s', (id, config)) -> figures_of (s, tasks) ->
  figures_of (s', <[id := Starting config]> tasks).
Proof.
  unfold create_node, new_node_id. destruct (_ <? _); [|done]. intros [= <- <- <-] [H1 H2 H3 H4 H5].
  apply figures_print. cbn [fst snd] in *.
  assert (tasks !! ss_next_id s = None) as Ht.
  { apply eq_None_not_Some. intros Hs%H2. lia. }
  assert (ss_nodes s !! ss_next_id s = None) as Hn.
  { specialize (H1 (ss_next_id s)). rewrite Ht in H1. by destruct (ss_nodes s !! ss_next_id s) as [[]|]. }
  unfold figures_of; cbn. destruct (ss_stats s) as [a f j d ra rs p e]; cbn in *. split; cbn.
  - by apply entries_update.
  - intros i. destruct (decide (i = ss_next_id s)) as [->|Hne]; [lia|]. rewrite lookup_insert_ne by done.
    intros Hi%H2. lia.
  - rewrite tally_insert by done. cbn. lia.
  - rewrite tally_insert by done. cbn. lia.
  - rewrite tally_insert by done. cbn. lia.
Qed.

Lemma weighted_joined m id wt : (id, wt) ∈ weighted_ids m -> exists h n a p r e, m !! id = Some (Joined_ h n a p r e).
Proof.
  intros ([i n] & Hin%elem_of_btree_entries & H)%list_elem_of_omap. cbn in H. destruct n; [done|]. simplify_eq. eauto 10.
Qed.

Lemma remove_figures sample now s tasks s' :
  remove_random_node sample now s = Some s' -> figures_of (s, tasks) -> figures_of (s', tasks).
Proof.
  unfold remove_random_node. destruct (sample _) as [i|]; [|by intros [= <-]].
  destruct (weighted_ids (ss_nodes s) !! i) as [[id wt]|] eqn:Ei; simpl; [|done].
  apply list_elem_of_lookup_2, weighted_joined in Ei as (h & n & a & p & r & e & Hid).
  rewrite Hid. intros [= <-] [H1 H2 H3 H4 H5]. apply figures_print. cbn [fst snd] in *.
  assert (forall j, entry_ok (delete id (ss_nodes s) !! j) (tasks !! j)) as He.
  { intros j. specialize (H1 j). destruct (decide (j = id)) as [->|Hne]; [|by rewrite lookup_delete_ne by done].
    rewrite lookup_delete_eq. rewrite Hid in H1. by destruct (tasks !! id) as [[]|]. }
  pose proof (tally_delete one_joining _ _ _ Hid) as T1. pose proof (tally_delete one_joined _ _ _ Hid) as T2.
  pose proof (tally_delete one_relocating _ _ _ Hid) as T3. cbn in T1, T2, T3.
  unfold figures_of. destruct (ss_stats s) as [at_ f j d ra rs pr de] eqn:Es; cbn in *.
  destruct r; split; cbn; rewrite ?Es; cbn; auto; lia.
Qed.

Lemma entry_starting (nodes : gmap Z NodeEntry) (tasks : gmap Z NodeTask) id config :
  (forall i, entry_ok (nodes !! i) (tasks !! i)) -> tasks !! id = Some (Starting config) -> nodes !! id = Some Joining.
Proof. intros H Ht. specialize (H id). rewrite Ht in H. by destruct (nodes !! id) as [[]|]. Qed.

Lemma joined_figures w now r clock s tasks id config node s' :
  tasks !! id = Some (Starting config) -> handle_event w now r clock (JoinSuccess id node) s = Ok s' ->
  figures_of (s, tasks) -> figures_of (s', <[id := Forwarding []]> tasks).
Proof.
  intros Ht [= <-] [H1 H2 H3 H4 H5]. apply figures_print. cbn [fst snd] in *.
  pose proof (entry_starting _ _ _ _ H1 Ht) as Hn.
  unfold figures_of; cbn. destruct (ss_stats s) as [a f j d ra rs p e]; cbn in *. split; cbn.
  - by apply entries_update.
  - intros i. destruct (decide (i = id)) as [->|Hne]; [intros _; apply H2; by rewrite Ht|].
    rewrite lookup_insert_ne by done. apply H2.
  - rewrite (tally_replace _ _ _ _ _ Hn). cbn. lia.
  - rewrite (tally_replace _ _ _ _ _ Hn). cbn. lia.
  - rewrite (tally_replace _ _ _ _ _ Hn). cbn. lia.
Qed.

Lemma failed_figures w now r clock s tasks id config error s' :
  tasks !! id = Some (Starting config) -> handle_event w now r clock (JoinFailure id error) s = Ok s' ->
  figures_of (s, tasks) -> figures_of (s', delete id tasks).
Proof.
  intros Ht [= <-] [H1 H2 H3 H4 H5]. apply figures_print. cbn [fst snd] in *.
  pose proof (entry_starting _ _ _ _ H1 Ht) as Hn.
  unfold figures_of; cbn. destruct (ss_stats s) as [a f j d ra rs p e]; cbn in *. split; cbn.
  - intros i. destruct (decide (i = id)) as [->|Hne]; [by rewrite !lookup_delete_eq|]. by rewrite !lookup_delete_ne by done.
  - intros i [t Hi]%lookup_delete_is_Some. by apply H2.
  - rewrite (tally_delete one_joining _ _ _ Hn) in H3. cbn in H3. lia.
  - rewrite (tally_delete one_joined _ _ _ Hn) in H4. cbn in H4. lia.
  - rewrite (tally_delete one_relocating _ _ _ Hn) in H5. cbn in H5. lia.
Qed.

(** the next event of a node, by the alternation of its relocations *)
Lemma next_event passed event rel :
  sent_by_a_node (passed ++ [event]) -> relocating_after false passed = Some rel ->
  exists rel', relocating_after false (passed ++ [event]) = Some rel' /\
    match event with
    | EvRelocationStarted _ => rel = false /\ rel' = true
    | EvRelocated _ _ => rel = true /\ rel' = false
    | _ => rel' = rel
    end.
Proof.
  intros (c & pending & Hr & [es Hes]) Hrel. apply reachable_settled in Hr as [[Hrep _] _ _].
  cbn [fst] in Hrep. rewrite Hes, relocating_after_app in Hrep.
  rewrite relocating_after_app, Hrel in Hrep |- *. cbn in *.
  destruct event, rel; cbn in *; try discriminate; eexists; split; try reflexivity; auto.
Qed.

(** what one event does to the entry of its node, when there is one *)
Record entry_change (s s' : StressNetwork) (id : Z) (rel rel' : bool) : Prop := {
  ec_nodes : exists h n a p e h' n' a' p' e', ss_nodes s !! id = Some (Joined_ h n a p rel e) /\
    ss_nodes s' = <[id := Joined_ h' n' a' p' rel' e']> (ss_nodes s);
  ec_next : ss_next_id s' = ss_next_id s;
  ec_joins : join_attempts (ss_stats s') = join_attempts (ss_stats s) /\
    join_successes (ss_stats s') = join_successes (ss_stats s) /\
    join_failures (ss_stats s') = join_failures (ss_stats s) /\ drops (ss_stats s') = drops (ss_stats s);
  ec_relocations : relocation_attempts (ss_stats s') - relocation_successes (ss_stats s') =
    relocation_attempts (ss_stats s) - relocation_successes (ss_stats s) + Z.b2z rel' - Z.b2z rel;
}.

Lemma entry_change_figures s s' id tasks rel rel' passed event :
  entry_change s s' id rel rel' -> tasks !! id = Some (Forwarding passed) ->
  relocating_after false (passed ++ [event]) = Some rel' ->
  figures_of (s, tasks) -> figures_of (s', <[id := Forwarding (passed ++ [event])]> tasks).
Proof.
  intros [(h & n & a & p & e & h' & n' & a' & p' & e' & Hn & En) Ei (E1 & E2 & E3 & E4) Er] Ht Hr [H1 H2 H3 H4 H5].
  unfold figures_of; cbn [fst snd] in *. rewrite En, Ei. split.
  - by apply entries_update.
  - intros i. destruct (decide (i = id)) as [->|Hne]; [intros _; apply H2; by rewrite Ht|].
    rewrite lookup_insert_ne by done. apply H2.
  - rewrite (tally_replace _ _ _ _ _ Hn). cbn. lia.
  - rewrite (tally_replace _ _ _ _ _ Hn). cbn. lia.
  - rewrite (tally_replace _ _ _ _ _ Hn). destruct rel, rel'; cbn in *; lia.
Qed.

(** an event of a node that is not there any more *)
Lemma gone_figures s s' id tasks passed event :
  ss_nodes s' = ss_nodes s -> ss_next_id s' = ss_next_id s -> ss_nodes s !! id = None ->
  (forall f, f ∈ [join_attempts; join_failures; join_successes; drops; relocation_attempts; relocation_successes] ->
     f (ss_stats s') = f (ss_stats s)) ->
  tasks !! id = Some (Forwarding passed) -> figures_of (s, tasks) ->
  figures_of (s', <[id := Forwarding (passed ++ [event])]> tasks).
Proof.
  intros En Ei Hn Hf Ht [H1 H2 H3 H4 H5]. unfold figures_of; cbn [fst snd] in *. rewrite En, Ei.
  split; rewrite ?Hf by set_solver; try done.
  - intros i. destruct (decide (i = id)) as [->|Hne]; [by rewrite lookup_insert_eq, Hn|].
    by rewrite lookup_insert_ne by done.
  - intros i. destruct (decide (i = id)) as [->|Hne]; [intros _; apply H2; by rewrite Ht|].
    rewrite lookup_insert_ne by done. apply H2.
Qed.

Lemma same_figures s s' id tasks passed event rel :
  ss_nodes s' = ss_nodes s -> ss_next_id s' = ss_next_id s -> ss_stats s' = ss_stats s ->
  tasks !! id = Some (Forwarding passed) ->
  (forall h n a p r e, ss_nodes s !! id = Some (Joined_ h n a p r e) -> r = rel) ->
  relocating_after false (passed ++ [event]) = Some rel ->
  figures_of (s, tasks) -> figures_of (s', <[id := Forwarding (passed ++ [event])]> tasks).
Proof.
  intros En Ei Es Ht Hr Hp [H1 H2 H3 H4 H5]. unfold figures_of; cbn [fst snd] in *. rewrite En, Ei, Es. split; [|..|done|done|done].
  - intros i. destruct (decide (i = id)) as [->|Hne]; [|by rewrite lookup_insert_ne by done].
    rewrite lookup_insert_eq. specialize (H1 id). rewrite Ht in H1.
    destruct (ss_nodes s !! id) as [[|h n a p r e]|] eqn:E; [done| |done]. cbn. by rewrite (Hr _ _ _ _ _ _ eq_refl).
  - intros i. destruct (decide (i = id)) as [->|Hne]; [intros _; apply H2; by rewrite Ht|].
    rewrite lookup_insert_ne by done. apply H2.
Qed.

Lemma elders_entry s id elders change h n a p rel e :
  ss_nodes s !! id = Some (Joined_ h n a p rel e) -> entry_change s (elders_event id elders change s) id rel rel.
Proof.
  intros Hn. unfold elders_event. rewrite Hn. destruct (ss_stats s) as [] eqn:Es.
  destruct change; split; cbn; rewrite ?Es; cbn; eauto 15; lia.
Qed.

Lemma elders_gone s id elders change :
  ss_nodes s !! id = None ->
  ss_nodes (elders_event id elders change s) = ss_nodes s /\ ss_next_id (elders_event id elders change s) = ss_next_id s /\
  forall f, f ∈ [join_attempts; join_failures; join_successes; drops; relocation_attempts; relocation_successes] ->
    f (ss_stats (elders_event id elders change s)) = f (ss_stats s).
Proof.
  intros Hn. unfold elders_event. rewrite Hn. destruct change; cbn; split_and!; try done;
    intros f Hf; destruct (ss_stats s) as []; cbn;
    repeat (apply elem_of_cons in Hf as [->|Hf]; [reflexivity|]); by apply not_elem_of_nil in Hf.
Qed.

Lemma event_figures w now r s tasks id passed event s' :
  tasks !! id = Some (Forwarding passed) -> sent_by_a_node (passed ++ [event]) ->
  routing_event w now r id event s = Ok s' ->
  figures_of (s, tasks) -> figures_of (s', <[id := Forwarding (passed ++ [event])]> tasks).
Proof.
  intros Ht Hsent He Hf. pose proof (fg_entries _ _ _ _ Hf id) as Hid. cbn [fst snd] in Hid. rewrite Ht in Hid.
  destruct (ss_nodes s !! id) as [[|h n a p rel e]|] eqn:En; [done| |].
  - destruct (next_event _ _ _ Hsent Hid) as (rel' & Hr' & Hev). revert He. unfold routing_event.
    assert (forall h n a p r e, ss_nodes s !! id = Some (Joined_ h n a p r e) -> r = rel) as Hrel by (intros; simplify_eq; done).
    destruct event; rewrite ?En.
    1: destruct (probe_deserialize content); cbn; [|done]; destruct dst; cbn; try done.
    all: intros [= <-].
    all: try (subst rel'; eapply same_figures; eauto; done).
    all: apply (entry_change_figures s _ id tasks rel rel' passed _); try done.
    all: try (subst rel'; by eapply elders_entry).
    all: destruct Hev as [-> ->], (ss_stats s) as [] eqn:Es; split; cbn; rewrite ?Es; cbn; eauto 15; lia.
  - revert He. unfold routing_event. destruct event; rewrite ?En.
    1: destruct (probe_deserialize content); cbn; [|done]; destruct dst; cbn; try done.
    all: intros E; injection E as E; destruct E.
    all: try (by apply (gone_figures s)).
    all: destruct (elders_gone s id elders self_status_change En) as (? & ? & ?); by apply (gone_figures s).
Qed.

Lemma probe_figures calls random clock now s tasks s' :
  send_probes calls random clock now s = (s', Ok tt) -> figures_of (s, tasks) -> figures_of (s', tasks).
Proof.
  unfold send_probes. destruct (probe_loop _ _ _ _ _ _ _) as [t [[]|e]]; [|done]. intros [= <-] H.
  by apply figures_print.
Qed.

Lemma stress_figures_step st st' : stress_step st st' -> figures_of st -> figures_of st'.
Proof.
  destruct 1 as [w now s tasks s' id config Hc|sample now s tasks s' Hr|w now r clock s tasks id config node s' Ht He
    |w now r clock s tasks id config error s' Ht He|w now r clock s tasks id passed event s' Ht Hs He
    |calls random clock now s tasks s' Hp].
  - by eapply create_figures.
  - by eapply remove_figures.
  - by eapply joined_figures.
  - by eapply failed_figures.
  - unfold handle_event in He. destruct (routing_event w now r id event s) as [s1|] eqn:E1; [|done].
    injection He as <-. intros Hf. apply figures_print. by eapply event_figures.
  - by eapply probe_figures.
Qed.

(** C26: the figures of the stress test add up, at any time of any run, for whatever the nodes and
    the schedule do: every join that was attempted has succeeded, failed or is under way; the nodes
    that joined and were not dropped are the active and the relocating ones; every relocation
    that started has ended, or was cut short by a drop, or its node is relocating, which rests on
    the alternation of a node's relocation events; and the total of the report is the sum of its
    parts. *)
Theorem stress_figures_add_up (s : StressNetwork) (tasks : gmap Z NodeTask) (now : Instant) :
  stress_reachable (s, tasks) ->
  let report := print_status now s in
  let k := st_counts report in
  let st := st_stats report in
  join_attempts st = join_successes st + join_failures st + num_joining k /\
  join_successes st = drops st + num_active k + num_relocating k /\
  relocation_attempts st = relocation_successes st + num_relocating k /\
  st_total report = num_active k + num_joining k + num_relocating k.
Proof.
  intros H. cbn zeta.
  assert (figures_of (s, tasks)) as [H1 H2 H3 H4 H5].
  { induction H as [now0|st st' _ IH Hs]; [|by eapply stress_figures_step].
    split; cbn; rewrite ?tally_empty; try done. intros id [t Ht]. by rewrite lookup_empty in Ht. }
  cbn [fst snd] in *. unfold print_status; cbn [st_counts st_stats st_total].
  destruct (count_nodes_tally (ss_nodes s)) as (E1 & E2 & E3). pose proof (tally_size (ss_nodes s)) as E4. lia.
Qed.

(** A node with age N is exactly twice as likely to be dropped as one with age N + 1, as the comment
    says: the weights are computed without rounding. *)
Theorem drop_weight_halves (age : Z) :
  0 <= age < 255 -> f64_add (drop_weight (age + 1)) (drop_weight (age + 1)) = drop_weight age.
Proof.
  intros Ha.
  assert (forall n : nat, (n < 255)%nat ->
    f64_add (drop_weight (Z.of_nat n + 1)) (drop_weight (Z.of_nat n + 1)) = drop_weight (Z.of_nat n)) as H.
  { intros n Hn. do 255 (destruct n as [|n]; [reflexivity|]). lia. }
  rewrite <- (Z2Nat.id age) by lia. apply H. lia.
Qed.

(** a joined node exists exactly when there is somebody to bootstrap against *)
Lemma bootstrap_addrs_none w s : get_bootstrap_addrs w s = [] <-> joined_nodes (ss_nodes s) = [].
Proof.
  unfold get_bootstrap_addrs. split; [|by intros ->]. intros H%fmap_nil_inv.
  pose proof (length_sort_by (fun lhs rhs : Handle * Z => Z.compare rhs.2 lhs.2) (joined_nodes (ss_nodes s))) as Hl.
  destruct (sort_by _ _); [|done]. by apply nil_length_inv.
Qed.

Lemma create_first w now s :
  ss_next_id s + 1 < U64_MODULUS -> joined_nodes (ss_nodes s) = [] ->
  exists s' config, create_node w now s = Some (s', (ss_next_id s, config)) /\
    ss_nodes s' = <[ss_next_id s := Joining]> (ss_nodes s) /\ ss_next_id s' = ss_next_id s + 1 /\ cfg_first config = true.
Proof.
  intros Hn Hj. apply (bootstrap_addrs_none w) in Hj. unfold create_node, new_node_id. rewrite Hj.
  destruct (Z.ltb_spec (ss_next_id s + 1) U64_MODULUS); [|lia]. eexists _, _. split; [reflexivity|].
  match goal with |- context [try_print_status now ?x] => destruct (try_print_fields now x) as (-> & -> & _) end. done.
Qed.

(** A node that is to join while the genesis node is still starting starts a network of its own:
    a run of the stress test with two first nodes. *)
Theorem join_before_genesis (w : world) (start now now' : Instant) :
  exists s tasks config config',
    stress_reachable (s, tasks) /\ tasks !! 0 = Some (Starting config) /\ tasks !! 1 = Some (Starting config') /\
    cfg_first config = true /\ cfg_first config' = true.
Proof.
  destruct (create_first w now (stress_new start)) as (s1 & c1 & E1 & N1 & I1 & F1); [done|done|].
  destruct (create_first w now' s1) as (s2 & c2 & E2 & _ & _ & F2); [by rewrite I1|by rewrite N1|].
  rewrite I1 in E2. change (ss_next_id (stress_new start)) with 0 in *.
  exists s2, (<[0 + 1 := Starting c2]> (<[0 := Starting c1]> ∅)), c1, c2.
  split; [|by split_and!].
  eapply stress_next; [eapply stress_next; [apply (stress_init start)|]|].
  - eapply (stress_create w now); exact E1.
  - eapply (stress_create w now'); exact E2.
Qed.

(** An elder that a split demotes is counted as an elder on: it is told of the change with the
    prefix of its half, and the entry is cleared only when the prefix is the one before. *)
Theorem demoted_by_split_stays_elder (s : StressNetwork) (id : Z) (h : Handle) (name : XorName) (age : Z)
    (p : Prefix) (rel b : bool) (elder : ElderState) (key : BlsPublicKey) (old new : gset XorName) :
  ss_nodes s !! id = Some (Joined_ h name age p rel (Some elder)) ->
  (bit_count p < NAME_BITS)%nat -> name ∈ old -> name ∉ new ->
  let s' := elders_event id (elders_diff (pushed p b) key old new) Demoted s in
  ss_nodes s' !! id = Some (Joined_ h name age (pushed p b) rel (Some elder)) /\
  demotions (ss_stats s') = demotions (ss_stats s) + 1.
Proof.
  intros Hn Hp Ho Hnew. cbn zeta. unfold elders_event. rewrite Hn. cbn [e_added e_remaining e_removed e_prefix elders_diff].
  rewrite !bool_decide_eq_false_2 by set_solver. cbn [orb].
  assert (pushed p b <> p) as Hne.
  { intros E. apply (f_equal (fun q => length (pbits q))) in E. rewrite pushed_bits, length_app in E by done. simpl in E. lia. }
  rewrite (bool_decide_eq_false_2 (p = pushed p b)) by congruence. rewrite andb_false_r.
  cbn. rewrite lookup_insert_eq. split; [done|]. by destruct (ss_stats s).
Qed.

#[local] Arguments routing_send_message : simpl never.

(** A probe by a node that keeps its keys fails only when it cannot be encoded or sent; but when the
    node loses its keys between the calls, the error ends the stress test. *)
Theorem probe_errors (c d : Core) (o : Outcomes) (dst : XorName) (calls := mkProbeCalls c c c c c o) :
  kp_wf (c_keys c) ->
  match routing_public_key_set c with
  | Err _ => try_send_probe calls dst = Ok false
  | Ok _ =>
      (forall e, try_send_probe calls dst = Err e -> e = ErrBincode \/ exists e', e = ErrSend e') /\
      (is_Some (name_serialize dst) -> kc_list (kp_cache (c_keys d)) = [] ->
       try_send_probe (mkProbeCalls c c d d d o) dst = Err (ErrSign MissingSecretKeyShare))
  end.
Proof.
  intros [[Hnd _ Hown] _]. unfold try_send_probe; cbn. unfold routing_public_key_set, core_public_key_set, kp_key_share,
    kc_get_most_recent. destruct (last (kc_list (kp_cache (c_keys c)))) as [[k sh]|] eqn:El; cbn; [|done].
  assert ((k, sh) ∈ kc_list (kp_cache (c_keys c))) as Hin.
  { apply last_Some in El as [l' ->]. set_solver. }
  split.
  - intros e. destruct (name_serialize dst) as [bytes|]; cbn; [|intros [= <-]; by left].
    unfold sign_as_elder, core_sign_with, kp_sign_with, kc_sign_with.
    rewrite (kc_sign_loop_spec _ bytes _ sh Hnd) by (by rewrite (Hown _ _ Hin)). cbn.
    unfold routing_our_index, core_our_index, kp_key_share, kc_get_most_recent. rewrite El. cbn.
    destruct (probe_serialize _); cbn; [|intros [= <-]; by left].
    destruct (routing_send_message o c _ _) as [|[]]; try done; intros [= <-]; eauto.
  - intros [bytes ->] Hd. cbn. unfold sign_as_elder, core_sign_with, kp_sign_with, kc_sign_with. by rewrite Hd.
Qed.
End Figures.

Module StressWitness.
Import BitNames ToyCrates ToySerialize SectionKeysWitness NetworkWitness EndUsersWitness MessagesWitness CoreToy
  CommWitness BootstrapToy MessageFilterWitness NodeToy NodeWitness JoinWitness StartupWitness.

#[export] Instance stress_ops : StressOps := {|
  transport_local _ := tt;
  probe_serialize _ := Some [];
  probe_deserialize _ := None;
  name_serialize n := Some (name_bytes n);
|}.

(** every node is in the state of the first one *)
Definition all_genesis : world := fun _ => genesis.
Definition begin : StressNetwork := stress_new 0.
Definition created : StressNetwork :=
  match create_node all_genesis 0 begin with Some (s, _) => s | None => begin end.
Definition genesis_config : Config :=
  match create_node all_genesis 0 begin with Some (_, (_, c)) => c | None => as_first end.
Definition joined1 : StressNetwork :=
  match handle_event all_genesis (fun _ => 0) (at_time 0) 0 (JoinSuccess 0 0) created with Ok s => s | Err _ => begin end.

Lemma genesis_joined : stress_reachable (joined1, <[0 := Forwarding []]> (<[0 := Starting genesis_config]> ∅)).
Proof.
  eapply stress_next; [eapply stress_next; [apply (stress_init 0)|]|].
  - apply (stress_create all_genesis 0). reflexivity.
  - eapply (stress_joined all_genesis (fun _ => 0) (at_time 0) 0 created _ 0); [reflexivity|reflexivity].
Qed.

Lemma stress_figures_add_up_witness :
  stress_reachable (joined1, <[0 := Forwarding []]> (<[0 := Starting genesis_config]> ∅)) /\
  join_attempts (ss_stats joined1) = 1 /\
  st_total (print_status 0 joined1) = num_active (count_nodes (ss_nodes joined1)) +
    num_joining (count_nodes (ss_nodes joined1)) + num_relocating (count_nodes (ss_nodes joined1)).
Proof.
  split; [exact genesis_joined|]. split; [reflexivity|].
  destruct (stress_figures_add_up joined1 _ 0 genesis_joined) as (_ & _ & _ & H). exact H.
Defined.
End StressWitness.
