(* ===== verification/MinimalExample.v ===== *)
(** * The example program that runs nodes (examples/minimal.rs)

    One or several nodes are started in one process, each with its own port, and their events are
    logged until one tells that a restart is required.  The start of a node is [Startup]; the lines
    of the log are values. *)

From stdpp Require Import base tactics list gmap sorting strings.
From Stdlib Require Import ZArith Lia.
From S2P Require Import Prelude Names Crates Types Thresholds SectionPeers SectionKeys.
From S2P Require Import SectionState PrefixMap Network SplitBarrier EndUsers DkgFailure DkgSession.
From S2P Require Import DkgVoter Messages Cache MessageFilter Relocation DeliveryGroup CoreState RoutingApi.
From S2P Require Import Handling NodeInvariant Comm Bootstrap Dispatcher NodeClaims JoinProtocol Startup Pending.
#[local] Open Scope Z_scope.

Definition U16_MODULUS : Z := 2 ^ 16.

Section Minimal.
Context `{CR : Crates, KG : !KeyGenOps, KP : !KeyGenProgress, PMO : !PrefixMapOps OtherSection,
  MO : !MessagingOps, VA : VecDequeAlloc, CE : !CoreEnv, WO : !WireOps, WM : !WireMsgOps, BE : !BootstrapEnv,
  TO : !TransportOps}.
Context `{SerView : !Serialize (DstLocation * Variant), SerNodeState : !Serialize NodeState,
  SerSap : !Serialize SectionAuthorityProvider, SerKey : !Serialize BlsPublicKey,
  SerJoins : !Serialize (MessageId * bool), SerNonce : !Serialize (XorName * Bytes),
  SerAddr : !Serialize SocketAddr}.

(** the configuration of qp2p for contacts, an address and a port *)
Class MinimalOps := {
  IpAddr : Type;
  localhost : IpAddr;
  transport_at : list SocketAddr -> IpAddr -> option Z -> TransportConfig;
}.
Context `{MN : !MinimalOps}.

(** ** Starting *)

(** [None] is the panic of [expect] *)
Definition local_port (index : nat) (base_port : option Z) : option (option Z) :=
  match base_port with
  | None => Some None
  | Some base_port =>
      if (Z.of_nat index <? U16_MODULUS) && (base_port + Z.of_nat index <? U16_MODULUS)
      then Some (Some (base_port + Z.of_nat index)) else None
  end.

(** the task that [run_node] spawns *)
Record Launched : Type := mkLaunched {
  l_index : nat;
  l_config : Config;
  l_node : Routing;
  l_events : EventStream;
}.

Section Start.
(** what happens around the start of each node *)
Context (su : nat -> Surroundings).

Definition start_node (index : nat) (first : bool) (contacts : list SocketAddr) (ip : option IpAddr)
    (base_port : option Z) : starting Error (SocketAddr * Launched) :=
  let ip := default localhost ip in
  match local_port index base_port with
  | None => Panics
  | Some local_port =>
      let config := mkConfig first None (transport_at contacts ip local_port) in
      match routing_new config (su index) with
      | Go (node, event_stream) =>
          Go (our_connection_info (d_comm (rt_dispatcher node)), mkLaunched index config node event_stream)
      | Waiting => Waiting
      | Blocked => Blocked
      | Panics | Fails _ => Panics
      end
  end.

Definition start_single_node (first : bool) (contacts : list SocketAddr) (ip : option IpAddr) (port : option Z) :
    starting Error Launched :=
  '(_, handle) ← start_node 0 first contacts ip port; mret handle.

(** [for index in first_index..count] *)
Fixpoint start_nodes (indices : list nat) (contacts : list SocketAddr) (ip : option IpAddr) (base_port : option Z) :
    starting Error (list Launched) :=
  match indices with
  | [] => mret []
  | index :: rest =>
      '(_, handle) ← start_node index false contacts ip base_port;
      handles ← start_nodes rest contacts ip base_port;
      mret (handle :: handles)
  end.

Definition start_multiple_nodes (count : nat) (first : bool) (contacts : list SocketAddr) (ip : option IpAddr)
    (base_port : option Z) : starting Error (list Launched) :=
  if first then
    '(first_contact, first_handle) ← start_node 0 true [] ip base_port;
    handles ← start_nodes (seq 1 (count - 1)) (contacts ++ [first_contact]) ip base_port;
    mret (first_handle :: handles)
  else start_nodes (seq 0 count) contacts ip base_port.

(** [main], with the tasks that are joined at the end *)
Definition minimal_main (count : nat) (first : bool) (contacts : list SocketAddr) (ip : option IpAddr)
    (port : option Z) : starting Error (list Launched) :=
  if (count <=? 1)%nat then handle ← start_single_node first contacts ip port; mret [handle]
  else start_multiple_nodes count first contacts ip port.
End Start.

(** ** Events *)

Inductive LogLine : Type :=
| LogMemberJoined (index : nat) (name : XorName) (previous_name : option XorName) (age : Z)
| LogMemberLeft (index : nat) (name : XorName) (age : Z)
| LogSectionSplit (index : nat) (elders sibling_elders : Elders) (change : NodeElderChange)
| LogEldersChanged (index : nat) (elders : Elders) (change : NodeElderChange)
| LogMessage (index : nat) (src : SrcLocation) (dst : DstLocation) (content : Bytes)
| LogRelocationStarted (index : nat) (previous_name : XorName)
| LogRelocated (index : nat) (old_name new_name : XorName)
| LogRestart (index : nat)
| LogClientMsg (index : nat) (user : EndUser) (msg : ClientMsg)
| LogClientLost (index : nat) (addr : SocketAddr)
| LogAdultsChanged (index : nat) (remaining added removed : gset XorName).

(** the line, and whether to go on; [node] is the state of the node at that time *)
Definition log_event (index : nat) (node : Core) (event : Event) : LogLine * bool :=
  match event with
  | EvMemberJoined name previous_name age => (LogMemberJoined index name previous_name age, true)
  | EvMemberLeft name age => (LogMemberLeft index name age, true)
  | EvSectionSplit elders sibling_elders change => (LogSectionSplit index elders sibling_elders change, true)
  | EvEldersChanged elders change => (LogEldersChanged index elders change, true)
  | EvMessageReceived content src dst _ _ => (LogMessage index src dst content, true)
  | EvRelocationStarted previous_name => (LogRelocationStarted index previous_name, true)
  | EvRelocated previous_name _ => (LogRelocated index previous_name (routing_name node), true)
  | EvRestartRequired => (LogRestart index, false)
  | EvClientMsgReceived msg user => (LogClientMsg index user msg, true)
  | EvClientLost addr => (LogClientLost index addr, true)
  | EvAdultsChanged remaining added removed => (LogAdultsChanged index remaining added removed, true)
  end.

(** the loop of [run_node] over the events so far, each with the state of the node when it is
    handled, and whether it is still running *)
Fixpoint run_node (index : nat) (events : list (Core * Event)) : list LogLine * bool :=
  match events with
  | [] => ([], true)
  | (node, event) :: events' =>
      let '(line, go_on) := log_event index node event in
      if go_on then let '(lines, running) := run_node index events' in (line :: lines, running)
      else ([line], false)
  end.

(** the filter of the log for the number of [-v] options *)
Definition log_filter (verbosity : Z) : string :=
  if verbosity =? 0 then "minimal=info,sn_routing=warn"%string
  else if verbosity =? 1 then "minimal,sn_routing=info"%string
  else if verbosity =? 2 then "minimal,sn_routing=debug"%string
  else if verbosity =? 3 then "minimal,sn_routing=trace"%string
  else "trace"%string.

(** ** Lemmas *)

(** what a node was started with *)
Record started_as (index : nat) (first : bool) (contacts : list SocketAddr) (ip : option IpAddr) (base_port : option Z)
    (l : Launched) : Prop := {
  sa_index : l_index l = index;
  sa_port : exists port, local_port index base_port = Some port /\
    l_config l = mkConfig first None (transport_at contacts (default localhost ip) port);
}.

Lemma start_node_go su index first contacts ip base a l :
  start_node su index first contacts ip base = Go (a, l) ->
  started_as index first contacts ip base l /\ a = our_connection_info (d_comm (rt_dispatcher (l_node l))).
Proof.
  unfold start_node. destruct (local_port index base) as [port|] eqn:Ep; [|done].
  destruct (routing_new _ _) as [[node es]| | | |]; try done. intros [= <- <-]. split; [|done]. split; [done|]. eauto.
Qed.

Lemma start_nodes_go su i n contacts ip base ls :
  start_nodes su (seq i n) contacts ip base = Go ls ->
  length ls = n /\ forall j l, ls !! j = Some l -> started_as (i + j) false contacts ip base l.
Proof.
  revert i ls; induction n as [|n IH]; intros i ls; cbn [seq start_nodes].
  { intros [= <-]. split; [done|]. intros j l. by rewrite lookup_nil. }
  intros ([a l0] & H0 & (ls' & Hs & [= <-])%starting_bind_go)%starting_bind_go.
  apply start_node_go in H0 as [H0 _]. apply IH in Hs as [Hl Hj]. split; [cbn; lia|].
  intros [|j] l Hjl; cbn in Hjl; [simplify_eq; by rewrite Nat.add_0_r|].
  replace (i + S j)%nat with (S i + j)%nat by lia. by apply Hj.
Qed.

Lemma local_port_range index base port :
  local_port index (Some base) = Some port -> port = Some (base + Z.of_nat index) /\ base + Z.of_nat index < U16_MODULUS.
Proof.
  unfold local_port. destruct (_ && _) eqn:E; [|done]. intros [= <-]. apply andb_true_iff in E as [_ E%Z.ltb_lt]. done.
Qed.

(** The nodes of one invocation.  When several are started, there are as many as asked for, in order; only
    the first of them, and only when asked for, starts a network, without contacts, and the
    others are given its address besides the contacts of the command line; the port of the n-th is
    the base port plus n, which never wraps around; and the address to bind to is the same for all
    of them. *)
Theorem minimal_nodes_started (su : nat -> Surroundings) (count : nat) (first : bool) (contacts : list SocketAddr)
    (ip : option IpAddr) (base_port : option Z) (nodes : list Launched) :
  (1 < count)%nat -> minimal_main su count first contacts ip base_port = Go nodes ->
  length nodes = count /\
  exists extra, length extra = (if first then 1 else 0)%nat /\
  forall i l, nodes !! i = Some l ->
    let genesis := first && (i =? 0)%nat in
    (exists port, l_config l = mkConfig genesis None
       (transport_at (if genesis then [] else contacts ++ extra) (default localhost ip) port) /\
       match base_port with
       | Some base => port = Some (base + Z.of_nat i) /\ base + Z.of_nat i < U16_MODULUS
       | None => port = None
       end) /\
    (genesis = true -> extra = [our_connection_info (d_comm (rt_dispatcher (l_node l)))]).
Proof.
  intros Hc. unfold minimal_main. destruct (Nat.leb_spec count 1); [lia|].
  assert (forall i first contacts l, started_as i first contacts ip base_port l ->
    exists port, l_config l = mkConfig first None (transport_at contacts (default localhost ip) port) /\
      match base_port with
      | Some base => port = Some (base + Z.of_nat i) /\ base + Z.of_nat i < U16_MODULUS
      | None => port = None
      end) as Hport.
  { intros i f cs l [_ (port & Hp & Hl)]. exists port. split; [done|]. destruct base_port; [by apply local_port_range|].
    by injection Hp as <-. }
  unfold start_multiple_nodes. destruct first.
  - intros ([a l0] & H0 & (ls & Hs & [= <-])%starting_bind_go)%starting_bind_go.
    apply start_node_go in H0 as [H0 ->]. apply start_nodes_go in Hs as [Hl Hj]. split; [cbn; lia|].
    exists [our_connection_info (d_comm (rt_dispatcher (l_node l0)))]. split; [done|].
    intros [|i] l Hil; cbn in Hil; cbn.
    + simplify_eq. split; [by apply (Hport 0%nat)|done].
    + split; [|done]. apply (Hport (S i)). apply (Hj i l Hil).
  - intros Hs. apply start_nodes_go in Hs as [Hl Hj]. split; [done|]. exists []. split; [done|].
    intros i l Hil. cbn. split; [|done]. rewrite app_nil_r. apply (Hport i). by apply Hj.
Qed.
End Minimal.

Section Running.
Context `{CR : Crates, XL : !XorLaws, CL : !ChainLaws, KG : !KeyGenOps, KP : !KeyGenProgress,
  PMO : !PrefixMapOps OtherSection, PML : !PrefixMapLaws OtherSection, MO : !MessagingOps,
  VA : VecDequeAlloc, VL : !VecDequeAllocLaws, CE : !CoreEnv, EL : !CoreEnvLaws, WO : !WireOps, WM : !WireMsgOps,
  BE : !BootstrapEnv}.
Context `{SerView : !Serialize (DstLocation * Variant), SerNodeState : !Serialize NodeState,
  SerSap : !Serialize SectionAuthorityProvider, SerKey : !Serialize BlsPublicKey,
  SerJoins : !Serialize (MessageId * bool), SerNonce : !Serialize (XorName * Bytes),
  SerAddr : !Serialize SocketAddr}.

(** Whatever a node does, the task that logs its events goes on: the one event that would end it is
    never sent. *)
Theorem node_logged_throughout (index : nat) (c : Core) (pending : list Command) (states : list Core) :
  node_reachable (c, pending) -> length states = length (c_events c) ->
  let '(lines, running) := run_node index (zip states (c_events c)) in
  running = true /\ length lines = length (c_events c).
Proof.
  intros Hr Hl. assert (EvRestartRequired ∉ c_events c) as Hn.
  { by apply reachable_settled in Hr as [[_ ?] _ _]. }
  revert states Hl. induction (c_events c) as [|e es IH]; intros [|d states] Hl; try done.
  apply not_elem_of_cons in Hn as [He Hn]. cbn [zip zip_with run_node]. injection Hl as Hl.
  specialize (IH Hn states Hl). destruct (log_event index d e) as [line go_on] eqn:El.
  assert (go_on = true) as -> by (destruct e; by inversion El).
  revert IH. destruct (run_node index _) as [lines running]. intros [IH1 IH2]. split; [done|cbn; lia].
Qed.
End Running.
